(* ===== verification/_CoqProject ===== *)
-Q . S2P
Prelude.v
MallocState.v
MallocCore.v
MallocInt.v
MallocArena.v
MallocHooks.v
MallocApi.v
MallocDebug.v
MallocInfo.v
PageAlloc.v
SizeFacts.v
ListFacts.v
Rings.v
LargeBin.v
Bins.v
BinProps.v
FastProps.v
InitProps.v
ApiProps.v
HookProps.v
PageProps.v
PageType.v
PageLock.v
PageLockProps.v
FreeProps.v
HeapSpec.v
HeapProps.v
MallocProps.v
MallocScan.v
HeapClient.v
ReallocProps.v
ArenaProps.v
Ipc.v
IpcProps.v
Survivors.v
FdMap.v
ShmWrap.v
ShmWrapProps.v
Bpf.v
BpfProps.v
Graph.v
GraphProps.v
SearchProps.v
Scc.v
Tarjan.v
SccProps.v
Condense.v
Pdg.v
PdgReach.v
PdgPass.v
DataScc.v
PdgCreate.v
PdgProps.v
PdgOk.v
PdgMarks.v
PdgSummary.v
PdgUnite.v
PdgTree.v
StructProps.v
DataSccProps.v
