(* ===== verification/Prelude.v ===== *)
(** * Cali: a verification library for compiler-assisted library isolation

    Cali runs a library in a process of its own.  The two processes share a
    memory segment at a fixed address; a page allocator hands out its pages, a
    copy of glibc's allocator (ptmalloc) serves [malloc] from them in both
    processes, and calls cross the border through two message buffers and two
    semaphores, with tables for callbacks and file descriptors; a system call
    filter keeps other code from changing the segment's protection.  The linker
    builds a dependence graph of the program and finds on it the memory that
    has to be shared, the file descriptors, and the values that the other side
    can influence.  This library models that code, [src/libipc/] for the default
    64-bit build, [src/cali-linker/graph/] and the graph and the analyses of
    [src/cali-linker/passes/], and proves what the parts rely on.

    ** Files and the code they model

    - [Prelude]: machine words ([u64], [s32], ... with the wrap-around written
      out), memory as a map from addresses to 64-bit words that reads zero
      where nothing was stored, alignment, shared tactics.
    - [MallocState]: chunk layout, size and bin macros, [malloc_state],
      [malloc_par], the arena and hook variables ([malloc/malloc.c],
      [arena.c.h], [hooks.c.h]) and the monad [M] of allocator code.  The class
      [PageSource] is what the allocator asks of [__mmap], [__munmap] and
      [__mprotect].
    - [MallocCore]: [unlink], [malloc_init_state], [malloc_consolidate],
      [systrim], [munmap_chunk], [_int_free], the heaps of [arena.c.h].
    - [MallocInt]: [sysmalloc], [_int_malloc], [_int_shm_realloc],
      [_int_memalign].
    - [MallocArena]: arenas, fork handlers, environment parsing ([arena.c.h]).
    - [MallocHooks]: the checking hooks ([hooks.c.h]).
    - [MallocApi]: [ptmalloc_init], [mallopt] and the public functions.
    - [MallocDebug]: the [do_check_*] routines, [malloc_trim],
      [malloc_usable_size], [mallinfo], [malloc_stats].
    - [MallocInfo]: [malloc_info], [malloc_get_state], [malloc_set_state].
    - [PageAlloc]: the page allocator ([shared_memory_manager.cpp],
      [byte_bitset.h], [shm_malloc.h]); its [shm_page_source] is the
      [PageSource] of the allocator.  The class [Kernel] holds the system
      calls.
    - [PageLock]: [SharedMutex], its guard ([shared_lock.h]) and the page
      operations cut into the steps between which other threads run.
    - [ShmWrap]: the interposed [free], [realloc], [mmap], [mremap] and
      relatives, the allocator hooks and the files mapped into both processes
      ([shared_memory_manager.cpp]), over the allocator and the page allocator;
      the class [Libc] is the private allocator of the C library.
    - [Survivors]: which process removes the semaphores
      ([shared_memory_locking.cpp], the destructor of [IpcCommunication]), with
      its theorems.
    - [Ipc]: the hand-over of the turn and the callback table
      ([ipc_communication.cpp]) as steps of two processes.
    - [FdMap]: the descriptor tables of the two processes
      ([file_descriptor_manager.cpp]), with their theorems.
    - [Bpf]: the machine of the system call filters and the two filter programs
      ([src/libipc/bpf/], [seccomp.cpp]).
    - [Graph]: [BaseGraph] with its adjacency lists, [ColorMap],
      [UniqueVector], the breadth-first searches and the bottom-up traversal
      ([src/cali-linker/graph/]).
    - [Scc]: [AbstractMap], the depth-first search with its visitors, Tarjan's
      algorithm and the graph of components ([scc_algorithms.h]), with the
      order in which [DataDrivenSCCPass] takes them.
    - [Pdg]: the program dependence graph ([PDG.h], [PDG.cpp]): creating,
      merging and removing nodes.  The class [Llvm] is what the passes ask of
      LLVM's values and types; [PM] is the monad of the operations, with
      exceptions, undefined behaviour and fuel as outcomes.
    - [PdgReach]: searches whose visitors mark nodes ([PDGUtilities.cpp]) and
      the summary edges of a component ([PDGReachabilityPass.cpp]).
    - [PdgPass]: calls, and the two passes over the components of the call
      graph ([PDGReachabilityPass.cpp], [PDGSharedReachabilityPass.cpp]).
    - [DataScc]: which functions an indirect call may reach, from the struct
      types that casts relate, and the call graph with its components
      ([DataDrivenSCCPass.cpp]).  The class [LlvmTypes] has the parts of LLVM's
      types and instructions that this pass reads.
    - [PdgCreate]: the dependence graph of a module, instruction by instruction
      ([PDGCreationPass.cpp]).  The class [LlvmCode] has the instructions.

    A function of the source is one definition of the same name; a long one is
    split where its comments split it, and its parts are named after it.

    ** Theorems

    - [SizeFacts]: padding a request gives the least fitting chunk size and is
      refused exactly on overflow; bin indices are regular, and a chunk of a
      higher bin is large enough.
    - [ListFacts], [BinProps]: a bin is a circular list; [unlink] removes one
      chunk and finds a corrupted list before it writes.
    - [Rings], [LargeBin]: a large bin is sorted, and the first chunks of each
      size form a second circular list; [unlink], the insertion and the search
      keep or use both.
    - [Bins]: all bins of an arena and its binmap as one invariant, [bins_ok],
      and what taking a chunk out or putting one in does to it.
    - [FastProps], [FreeProps]: the free and allocate paths through the
      fastbins, the small bins and the unsorted list, on success and on a
      double free.
    - [HeapSpec], [HeapProps]: an abstract heap, the list of blocks below the top
      chunk with their sizes and whether they are in use; [heap_ok] relates it to
      the headers, the bins, the binmap and the top chunk of the main arena;
      [_int_free] refines the abstract free in every coalescing case.
    - [MallocProps], [MallocScan]: [_int_malloc] refines the abstract allocation,
      stage by stage: small bin, unsorted list with the sorting into bins and
      the last remainder, large bin, scan by binmap, top chunk; its choice is
      a best fit; freeing what it handed out gives back the abstract heap, for
      sizes above the fastbins.
    - [HeapClient]: clients that allocate, free and store in any order, with
      requests above the fastbins: no call fails, what they hold is disjoint and
      aligned and keeps the words stored in it, and the contents of all other
      blocks in use stay.
    - [ReallocProps]: [_int_shm_realloc] with the fastbins turned off, in place
      exactly when the block and what follows allow it, else by a move: the
      words stay, no memory is lost, no other block changes; above 32 GB the
      count of copied words wraps around.
    - [InitProps]: a fresh arena, the split of the top chunk, the first region.
    - [ApiProps], [HookProps]: overflow check of [calloc], alignments,
      [mallopt], round trip of the checking hooks' size encoding.
    - [ArenaProps]: fork handlers, the free list, which arenas are handed out,
      the limit on their number.
    - [PageProps]: the page search is a first fit (one page late), the pages
      handed out are zero, [shm_munmap] frees what [shm_mmap] gave, remote
      mappings stay inside the segment.
    - [PageType]: every operation, failing ones too, keeps the types of the
      segment's fields.
    - [PageLockProps]: interleaved page operations have the results of a serial
      run while [semop] does not fail; an interrupted [lock] gives two threads
      the same pages.
    - [ShmWrapProps]: the wrappers keep the hooks, an exception loses them;
      copies of strings are exact; files are mapped at disjoint ranges that
      both processes agree on.
    - [BpfProps]: the filter programs decide every call, as a predicate on
      64-bit values; what they keep out and what they let through.
    - [GraphProps], [SearchProps]: the adjacency lists implement a set of
      edges; the searches visit what is reachable and the traversal visits
      successors first.
    - [Tarjan], [SccProps], [Condense]: the colours, roots and stack of Tarjan's
      algorithm as an invariant of abstract steps and the code as such steps:
      two vertices get one component exactly when each reaches the other; the
      graph of the components has no cycle but self-loops, so the pass takes
      callees before callers.
    - [PdgProps], [PdgOk]: every operation and pass keeps the graph, the index of
      functions and the map of values consistent.
    - [PdgMarks], [PdgSummary]: the marks are exactly the reachable nodes and
      closed under data flow; summary edges are exactly the flow between
      signature nodes, and with [strongFPAnalysis] the calls it leads to.
    - [PdgUnite]: merging ends and is a quotient of the graph; two structures
      that share a member, and marks, go wrong.
    - [PdgTree]: the sub-nodes of a new node are the struct members of its type,
      as a tree of the asked depth.
    - [StructProps], [DataSccProps]: every struct type gets a cluster, and types of
      one cluster share name and shape; the pass returns on modules without
      literal structs in signatures, and components come out callees first; which
      calls the pass does not see.
    - [IpcProps]: in every interleaving exactly one side has the turn, there is
      no deadlock, [errno] travels, open calls form a stack and answers end the
      innermost one, callbacks come back.

    The allocator's theorems hold for every [PageSource], and the page
    allocator's for every [Kernel]; [BinProps.bump_source] and
    [PageProps.good_kernel] are the instances of the examples.  The graph's
    hold for every [Llvm]; the examples have the module [PdgMarks.toy].

    ** Fuel

    Traversals of lists in the shared memory may not end if another process
    damaged them, so they take fuel, one unit per element, and running out is
    the outcome [NoFuel]; theorems about them ask for more fuel than the
    list has elements and prove that the result is reached.  The loop over the
    unsorted list has the source's own bound [MAX_ITERS]; the outer loop of
    [_int_malloc] turns again only while fast chunks are pending, which its
    consolidation clears, so two turns are enough, and it gets three.  On a
    heap in order [_int_malloc] returns with more fuel than there are blocks
    (no bin has more chunks, and sorting and searching go through one bin) and
    more than [NBINS] (the scan looks at each bin once).
    [info_pages] doubles from one page until a record of under 4096 bytes fits,
    so its twelve turns are enough for every page size.  A filter program jumps
    forward only, so its length is fuel enough; a breadth-first search dequeues
    each vertex and each source at most once and gets one turn more than that,
    the bottom-up traversal one more than there are vertices; the depth-first
    search takes one unit per vertex and edge.  [strlen] takes one unit per
    character.  [markAsShared] needs one unit more than there are vertices and
    the loop of [uniteSubnodes] one per edge and two more.  [analyzeStructs]
    splits a cluster at most once per struct type.  The type tests of [DataScc]
    recurse into pointers and members and take a bound on that depth; [PdgTree]
    has the fuel that [createSubnodes] needs for a bound on the members.  The
    recursion of [createSubnodes], [addSubnodeEdges] and [matchSubnodes], whose depth depends
    on the types of the program, takes the fuel it is given, and the invariants
    hold for any amount.

    ** Not modelled

    Threads of one process inside the allocator (a mutex is taken or blocks;
    atomic operations are plain ones), the text of error and statistics
    reports, the contents of mapped files, the creation of the segment's file,
    [sending_lock], [exit] called by a handler of the library, the stubs that
    the linker generates (their codes enter
    [Ipc.stub_code]), the machine code of the trampolines, [mappings.cpp] and
    the sandbox set-up.  The abstract heap of [HeapSpec] has no
    chunks in fastbins, and only the main arena without fenceposts; what
    [_int_malloc] does when neither a free block nor the top chunk will do
    ([sysmalloc]) is stated for a first region only.  Of the graph
    library, visitors that add or remove vertices during a search are left out.
    Of the linker, the passes that rewrite LLVM modules (specialization, shared
    memory, instrumentation, writing) and the driver are left out; [PdgPass] has
    the targets of indirect calls as an argument, which [DataScc] computes.  A loop
    over the edges of a node sees those that were there when it started, where
    the code would follow an iterator into a vector that has grown.  Page numbers
    and limits on members, which the code keeps far from overflow, are computed
    without wrap-around.  The
    vendored [src/glibc-2.23] and [src/libnsjail] are third-party code.

    ** Plan

    Next: fast chunks in the abstract heap (with them [_int_shm_realloc] at the
    default [global_max_fast]) and [_int_memalign] as a refinement, a round trip of
    [malloc_get_state]/[malloc_set_state], the pass that specializes the
    dependence graph, [sending_lock], descriptor passing. *)

From Stdlib Require Export ZArith Lia Bool.
From stdpp Require Export base gmap list strings numbers.

#[global] Open Scope Z_scope.

(** ** Machine words

    Every machine integer is a [Z]; a [w]-bit operation writes its
    wrap-around out with [u64], [u32] (unsigned) or [s64], [s32] (signed). *)

Definition u64 (x : Z) : Z := x mod 18446744073709551616.
Definition u32 (x : Z) : Z := x mod 4294967296.

Definition s64 (x : Z) : Z :=
  if u64 x <? 9223372036854775808 then u64 x else u64 x - 18446744073709551616.
Definition s32 (x : Z) : Z :=
  if u32 x <? 2147483648 then u32 x else u32 x - 4294967296.

Declare Scope word_scope.
Delimit Scope word_scope with word.
Notation "a +w b" := (u64 (a + b)) (at level 50, left associativity) : word_scope.
Notation "a -w b" := (u64 (a - b)) (at level 50, left associativity) : word_scope.
Notation "a *w b" := (u64 (a * b)) (at level 40, left associativity) : word_scope.
Notation "a &w b" := (Z.land a b) (at level 45, left associativity) : word_scope.
Notation "a |w b" := (Z.lor a b) (at level 46, left associativity) : word_scope.
Notation "!w a" := (u64 (Z.lnot a)) (at level 35, right associativity) : word_scope.
#[global] Open Scope word_scope.

(** Linear arithmetic with division and remainder by constants. *)
Ltac zlia := Z.to_euclidean_division_equations; lia.

(** C truth values: a non-zero integer is true. *)
Definition truthy (x : Z) : bool := negb (x =? 0).

Lemma u64_small x : 0 <= x < 18446744073709551616 -> u64 x = x.
Proof. apply Z.mod_small. Qed.

Lemma u32_small x : 0 <= x < 4294967296 -> u32 x = x.
Proof. apply Z.mod_small. Qed.

Lemma u64_range x : 0 <= u64 x < 18446744073709551616.
Proof. apply Z.mod_pos_bound; lia. Qed.

Lemma u32_range x : 0 <= u32 x < 4294967296.
Proof. apply Z.mod_pos_bound; lia. Qed.

Lemma s64_small x : -9223372036854775808 <= x < 9223372036854775808 -> s64 x = x.
Proof.
  intros Hx. unfold s64.
  destruct (Z_le_gt_dec 0 x).
  - rewrite u64_small by lia. destruct (Z.ltb_spec x 9223372036854775808); lia.
  - assert (u64 x = x + 18446744073709551616) as ->.
    { unfold u64. rewrite <- (Z_mod_plus_full x 1). apply Z.mod_small. lia. }
    destruct (Z.ltb_spec (x + 18446744073709551616) 9223372036854775808); lia.
Qed.

Lemma u64_u64 x : u64 (u64 x) = u64 x.
Proof. apply u64_small, u64_range. Qed.

(** A negative value below the word size becomes its two's complement. *)
Lemma u64_neg x : -18446744073709551616 <= x < 0 -> u64 x = x + 18446744073709551616.
Proof.
  intros Hx. unfold u64. rewrite <- (Z_mod_plus_full x 1). apply Z.mod_small. lia.
Qed.

Lemma u64_add_l x y : u64 (u64 x + y) = u64 (x + y).
Proof. apply Zplus_mod_idemp_l. Qed.

Lemma u64_add_r x y : u64 (x + u64 y) = u64 (x + y).
Proof. apply Zplus_mod_idemp_r. Qed.

Lemma u64_sub_r x y : u64 (x - u64 y) = u64 (x - y).
Proof. apply Zminus_mod_idemp_r. Qed.

Lemma u64_sub_l x y : u64 (u64 x - y) = u64 (x - y).
Proof. apply Zminus_mod_idemp_l. Qed.

(** ** Masks

    The allocator rounds with [x & ~(2^k - 1)], tests flags with [x & 2^k]
    and joins a rounded size with flags by [|]; these lemmas turn the three
    into linear arithmetic. *)

Lemma land_u64_r x y : 0 <= x < 18446744073709551616 -> Z.land x (u64 y) = Z.land x y.
Proof.
  intros Hx. unfold u64. change 18446744073709551616 with (2 ^ 64).
  rewrite <- Z.land_ones by lia. rewrite (Z.land_comm y), Z.land_assoc.
  rewrite Z.land_ones by lia. rewrite Z.mod_small by lia. done.
Qed.

Lemma land_mask_down k x :
  0 <= k -> Z.land x (Z.lnot (2 ^ k - 1)) = x - x mod 2 ^ k.
Proof.
  intros Hk. rewrite <- Z.sub_land_same_l.
  replace (2 ^ k - 1) with (Z.ones k) by (rewrite Z.ones_equiv; lia).
  by rewrite Z.land_ones.
Qed.

Lemma land_mask_low k x : 0 <= k -> Z.land x (2 ^ k - 1) = x mod 2 ^ k.
Proof.
  intros Hk. replace (2 ^ k - 1) with (Z.ones k) by (rewrite Z.ones_equiv; lia).
  by rewrite Z.land_ones.
Qed.

Lemma land_not7 x : 0 <= x < 18446744073709551616 -> Z.land x (!w 7) = x - x mod 8.
Proof. intros Hx. rewrite land_u64_r by lia. apply (land_mask_down 3); lia. Qed.

Lemma land_not15 x : 0 <= x < 18446744073709551616 -> Z.land x (!w 15) = x - x mod 16.
Proof. intros Hx. rewrite land_u64_r by lia. apply (land_mask_down 4); lia. Qed.

Lemma land_15 x : Z.land x 15 = x mod 16.
Proof. apply (land_mask_low 4); lia. Qed.

Lemma land_7 x : Z.land x 7 = x mod 8.
Proof. apply (land_mask_low 3); lia. Qed.

Lemma land_1 x : Z.land x 1 = x mod 2.
Proof. apply (land_mask_low 1); lia. Qed.

(** Tests of the flag bits 1 and 2 in arithmetic. *)
Lemma land_4 x : Z.land x 4 = x mod 8 - x mod 4.
Proof.
  change 4 with (Z.land 7 4) at 1. rewrite Z.land_assoc, land_7.
  assert (x mod 4 = x mod 8 mod 4) as -> by zlia.
  assert (0 <= x mod 8 < 8) by zlia. revert H. generalize (x mod 8). intros y Hy.
  assert (y = 0 \/ y = 1 \/ y = 2 \/ y = 3 \/ y = 4 \/ y = 5 \/ y = 6 \/ y = 7) as Hc by lia.
  by repeat destruct Hc as [->|Hc]; subst.
Qed.

Lemma land_2 x : Z.land x 2 = x mod 4 - x mod 2.
Proof.
  change 2 with (Z.land 3 2) at 1. rewrite Z.land_assoc, (land_mask_low 2) by lia. change (2 ^ 2) with 4.
  assert (x mod 2 = x mod 4 mod 2) as -> by zlia.
  assert (0 <= x mod 4 < 4) by zlia. revert H. generalize (x mod 4). intros y Hy.
  assert (y = 0 \/ y = 1 \/ y = 2 \/ y = 3) as Hc by lia.
  by repeat destruct Hc as [->|Hc]; subst.
Qed.

Lemma lor_low k x f :
  0 <= k -> 0 <= f < 2 ^ k -> x mod 2 ^ k = 0 -> Z.lor x f = x + f.
Proof.
  intros Hk Hf Hx. symmetry. apply Z.add_nocarry_lor.
  apply Z.bits_inj'. intros i Hi. rewrite Z.land_spec, Z.bits_0.
  destruct (Z.ltb_spec i k).
  - replace (Z.testbit x i) with false; [done|].
    rewrite <- (Z.mod_pow2_bits_low x k) by lia. by rewrite Hx, Z.bits_0.
  - replace (Z.testbit f i) with false; [by rewrite andb_false_r|].
    symmetry. rewrite <- (Z.mod_small f (2 ^ k)) by lia.
    apply Z.mod_pow2_bits_high. lia.
Qed.

Lemma lor_16 x f : 0 <= f < 8 -> x mod 16 = 0 -> Z.lor x f = x + f.
Proof.
  intros Hf Hx. apply (lor_low 4); [lia| |done]. change (2 ^ 4) with 16. lia.
Qed.

Lemma lor_range k x y :
  0 <= k -> 0 <= x < 2 ^ k -> 0 <= y < 2 ^ k -> 0 <= Z.lor x y < 2 ^ k.
Proof.
  intros Hk Hx Hy. split; [by apply Z.lor_nonneg; lia|].
  destruct (decide (Z.lor x y = 0)) as [->|Hne]; [apply Z.pow_pos_nonneg; lia|].
  apply Z.log2_lt_pow2; [pose proof (proj2 (Z.lor_nonneg x y)); lia|].
  rewrite Z.log2_lor by lia.
  apply Z.max_lub_lt.
  - destruct (decide (x = 0)) as [->|]; [change (Z.log2 0) with 0|apply Z.log2_lt_pow2; lia].
    destruct (decide (k = 0)) as [->|]; [|lia]. change (2 ^ 0) with 1 in *.
    assert (y = 0) by lia. by subst.
  - destruct (decide (y = 0)) as [->|]; [change (Z.log2 0) with 0|apply Z.log2_lt_pow2; lia].
    destruct (decide (k = 0)) as [->|]; [|lia]. change (2 ^ 0) with 1 in *.
    assert (x = 0) by lia. by subst.
Qed.

(** [ALIGN_DOWN]/[ALIGN_UP] of [libc-internal.h] and of
    [shared_memory_manager.cpp] on a 64-bit base. *)
Definition ALIGN_DOWN (base size : Z) : Z := Z.land base (u64 (- size)).
Definition ALIGN_UP (base size : Z) : Z := ALIGN_DOWN (u64 (base + size - 1)) size.

Lemma ALIGN_DOWN_pow2 k x :
  0 <= k -> 0 <= x < 18446744073709551616 -> ALIGN_DOWN x (2 ^ k) = x - x mod 2 ^ k.
Proof.
  intros Hk Hx. unfold ALIGN_DOWN. rewrite land_u64_r by lia.
  rewrite <- land_mask_down by lia. f_equal. unfold Z.lnot. lia.
Qed.

Lemma ALIGN_UP_4096 x :
  0 <= x <= 18446744073709551616 - 4096 ->
  ALIGN_UP x 4096 = (x + 4095) - (x + 4095) mod 4096.
Proof.
  intros Hx. unfold ALIGN_UP. rewrite u64_small by lia.
  change 4096 with (2 ^ 12). rewrite ALIGN_DOWN_pow2 by lia.
  change (2 ^ 12) with 4096. f_equal; [lia|]. f_equal. lia.
Qed.

Lemma ALIGN_UP_4096_spec x :
  0 <= x <= 18446744073709551616 - 4096 ->
  x <= ALIGN_UP x 4096 < x + 4096 /\ ALIGN_UP x 4096 mod 4096 = 0.
Proof. intros Hx. rewrite ALIGN_UP_4096 by lia. zlia. Qed.

(** ** Memory

    A memory maps the address of a scalar object to its value; the objects of
    the allocator never overlap partially, and fresh shared memory reads as
    zero, so an absent cell is zero.  Byte accesses address a byte inside the
    8-byte cell that holds it. *)

Abbreviation memory := (gmap Z Z).

Definition ld (m : memory) (a : Z) : Z := default 0 (m !! a).

Lemma ld_empty a : ld ∅ a = 0.
Proof. unfold ld. by rewrite lookup_empty. Qed.

Lemma ld_insert_eq (m : memory) a v : ld (<[a := v]> m) a = v.
Proof. unfold ld. by rewrite lookup_insert_eq. Qed.

Lemma ld_insert_ne (m : memory) a b v : a <> b -> ld (<[a := v]> m) b = ld m b.
Proof. intros. unfold ld. by rewrite lookup_insert_ne. Qed.

Lemma ld_insert (m : memory) a b v :
  ld (<[a := v]> m) b = if decide (a = b) then v else ld m b.
Proof. case_decide; subst; [apply ld_insert_eq|by apply ld_insert_ne]. Qed.

Definition in_range (lo hi a : Z) : bool := (lo <=? a) && (a <? hi).

(** [bzero]/[memset (_, 0, _)] on whole cells: the cells of [lo, hi) read zero. *)
Definition mem_zero (lo hi : Z) (m : memory) : memory :=
  filter (fun kv : Z * Z => in_range lo hi kv.1 = false) m.

Lemma ld_mem_zero lo hi (m : memory) a :
  ld (mem_zero lo hi m) a = if in_range lo hi a then 0 else ld m a.
Proof.
  unfold ld, mem_zero. destruct (in_range lo hi a) eqn:E.
  - rewrite map_lookup_filter_None_2; [done|]. right. intros x Hx. simpl. congruence.
  - destruct (m !! a) eqn:Hm.
    + by rewrite (map_lookup_filter_Some_2 _ m a z).
    + rewrite map_lookup_filter_None_2; [done|]. by left.
Qed.

(** [memcpy] of [n] 8-byte words. *)
Fixpoint mem_copy (d s : Z) (n : nat) (m : memory) : memory :=
  match n with
  | O => m
  | S k => mem_copy (d + 8) (s + 8) k (<[d := ld m s]> m)
  end.

Definition ld_byte (m : memory) (a : Z) : Z :=
  Z.land (Z.shiftr (ld m (a - a mod 8)) (8 * (a mod 8))) 255.

Definition st_byte (m : memory) (a v : Z) : memory :=
  let w := a - a mod 8 in
  let sh := 8 * (a mod 8) in
  <[w := Z.lor (Z.ldiff (ld m w) (Z.shiftl 255 sh)) (Z.shiftl (Z.land v 255) sh)]> m.

(** [memset (p, c, n)] byte by byte. *)
Fixpoint mem_set (p c : Z) (n : nat) (m : memory) : memory :=
  match n with
  | O => m
  | S k => mem_set (p + 1) c k (st_byte m p c)
  end.

(** ** Automation *)

Create Rewrite HintDb cali.
#[export] Hint Rewrite u64_u64 ld_insert_eq : cali.

(** Evaluates loads through stores, settling address (dis)equalities with [lia]. *)
Ltac mem_step :=
  match goal with
  | |- context [ld (<[?a := ?v]> ?m) ?b] =>
      first [ rewrite (ld_insert_ne m a b v) by lia
            | replace b with a by lia; rewrite (ld_insert_eq m a v) ]
  end.
Ltac mem_simp := repeat mem_step.

Ltac bool_hyps :=
  repeat match goal with
  | H : (_ && _) = true |- _ => apply andb_true_iff in H; destruct H
  | H : (_ || _) = false |- _ => apply orb_false_iff in H; destruct H
  | H : (_ =? _) = true |- _ => apply Z.eqb_eq in H
  | H : (_ =? _) = false |- _ => apply Z.eqb_neq in H
  | H : (_ <? _) = true |- _ => apply Z.ltb_lt in H
  | H : (_ <? _) = false |- _ => apply Z.ltb_ge in H
  | H : (_ <=? _) = true |- _ => apply Z.leb_le in H
  | H : (_ <=? _) = false |- _ => apply Z.leb_gt in H
  | H : negb _ = true |- _ => apply negb_true_iff in H
  | H : negb _ = false |- _ => apply negb_false_iff in H
  end.

(** Splits on the first boolean comparison the goal branches on. *)
Ltac split_cmp :=
  match goal with
  | |- context [if (?a =? ?b) then _ else _] => destruct (Z.eqb_spec a b)
  | |- context [if (?a <? ?b) then _ else _] => destruct (Z.ltb_spec a b)
  | |- context [if (?a <=? ?b) then _ else _] => destruct (Z.leb_spec a b)
  end.
