(* ===== verification/MallocState.v ===== *)
(** * The shared-memory allocator: constants, macros, state and effects

    Models the declarations of [src/libipc/malloc/malloc.c] (chunk layout,
    size and bin arithmetic, [malloc_state], [malloc_par]) and of
    [arena.c.h]/[hooks.c.h] (arena and hook variables), for the 64-bit build
    of [libipc/CMakeLists.txt]: [SIZE_SZ = 8], [MALLOC_ALIGNMENT = 16],
    [MALLOC_DEBUG = 0], [HAVE_MREMAP = 0], [MORECORE_CLEARS = 2] and
    [DEFAULT_TOP_PAD = 131072] (from [malloc-machine.h]).

    An arena and every chunk live in one [memory]; process-private variables
    are records.  Code runs in the monad [M]: a computation returns, aborts,
    blocks for ever on a mutex, is unwound by a C++ exception thrown in the
    page allocator, or exhausts the fuel of a list traversal. *)

From S2P Require Import Prelude.

(** ** Size and alignment constants *)

Definition SIZE_SZ : Z := 8.
Definition MALLOC_ALIGNMENT : Z := 2 * SIZE_SZ.
Definition MALLOC_ALIGN_MASK : Z := MALLOC_ALIGNMENT - 1.

(** [struct malloc_chunk]: offsets of its fields. *)
Definition off_prev_size : Z := 0.
Definition off_size : Z := 8.
Definition off_fd : Z := 16.
Definition off_bk : Z := 24.
Definition off_fd_nextsize : Z := 32.
Definition off_bk_nextsize : Z := 40.
Definition sizeof_malloc_chunk : Z := 48.

Definition chunk2mem (p : Z) : Z := p +w 2 * SIZE_SZ.
Definition mem2chunk (mem : Z) : Z := mem -w 2 * SIZE_SZ.

Definition MIN_CHUNK_SIZE : Z := off_fd_nextsize.
Definition MINSIZE : Z := (MIN_CHUNK_SIZE +w MALLOC_ALIGN_MASK) &w !w MALLOC_ALIGN_MASK.

Definition aligned_OK (m : Z) : bool := (m &w MALLOC_ALIGN_MASK) =? 0.
Definition misaligned_chunk (p : Z) : bool :=
  truthy ((if MALLOC_ALIGNMENT =? 2 * SIZE_SZ then p else chunk2mem p) &w MALLOC_ALIGN_MASK).

Definition REQUEST_OUT_OF_RANGE (req : Z) : bool := u64 (-2 * MINSIZE) <=? req.

Definition request2size (req : Z) : Z :=
  if req +w SIZE_SZ +w MALLOC_ALIGN_MASK <? MINSIZE then MINSIZE
  else (req +w SIZE_SZ +w MALLOC_ALIGN_MASK) &w !w MALLOC_ALIGN_MASK.

(** [checked_request2size]: [None] is the early [return 0] with [ENOMEM]. *)
Definition checked_request2size (req : Z) : option Z :=
  if REQUEST_OUT_OF_RANGE req then None else Some (request2size req).

Definition PREV_INUSE : Z := 1.
Definition IS_MMAPPED : Z := 2.
Definition NON_MAIN_ARENA : Z := 4.
Definition SIZE_BITS : Z := PREV_INUSE |w IS_MMAPPED |w NON_MAIN_ARENA.

(** ** Bins *)

Definition NBINS : Z := 128.
Definition NSMALLBINS : Z := 64.
Definition SMALLBIN_WIDTH : Z := MALLOC_ALIGNMENT.
Definition SMALLBIN_CORRECTION : Z := if 2 * SIZE_SZ <? MALLOC_ALIGNMENT then 1 else 0.
Definition MIN_LARGE_SIZE : Z := (NSMALLBINS - SMALLBIN_CORRECTION) * SMALLBIN_WIDTH.

Definition in_smallbin_range (sz : Z) : bool := sz <? MIN_LARGE_SIZE.

Definition smallbin_index (sz : Z) : Z :=
  (if SMALLBIN_WIDTH =? 16 then Z.shiftr (u32 sz) 4 else Z.shiftr (u32 sz) 3)
  + SMALLBIN_CORRECTION.

Definition largebin_index_32 (sz : Z) : Z :=
  if Z.shiftr sz 6 <=? 38 then 56 + Z.shiftr sz 6
  else if Z.shiftr sz 9 <=? 20 then 91 + Z.shiftr sz 9
  else if Z.shiftr sz 12 <=? 10 then 110 + Z.shiftr sz 12
  else if Z.shiftr sz 15 <=? 4 then 119 + Z.shiftr sz 15
  else if Z.shiftr sz 18 <=? 2 then 124 + Z.shiftr sz 18
  else 126.

Definition largebin_index_32_big (sz : Z) : Z :=
  if Z.shiftr sz 6 <=? 45 then 49 + Z.shiftr sz 6
  else if Z.shiftr sz 9 <=? 20 then 91 + Z.shiftr sz 9
  else if Z.shiftr sz 12 <=? 10 then 110 + Z.shiftr sz 12
  else if Z.shiftr sz 15 <=? 4 then 119 + Z.shiftr sz 15
  else if Z.shiftr sz 18 <=? 2 then 124 + Z.shiftr sz 18
  else 126.

Definition largebin_index_64 (sz : Z) : Z :=
  if Z.shiftr sz 6 <=? 48 then 48 + Z.shiftr sz 6
  else if Z.shiftr sz 9 <=? 20 then 91 + Z.shiftr sz 9
  else if Z.shiftr sz 12 <=? 10 then 110 + Z.shiftr sz 12
  else if Z.shiftr sz 15 <=? 4 then 119 + Z.shiftr sz 15
  else if Z.shiftr sz 18 <=? 2 then 124 + Z.shiftr sz 18
  else 126.

Definition largebin_index (sz : Z) : Z :=
  if SIZE_SZ =? 8 then largebin_index_64 sz
  else if MALLOC_ALIGNMENT =? 16 then largebin_index_32_big sz
  else largebin_index_32 sz.

Definition bin_index (sz : Z) : Z :=
  if in_smallbin_range sz then smallbin_index sz else largebin_index sz.

(** Binmap: one bit per bin, 32 bits per word. *)
Definition BINMAPSHIFT : Z := 5.
Definition BITSPERMAP : Z := u32 (Z.shiftl 1 BINMAPSHIFT).
Definition BINMAPSIZE : Z := NBINS / BITSPERMAP.
Definition idx2block (i : Z) : Z := Z.shiftr i BINMAPSHIFT.
Definition idx2bit (i : Z) : Z :=
  u32 (Z.shiftl 1 (i &w (u32 (Z.shiftl 1 BINMAPSHIFT) - 1))).

(** Fastbins. *)
Definition fastbin_index (sz : Z) : Z :=
  u32 (Z.shiftr (u32 sz) (if SIZE_SZ =? 8 then 4 else 3) - 2).
Definition MAX_FAST_SIZE : Z := 80 * SIZE_SZ / 4.
Definition NFASTBINS : Z := fastbin_index (request2size MAX_FAST_SIZE) + 1.
Definition FASTBIN_CONSOLIDATION_THRESHOLD : Z := 65536.
Definition FASTCHUNKS_BIT : Z := 1.
Definition NONCONTIGUOUS_BIT : Z := 2.
Definition ARENA_CORRUPTION_BIT : Z := 4.

(** The value [set_max_fast (s)] stores. *)
Definition max_fast_of (s : Z) : Z :=
  if s =? 0 then SMALLBIN_WIDTH else (s +w SIZE_SZ) &w !w MALLOC_ALIGN_MASK.

(** Tunables. *)
Definition DEFAULT_MXFAST : Z := 64 * SIZE_SZ / 4.
Definition DEFAULT_TRIM_THRESHOLD : Z := 128 * 1024.
Definition DEFAULT_TOP_PAD : Z := 131072.
Definition DEFAULT_MMAP_THRESHOLD_MIN : Z := 128 * 1024.
Definition DEFAULT_MMAP_THRESHOLD_MAX : Z := 4 * 1024 * 1024 * 8.
Definition DEFAULT_MMAP_THRESHOLD : Z := DEFAULT_MMAP_THRESHOLD_MIN.
Definition DEFAULT_MMAP_MAX : Z := 65536.
Definition DEFAULT_CHECK_ACTION : Z := 3.
Definition MMAP_AS_MORECORE_SIZE : Z := 1024 * 1024.
Definition HEAP_MIN_SIZE : Z := 32 * 1024.
Definition HEAP_MAX_SIZE : Z := 2 * DEFAULT_MMAP_THRESHOLD_MAX.
Definition NARENAS_FROM_NCORES (n : Z) : Z := 1.
Definition MAX_ITERS : Z := 10000.

Definition MORECORE_FAILURE : Z := 0.
(** [shm_no_morecore]: [sbrk] is disabled, every request fails. *)
Definition shm_no_morecore (x : Z) : Z := MORECORE_FAILURE.
Definition MORECORE (x : Z) : Z := shm_no_morecore x.

(** [errno] values and [mmap] constants of the platform. *)
Definition ENOMEM : Z := 12.
Definition EINVAL : Z := 22.
Definition SIZE_MAX : Z := 18446744073709551615.
Definition PROT_NONE : Z := 0.
Definition PROT_RW : Z := 3.
Definition MAP_PRIVATE : Z := 2.
Definition MAP_FIXED : Z := 16.
Definition MAP_ANONYMOUS : Z := 32.
Definition MAP_NORESERVE : Z := 16384.

(** ** [struct malloc_state]: offsets of its fields (2232 bytes). *)

Definition off_mutex : Z := 0.
Definition off_flags : Z := 40.
Definition off_fastbinsY : Z := 48.
Definition off_top : Z := 128.
Definition off_last_remainder : Z := 136.
Definition off_bins : Z := 144.
Definition off_binmap : Z := 2176.
Definition off_next : Z := 2192.
Definition off_next_free : Z := 2200.
Definition off_attached_threads : Z := 2208.
Definition off_system_mem : Z := 2216.
Definition off_max_system_mem : Z := 2224.
Definition sizeof_malloc_state : Z := 2232.

Definition bin_at (m i : Z) : Z := m + off_bins + ((i - 1) * 2) * 8 - off_fd.
Definition next_bin (b : Z) : Z := b + Z.shiftl 8 1.
Definition unsorted_chunks (m : Z) : Z := bin_at m 1.
Definition initial_top (m : Z) : Z := unsorted_chunks m.
Definition fastbin_at (m idx : Z) : Z := m + off_fastbinsY + idx * 8.
Definition binmap_at (m block : Z) : Z := m + off_binmap + block * 4.

(** [heap_info] of [arena.c.h]. *)
Definition off_ar_ptr : Z := 0.
Definition off_prev : Z := 8.
Definition off_heap_size : Z := 16.
Definition off_mprotect_size : Z := 24.
Definition sizeof_heap_info : Z := 32.
Definition heap_for_ptr (p : Z) : Z := p &w !w (HEAP_MAX_SIZE - 1).

(** [struct malloc_par]. *)
Record malloc_par := mkPar {
  trim_threshold : Z; top_pad : Z; mmap_threshold : Z;
  arena_test : Z; arena_max : Z;
  n_mmaps : Z; n_mmaps_max : Z; max_n_mmaps : Z; no_dyn_threshold : Z;
  mmapped_mem : Z; max_mmapped_mem : Z; max_total_mem : Z; sbrk_base : Z
}.

(** The initialiser of [mp_]. *)
Definition mp_init : malloc_par :=
  mkPar DEFAULT_TRIM_THRESHOLD DEFAULT_TOP_PAD DEFAULT_MMAP_THRESHOLD
        (NARENAS_FROM_NCORES 1) 0 0 DEFAULT_MMAP_MAX 0 0 0 0 0 0.

(** Variables of [malloc.c]. *)
Record globals := mkGl {
  main_arena : Z; mp_ : malloc_par; global_max_fast : Z;
  check_action : Z; perturb_byte : Z; errno : Z; dl_pagesize : Z
}.

(** Variables of [arena.c.h] and the statics of its functions. *)
Record arena_globals := mkAg {
  thread_arena : Z; free_list : Z; free_list_lock : Z; list_lock : Z;
  narenas : Z; arena_mem : Z; malloc_initialized : Z; aligned_heap_area : Z;
  next_to_use : Z; narenas_limit : Z
}.

(** Values the hook variables take in [hooks.c.h]: the initial hook, the
    checking hook of [__shm_malloc_check_init], or [NULL]. *)
Inductive hook := HookNull | HookIni | HookCheck.

#[export] Instance hook_eq_dec : EqDecision hook.
Proof. solve_decision. Defined.

Record hook_vars := mkHk {
  malloc_hook : hook; free_hook : hook; realloc_hook : hook; memalign_hook : hook;
  using_malloc_checking : Z; disallow_malloc_check : Z
}.

(** Facts about the process that the allocator only reads: [_environ],
    [__libc_enable_secure], [__get_nprocs ()] and the cached answer of
    [check_may_shrink_heap ()]. *)
Record environment := mkEnv {
  environ : list string; libc_enable_secure : bool; nprocs : Z; may_shrink_heap : bool
}.

(** ** The page source

    What the allocator needs from the component that hands out pages
    ([__mmap], [__munmap], [__mprotect], renamed to [shm_mmap], [shm_munmap],
    [shm_mprotect] by [renamed_functions.h]): a mapping that succeeds, one
    that fails with [MAP_FAILED], a C++ exception, or the end of the process. *)

Inductive mmap_result (O : Type) :=
| MmapOk (p : Z) (o : O) (m : memory)
| MmapFailed (o : O) (m : memory)
| MmapThrow (o : O)
| MmapExit (o : O).
Arguments MmapOk {O}.
Arguments MmapFailed {O}.
Arguments MmapThrow {O}.
Arguments MmapExit {O}.

Class PageSource := {
  os_state : Type;
  sys_mmap : Z -> Z -> Z -> Z -> os_state -> memory -> mmap_result os_state;
  sys_munmap : Z -> Z -> os_state -> os_state;
  sys_mprotect : Z -> Z -> Z -> os_state -> Z
}.

(** ** State and monad *)

Record state `{PS : PageSource} := mkSt {
  st_mem : memory; st_gl : globals; st_ag : arena_globals; st_hk : hook_vars;
  st_env : environment; st_os : os_state; st_log : list string
}.

Inductive outcome `{PS : PageSource} (A : Type) :=
| Ok (a : A) (s : state)
| Aborted (why : string) (s : state)
| Blocked (s : state)
| Thrown (s : state)
| NoFuel.
Arguments Ok {PS A}.
Arguments Aborted {PS A}.
Arguments Blocked {PS A}.
Arguments Thrown {PS A}.
Arguments NoFuel {PS A}.

Definition M `{PS : PageSource} (A : Type) : Type := state -> outcome A.

Section Monad.
Context `{PS : PageSource}.

Definition ret {A} (a : A) : M A := fun s => Ok a s.
Definition bind {A B} (m : M A) (f : A -> M B) : M B := fun s =>
  match m s with
  | Ok a s' => f a s'
  | Aborted w s' => Aborted w s'
  | Blocked s' => Blocked s'
  | Thrown s' => Thrown s'
  | NoFuel => NoFuel
  end.
Definition get : M state := fun s => Ok s s.
Definition modify (f : state -> state) : M unit := fun s => Ok tt (f s).
Definition abort {A} (why : string) : M A := fun s => Aborted why s.
Definition block {A} : M A := fun s => Blocked s.
Definition nofuel {A} : M A := fun _ => NoFuel.
Definition when_ (c : bool) (m : M unit) : M unit := if c then m else ret tt.

End Monad.

Declare Scope malloc_scope.
Delimit Scope malloc_scope with malloc.
Notation "x <- c ;; k" := (bind c (fun x => k))
  (at level 100, c at next level, right associativity) : malloc_scope.
Notation "c ;;; k" := (bind c (fun _ => k))
  (at level 100, right associativity) : malloc_scope.
Notation "'let*' p ':=' c 'in' k" := (bind c (fun x => match x with p => k end))
  (at level 100, p strict pattern, c at level 100, k at level 100, right associativity) : malloc_scope.
#[global] Open Scope malloc_scope.

Section Access.
Context `{PS : PageSource}.

(** *** Record updates *)

Definition upd_mem (f : memory -> memory) (s : state) : state :=
  mkSt _ (f (st_mem s)) (st_gl s) (st_ag s) (st_hk s) (st_env s) (st_os s) (st_log s).
Definition upd_gl (f : globals -> globals) (s : state) : state :=
  mkSt _ (st_mem s) (f (st_gl s)) (st_ag s) (st_hk s) (st_env s) (st_os s) (st_log s).
Definition upd_ag (f : arena_globals -> arena_globals) (s : state) : state :=
  mkSt _ (st_mem s) (st_gl s) (f (st_ag s)) (st_hk s) (st_env s) (st_os s) (st_log s).
Definition upd_hk (f : hook_vars -> hook_vars) (s : state) : state :=
  mkSt _ (st_mem s) (st_gl s) (st_ag s) (f (st_hk s)) (st_env s) (st_os s) (st_log s).
Definition set_os (o : os_state) (s : state) : state :=
  mkSt _ (st_mem s) (st_gl s) (st_ag s) (st_hk s) (st_env s) o (st_log s).
Definition add_log (msg : string) (s : state) : state :=
  mkSt _ (st_mem s) (st_gl s) (st_ag s) (st_hk s) (st_env s) (st_os s) (msg :: st_log s).

Definition put_par (f : malloc_par -> malloc_par) (g : globals) : globals :=
  mkGl (main_arena g) (f (mp_ g)) (global_max_fast g) (check_action g)
       (perturb_byte g) (errno g) (dl_pagesize g).
Definition put_main_arena (v : Z) (g : globals) : globals :=
  mkGl v (mp_ g) (global_max_fast g) (check_action g) (perturb_byte g) (errno g) (dl_pagesize g).
Definition put_max_fast (v : Z) (g : globals) : globals :=
  mkGl (main_arena g) (mp_ g) v (check_action g) (perturb_byte g) (errno g) (dl_pagesize g).
Definition put_check_action (v : Z) (g : globals) : globals :=
  mkGl (main_arena g) (mp_ g) (global_max_fast g) v (perturb_byte g) (errno g) (dl_pagesize g).
Definition put_perturb (v : Z) (g : globals) : globals :=
  mkGl (main_arena g) (mp_ g) (global_max_fast g) (check_action g) v (errno g) (dl_pagesize g).
Definition put_errno (v : Z) (g : globals) : globals :=
  mkGl (main_arena g) (mp_ g) (global_max_fast g) (check_action g) (perturb_byte g) v (dl_pagesize g).

Definition par_trim_threshold (v : Z) (p : malloc_par) : malloc_par :=
  let '(mkPar _ b c d e f g h i j k l m) := p in mkPar v b c d e f g h i j k l m.
Definition par_top_pad (v : Z) (p : malloc_par) : malloc_par :=
  let '(mkPar a _ c d e f g h i j k l m) := p in mkPar a v c d e f g h i j k l m.
Definition par_mmap_threshold (v : Z) (p : malloc_par) : malloc_par :=
  let '(mkPar a b _ d e f g h i j k l m) := p in mkPar a b v d e f g h i j k l m.
Definition par_arena_test (v : Z) (p : malloc_par) : malloc_par :=
  let '(mkPar a b c _ e f g h i j k l m) := p in mkPar a b c v e f g h i j k l m.
Definition par_arena_max (v : Z) (p : malloc_par) : malloc_par :=
  let '(mkPar a b c d _ f g h i j k l m) := p in mkPar a b c d v f g h i j k l m.
Definition par_n_mmaps (v : Z) (p : malloc_par) : malloc_par :=
  let '(mkPar a b c d e _ g h i j k l m) := p in mkPar a b c d e v g h i j k l m.
Definition par_n_mmaps_max (v : Z) (p : malloc_par) : malloc_par :=
  let '(mkPar a b c d e f _ h i j k l m) := p in mkPar a b c d e f v h i j k l m.
Definition par_max_n_mmaps (v : Z) (p : malloc_par) : malloc_par :=
  let '(mkPar a b c d e f g _ i j k l m) := p in mkPar a b c d e f g v i j k l m.
Definition par_no_dyn_threshold (v : Z) (p : malloc_par) : malloc_par :=
  let '(mkPar a b c d e f g h _ j k l m) := p in mkPar a b c d e f g h v j k l m.
Definition par_mmapped_mem (v : Z) (p : malloc_par) : malloc_par :=
  let '(mkPar a b c d e f g h i _ k l m) := p in mkPar a b c d e f g h i v k l m.
Definition par_max_mmapped_mem (v : Z) (p : malloc_par) : malloc_par :=
  let '(mkPar a b c d e f g h i j _ l m) := p in mkPar a b c d e f g h i j v l m.
Definition par_sbrk_base (v : Z) (p : malloc_par) : malloc_par :=
  let '(mkPar a b c d e f g h i j k l _) := p in mkPar a b c d e f g h i j k l v.

Definition put_thread_arena (v : Z) (p : arena_globals) : arena_globals :=
  let '(mkAg _ b c d e f g h i j) := p in mkAg v b c d e f g h i j.
Definition put_free_list (v : Z) (p : arena_globals) : arena_globals :=
  let '(mkAg a _ c d e f g h i j) := p in mkAg a v c d e f g h i j.
Definition put_free_list_lock (v : Z) (p : arena_globals) : arena_globals :=
  let '(mkAg a b _ d e f g h i j) := p in mkAg a b v d e f g h i j.
Definition put_list_lock (v : Z) (p : arena_globals) : arena_globals :=
  let '(mkAg a b c _ e f g h i j) := p in mkAg a b c v e f g h i j.
Definition put_narenas (v : Z) (p : arena_globals) : arena_globals :=
  let '(mkAg a b c d _ f g h i j) := p in mkAg a b c d v f g h i j.
Definition put_arena_mem (v : Z) (p : arena_globals) : arena_globals :=
  let '(mkAg a b c d e _ g h i j) := p in mkAg a b c d e v g h i j.
Definition put_malloc_initialized (v : Z) (p : arena_globals) : arena_globals :=
  let '(mkAg a b c d e f _ h i j) := p in mkAg a b c d e f v h i j.
Definition put_aligned_heap_area (v : Z) (p : arena_globals) : arena_globals :=
  let '(mkAg a b c d e f g _ i j) := p in mkAg a b c d e f g v i j.
Definition put_next_to_use (v : Z) (p : arena_globals) : arena_globals :=
  let '(mkAg a b c d e f g h _ j) := p in mkAg a b c d e f g h v j.
Definition put_narenas_limit (v : Z) (p : arena_globals) : arena_globals :=
  let '(mkAg a b c d e f g h i _) := p in mkAg a b c d e f g h i v.

Definition put_malloc_hook (v : hook) (p : hook_vars) : hook_vars :=
  let '(mkHk _ b c d e f) := p in mkHk v b c d e f.
Definition put_realloc_hook (v : hook) (p : hook_vars) : hook_vars :=
  let '(mkHk a b _ d e f) := p in mkHk a b v d e f.
Definition put_memalign_hook (v : hook) (p : hook_vars) : hook_vars :=
  let '(mkHk a b c _ e f) := p in mkHk a b c v e f.
Definition put_disallow (v : Z) (p : hook_vars) : hook_vars :=
  let '(mkHk a b c d e _) := p in mkHk a b c d e v.

(** *** Reads (pure functions of the state) and writes *)

Definition word (s : state) (a : Z) : Z := ld (st_mem s) a.
Definition par (s : state) : malloc_par := mp_ (st_gl s).
Definition st (a v : Z) : M unit := modify (upd_mem (fun m => <[a := v]> m)).

Definition prev_size (s : state) (p : Z) : Z := word s (p + off_prev_size).
Definition size_ (s : state) (p : Z) : Z := word s (p + off_size).
Definition fd (s : state) (p : Z) : Z := word s (p + off_fd).
Definition bk (s : state) (p : Z) : Z := word s (p + off_bk).
Definition fd_nextsize (s : state) (p : Z) : Z := word s (p + off_fd_nextsize).
Definition bk_nextsize (s : state) (p : Z) : Z := word s (p + off_bk_nextsize).

Definition set_prev_size (p v : Z) : M unit := st (p + off_prev_size) v.
Definition set_size (p v : Z) : M unit := st (p + off_size) v.
Definition set_fd (p v : Z) : M unit := st (p + off_fd) v.
Definition set_bk (p v : Z) : M unit := st (p + off_bk) v.
Definition set_fd_nextsize (p v : Z) : M unit := st (p + off_fd_nextsize) v.
Definition set_bk_nextsize (p v : Z) : M unit := st (p + off_bk_nextsize) v.

Definition prev_inuse (s : state) (p : Z) : bool := truthy (size_ s p &w PREV_INUSE).
Definition chunk_is_mmapped (s : state) (p : Z) : bool := truthy (size_ s p &w IS_MMAPPED).
Definition chunk_non_main_arena (s : state) (p : Z) : bool :=
  truthy (size_ s p &w NON_MAIN_ARENA).
Definition chunksize (s : state) (p : Z) : Z := size_ s p &w !w SIZE_BITS.
Definition next_chunk (s : state) (p : Z) : Z := p +w (size_ s p &w !w SIZE_BITS).
Definition prev_chunk (s : state) (p : Z) : Z := p -w prev_size s p.
Definition chunk_at_offset (p o : Z) : Z := p +w o.
Definition inuse (s : state) (p : Z) : bool :=
  truthy (size_ s (p +w (size_ s p &w !w SIZE_BITS)) &w PREV_INUSE).
Definition inuse_bit_at_offset (s : state) (p o : Z) : bool :=
  truthy (size_ s (p +w o) &w PREV_INUSE).
Definition set_inuse_bit_at_offset (p o : Z) : M unit :=
  s <- get ;; set_size (p +w o) (size_ s (p +w o) |w PREV_INUSE).
Definition clear_inuse_bit_at_offset (p o : Z) : M unit :=
  s <- get ;; set_size (p +w o) (size_ s (p +w o) &w !w PREV_INUSE).
Definition set_head_size (p v : Z) : M unit :=
  s <- get ;; set_size p ((size_ s p &w SIZE_BITS) |w v).
Definition set_head (p v : Z) : M unit := set_size p v.
Definition set_foot (p v : Z) : M unit := set_prev_size (p +w v) v.

Definition first (s : state) (b : Z) : Z := fd s b.
Definition last (s : state) (b : Z) : Z := bk s b.

(** Fields of an arena. *)
Definition flags (s : state) (av : Z) : Z := word s (av + off_flags).
Definition set_flags (av v : Z) : M unit := st (av + off_flags) v.
Definition fastbin (s : state) (av idx : Z) : Z := word s (fastbin_at av idx).
Definition set_fastbin (av idx v : Z) : M unit := st (fastbin_at av idx) v.
Definition top (s : state) (av : Z) : Z := word s (av + off_top).
Definition set_top (av v : Z) : M unit := st (av + off_top) v.
Definition last_remainder (s : state) (av : Z) : Z := word s (av + off_last_remainder).
Definition set_last_remainder (av v : Z) : M unit := st (av + off_last_remainder) v.
Definition binmap (s : state) (av block : Z) : Z := word s (binmap_at av block).
Definition set_binmap (av block v : Z) : M unit := st (binmap_at av block) v.
Definition next (s : state) (av : Z) : Z := word s (av + off_next).
Definition set_next (av v : Z) : M unit := st (av + off_next) v.
Definition next_free (s : state) (av : Z) : Z := word s (av + off_next_free).
Definition set_next_free (av v : Z) : M unit := st (av + off_next_free) v.
Definition attached_threads (s : state) (av : Z) : Z := word s (av + off_attached_threads).
Definition set_attached_threads (av v : Z) : M unit := st (av + off_attached_threads) v.
Definition system_mem (s : state) (av : Z) : Z := word s (av + off_system_mem).
Definition set_system_mem (av v : Z) : M unit := st (av + off_system_mem) v.
Definition max_system_mem (s : state) (av : Z) : Z := word s (av + off_max_system_mem).
Definition set_max_system_mem (av v : Z) : M unit := st (av + off_max_system_mem) v.

Definition mark_bin (m i : Z) : M unit :=
  s <- get ;; set_binmap m (idx2block i) (binmap s m (idx2block i) |w idx2bit i).
Definition unmark_bin (m i : Z) : M unit :=
  s <- get ;;
  set_binmap m (idx2block i) (binmap s m (idx2block i) &w u32 (Z.lnot (idx2bit i))).
Definition get_binmap (s : state) (m i : Z) : Z := binmap s m (idx2block i) &w idx2bit i.

Definition have_fastchunks (s : state) (m : Z) : bool := (flags s m &w FASTCHUNKS_BIT) =? 0.
Definition clear_fastchunks (m : Z) : M unit :=
  s <- get ;; set_flags m (flags s m |w FASTCHUNKS_BIT).
Definition set_fastchunks (m : Z) : M unit :=
  s <- get ;; set_flags m (flags s m &w u32 (Z.lnot FASTCHUNKS_BIT)).
Definition contiguous (s : state) (m : Z) : bool := (flags s m &w NONCONTIGUOUS_BIT) =? 0.
Definition noncontiguous (s : state) (m : Z) : bool :=
  negb ((flags s m &w NONCONTIGUOUS_BIT) =? 0).
Definition set_noncontiguous (m : Z) : M unit :=
  s <- get ;; set_flags m (flags s m |w NONCONTIGUOUS_BIT).
Definition set_contiguous (m : Z) : M unit :=
  s <- get ;; set_flags m (flags s m &w u32 (Z.lnot NONCONTIGUOUS_BIT)).
Definition arena_is_corrupt (s : state) (a : Z) : bool :=
  truthy (flags s a &w ARENA_CORRUPTION_BIT).
Definition set_arena_corrupt (a : Z) : M unit :=
  s <- get ;; set_flags a (flags s a |w ARENA_CORRUPTION_BIT).

Definition set_max_fast (v : Z) : M unit := modify (upd_gl (put_max_fast (max_fast_of v))).
Definition get_max_fast (s : state) : Z := global_max_fast (st_gl s).
Definition set_errno (v : Z) : M unit := modify (upd_gl (put_errno v)).
Definition set_par (f : malloc_par -> malloc_par) : M unit := modify (upd_gl (put_par f)).

(** The [NON_MAIN_ARENA] flag a chunk of arena [av] carries. *)
Definition arena_flag (s : state) (av : Z) : Z :=
  if av =? main_arena (st_gl s) then 0 else NON_MAIN_ARENA.

Definition arena_for_chunk (s : state) (p : Z) : Z :=
  if chunk_non_main_arena s p then word s (heap_for_ptr p + off_ar_ptr)
  else main_arena (st_gl s).

(** *** Mutexes.  The thread waits for ever on a mutex it holds itself. *)

Definition mutex_init (a : Z) : M unit := st (a + off_mutex) 0.
Definition mutex_lock (a : Z) : M unit :=
  s <- get ;; if word s (a + off_mutex) =? 0 then st (a + off_mutex) 1 else block.
Definition mutex_unlock (a : Z) : M unit := st (a + off_mutex) 0.
(** Zero when the mutex was taken, [EBUSY] otherwise. *)
Definition mutex_trylock (a : Z) : M Z :=
  s <- get ;;
  if word s (a + off_mutex) =? 0 then st (a + off_mutex) 1 ;;; ret 0 else ret 16.
Definition free_list_lock_lock : M unit :=
  s <- get ;;
  if free_list_lock (st_ag s) =? 0 then modify (upd_ag (put_free_list_lock 1)) else block.
Definition free_list_lock_unlock : M unit := modify (upd_ag (put_free_list_lock 0)).
Definition list_lock_lock : M unit :=
  s <- get ;;
  if list_lock (st_ag s) =? 0 then modify (upd_ag (put_list_lock 1)) else block.
Definition list_lock_unlock : M unit := modify (upd_ag (put_list_lock 0)).

(** *** Failure reports *)

(** [assert]: [__malloc_assert] prints and aborts. *)
Definition assert_ (c : bool) (what : string) : M unit :=
  if c then ret tt else modify (add_log what) ;;; abort what.

(** [__libc_message (do_abort, ...)]. *)
Definition libc_message (do_abort : Z) (str : string) : M unit :=
  modify (add_log str) ;;; if truthy do_abort then abort str else ret tt.

Definition malloc_printerr (action : Z) (str : string) (ptr ar_ptr : Z) : M unit :=
  (if truthy ar_ptr then set_arena_corrupt ar_ptr else ret tt) ;;;
  if (action &w 5) =? 5 then libc_message (action &w 2) str
  else if truthy (action &w 1) then libc_message (action &w 2) str
  else if truthy (action &w 2) then abort str
  else ret tt.

(** [memset] of the testing support. *)
Definition alloc_perturb (p n : Z) : M unit :=
  s <- get ;;
  if truthy (perturb_byte (st_gl s)) then
    modify (upd_mem (mem_set p (Z.lxor (perturb_byte (st_gl s)) 255) (Z.to_nat n)))
  else ret tt.
Definition free_perturb (p n : Z) : M unit :=
  s <- get ;;
  if truthy (perturb_byte (st_gl s)) then
    modify (upd_mem (mem_set p (perturb_byte (st_gl s)) (Z.to_nat n)))
  else ret tt.

(** *** Pages *)

(** [MAP_FAILED] is [(void * ) -1]. *)
Definition MAP_FAILED : Z := 18446744073709551615.

Definition MMAP (addr size prot mflags : Z) : M Z := fun s =>
  match sys_mmap addr size prot (mflags |w MAP_ANONYMOUS |w MAP_PRIVATE) (st_os s) (st_mem s) with
  | MmapOk p o m => Ok p (upd_mem (fun _ => m) (set_os o s))
  | MmapFailed o m => Ok MAP_FAILED (upd_mem (fun _ => m) (set_os o s))
  | MmapThrow o => Thrown (set_os o s)
  | MmapExit o => Aborted "exit (1)" (set_os o s)
  end.
Definition munmap (addr len : Z) : M unit := modify (fun s => set_os (sys_munmap addr len (st_os s)) s).
Definition mprotect (addr len prot : Z) : M Z :=
  s <- get ;; ret (sys_mprotect addr len prot (st_os s)).

End Access.
