(* ===== verification/MallocCore.v ===== *)
(** * The core of the shared-memory allocator

    [unlink], [malloc_init_state], [malloc_consolidate], [systrim],
    [munmap_chunk], the heaps of [arena.c.h] and [_int_free] of
    [src/libipc/malloc/malloc.c], statement by statement: every read is taken
    from the state in force at that point, and every early return and
    [goto errout] is a branch. *)

From S2P Require Import Prelude MallocState.

Section Core.
Context `{PS : PageSource}.

(** ** Lists of free chunks *)

(** The [unlink] macro: take [P] off its bin list, and off the list of
    distinct sizes when [P] is a large chunk that is on it. *)
Definition unlink_nextsize (AV P FD : Z) : M unit :=
  s <- get ;;
  when_ (negb (bk_nextsize s (fd_nextsize s P) =? P) || negb (fd_nextsize s (bk_nextsize s P) =? P))
    (malloc_printerr (check_action (st_gl s)) "corrupted double-linked list (not small)" P AV) ;;;
  s <- get ;;
  if fd_nextsize s FD =? 0 then
    if fd_nextsize s P =? P then
      set_bk_nextsize FD FD ;;; set_fd_nextsize FD FD
    else
      set_fd_nextsize FD (fd_nextsize s P) ;;;
      s <- get ;; set_bk_nextsize FD (bk_nextsize s P) ;;;
      s <- get ;; set_bk_nextsize (fd_nextsize s P) FD ;;;
      s <- get ;; set_fd_nextsize (bk_nextsize s P) FD
  else
    set_bk_nextsize (fd_nextsize s P) (bk_nextsize s P) ;;;
    s <- get ;; set_fd_nextsize (bk_nextsize s P) (fd_nextsize s P).

Definition unlink (AV P : Z) : M unit :=
  s <- get ;;
  let FD := fd s P in
  let BK := bk s P in
  if negb (bk s FD =? P) || negb (fd s BK =? P) then
    malloc_printerr (check_action (st_gl s)) "corrupted double-linked list" P AV
  else
    set_bk FD BK ;;;
    set_fd BK FD ;;;
    s <- get ;;
    when_ (negb (in_smallbin_range (size_ s P)) && truthy (fd_nextsize s P))
      (unlink_nextsize AV P FD).

(** ** Initialisation *)

(** [init_shm_malloc]: place and clear the main arena. *)
Definition init_shm_malloc (ptr : Z) : M unit :=
  modify (upd_gl (put_main_arena ptr)) ;;;
  modify (upd_mem (mem_zero ptr (ptr + sizeof_malloc_state))) ;;;
  mutex_init ptr ;;;
  set_next ptr ptr ;;;
  set_attached_threads ptr 1.

(** [for (i = 1; i < NBINS; ++i)] of [malloc_init_state]. *)
Fixpoint init_bins (av i : Z) (n : nat) : M unit :=
  match n with
  | O => ret tt
  | S k =>
      let bin := bin_at av i in
      set_bk bin bin ;;; set_fd bin bin ;;; init_bins av (i + 1) k
  end.

Definition malloc_init_state (av : Z) : M unit :=
  init_bins av 1 (Z.to_nat (NBINS - 1)) ;;;
  s <- get ;;
  when_ (negb (av =? main_arena (st_gl s))) (set_noncontiguous av) ;;;
  when_ (av =? main_arena (st_gl s)) (set_max_fast DEFAULT_MXFAST) ;;;
  s <- get ;;
  set_flags av (flags s av |w FASTCHUNKS_BIT) ;;;
  set_top av (initial_top av).

(** ** [malloc_consolidate] *)

(** The body of the inner loop: merge the fast chunk [p] with its free
    neighbours and put it on the unsorted list (or into [top]); returns the
    next chunk of the fastbin. *)
Definition consolidate_chunk (av p : Z) : M Z :=
  s <- get ;;
  let unsorted_bin := unsorted_chunks av in
  let nextp := fd s p in
  let size := size_ s p &w !w (PREV_INUSE |w NON_MAIN_ARENA) in
  let nextchunk := chunk_at_offset p size in
  let nextsize := chunksize s nextchunk in
  let* (p, size) :=
    (if negb (prev_inuse s p) then
       let prevsize := prev_size s p in
       let size := size +w prevsize in
       let p := chunk_at_offset p (- prevsize) in
       unlink av p ;;; ret (p, size)
     else ret (p, size)) in
  s <- get ;;
  if negb (nextchunk =? top s av) then
    let nextinuse := inuse_bit_at_offset s nextchunk nextsize in
    size <-
      (if negb nextinuse then
         let size := size +w nextsize in
         unlink av nextchunk ;;; ret size
       else clear_inuse_bit_at_offset nextchunk 0 ;;; ret size) ;;
    s <- get ;;
    let first_unsorted := fd s unsorted_bin in
    set_fd unsorted_bin p ;;;
    set_bk first_unsorted p ;;;
    when_ (negb (in_smallbin_range size))
      (set_fd_nextsize p 0 ;;; set_bk_nextsize p 0) ;;;
    set_head p (size |w PREV_INUSE) ;;;
    set_bk p unsorted_bin ;;;
    set_fd p first_unsorted ;;;
    set_foot p size ;;;
    ret nextp
  else
    let size := size +w nextsize in
    set_head p (size |w PREV_INUSE) ;;;
    set_top av p ;;;
    ret nextp.

(** [do { ... } while ((p = nextp) != 0)]. *)
Fixpoint consolidate_list (fuel : nat) (av p : Z) : M unit :=
  match fuel with
  | O => nofuel
  | S k =>
      nextp <- consolidate_chunk av p ;;
      if nextp =? 0 then ret tt else consolidate_list k av nextp
  end.

(** [do { ... } while (fb++ != maxfb)] over the [n] fastbins from [i]. *)
Fixpoint consolidate_bins (fuel : nat) (av i : Z) (n : nat) : M unit :=
  match n with
  | O => ret tt
  | S k =>
      s <- get ;;
      let p := fastbin s av i in
      set_fastbin av i 0 ;;;
      (if p =? 0 then ret tt else consolidate_list fuel av p) ;;;
      consolidate_bins fuel av (i + 1) k
  end.

Definition malloc_consolidate (fuel : nat) (av : Z) : M unit :=
  s <- get ;;
  if negb (get_max_fast s =? 0) then
    clear_fastchunks av ;;;
    consolidate_bins fuel av 0 (Z.to_nat NFASTBINS)
  else malloc_init_state av.

(** ** Giving memory back *)

Definition systrim (pad av : Z) : M Z :=
  s <- get ;;
  let pagesize := dl_pagesize (st_gl s) in
  let top_size := chunksize s (top s av) in
  let top_area := s64 (top_size - MINSIZE - 1) in
  if u64 top_area <=? pad then ret 0
  else
    let extra := s64 (ALIGN_DOWN (u64 (top_area - pad)) pagesize) in
    if extra =? 0 then ret 0
    else
      let current_brk := MORECORE 0 in
      if current_brk =? (top s av +w top_size) then
        let _ := MORECORE (- extra) in
        let new_brk := MORECORE 0 in
        if negb (new_brk =? MORECORE_FAILURE) then
          let released := s64 (current_brk - new_brk) in
          if negb (released =? 0) then
            set_system_mem av (system_mem s av -w released) ;;;
            set_head (top s av) (u64 (top_size - released) |w PREV_INUSE) ;;;
            ret 1
          else ret 0
        else ret 0
      else ret 0.

Definition munmap_chunk (p : Z) : M unit :=
  s <- get ;;
  let size := chunksize s p in
  assert_ (chunk_is_mmapped s p) "munmap_chunk: chunk_is_mmapped (p)" ;;;
  let block := p -w prev_size s p in
  let total_size := prev_size s p +w size in
  if negb (((block |w total_size) &w (dl_pagesize (st_gl s) - 1)) =? 0) then
    malloc_printerr (check_action (st_gl s)) "munmap_chunk(): invalid pointer" (chunk2mem p) 0
  else
    set_par (fun q => par_n_mmaps (s32 (n_mmaps q - 1)) q) ;;;
    set_par (fun q => par_mmapped_mem (mmapped_mem q -w total_size) q) ;;;
    munmap block total_size.

(** ** Heaps of the non-main arenas ([arena.c.h]) *)

(** Reserve [HEAP_MAX_SIZE] bytes aligned to [HEAP_MAX_SIZE]: the part of
    [new_heap] that finds [p2]; [None] is the failing return. *)
Definition new_heap_area : M (option Z) :=
  s <- get ;;
  let aha := aligned_heap_area (st_ag s) in
  p2 <-
    (if truthy aha then
       p2 <- MMAP aha HEAP_MAX_SIZE PROT_NONE MAP_NORESERVE ;;
       modify (upd_ag (put_aligned_heap_area 0)) ;;;
       if negb (p2 =? MAP_FAILED) && truthy (p2 &w (HEAP_MAX_SIZE - 1)) then
         munmap p2 HEAP_MAX_SIZE ;;; ret MAP_FAILED
       else ret p2
     else ret MAP_FAILED) ;;
  if negb (p2 =? MAP_FAILED) then ret (Some p2)
  else
    p1 <- MMAP 0 (Z.shiftl HEAP_MAX_SIZE 1) PROT_NONE MAP_NORESERVE ;;
    if negb (p1 =? MAP_FAILED) then
      let p2 := (p1 +w (HEAP_MAX_SIZE - 1)) &w !w (HEAP_MAX_SIZE - 1) in
      let ul := p2 -w p1 in
      (if truthy ul then munmap p1 ul
       else modify (upd_ag (put_aligned_heap_area (p2 + HEAP_MAX_SIZE)))) ;;;
      munmap (p2 + HEAP_MAX_SIZE) (HEAP_MAX_SIZE -w ul) ;;;
      ret (Some p2)
    else
      p2 <- MMAP 0 HEAP_MAX_SIZE PROT_NONE MAP_NORESERVE ;;
      if p2 =? MAP_FAILED then ret None
      else if truthy (p2 &w (HEAP_MAX_SIZE - 1)) then
        munmap p2 HEAP_MAX_SIZE ;;; ret None
      else ret (Some p2).

Definition new_heap (size tpad : Z) : M Z :=
  s <- get ;;
  let pagesize := dl_pagesize (st_gl s) in
  let size' :=
    if size +w tpad <? HEAP_MIN_SIZE then Some HEAP_MIN_SIZE
    else if size +w tpad <=? HEAP_MAX_SIZE then Some (size +w tpad)
    else if HEAP_MAX_SIZE <? size then None
    else Some HEAP_MAX_SIZE in
  match size' with
  | None => ret 0
  | Some size =>
      let size := ALIGN_UP size pagesize in
      area <- new_heap_area ;;
      match area with
      | None => ret 0
      | Some p2 =>
          r <- mprotect p2 size PROT_RW ;;
          if negb (r =? 0) then munmap p2 HEAP_MAX_SIZE ;;; ret 0
          else
            st (p2 + off_heap_size) size ;;;
            st (p2 + off_mprotect_size) size ;;;
            ret p2
      end
  end.

Definition grow_heap (h diff : Z) : M Z :=
  s <- get ;;
  let pagesize := dl_pagesize (st_gl s) in
  let diff := s64 (ALIGN_UP (u64 diff) pagesize) in
  let new_size := s64 (word s (h + off_heap_size) + diff) in
  if HEAP_MAX_SIZE <? u64 new_size then ret (-1)
  else
    let msize := word s (h + off_mprotect_size) in
    ok <-
      (if msize <? u64 new_size then
         r <- mprotect (h +w msize) (new_size -w msize) PROT_RW ;;
         if negb (r =? 0) then ret false
         else st (h + off_mprotect_size) new_size ;;; ret true
       else ret true) ;;
    if negb ok then ret (-2)
    else st (h + off_heap_size) new_size ;;; ret 0.

(** Without [check_may_shrink_heap] the tail is only advised away
    ([MADV_DONTNEED] keeps the contents of shared memory). *)
Definition shrink_heap (h diff : Z) : M Z :=
  s <- get ;;
  let new_size := s64 (word s (h + off_heap_size) - diff) in
  if new_size <? sizeof_heap_info then ret (-1)
  else
    ok <-
      (if may_shrink_heap (st_env s) then
         r <- MMAP (h +w new_size) (u64 diff) PROT_NONE MAP_FIXED ;;
         if r =? MAP_FAILED then ret false
         else st (h + off_mprotect_size) new_size ;;; ret true
       else ret true) ;;
    if negb ok then ret (-2)
    else st (h + off_heap_size) new_size ;;; ret 0.

Definition delete_heap (heap : Z) : M unit :=
  s <- get ;;
  when_ (heap + HEAP_MAX_SIZE =? aligned_heap_area (st_ag s))
    (modify (upd_ag (put_aligned_heap_area 0))) ;;;
  munmap heap HEAP_MAX_SIZE.

(** The loop of [heap_trim]: delete heaps that hold nothing but [top].
    Returns the remaining heap and its top chunk. *)
Fixpoint heap_trim_loop (fuel : nat) (ar_ptr heap top_chunk pad : Z) : M (Z * Z) :=
  match fuel with
  | O => nofuel
  | S k =>
      s <- get ;;
      let pagesz := dl_pagesize (st_gl s) in
      if negb (top_chunk =? chunk_at_offset heap sizeof_heap_info) then ret (heap, top_chunk)
      else
        let prev_heap := word s (heap + off_prev) in
        let psize := s64 (word s (prev_heap + off_heap_size) - (MINSIZE - 2 * SIZE_SZ)) in
        let p := chunk_at_offset prev_heap psize in
        let misalign := p &w MALLOC_ALIGN_MASK in
        let p := chunk_at_offset prev_heap (psize - misalign) in
        assert_ (size_ s p =? PREV_INUSE) "heap_trim: p->size == (0 | PREV_INUSE)" ;;;
        let p := prev_chunk s p in
        let new_size := s64 (chunksize s p + (MINSIZE - 2 * SIZE_SZ) + misalign) in
        assert_ ((0 <? new_size) && (new_size <? 2 * MINSIZE)) "heap_trim: new_size" ;;;
        let new_size := if negb (prev_inuse s p) then s64 (new_size + prev_size s p) else new_size in
        assert_ ((0 <? new_size) && (new_size <? HEAP_MAX_SIZE)) "heap_trim: new_size" ;;;
        if u64 (new_size + (HEAP_MAX_SIZE - word s (prev_heap + off_heap_size)))
             <? u64 (pad + MINSIZE + pagesz)
        then ret (heap, top_chunk)
        else
          let hsize := word s (heap + off_heap_size) in
          set_system_mem ar_ptr (system_mem s ar_ptr -w hsize) ;;;
          modify (upd_ag (fun g => put_arena_mem (arena_mem g -w hsize) g)) ;;;
          delete_heap heap ;;;
          let heap := prev_heap in
          s <- get ;;
          p <- (if negb (prev_inuse s p) then
                  let p := prev_chunk s p in unlink ar_ptr p ;;; ret p
                else ret p) ;;
          s <- get ;;
          assert_ (((p +w new_size) &w (pagesz - 1)) =? 0) "heap_trim: page aligned" ;;;
          assert_ ((p +w new_size) =? (heap +w word s (heap + off_heap_size))) "heap_trim: heap end" ;;;
          set_top ar_ptr p ;;;
          set_head p (new_size |w PREV_INUSE) ;;;
          heap_trim_loop k ar_ptr heap p pad
  end.

Definition heap_trim (fuel : nat) (heap pad : Z) : M Z :=
  s <- get ;;
  let ar_ptr := word s (heap + off_ar_ptr) in
  let pagesz := dl_pagesize (st_gl s) in
  let* (heap, top_chunk) := heap_trim_loop fuel ar_ptr heap (top s ar_ptr) pad in
  s <- get ;;
  let top_size := chunksize s top_chunk in
  if top_size <? trim_threshold (par s) then ret 0
  else
    let top_area := s64 (top_size - MINSIZE - 1) in
    if (top_area <? 0) || (u64 top_area <=? pad) then ret 0
    else
      let extra := s64 (ALIGN_DOWN (u64 (top_area - pad)) pagesz) in
      if extra =? 0 then ret 0
      else
        r <- shrink_heap heap extra ;;
        if negb (r =? 0) then ret 0
        else
          s <- get ;;
          set_system_mem ar_ptr (system_mem s ar_ptr -w extra) ;;;
          modify (upd_ag (fun g => put_arena_mem (arena_mem g -w extra) g)) ;;;
          set_head top_chunk (u64 (top_size - extra) |w PREV_INUSE) ;;;
          ret 1.

(** ** [_int_free] *)

Definition free_errout (av p : Z) (have_lock locked : bool) (errstr : string) : M unit :=
  when_ (negb have_lock && locked) (mutex_unlock av) ;;;
  s <- get ;;
  malloc_printerr (check_action (st_gl s)) errstr (chunk2mem p) av.

(** The size of the chunk after [p] makes no sense. *)
Definition bad_next_size (s : state) (av p size : Z) : bool :=
  (size_ s (chunk_at_offset p size) <=? 2 * SIZE_SZ)
  || (system_mem s av <=? chunksize s (chunk_at_offset p size)).

(** The fastbin branch. *)
Definition int_free_fast (av p size : Z) (have_lock : bool) : M unit :=
  s <- get ;;
  let* (bad, locked) :=
    (if bad_next_size s av p size then
       if have_lock then ret (true, false)
       else
         mutex_lock av ;;;
         s <- get ;;
         if bad_next_size s av p size then ret (true, true)
         else mutex_unlock av ;;; ret (false, false)
     else ret (false, false)) in
  if (bad : bool) then free_errout av p have_lock locked "free(): invalid next size (fast)"
  else
    free_perturb (chunk2mem p) (size - 2 * SIZE_SZ) ;;;
    set_fastchunks av ;;;
    let idx := fastbin_index size in
    s <- get ;;
    let old := fastbin s av idx in
    if old =? p then free_errout av p have_lock false "double free or corruption (fasttop)"
    else
      let old_idx := if have_lock && truthy old then fastbin_index (chunksize s old) else u32 (Z.lnot 0) in
      set_fd p old ;;;
      set_fastbin av idx p ;;;
      if have_lock && truthy old && negb (old_idx =? idx) then
        free_errout av p have_lock false "invalid fastbin entry (free)"
      else ret tt.

(** The checks of the consolidating branch before it writes: the error the
    code reports, if any. *)
Definition int_free_check (s : state) (av p size : Z) : option string :=
  let nextchunk := chunk_at_offset p size in
  if p =? top s av then Some "double free or corruption (top)"%string
  else if contiguous s av && ((top s av +w chunksize s (top s av)) <=? nextchunk) then
    Some "double free or corruption (out)"%string
  else if negb (prev_inuse s nextchunk) then Some "double free or corruption (!prev)"%string
  else if bad_next_size s av p size then Some "free(): invalid next size (normal)"%string
  else None.

(** Consolidate [p] with its neighbours and place it on the unsorted list or
    into [top]; the new size, or the chunk at which the unsorted list was
    found corrupted. *)
Definition int_free_consolidate (av p size : Z) : M (Z + Z) :=
  s <- get ;;
  let nextchunk := chunk_at_offset p size in
  let nextsize := chunksize s nextchunk in
  let* (p, size) :=
    (if negb (prev_inuse s p) then
       let prevsize := prev_size s p in
       let size := size +w prevsize in
       let p := chunk_at_offset p (- prevsize) in
       unlink av p ;;; ret (p, size)
     else ret (p, size)) in
  s <- get ;;
  if negb (nextchunk =? top s av) then
    let nextinuse := inuse_bit_at_offset s nextchunk nextsize in
    size <-
      (if negb nextinuse then
         unlink av nextchunk ;;; ret (size +w nextsize)
       else clear_inuse_bit_at_offset nextchunk 0 ;;; ret size) ;;
    s <- get ;;
    let bck := unsorted_chunks av in
    let fwd := fd s bck in
    if negb (bk s fwd =? bck) then ret (inr p)
    else
      set_fd p fwd ;;;
      set_bk p bck ;;;
      when_ (negb (in_smallbin_range size))
        (set_fd_nextsize p 0 ;;; set_bk_nextsize p 0) ;;;
      set_fd bck p ;;;
      set_bk fwd p ;;;
      set_head p (size |w PREV_INUSE) ;;;
      set_foot p size ;;;
      ret (inl size)
  else
    let size := size +w nextsize in
    set_head p (size |w PREV_INUSE) ;;;
    set_top av p ;;;
    ret (inl size).

(** After freeing a large space: consolidate fastbins, then trim. *)
Definition int_free_trim (fuel : nat) (av size : Z) : M unit :=
  when_ (FASTBIN_CONSOLIDATION_THRESHOLD <=? size)
    (s <- get ;;
     when_ (have_fastchunks s av) (malloc_consolidate fuel av) ;;;
     s <- get ;;
     if av =? main_arena (st_gl s) then
       when_ (trim_threshold (par s) <=? chunksize s (top s av))
         (_ <- systrim (top_pad (par s)) av ;; ret tt)
     else
       let heap := heap_for_ptr (top s av) in
       assert_ (word s (heap + off_ar_ptr) =? av) "_int_free: heap->ar_ptr == av" ;;;
       _ <- heap_trim fuel heap (top_pad (par s)) ;; ret tt).

Definition _int_free (fuel : nat) (av p : Z) (have_lock : bool) : M unit :=
  s <- get ;;
  let size := chunksize s p in
  if (u64 (- size) <? p) || misaligned_chunk p then
    free_errout av p have_lock false "free(): invalid pointer"
  else if (size <? MINSIZE) || negb (aligned_OK size) then
    free_errout av p have_lock false "free(): invalid size"
  else if size <=? get_max_fast s then int_free_fast av p size have_lock
  else if negb (chunk_is_mmapped s p) then
    when_ (negb have_lock) (mutex_lock av) ;;;
    s <- get ;;
    match int_free_check s av p size with
    | Some errstr => free_errout av p have_lock (negb have_lock) errstr
    | None =>
        free_perturb (chunk2mem p) (size - 2 * SIZE_SZ) ;;;
        r <- int_free_consolidate av p size ;;
        match r with
        | inr p => free_errout av p have_lock (negb have_lock) "free(): corrupted unsorted chunks"
        | inl size =>
            int_free_trim fuel av size ;;;
            when_ (negb have_lock) (mutex_unlock av)
        end
    end
  else munmap_chunk p.

End Core.
