(* ===== verification/MallocInt.v ===== *)
(** * [sysmalloc], [_int_malloc], [_int_shm_realloc] and [_int_memalign]

    The allocating routines of [src/libipc/malloc/malloc.c].  [_int_malloc]
    is split at the comments that split it in the source: fastbin, small bin,
    unsorted list, large bin, binmap scan, top. *)

From S2P Require Import Prelude MallocState MallocCore.

Section Int.
Context `{PS : PageSource}.

(** ** [sysmalloc] *)

(** The [try_mmap] block: map the request directly.  [Some mem] is the early
    return, [None] falls through. *)
Definition sysmalloc_mmap (nb : Z) : M (option Z) :=
  s <- get ;;
  let pagesize := dl_pagesize (st_gl s) in
  let size :=
    if MALLOC_ALIGNMENT =? 2 * SIZE_SZ then ALIGN_UP (nb +w SIZE_SZ) pagesize
    else ALIGN_UP (nb +w SIZE_SZ +w MALLOC_ALIGN_MASK) pagesize in
  if nb <? size then
    mm <- MMAP 0 size PROT_RW 0 ;;
    if negb (mm =? MAP_FAILED) then
      let front_misalign :=
        if MALLOC_ALIGNMENT =? 2 * SIZE_SZ then 0 else chunk2mem mm &w MALLOC_ALIGN_MASK in
      when_ (MALLOC_ALIGNMENT =? 2 * SIZE_SZ)
        (assert_ ((chunk2mem mm &w MALLOC_ALIGN_MASK) =? 0) "sysmalloc: chunk2mem (mm) aligned") ;;;
      p <- (if 0 <? front_misalign then
              let correction := MALLOC_ALIGNMENT - front_misalign in
              let p := mm + correction in
              set_prev_size p correction ;;;
              set_head p ((size -w correction) |w IS_MMAPPED) ;;;
              ret p
            else
              set_head mm (size |w IS_MMAPPED) ;;; ret mm) ;;
      s <- get ;;
      let new := s32 (n_mmaps (par s) + 1) in
      set_par (par_n_mmaps new) ;;;
      set_par (fun q => par_max_n_mmaps (Z.max (max_n_mmaps q) new) q) ;;;
      let sum := mmapped_mem (par s) +w size in
      set_par (par_mmapped_mem sum) ;;;
      set_par (fun q => par_max_mmapped_mem (Z.max (max_mmapped_mem q) sum) q) ;;;
      ret (Some (chunk2mem p))
    else ret None
  else ret None.

(** Extending a non-main arena: grow its heap or start a new one.
    [false] asks for the [try_mmap] fallback. *)
Definition sysmalloc_heap (fuel : nat) (nb av old_top old_size : Z) : M bool :=
  s <- get ;;
  let old_heap := heap_for_ptr old_top in
  let old_heap_size := word s (old_heap + off_heap_size) in
  let want := s64 (MINSIZE + nb - old_size) in
  g <- (if 0 <? want then grow_heap old_heap want else ret (-1)) ;;
  if g =? 0 then
    s <- get ;;
    let d := word s (old_heap + off_heap_size) -w old_heap_size in
    set_system_mem av (system_mem s av +w d) ;;;
    modify (upd_ag (fun g => put_arena_mem (arena_mem g +w d) g)) ;;;
    set_head old_top (((old_heap +w word s (old_heap + off_heap_size)) -w old_top) |w PREV_INUSE) ;;;
    ret true
  else
    heap <- new_heap (nb +w (MINSIZE + sizeof_heap_info)) (top_pad (par s)) ;;
    if truthy heap then
      st (heap + off_ar_ptr) av ;;;
      st (heap + off_prev) old_heap ;;;
      s <- get ;;
      let hsize := word s (heap + off_heap_size) in
      set_system_mem av (system_mem s av +w hsize) ;;;
      modify (upd_ag (fun g => put_arena_mem (arena_mem g +w hsize) g)) ;;;
      let t := chunk_at_offset heap sizeof_heap_info in
      set_top av t ;;;
      set_head t ((hsize -w sizeof_heap_info) |w PREV_INUSE) ;;;
      let old_size := (old_size -w MINSIZE) &w !w MALLOC_ALIGN_MASK in
      set_head (chunk_at_offset old_top (old_size + 2 * SIZE_SZ)) (0 |w PREV_INUSE) ;;;
      (if MINSIZE <=? old_size then
         set_head (chunk_at_offset old_top old_size) ((2 * SIZE_SZ) |w PREV_INUSE) ;;;
         set_foot (chunk_at_offset old_top old_size) (2 * SIZE_SZ) ;;;
         set_head old_top (old_size |w PREV_INUSE |w NON_MAIN_ARENA) ;;;
         _int_free fuel av old_top true
       else
         set_head old_top ((old_size + 2 * SIZE_SZ) |w PREV_INUSE) ;;;
         set_foot old_top (old_size + 2 * SIZE_SZ)) ;;;
      ret true
    else ret false.

(** Replace [top] by the new region [brk, brk + size) and fence off the old
    one: the non-extending part of the main-arena case. *)
Definition sysmalloc_new_top (fuel : nat) (av old_top old_size old_end brk size snd_brk : Z) : M unit :=
  s <- get ;;
  let pagesize := dl_pagesize (st_gl s) in
  let* (correction, aligned_brk, snd_brk) :=
    (if contiguous s av then
       when_ (truthy old_size) (set_system_mem av (system_mem s av +w (brk - old_end))) ;;;
       let front_misalign := chunk2mem brk &w MALLOC_ALIGN_MASK in
       let correction := if 0 <? front_misalign then MALLOC_ALIGNMENT - front_misalign else 0 in
       let aligned_brk := brk + correction in
       let correction := s64 (correction + old_size) in
       let end_misalign := u64 (brk + size + correction) in
       let correction := s64 (correction + (ALIGN_UP end_misalign pagesize - end_misalign)) in
       assert_ (0 <=? correction) "sysmalloc: correction >= 0" ;;;
       let snd_brk := MORECORE correction in
       if snd_brk =? MORECORE_FAILURE then ret (0, aligned_brk, MORECORE 0)
       else ret (correction, aligned_brk, snd_brk)
     else
       when_ (MALLOC_ALIGNMENT =? 2 * SIZE_SZ)
         (assert_ ((chunk2mem brk &w MALLOC_ALIGN_MASK) =? 0) "sysmalloc: chunk2mem (brk) aligned") ;;;
       let front_misalign :=
         if MALLOC_ALIGNMENT =? 2 * SIZE_SZ then 0 else chunk2mem brk &w MALLOC_ALIGN_MASK in
       let aligned_brk := if 0 <? front_misalign then brk + (MALLOC_ALIGNMENT - front_misalign) else brk in
       ret (0, aligned_brk, if snd_brk =? MORECORE_FAILURE then MORECORE 0 else snd_brk)) in
  when_ (negb (snd_brk =? MORECORE_FAILURE))
    (set_top av aligned_brk ;;;
     set_head aligned_brk (u64 (snd_brk - aligned_brk + correction) |w PREV_INUSE) ;;;
     s <- get ;;
     set_system_mem av (system_mem s av +w correction) ;;;
     when_ (negb (old_size =? 0))
       (let old_size := (old_size -w 4 * SIZE_SZ) &w !w MALLOC_ALIGN_MASK in
        set_head old_top (old_size |w PREV_INUSE) ;;;
        set_size (chunk_at_offset old_top old_size) ((2 * SIZE_SZ) |w PREV_INUSE) ;;;
        set_size (chunk_at_offset old_top (old_size + 2 * SIZE_SZ)) ((2 * SIZE_SZ) |w PREV_INUSE) ;;;
        when_ (MINSIZE <=? old_size) (_int_free fuel av old_top true))).

(** The main-arena case: [MORECORE], then [mmap] as its backup. *)
Definition sysmalloc_main (fuel : nat) (nb av old_top old_size old_end : Z) : M unit :=
  s <- get ;;
  let pagesize := dl_pagesize (st_gl s) in
  let size := u64 (nb + top_pad (par s) + MINSIZE) in
  let size := if contiguous s av then size -w old_size else size in
  let size := ALIGN_UP size pagesize in
  let brk := if 0 <? s64 size then MORECORE (s64 size) else MORECORE_FAILURE in
  let* (brk, size, snd_brk) :=
    (if negb (brk =? MORECORE_FAILURE) then ret (brk, size, MORECORE_FAILURE)
     else
       let size := if contiguous s av then ALIGN_UP (size +w old_size) pagesize else size in
       let size := if size <? MMAP_AS_MORECORE_SIZE then MMAP_AS_MORECORE_SIZE else size in
       if nb <? size then
         mbrk <- MMAP 0 size PROT_RW 0 ;;
         if negb (mbrk =? MAP_FAILED) then
           set_noncontiguous av ;;; ret (mbrk, size, mbrk + size)
         else ret (brk, size, MORECORE_FAILURE)
       else ret (brk, size, MORECORE_FAILURE)) in
  when_ (negb (brk =? MORECORE_FAILURE))
    (set_par (fun q => if sbrk_base q =? 0 then par_sbrk_base brk q else q) ;;;
     s <- get ;;
     set_system_mem av (system_mem s av +w size) ;;;
     s <- get ;;
     if (brk =? old_end) && (snd_brk =? MORECORE_FAILURE) then
       set_head old_top ((size +w old_size) |w PREV_INUSE)
     else if contiguous s av && truthy old_size && (brk <? old_end) then
       malloc_printerr 3 "break adjusted to free malloc space" brk av
     else sysmalloc_new_top fuel av old_top old_size old_end brk size snd_brk).

(** The allocation from [top] that ends [sysmalloc]. *)
Definition sysmalloc_finish (nb av : Z) : M Z :=
  s <- get ;;
  when_ (max_system_mem s av <? system_mem s av) (set_max_system_mem av (system_mem s av)) ;;;
  s <- get ;;
  let p := top s av in
  let size := chunksize s p in
  if (nb +w MINSIZE) <=? size then
    let remainder_size := size -w nb in
    let remainder := chunk_at_offset p nb in
    set_top av remainder ;;;
    set_head p (nb |w PREV_INUSE |w arena_flag s av) ;;;
    set_head remainder (remainder_size |w PREV_INUSE) ;;;
    ret (chunk2mem p)
  else set_errno ENOMEM ;;; ret 0.

(** From the recording of the old top on; the second pass of a non-main
    arena comes through [goto try_mmap]. *)
Definition sysmalloc_body (fuel : nat) (nb av : Z) (tried_mmap : bool) (again : M Z) : M Z :=
  s <- get ;;
  let pagesize := dl_pagesize (st_gl s) in
  let old_top := top s av in
  let old_size := chunksize s old_top in
  let old_end := chunk_at_offset old_top old_size in
  assert_ (((old_top =? initial_top av) && (old_size =? 0))
           || ((MINSIZE <=? old_size) && prev_inuse s old_top
               && ((old_end &w (pagesize - 1)) =? 0))) "sysmalloc: old_top" ;;;
  assert_ (old_size <? nb +w MINSIZE) "sysmalloc: old_size < nb + MINSIZE" ;;;
  if negb (av =? main_arena (st_gl s)) then
    ok <- sysmalloc_heap fuel nb av old_top old_size ;;
    if negb ok && negb tried_mmap then again else sysmalloc_finish nb av
  else
    sysmalloc_main fuel nb av old_top old_size old_end ;;; sysmalloc_finish nb av.

Definition sysmalloc (fuel : nat) (nb av : Z) : M Z :=
  s <- get ;;
  let direct := (av =? 0)
                || ((mmap_threshold (par s) <=? nb) && (n_mmaps (par s) <? n_mmaps_max (par s))) in
  let second :=
    r <- sysmalloc_mmap nb ;;
    match r with
    | Some p => ret p
    | None => sysmalloc_body fuel nb av true (ret 0)
    end in
  if direct then
    r <- sysmalloc_mmap nb ;;
    match r with
    | Some p => ret p
    | None => if av =? 0 then ret 0 else sysmalloc_body fuel nb av true (ret 0)
    end
  else sysmalloc_body fuel nb av false second.

(** ** [_int_malloc] *)

(** The fastbin path. *)
Definition int_malloc_fast (av nb bytes : Z) : M (option Z) :=
  s <- get ;;
  if nb <=? get_max_fast s then
    let idx := fastbin_index nb in
    let victim := fastbin s av idx in
    if victim =? 0 then ret None
    else
      set_fastbin av idx (fd s victim) ;;;
      s <- get ;;
      if negb (fastbin_index (chunksize s victim) =? idx) then
        malloc_printerr (check_action (st_gl s)) "malloc(): memory corruption (fast)"
          (chunk2mem victim) av ;;; ret (Some 0)
      else
        alloc_perturb (chunk2mem victim) bytes ;;; ret (Some (chunk2mem victim))
  else ret None.

(** The small-bin path, or the consolidation of a large request; also the
    bin index of the request. *)
Definition int_malloc_small (fuel : nat) (av nb bytes : Z) : M (option Z) :=
  s <- get ;;
  if in_smallbin_range nb then
    let bin := bin_at av (smallbin_index nb) in
    let victim := last s bin in
    if victim =? bin then ret None
    else if victim =? 0 then malloc_consolidate fuel av ;;; ret None
    else
      let bck := bk s victim in
      if negb (fd s bck =? victim) then
        malloc_printerr (check_action (st_gl s)) "malloc(): smallbin double linked list corrupted"
          (chunk2mem victim) av ;;; ret (Some 0)
      else
        set_inuse_bit_at_offset victim nb ;;;
        set_bk bin bck ;;;
        set_fd bck bin ;;;
        s <- get ;;
        when_ (negb (av =? main_arena (st_gl s)))
          (set_size victim (size_ s victim |w NON_MAIN_ARENA)) ;;;
        alloc_perturb (chunk2mem victim) bytes ;;;
        ret (Some (chunk2mem victim))
  else
    when_ (have_fastchunks s av) (malloc_consolidate fuel av) ;;; ret None.

Definition request_index (nb : Z) : Z :=
  if in_smallbin_range nb then smallbin_index nb else largebin_index nb.

(** [while ((unsigned long) size < fwd->size) fwd = fwd->fd_nextsize;] *)
Fixpoint large_position (fuel : nat) (size fwd : Z) : M Z :=
  match fuel with
  | O => nofuel
  | S k =>
      s <- get ;;
      if size <? size_ s fwd then
        let fwd := fd_nextsize s fwd in
        assert_ ((size_ s fwd &w NON_MAIN_ARENA) =? 0) "_int_malloc: fwd->size & NON_MAIN_ARENA" ;;;
        large_position k size fwd
      else ret fwd
  end.

(** Where a large chunk goes in its bin: the pair [(bck, fwd)], with the list
    of distinct sizes already updated. *)
Definition large_insert (fuel : nat) (victim size bck : Z) : M (Z * Z) :=
  s <- get ;;
  let fwd := fd s bck in
  if negb (fwd =? bck) then
    let size := size |w PREV_INUSE in
    assert_ ((size_ s (bk s bck) &w NON_MAIN_ARENA) =? 0) "_int_malloc: bck->bk->size & NON_MAIN_ARENA" ;;;
    if size <? size_ s (bk s bck) then
      let fwd := bck in
      let bck := bk s bck in
      set_fd_nextsize victim (fd s fwd) ;;;
      s <- get ;; set_bk_nextsize victim (bk_nextsize s (fd s fwd)) ;;;
      s <- get ;; set_fd_nextsize (bk_nextsize s victim) victim ;;;
      s <- get ;; set_bk_nextsize (fd s fwd) victim ;;;
      ret (bck, fwd)
    else
      assert_ ((size_ s fwd &w NON_MAIN_ARENA) =? 0) "_int_malloc: fwd->size & NON_MAIN_ARENA" ;;;
      fwd <- large_position fuel size fwd ;;
      s <- get ;;
      fwd <- (if size =? size_ s fwd then ret (fd s fwd)
              else
                set_fd_nextsize victim fwd ;;;
                s <- get ;; set_bk_nextsize victim (bk_nextsize s fwd) ;;;
                set_bk_nextsize fwd victim ;;;
                s <- get ;; set_fd_nextsize (bk_nextsize s victim) victim ;;;
                ret fwd) ;;
      s <- get ;;
      ret (bk s fwd, fwd)
  else
    set_bk_nextsize victim victim ;;; set_fd_nextsize victim victim ;;; ret (bck, fwd).

(** "place chunk in bin". *)
Definition place_in_bin (fuel : nat) (av victim size : Z) : M unit :=
  let victim_index := if in_smallbin_range size then smallbin_index size else largebin_index size in
  let bin := bin_at av victim_index in
  let* (bck, fwd) :=
    (if in_smallbin_range size then s <- get ;; ret (bin, fd s bin)
     else large_insert fuel victim size bin) in
  mark_bin av victim_index ;;;
  set_bk victim bck ;;;
  set_fd victim fwd ;;;
  set_bk fwd victim ;;;
  set_fd bck victim.

(** Split the last remainder: the exception to best fit. *)
Definition split_last_remainder (av victim size nb bytes : Z) : M Z :=
  let remainder_size := size -w nb in
  let remainder := chunk_at_offset victim nb in
  let u := unsorted_chunks av in
  set_fd u remainder ;;;
  set_bk u remainder ;;;
  set_last_remainder av remainder ;;;
  set_fd remainder u ;;;
  set_bk remainder u ;;;
  when_ (negb (in_smallbin_range remainder_size))
    (set_fd_nextsize remainder 0 ;;; set_bk_nextsize remainder 0) ;;;
  s <- get ;;
  set_head victim (nb |w PREV_INUSE |w arena_flag s av) ;;;
  set_head remainder (remainder_size |w PREV_INUSE) ;;;
  set_foot remainder remainder_size ;;;
  alloc_perturb (chunk2mem victim) bytes ;;;
  ret (chunk2mem victim).

(** One turn of the loop over the unsorted list. *)
Definition unsorted_step (fuel : nat) (av victim nb bytes : Z) : M (option Z) :=
  s <- get ;;
  let u := unsorted_chunks av in
  let bck := bk s victim in
  when_ ((size_ s victim <=? 2 * SIZE_SZ) || (system_mem s av <? size_ s victim))
    (malloc_printerr (check_action (st_gl s)) "malloc(): memory corruption" (chunk2mem victim) av) ;;;
  s <- get ;;
  let size := chunksize s victim in
  if in_smallbin_range nb && (bck =? u) && (victim =? last_remainder s av)
     && ((nb +w MINSIZE) <? size)
  then p <- split_last_remainder av victim size nb bytes ;; ret (Some p)
  else
    set_bk u bck ;;;
    set_fd bck u ;;;
    if size =? nb then
      set_inuse_bit_at_offset victim size ;;;
      s <- get ;;
      when_ (negb (av =? main_arena (st_gl s)))
        (set_size victim (size_ s victim |w NON_MAIN_ARENA)) ;;;
      alloc_perturb (chunk2mem victim) bytes ;;;
      ret (Some (chunk2mem victim))
    else place_in_bin fuel av victim size ;;; ret None.

(** The loop itself, with at most [MAX_ITERS] turns. *)
Fixpoint unsorted_loop (fuel : nat) (iters : nat) (av nb bytes : Z) : M (option Z) :=
  match iters with
  | O => ret None
  | S k =>
      s <- get ;;
      let victim := bk s (unsorted_chunks av) in
      if victim =? unsorted_chunks av then ret None
      else
        r <- unsorted_step fuel av victim nb bytes ;;
        match r with
        | Some p => ret (Some p)
        | None => unsorted_loop fuel k av nb bytes
        end
  end.

(** Hand out [victim], of [size] at least [nb], already unlinked: whole, or
    split with the remainder going to the unsorted list.  [advertise]: record
    the remainder as [last_remainder]. *)
Definition take_chunk (av victim size nb bytes : Z) (advertise : bool) (errstr : string) : M Z :=
  let remainder_size := size -w nb in
  ok <-
    (if remainder_size <? MINSIZE then
       set_inuse_bit_at_offset victim size ;;;
       s <- get ;;
       when_ (negb (av =? main_arena (st_gl s)))
         (set_size victim (size_ s victim |w NON_MAIN_ARENA)) ;;;
       ret true
     else
       let remainder := chunk_at_offset victim nb in
       s <- get ;;
       let bck := unsorted_chunks av in
       let fwd := fd s bck in
       if negb (bk s fwd =? bck) then
         malloc_printerr (check_action (st_gl s)) errstr (chunk2mem victim) av ;;; ret false
       else
         set_bk remainder bck ;;;
         set_fd remainder fwd ;;;
         set_fd bck remainder ;;;
         set_bk fwd remainder ;;;
         when_ advertise (set_last_remainder av remainder) ;;;
         when_ (negb (in_smallbin_range remainder_size))
           (set_fd_nextsize remainder 0 ;;; set_bk_nextsize remainder 0) ;;;
         s <- get ;;
         set_head victim (nb |w PREV_INUSE |w arena_flag s av) ;;;
         set_head remainder (remainder_size |w PREV_INUSE) ;;;
         set_foot remainder remainder_size ;;;
         ret true) ;;
  if (ok : bool) then alloc_perturb (chunk2mem victim) bytes ;;; ret (chunk2mem victim)
  else ret 0.

(** [while (chunksize (victim) < nb) victim = victim->bk_nextsize;] *)
Fixpoint large_search (fuel : nat) (victim nb : Z) : M Z :=
  match fuel with
  | O => nofuel
  | S k =>
      s <- get ;;
      if chunksize s victim <? nb then large_search k (bk_nextsize s victim) nb
      else ret victim
  end.

(** The scan of the request's own bin, for a large request. *)
Definition int_malloc_large (fuel : nat) (av nb bytes idx : Z) : M (option Z) :=
  if in_smallbin_range nb then ret None
  else
    s <- get ;;
    let bin := bin_at av idx in
    let victim := first s bin in
    if negb (victim =? bin) && (nb <=? size_ s victim) then
      victim <- large_search fuel (bk_nextsize s victim) nb ;;
      s <- get ;;
      let size := chunksize s victim in
      let victim :=
        if negb (victim =? last s bin) && (size_ s victim =? size_ s (fd s victim))
        then fd s victim else victim in
      unlink av victim ;;;
      p <- take_chunk av victim size nb bytes false "malloc(): corrupted unsorted chunks" ;;
      ret (Some p)
    else ret None.

(** [do { if (++block >= BINMAPSIZE) goto use_top; }
    while ((map = av->binmap[block]) == 0);]  [None] is [use_top]. *)
Fixpoint next_block (fuel : nat) (s : state) (av block : Z) : option (Z * Z) :=
  match fuel with
  | O => None
  | S k =>
      let block := block + 1 in
      if BINMAPSIZE <=? block then None
      else if binmap s av block =? 0 then next_block k s av block
      else Some (block, binmap s av block)
  end.

(** [while ((bit & map) == 0) { bin = next_bin (bin); bit <<= 1; assert (bit != 0); }] *)
Fixpoint advance_bin (fuel : nat) (bin bit map : Z) : M (Z * Z) :=
  match fuel with
  | O => nofuel
  | S k =>
      if (bit &w map) =? 0 then
        let bin := next_bin bin in
        let bit := u32 (Z.shiftl bit 1) in
        assert_ (negb (bit =? 0)) "_int_malloc: bit != 0" ;;;
        advance_bin k bin bit map
      else ret (bin, bit)
  end.

(** The search by binmap, starting with the next largest bin.  [None] is
    [use_top]. *)
Fixpoint scan_bins (fuel : nat) (av nb bytes bin block map bit : Z) : M (option Z) :=
  match fuel with
  | O => nofuel
  | S k =>
      s <- get ;;
      let start :=
        if (map <? bit) || (bit =? 0) then
          match next_block (Z.to_nat BINMAPSIZE) s av block with
          | None => None
          | Some (block, map) => Some (bin_at av (Z.shiftl block BINMAPSHIFT), block, map, 1)
          end
        else Some (bin, block, map, bit) in
      match start with
      | None => ret None
      | Some (bin, block, map, bit) =>
          let* (bin, bit) := advance_bin 33 bin bit map in
          s <- get ;;
          let victim := last s bin in
          if victim =? bin then
            let map := map &w u32 (Z.lnot bit) in
            set_binmap av block map ;;;
            scan_bins k av nb bytes (next_bin bin) block map (u32 (Z.shiftl bit 1))
          else
            let size := chunksize s victim in
            assert_ (nb <=? size) "_int_malloc: size >= nb" ;;;
            unlink av victim ;;;
            p <- take_chunk av victim size nb bytes (in_smallbin_range nb)
                   "malloc(): corrupted unsorted chunks 2" ;;
            ret (Some p)
      end
  end.

(** [use_top]: split [top] when it is large enough. *)
Definition int_malloc_top (av nb bytes : Z) : M (option Z) :=
  s <- get ;;
  let victim := top s av in
  let size := chunksize s victim in
  if (nb +w MINSIZE) <=? size then
    let remainder_size := size -w nb in
    let remainder := chunk_at_offset victim nb in
    set_top av remainder ;;;
    set_head victim (nb |w PREV_INUSE |w arena_flag s av) ;;;
    set_head remainder (remainder_size |w PREV_INUSE) ;;;
    alloc_perturb (chunk2mem victim) bytes ;;;
    ret (Some (chunk2mem victim))
  else ret None.

(** The outer [for (;; )]: one turn unless fast chunks have to be
    consolidated first. *)
Fixpoint int_malloc_loop (fuel turns : nat) (av nb bytes : Z) : M Z :=
  match turns with
  | O => nofuel
  | S k =>
      r <- unsorted_loop fuel (Z.to_nat MAX_ITERS) av nb bytes ;;
      match r with
      | Some p => ret p
      | None =>
          r <- int_malloc_large fuel av nb bytes (request_index nb) ;;
          match r with
          | Some p => ret p
          | None =>
              s <- get ;;
              let idx := request_index nb + 1 in
              r <- scan_bins fuel av nb bytes (bin_at av idx) (idx2block idx)
                     (binmap s av (idx2block idx)) (idx2bit idx) ;;
              match r with
              | Some p => ret p
              | None =>
                  r <- int_malloc_top av nb bytes ;;
                  match r with
                  | Some p => ret p
                  | None =>
                      s <- get ;;
                      if have_fastchunks s av then
                        malloc_consolidate fuel av ;;; int_malloc_loop fuel k av nb bytes
                      else
                        p <- sysmalloc fuel nb av ;;
                        when_ (truthy p) (alloc_perturb p bytes) ;;;
                        ret p
                  end
              end
          end
      end
  end.

Definition _int_malloc (fuel : nat) (av bytes : Z) : M Z :=
  match checked_request2size bytes with
  | None => set_errno ENOMEM ;;; ret 0
  | Some nb =>
      if av =? 0 then
        p <- sysmalloc fuel nb av ;;
        when_ (truthy p) (alloc_perturb p bytes) ;;;
        ret p
      else
        r <- int_malloc_fast av nb bytes ;;
        match r with
        | Some p => ret p
        | None =>
            r <- int_malloc_small fuel av nb bytes ;;
            match r with
            | Some p => ret p
            | None => int_malloc_loop fuel 3 av nb bytes
            end
        end
  end.

(** ** [_int_shm_realloc] *)

(** The copy of the old contents, unrolled for at most nine words. *)
Definition realloc_copy (d src copysize : Z) : M unit :=
  let ncopies := u32 (copysize / SIZE_SZ) in
  assert_ (3 <=? ncopies) "_int_realloc: ncopies >= 3" ;;;
  if 9 <? ncopies then modify (upd_mem (mem_copy d src (Z.to_nat (copysize / SIZE_SZ))))
  else
    modify (upd_mem (mem_copy d src 3)) ;;;
    when_ (4 <? ncopies)
      (modify (upd_mem (mem_copy (d + 24) (src + 24) 2)) ;;;
       when_ (6 <? ncopies)
         (modify (upd_mem (mem_copy (d + 40) (src + 40) 2)) ;;;
          when_ (8 <? ncopies) (modify (upd_mem (mem_copy (d + 56) (src + 56) 2))))).

(** "If possible, free extra space in old or extended chunk". *)
Definition realloc_split (fuel : nat) (av newp newsize nb : Z) : M Z :=
  assert_ (nb <=? newsize) "_int_realloc: newsize >= nb" ;;;
  s <- get ;;
  let remainder_size := newsize -w nb in
  (if remainder_size <? MINSIZE then
     set_head_size newp (newsize |w arena_flag s av) ;;;
     set_inuse_bit_at_offset newp newsize
   else
     let remainder := chunk_at_offset newp nb in
     set_head_size newp (nb |w arena_flag s av) ;;;
     set_head remainder (remainder_size |w PREV_INUSE |w arena_flag s av) ;;;
     set_inuse_bit_at_offset remainder remainder_size ;;;
     _int_free fuel av remainder true) ;;;
  ret (chunk2mem newp).

Definition _int_shm_realloc (fuel : nat) (av oldp oldsize nb : Z) : M Z :=
  s <- get ;;
  if (size_ s oldp <=? 2 * SIZE_SZ) || (system_mem s av <=? oldsize) then
    malloc_printerr (check_action (st_gl s)) "realloc(): invalid old size" (chunk2mem oldp) av ;;; ret 0
  else
    assert_ (negb (chunk_is_mmapped s oldp)) "_int_realloc: !chunk_is_mmapped (oldp)" ;;;
    let nxt := chunk_at_offset oldp oldsize in
    let nextsize := chunksize s nxt in
    if (size_ s nxt <=? 2 * SIZE_SZ) || (system_mem s av <=? nextsize) then
      malloc_printerr (check_action (st_gl s)) "realloc(): invalid next size" (chunk2mem oldp) av ;;; ret 0
    else if nb <=? oldsize then realloc_split fuel av oldp oldsize nb
    else if (nxt =? top s av) && (nb +w MINSIZE <=? oldsize +w nextsize) then
      let newsize := oldsize +w nextsize in
      set_head_size oldp (nb |w arena_flag s av) ;;;
      set_top av (chunk_at_offset oldp nb) ;;;
      set_head (chunk_at_offset oldp nb) ((newsize -w nb) |w PREV_INUSE) ;;;
      ret (chunk2mem oldp)
    else if negb (nxt =? top s av) && negb (inuse s nxt) && (nb <=? oldsize +w nextsize) then
      unlink av nxt ;;; realloc_split fuel av oldp (oldsize +w nextsize) nb
    else
      newmem <- _int_malloc fuel av (nb -w MALLOC_ALIGN_MASK) ;;
      if newmem =? 0 then ret 0
      else
        s <- get ;;
        let newp := mem2chunk newmem in
        let newsize := chunksize s newp in
        if newp =? nxt then realloc_split fuel av oldp (newsize +w oldsize) nb
        else
          realloc_copy newmem (chunk2mem oldp) (oldsize -w SIZE_SZ) ;;;
          _int_free fuel av oldp true ;;;
          ret (chunk2mem newp).

(** ** [_int_memalign] *)

(** Give back the space in front of the aligned spot: [inr mem] is the early
    return of an mmapped chunk, [inl p] the aligned chunk. *)
Definition memalign_lead (fuel : nat) (av alignment m nb : Z) : M (Z + Z) :=
  s <- get ;;
  let p := mem2chunk m in
  if negb (m mod alignment =? 0) then
    let brk := mem2chunk (u64 (m + alignment - 1) &w u64 (- alignment)) in
    let brk := if (brk -w p) <? MINSIZE then brk +w alignment else brk in
    let newp := brk in
    let leadsize := brk -w p in
    let newsize := chunksize s p -w leadsize in
    if chunk_is_mmapped s p then
      set_prev_size newp (prev_size s p +w leadsize) ;;;
      set_head newp (newsize |w IS_MMAPPED) ;;;
      ret (inr (chunk2mem newp))
    else
      set_head newp (newsize |w PREV_INUSE |w arena_flag s av) ;;;
      set_inuse_bit_at_offset newp newsize ;;;
      set_head_size p (leadsize |w arena_flag s av) ;;;
      _int_free fuel av p true ;;;
      assert_ ((nb <=? newsize) && (chunk2mem newp mod alignment =? 0)) "_int_memalign: aligned" ;;;
      ret (inl newp)
  else ret (inl p).

Definition _int_memalign (fuel : nat) (av alignment bytes : Z) : M Z :=
  match checked_request2size bytes with
  | None => set_errno ENOMEM ;;; ret 0
  | Some nb =>
      m <- _int_malloc fuel av (u64 (nb + alignment + MINSIZE)) ;;
      if m =? 0 then ret 0
      else
        r <- memalign_lead fuel av alignment m nb ;;
        match r with
        | inr mem => ret mem
        | inl p =>
            s <- get ;;
            when_ (negb (chunk_is_mmapped s p))
              (let size := chunksize s p in
               when_ (nb +w MINSIZE <? size)
                 (let remainder_size := size -w nb in
                  let remainder := chunk_at_offset p nb in
                  set_head remainder (remainder_size |w PREV_INUSE |w arena_flag s av) ;;;
                  set_head_size p nb ;;;
                  _int_free fuel av remainder true)) ;;;
            ret (chunk2mem p)
        end
  end.

End Int.
