(* ===== verification/MallocArena.v ===== *)
(** * Arenas of the shared-memory allocator

    [src/libipc/malloc/arena.c.h]: creating, reusing, detaching and locking
    arenas, the handlers around [fork], and the parsing of the [MALLOC_*]
    environment variables.  One thread runs; a mutex that it cannot take
    blocks it.  Traversals of the circular [next] list and of the free list
    take a fuel argument that bounds the number of arenas visited. *)

From Stdlib Require Import Ascii.
From S2P Require Import Prelude MallocState MallocCore MallocInt.

Section Arena.
Context `{PS : PageSource}.

Definition set_ag (f : arena_globals -> arena_globals) : M unit := modify (upd_ag f).

(** [--attached_threads] on [INTERNAL_SIZE_T]. *)
Definition detach_arena (replaced_arena : Z) : M unit :=
  if truthy replaced_arena then
    s <- get ;;
    assert_ (0 <? attached_threads s replaced_arena) "detach_arena: attached_threads > 0" ;;;
    set_attached_threads replaced_arena (attached_threads s replaced_arena -w 1)
  else ret tt.

(** The initialisation of the arena [h + 1] of a fresh heap [h]. *)
Definition new_arena_setup (h : Z) : M Z :=
  let a := h + sizeof_heap_info in
  st (h + off_ar_ptr) a ;;;
  malloc_init_state a ;;;
  set_attached_threads a 1 ;;;
  s <- get ;;
  let hsize := word s (h + off_heap_size) in
  set_max_system_mem a hsize ;;;
  set_system_mem a hsize ;;;
  set_ag (fun g => put_arena_mem (arena_mem g +w hsize) g) ;;;
  let ptr := a + sizeof_malloc_state in
  let misalign := chunk2mem ptr &w MALLOC_ALIGN_MASK in
  let ptr := if 0 <? misalign then ptr + (MALLOC_ALIGNMENT - misalign) else ptr in
  set_top a ptr ;;;
  set_head ptr (((h +w hsize) -w ptr) |w PREV_INUSE) ;;;
  ret a.

Definition _int_new_arena (size : Z) : M Z :=
  s <- get ;;
  let extra := sizeof_heap_info + sizeof_malloc_state + MALLOC_ALIGNMENT in
  h <- new_heap (size +w extra) (top_pad (par s)) ;;
  h <- (if h =? 0 then new_heap extra (top_pad (par s)) else ret h) ;;
  if h =? 0 then ret 0
  else
    a <- new_arena_setup h ;;
    s <- get ;;
    let replaced_arena := thread_arena (st_ag s) in
    set_ag (put_thread_arena a) ;;;
    mutex_init a ;;;
    list_lock_lock ;;;
    s <- get ;;
    set_next a (next s (main_arena (st_gl s))) ;;;
    set_next (main_arena (st_gl s)) a ;;;
    list_lock_unlock ;;;
    free_list_lock_lock ;;;
    detach_arena replaced_arena ;;;
    free_list_lock_unlock ;;;
    mutex_lock a ;;;
    ret a.

(** Take the first arena off the free list. *)
Definition get_free_list : M Z :=
  s <- get ;;
  let replaced_arena := thread_arena (st_ag s) in
  if free_list (st_ag s) =? 0 then ret 0
  else
    free_list_lock_lock ;;;
    s <- get ;;
    let result := free_list (st_ag s) in
    when_ (truthy result)
      (set_ag (put_free_list (next_free s result)) ;;;
       assert_ (attached_threads s result =? 0) "get_free_list: attached_threads == 0" ;;;
       set_attached_threads result 1 ;;;
       detach_arena replaced_arena) ;;;
    free_list_lock_unlock ;;;
    when_ (truthy result)
      (mutex_lock result ;;; set_ag (put_thread_arena result)) ;;;
    ret result.

(** The loop of [remove_from_free_list]; [previous] is the address of the
    [next_free] field that leads to [p], or zero for the variable
    [free_list]. *)
Fixpoint remove_from_free_list_loop (fuel : nat) (arena previous p : Z) : M unit :=
  match fuel with
  | O => nofuel
  | S k =>
      if p =? 0 then ret tt
      else
        s <- get ;;
        assert_ (attached_threads s p =? 0) "remove_from_free_list: attached_threads == 0" ;;;
        if p =? arena then
          if previous =? 0 then set_ag (put_free_list (next_free s p))
          else st previous (next_free s p)
        else remove_from_free_list_loop k arena (p + off_next_free) (next_free s p)
  end.

Definition remove_from_free_list (fuel : nat) (arena : Z) : M unit :=
  s <- get ;; remove_from_free_list_loop fuel arena 0 (free_list (st_ag s)).

(** [do { if (usable and trylock succeeds) goto out; ... } while (result != next_to_use);]
    [Some a] is [goto out] with [a] locked. *)
Fixpoint reuse_trylock (fuel : nat) (result stop : Z) : M (option Z) :=
  match fuel with
  | O => nofuel
  | S k =>
      s <- get ;;
      busy <- (if arena_is_corrupt s result then ret 1 else mutex_trylock result) ;;
      if busy =? 0 then ret (Some result)
      else
        s <- get ;;
        let result := next s result in
        if result =? stop then ret None else reuse_trylock k result stop
  end.

(** [while (arena_is_corrupt (result) || result == avoid_arena) ...]; [None]
    is the return of [NULL] after a full turn. *)
Fixpoint reuse_search (fuel : nat) (result begin avoid_arena : Z) : M (option Z) :=
  match fuel with
  | O => nofuel
  | S k =>
      s <- get ;;
      if arena_is_corrupt s result || (result =? avoid_arena) then
        let result := next s result in
        if result =? begin then ret None else reuse_search k result begin avoid_arena
      else ret (Some result)
  end.

(** The code after the label [out]. *)
Definition reuse_attach (fuel : nat) (result : Z) : M Z :=
  s <- get ;;
  let replaced_arena := thread_arena (st_ag s) in
  free_list_lock_lock ;;;
  detach_arena replaced_arena ;;;
  remove_from_free_list fuel result ;;;
  s <- get ;;
  set_attached_threads result (attached_threads s result +w 1) ;;;
  free_list_lock_unlock ;;;
  set_ag (put_thread_arena result) ;;;
  s <- get ;;
  set_ag (put_next_to_use (next s result)) ;;;
  ret result.

Definition reused_arena (fuel : nat) (avoid_arena : Z) : M Z :=
  s <- get ;;
  when_ (next_to_use (st_ag s) =? 0) (set_ag (put_next_to_use (main_arena (st_gl s)))) ;;;
  s <- get ;;
  let start := next_to_use (st_ag s) in
  r <- reuse_trylock fuel start start ;;
  match r with
  | Some result => reuse_attach fuel result
  | None =>
      s <- get ;;
      let result := if start =? avoid_arena then next s start else start in
      r <- reuse_search fuel result result avoid_arena ;;
      match r with
      | None => ret 0
      | Some result => mutex_lock result ;;; reuse_attach fuel result
      end
  end.

(** The cached limit on the number of arenas. *)
Definition narenas_limit_of (s : state) : Z :=
  let limit := narenas_limit (st_ag s) in
  if limit =? 0 then
    if negb (arena_max (par s) =? 0) then arena_max (par s)
    else if arena_test (par s) <? narenas (st_ag s) then
      if 1 <=? nprocs (st_env s) then NARENAS_FROM_NCORES (nprocs (st_env s))
      else NARENAS_FROM_NCORES 2
    else limit
  else limit.

Definition arena_get2 (fuel : nat) (size avoid_arena : Z) : M Z :=
  a <- get_free_list ;;
  if negb (a =? 0) then ret a
  else
    s <- get ;;
    set_ag (put_narenas_limit (narenas_limit_of s)) ;;;
    s <- get ;;
    let n := narenas (st_ag s) in
    if n <=? (narenas_limit (st_ag s) -w 1) then
      set_ag (put_narenas (n +w 1)) ;;;
      a <- _int_new_arena size ;;
      when_ (a =? 0) (set_ag (fun g => put_narenas (narenas g -w 1) g)) ;;;
      ret a
    else reused_arena fuel avoid_arena.

(** The macros [arena_lock] and [arena_get]. *)
Definition arena_lock (fuel : nat) (ptr size : Z) : M Z :=
  s <- get ;;
  if truthy ptr && negb (arena_is_corrupt s ptr) then mutex_lock ptr ;;; ret ptr
  else arena_get2 fuel size 0.

Definition arena_get (fuel : nat) (size : Z) : M Z :=
  s <- get ;; arena_lock fuel (thread_arena (st_ag s)) size.

Definition arena_get_retry (fuel : nat) (ar_ptr bytes : Z) : M Z :=
  s <- get ;;
  let main := main_arena (st_gl s) in
  if negb (ar_ptr =? main) then
    mutex_unlock ar_ptr ;;;
    s <- get ;;
    if arena_is_corrupt s main then ret 0
    else mutex_lock main ;;; ret main
  else
    mutex_unlock ar_ptr ;;; arena_get2 fuel bytes ar_ptr.

Definition arena_thread_freeres : M unit :=
  s <- get ;;
  let a := thread_arena (st_ag s) in
  set_ag (put_thread_arena 0) ;;;
  if truthy a then
    free_list_lock_lock ;;;
    s <- get ;;
    assert_ (0 <? attached_threads s a) "arena_thread_freeres: attached_threads > 0" ;;;
    let n := attached_threads s a -w 1 in
    set_attached_threads a n ;;;
    when_ (n =? 0)
      (set_next_free a (free_list (st_ag s)) ;;; set_ag (put_free_list a)) ;;;
    free_list_lock_unlock
  else ret tt.

(** ** Around [fork] *)

(** [for (ar_ptr = &main_arena;; ) { op; ar_ptr = ar_ptr->next; if (ar_ptr == &main_arena) break; }] *)
Fixpoint for_each_arena (fuel : nat) (op : Z -> M unit) (ar_ptr : Z) : M unit :=
  match fuel with
  | O => nofuel
  | S k =>
      op ar_ptr ;;;
      s <- get ;;
      let ar_ptr := next s ar_ptr in
      if ar_ptr =? main_arena (st_gl s) then ret tt else for_each_arena k op ar_ptr
  end.

Definition __shm_malloc_fork_lock_parent (fuel : nat) : M unit :=
  s <- get ;;
  if malloc_initialized (st_ag s) <? 1 then ret tt
  else list_lock_lock ;;; for_each_arena fuel mutex_lock (main_arena (st_gl s)).

Definition __shm_malloc_fork_unlock_parent (fuel : nat) : M unit :=
  s <- get ;;
  if malloc_initialized (st_ag s) <? 1 then ret tt
  else for_each_arena fuel mutex_unlock (main_arena (st_gl s)) ;;; list_lock_unlock.

(** The loop of the child never advances [ar_ptr]: it handles the main arena
    only. *)
Definition __shm_malloc_fork_unlock_child : M unit :=
  s <- get ;;
  if malloc_initialized (st_ag s) <? 1 then ret tt
  else
    free_list_lock_unlock ;;;
    set_ag (put_free_list 0) ;;;
    set_ag (put_thread_arena 0) ;;;
    let ar_ptr := main_arena (st_gl s) in
    mutex_init ar_ptr ;;;
    set_attached_threads ar_ptr 0 ;;;
    set_arena_corrupt ar_ptr ;;;
    list_lock_unlock.

End Arena.

(** ** The environment *)

(** The characters of a string after its first [n]. *)
Fixpoint str_drop (n : nat) (s : string) : string :=
  match n, s with
  | O, _ => s
  | S k, String _ r => str_drop k r
  | S _, EmptyString => EmptyString
  end.

(** The [n] first bytes of [a] are those of [b]: [memcmp (a, b, n) == 0]. *)
Fixpoint str_agree (n : nat) (a b : string) : bool :=
  match n, a, b with
  | O, _, _ => true
  | S k, String x a, String y b => Ascii.eqb x y && str_agree k a b
  | S _, _, _ => false
  end.

(** [strcspn (s, "=")]. *)
Fixpoint strcspn_eq (s : string) : nat :=
  match s with
  | EmptyString => 0
  | String c r => if Ascii.eqb c "="%char then 0 else S (strcspn_eq r)
  end.

(** [next_env_entry]: the rest of the first [MALLOC_*] variable, and the
    position after it. *)
Fixpoint next_env_entry (position : list string) : option (string * list string) :=
  match position with
  | [] => None
  | current :: rest =>
      if str_agree 7 current "MALLOC_" then Some (str_drop 7 current, rest)
      else next_env_entry rest
  end.

Definition digit_of (c : Ascii.ascii) : option Z :=
  let n := Z.of_nat (Ascii.nat_of_ascii c) in
  if (48 <=? n) && (n <=? 57) then Some (n - 48) else None.

Fixpoint digits (acc : Z) (s : string) : Z :=
  match s with
  | EmptyString => acc
  | String c r => match digit_of c with Some d => digits (acc * 10 + d) r | None => acc end
  end.

Fixpoint skip_space (s : string) : string :=
  match s with
  | String c r =>
      let n := Z.of_nat (Ascii.nat_of_ascii c) in
      if (n =? 32) || ((9 <=? n) && (n <=? 13)) then skip_space r else s
  | EmptyString => s
  end.

(** [atoi]: [(int) strtol (s, NULL, 10)], which saturates at the range of [long]. *)
Definition atoi (s : string) : Z :=
  let v :=
    match skip_space s with
    | String c r =>
        if Ascii.eqb c "-"%char then - digits 0 r
        else if Ascii.eqb c "+"%char then digits 0 r
        else digits 0 (String c r)
    | EmptyString => 0
    end in
  s32 (Z.max (-9223372036854775808) (Z.min 9223372036854775807 v)).
