(* ===== verification/MallocHooks.v ===== *)
(** * The checking hooks of the shared-memory allocator

    [src/libipc/malloc/hooks.c.h]: the magic byte and the chain of length
    bytes that find overruns, the checks on pointers handed to [free] and
    [realloc], the check of the top chunk, and the checking versions of the
    four entry points. *)

From S2P Require Import Prelude MallocState MallocCore MallocInt.

(** ** The magic byte *)

Definition magicbyte (p : Z) : Z :=
  let magic := Z.lxor (Z.shiftr p 3) (Z.shiftr p 11) &w 255 in
  if magic =? 1 then magic + 1 else magic.

(** [for (; (c = p[size]) != magic; size -= c)
       if (c <= 0 || size < c + 2 * SIZE_SZ) <corrupt>;]
    The offset of the magic byte; [None] is a corrupt chain.  [size] falls
    with every turn, so [size + 1] turns are enough. *)
Fixpoint chain_walk (fuel : nat) (m : memory) (p magic size : Z) : option Z :=
  match fuel with
  | O => None
  | S k =>
      let c := ld_byte m (p + size) in
      if c =? magic then Some size
      else if (c <=? 0) || (size <? c + 2 * SIZE_SZ) then None
      else chain_walk k m p magic (size - c)
  end.

Definition walk (m : memory) (p magic size : Z) : option Z :=
  chain_walk (S (Z.to_nat size)) m p magic size.

(** [for (i = max_sz - 1; i > req_sz; i -= block_sz) ...] of [mem2mem_check]:
    write the length bytes. *)
Fixpoint write_chain (fuel : nat) (ptr magic req_sz i : Z) (m : memory) : memory :=
  match fuel with
  | O => m
  | S k =>
      if req_sz <? i then
        let block_sz := Z.min (i - req_sz) 255 in
        let block_sz := if block_sz =? magic then block_sz - 1 else block_sz in
        write_chain k ptr magic req_sz (i - block_sz) (st_byte m (ptr + i) block_sz)
      else m
  end.

(** Rounding an alignment up to a power of two. *)
Definition powerof2 (x : Z) : bool := ((x -w 1) &w x) =? 0.

(** [while (a < alignment) a <<= 1;] *)
Fixpoint grow_alignment (fuel : nat) (a alignment : Z) : option Z :=
  match fuel with
  | O => None
  | S k => if a <? alignment then grow_alignment k (u64 (Z.shiftl a 1)) alignment else Some a
  end.

Definition round_alignment (alignment : Z) : option Z :=
  if powerof2 alignment then Some alignment
  else grow_alignment 64 (MALLOC_ALIGNMENT * 2) alignment.

Section Hooks.
Context `{PS : PageSource}.

Definition malloc_check_get_size (p : Z) : M Z :=
  s <- get ;;
  assert_ (using_malloc_checking (st_hk s) =? 1) "malloc_check_get_size: using_malloc_checking == 1" ;;;
  match walk (st_mem s) p (magicbyte p)
          (u64 (chunksize s p - 1 + (if chunk_is_mmapped s p then 0 else SIZE_SZ))) with
  | Some size => ret (size -w 2 * SIZE_SZ)
  | None =>
      malloc_printerr (check_action (st_gl s)) "malloc_check_get_size: memory corruption"
        (chunk2mem p) (if chunk_is_mmapped s p then 0 else arena_for_chunk s p) ;;;
      ret 0
  end.

Definition mem2mem_check (ptr req_sz : Z) : M Z :=
  if ptr =? 0 then ret ptr
  else
    s <- get ;;
    let p := mem2chunk ptr in
    let magic := magicbyte p in
    let max_sz := chunksize s p -w 2 * SIZE_SZ in
    let max_sz := if negb (chunk_is_mmapped s p) then max_sz +w SIZE_SZ else max_sz in
    modify (upd_mem (fun m =>
      st_byte (write_chain (Z.to_nat max_sz) ptr magic req_sz (max_sz -w 1) m) (ptr + req_sz) magic)) ;;;
    ret ptr.

(** The test on a chunk in conventional heap memory. *)
Definition bad_heap_chunk (s : state) (p sz : Z) : bool :=
  let contig := contiguous s (main_arena (st_gl s)) in
  let base := sbrk_base (par s) in
  (contig && ((p <? base) || ((base +w system_mem s (main_arena (st_gl s))) <=? (p +w sz))))
  || (sz <? MINSIZE) || truthy (sz &w MALLOC_ALIGN_MASK) || negb (inuse s p)
  || (negb (prev_inuse s p)
      && (truthy (prev_size s p &w MALLOC_ALIGN_MASK)
          || (contig && (prev_chunk s p <? base))
          || negb (next_chunk s (prev_chunk s p) =? p))).

(** The test on an mmapped chunk. *)
Definition bad_mmapped_chunk (s : state) (mem p sz : Z) : bool :=
  let page_mask := dl_pagesize (st_gl s) - 1 in
  let offset := mem &w page_mask in
  (negb (offset =? MALLOC_ALIGNMENT) && negb (offset =? 0) && negb (offset =? 16)
   && negb (offset =? 32) && negb (offset =? 64) && negb (offset =? 128)
   && negb (offset =? 256) && negb (offset =? 512) && negb (offset =? 1024)
   && negb (offset =? 2048) && negb (offset =? 4096) && (offset <? 8192))
  || negb (chunk_is_mmapped s p) || truthy (size_ s p &w PREV_INUSE)
  || negb (((p -w prev_size s p) &w page_mask) =? 0)
  || negb (((prev_size s p +w sz) &w page_mask) =? 0).

(** The chunk of [mem] and the address of its magic byte, which is flipped;
    [None] is the return of [NULL]. *)
Definition mem2chunk_check (mem : Z) : M (option (Z * Z)) :=
  s <- get ;;
  if negb (aligned_OK mem) then ret None
  else
    let p := mem2chunk mem in
    let sz := chunksize s p in
    let magic := magicbyte p in
    let found :=
      if negb (chunk_is_mmapped s p) then
        if bad_heap_chunk s p sz then None
        else walk (st_mem s) p magic (sz +w (SIZE_SZ - 1))
      else
        if bad_mmapped_chunk s mem p sz then None
        else walk (st_mem s) p magic (sz -w 1) in
    match found with
    | None => ret None
    | Some sz =>
        modify (upd_mem (fun m => st_byte m (p + sz) (Z.lxor (ld_byte m (p + sz)) 255))) ;;;
        ret (Some (p, p + sz))
    end.

(** [MORECORE] always fails, so a corrupt top is never replaced. *)
Definition top_check : M Z :=
  s <- get ;;
  let main := main_arena (st_gl s) in
  let t := top s main in
  let pagesz := dl_pagesize (st_gl s) in
  if (t =? initial_top main)
     || (negb (chunk_is_mmapped s t) && (MINSIZE <=? chunksize s t) && prev_inuse s t
         && (negb (contiguous s main)
             || ((t +w chunksize s t) =? (sbrk_base (par s) +w system_mem s main))))
  then ret 0
  else
    malloc_printerr (check_action (st_gl s)) "malloc: top chunk is corrupt" t main ;;;
    s <- get ;;
    let brk := MORECORE 0 in
    let front_misalign := chunk2mem brk &w MALLOC_ALIGN_MASK in
    let front_misalign := if 0 <? front_misalign then MALLOC_ALIGNMENT - front_misalign else front_misalign in
    let sbrk_size := u64 (front_misalign + top_pad (par s) + MINSIZE) in
    let sbrk_size := u64 (sbrk_size + (pagesz - ((brk +w sbrk_size) &w (pagesz - 1)))) in
    let new_brk := MORECORE (s64 sbrk_size) in
    if new_brk =? MORECORE_FAILURE then set_errno ENOMEM ;;; ret (-1)
    else
      set_system_mem main (u64 (new_brk - sbrk_base (par s) + sbrk_size)) ;;;
      set_top main (brk + front_misalign) ;;;
      set_head (brk + front_misalign) ((sbrk_size -w front_misalign) |w PREV_INUSE) ;;;
      ret 0.

Definition malloc_check (fuel : nat) (sz : Z) : M Z :=
  if sz +w 1 =? 0 then set_errno ENOMEM ;;; ret 0
  else
    s <- get ;;
    let main := main_arena (st_gl s) in
    mutex_lock main ;;;
    t <- top_check ;;
    victim <- (if 0 <=? t then _int_malloc fuel main (sz +w 1) else ret 0) ;;
    mutex_unlock main ;;;
    mem2mem_check victim sz.

Definition free_check (fuel : nat) (mem : Z) : M unit :=
  if mem =? 0 then ret tt
  else
    s <- get ;;
    let main := main_arena (st_gl s) in
    mutex_lock main ;;;
    r <- mem2chunk_check mem ;;
    match r with
    | None =>
        mutex_unlock main ;;;
        malloc_printerr (check_action (st_gl s)) "free(): invalid pointer" mem main
    | Some (p, _) =>
        s <- get ;;
        if chunk_is_mmapped s p then mutex_unlock main ;;; munmap_chunk p
        else _int_free fuel main p true ;;; mutex_unlock main
    end.

(** The allocation of [realloc_check], with the main arena locked. *)
Definition realloc_check_move (fuel : nat) (oldmem oldp oldsize bytes nb : Z) : M Z :=
  s <- get ;;
  let main := main_arena (st_gl s) in
  if chunk_is_mmapped s oldp then
    if nb <=? oldsize -w SIZE_SZ then ret oldmem
    else
      t <- top_check ;;
      newmem <- (if 0 <=? t then _int_malloc fuel main (bytes +w 1) else ret 0) ;;
      when_ (truthy newmem)
        (modify (upd_mem (mem_copy newmem oldmem (Z.to_nat ((oldsize - 2 * SIZE_SZ) / SIZE_SZ)))) ;;;
         munmap_chunk oldp) ;;;
      ret newmem
  else
    t <- top_check ;;
    if 0 <=? t then _int_shm_realloc fuel main oldp oldsize nb else ret 0.

Definition realloc_check (fuel : nat) (oldmem bytes : Z) : M Z :=
  if bytes +w 1 =? 0 then set_errno ENOMEM ;;; ret 0
  else if oldmem =? 0 then malloc_check fuel bytes
  else if bytes =? 0 then free_check fuel oldmem ;;; ret 0
  else
    s <- get ;;
    let main := main_arena (st_gl s) in
    mutex_lock main ;;;
    r <- mem2chunk_check oldmem ;;
    mutex_unlock main ;;;
    match r with
    | None =>
        malloc_printerr (check_action (st_gl s)) "realloc(): invalid pointer" oldmem main ;;;
        malloc_check fuel bytes
    | Some (oldp, magic_p) =>
        s <- get ;;
        let oldsize := chunksize s oldp in
        match checked_request2size (bytes +w 1) with
        | None => set_errno ENOMEM ;;; ret 0
        | Some nb =>
            mutex_lock main ;;;
            newmem <- realloc_check_move fuel oldmem oldp oldsize bytes nb ;;
            when_ (newmem =? 0)
              (modify (upd_mem (fun m => st_byte m magic_p (Z.lxor (ld_byte m magic_p) 255)))) ;;;
            mutex_unlock main ;;;
            mem2mem_check newmem bytes
        end
    end.

(** The checks on [alignment] and [bytes] that [memalign_check] and
    [_mid_memalign] share: the alignment to use, or the value of [errno]. *)
Definition memalign_args (alignment bytes : Z) : Z + Z :=
  let alignment := if alignment <? MINSIZE then MINSIZE else alignment in
  if SIZE_MAX / 2 + 1 <? alignment then inr EINVAL
  else if SIZE_MAX - alignment - MINSIZE <? bytes then inr ENOMEM
  else inl alignment.

Definition memalign_check (fuel : nat) (alignment bytes : Z) : M Z :=
  if alignment <=? MALLOC_ALIGNMENT then malloc_check fuel bytes
  else
    match memalign_args alignment bytes with
    | inr e => set_errno e ;;; ret 0
    | inl alignment =>
        match round_alignment alignment with
        | None => nofuel
        | Some alignment =>
            s <- get ;;
            let main := main_arena (st_gl s) in
            mutex_lock main ;;;
            t <- top_check ;;
            mem <- (if 0 <=? t then _int_memalign fuel main alignment (bytes +w 1) else ret 0) ;;
            mutex_unlock main ;;;
            mem2mem_check mem bytes
        end
    end.

(** Installing the hooks. *)
Definition __shm_malloc_check_init : M unit :=
  s <- get ;;
  if truthy (disallow_malloc_check (st_hk s)) then modify (upd_hk (put_disallow 0))
  else
    modify (upd_hk (fun h =>
      mkHk HookCheck HookCheck HookCheck HookCheck 1 (disallow_malloc_check h))).

End Hooks.
