(* ===== verification/MallocApi.v ===== *)
(** * Initialisation and entry points of the shared-memory allocator

    [ptmalloc_init] ([src/libipc/malloc/arena.c.h]), [mallopt], the initial
    hooks ([hooks.c.h]) and the public functions [__libc_shm_malloc],
    [__libc_shm_free], [__libc_shm_realloc], [__libc_shm_memalign],
    [__libc_shm_valloc], [__libc_shm_pvalloc], [__libc_shm_calloc] and
    [__posix_shm_memalign] ([malloc.c]). *)

From S2P Require Import Prelude MallocState MallocCore MallocInt MallocArena MallocHooks.

(** [malloc.h]: parameters of [mallopt]. *)
Definition M_MXFAST : Z := 1.
Definition M_TRIM_THRESHOLD : Z := -1.
Definition M_TOP_PAD : Z := -2.
Definition M_MMAP_THRESHOLD : Z := -3.
Definition M_MMAP_MAX : Z := -4.
Definition M_CHECK_ACTION : Z := -5.
Definition M_PERTURB : Z := -6.
Definition M_ARENA_TEST : Z := -7.
Definition M_ARENA_MAX : Z := -8.

Section Api.
Context `{PS : PageSource}.

(** ** [mallopt] *)

(** The [switch]: the result, after the parameter was set. *)
Definition mallopt_switch (param_number value : Z) : M Z :=
  if param_number =? M_MXFAST then
    if (0 <=? value) && (value <=? MAX_FAST_SIZE) then set_max_fast value ;;; ret 1
    else ret 0
  else if param_number =? M_TRIM_THRESHOLD then
    set_par (fun q => par_no_dyn_threshold 1 (par_trim_threshold (u64 value) q)) ;;; ret 1
  else if param_number =? M_TOP_PAD then
    set_par (fun q => par_no_dyn_threshold 1 (par_top_pad (u64 value) q)) ;;; ret 1
  else if param_number =? M_MMAP_THRESHOLD then
    if HEAP_MAX_SIZE / 2 <? u64 value then ret 0
    else set_par (fun q => par_no_dyn_threshold 1 (par_mmap_threshold (u64 value) q)) ;;; ret 1
  else if param_number =? M_MMAP_MAX then
    set_par (fun q => par_no_dyn_threshold 1 (par_n_mmaps_max value q)) ;;; ret 1
  else if param_number =? M_CHECK_ACTION then
    modify (upd_gl (put_check_action value)) ;;; ret 1
  else if param_number =? M_PERTURB then
    modify (upd_gl (put_perturb value)) ;;; ret 1
  else if param_number =? M_ARENA_TEST then
    when_ (0 <? value) (set_par (par_arena_test (u64 value))) ;;; ret 1
  else if param_number =? M_ARENA_MAX then
    when_ (0 <? value) (set_par (par_arena_max (u64 value))) ;;; ret 1
  else ret 1.

(** [__libc_shm_mallopt] from the lock on: what [ptmalloc_init] gets when it
    calls it, [__malloc_initialized] being zero then. *)
Definition mallopt_locked (fuel : nat) (param_number value : Z) : M Z :=
  s <- get ;;
  let av := main_arena (st_gl s) in
  mutex_lock av ;;;
  malloc_consolidate fuel av ;;;
  res <- mallopt_switch param_number value ;;
  mutex_unlock av ;;;
  ret res.

(** ** [ptmalloc_init] *)

(** [(int) (s[0] - '0')], [char] being signed. *)
Definition char_digit (c : Ascii.ascii) : Z :=
  let n := Z.of_nat (Ascii.nat_of_ascii c) in
  (if n <? 128 then n else n - 256) - 48.

(** The [switch (len)] on one environment line: the new value of [s], the
    value of [MALLOC_CHECK_]. *)
Definition init_env_line (fuel : nat) (envline : string) (s0 : option string) : M (option string) :=
  let len := strcspn_eq envline in
  match str_drop len envline with
  | EmptyString => ret s0
  | String _ v =>
      s <- get ;;
      let insecure := negb (libc_enable_secure (st_env s)) in
      let opt (p : Z) : M (option string) :=
        _ <- mallopt_locked fuel p (atoi v) ;; ret s0 in
      match len with
      | 6%nat => ret (if str_agree 6 envline "CHECK_" then Some v else s0)
      | 8%nat =>
          if insecure then
            if str_agree 8 envline "TOP_PAD_" then opt M_TOP_PAD
            else if str_agree 8 envline "PERTURB_" then opt M_PERTURB
            else ret s0
          else ret s0
      | 9%nat =>
          if insecure then
            if str_agree 9 envline "MMAP_MAX_" then opt M_MMAP_MAX
            else if str_agree 9 envline "ARENA_MAX" then opt M_ARENA_MAX
            else ret s0
          else ret s0
      | 10%nat =>
          if insecure && str_agree 10 envline "ARENA_TEST" then opt M_ARENA_TEST else ret s0
      | 15%nat =>
          if insecure then
            if str_agree 15 envline "TRIM_THRESHOLD_" then opt M_TRIM_THRESHOLD
            else if str_agree 15 envline "MMAP_THRESHOLD_" then opt M_MMAP_THRESHOLD
            else ret s0
          else ret s0
      | _ => ret s0
      end
  end.

(** [while ((envline = next_env_entry (&runp)) != NULL)]: each turn advances
    [runp], so as many turns as there are variables are enough. *)
Fixpoint init_env (fuel turns : nat) (runp : list string) (s0 : option string) : M (option string) :=
  match turns with
  | O => ret s0
  | S k =>
      match next_env_entry runp with
      | None => ret s0
      | Some (envline, runp) =>
          s1 <- init_env_line fuel envline s0 ;; init_env fuel k runp s1
      end
  end.

Definition ptmalloc_init (fuel : nat) : M unit :=
  s <- get ;;
  if 0 <=? malloc_initialized (st_ag s) then ret tt
  else
    set_ag (put_malloc_initialized 0) ;;;
    set_ag (put_thread_arena (main_arena (st_gl s))) ;;;
    chk <- init_env fuel (length (environ (st_env s))) (environ (st_env s)) None ;;
    (match chk with
     | Some (String c _) =>
         _ <- mallopt_locked fuel M_CHECK_ACTION (char_digit c) ;;
         s <- get ;;
         when_ (negb (check_action (st_gl s) =? 0)) __shm_malloc_check_init
     | _ => ret tt
     end) ;;;
    set_ag (put_malloc_initialized 1).

Definition __libc_shm_mallopt (fuel : nat) (param_number value : Z) : M Z :=
  s <- get ;;
  when_ (malloc_initialized (st_ag s) <? 0) (ptmalloc_init fuel) ;;;
  mallopt_locked fuel param_number value.

(** ** [malloc] *)

(** The retry that [malloc], [memalign] and [calloc] share: allocate with
    [alloc] in [ar_ptr], once more in another arena when that fails; returns
    the memory and the arena to unlock. *)
Definition with_retry (fuel : nat) (alloc : Z -> M Z) (ar_ptr bytes : Z) : M (Z * Z) :=
  victim <- alloc ar_ptr ;;
  if (victim =? 0) && negb (ar_ptr =? 0) then
    ar_ptr <- arena_get_retry fuel ar_ptr bytes ;;
    victim <- alloc ar_ptr ;;
    ret (victim, ar_ptr)
  else ret (victim, ar_ptr).

(** [assert (!victim || chunk_is_mmapped (mem2chunk (victim)) || ar_ptr == arena_for_chunk (mem2chunk (victim)))]. *)
Definition from_arena (s : state) (victim ar_ptr : Z) : bool :=
  (victim =? 0) || chunk_is_mmapped s (mem2chunk victim)
  || (ar_ptr =? arena_for_chunk s (mem2chunk victim)).

(** [__libc_shm_malloc] without hook. *)
Definition malloc_nohook (fuel : nat) (bytes : Z) : M Z :=
  ar_ptr <- arena_get fuel bytes ;;
  let* (victim, ar_ptr) := with_retry fuel (fun ar => _int_malloc fuel ar bytes) ar_ptr bytes in
  when_ (truthy ar_ptr) (mutex_unlock ar_ptr) ;;;
  s <- get ;;
  assert_ (from_arena s victim ar_ptr) "__libc_malloc: arena_for_chunk" ;;;
  ret victim.

(** Calling the hook, when there is one: [malloc_hook_ini] clears the
    variable and calls [__libc_shm_malloc] again, which finds no hook or the
    checking one, so two calls are enough. *)
Fixpoint malloc_calls (calls fuel : nat) (bytes : Z) : M Z :=
  match calls with
  | O => nofuel
  | S k =>
      s <- get ;;
      match malloc_hook (st_hk s) with
      | HookNull => malloc_nohook fuel bytes
      | HookCheck => malloc_check fuel bytes
      | HookIni =>
          modify (upd_hk (put_malloc_hook HookNull)) ;;;
          ptmalloc_init fuel ;;;
          malloc_calls k fuel bytes
      end
  end.

Definition __libc_shm_malloc (fuel : nat) (bytes : Z) : M Z := malloc_calls 2 fuel bytes.

(** ** [free] *)

Definition __libc_shm_free (fuel : nat) (mem : Z) : M unit :=
  s <- get ;;
  if negb (bool_decide (free_hook (st_hk s) = HookNull)) then free_check fuel mem
  else if mem =? 0 then ret tt
  else
    let p := mem2chunk mem in
    if chunk_is_mmapped s p then
      when_ ((no_dyn_threshold (par s) =? 0)
             && (mmap_threshold (par s) <? size_ s p)
             && (size_ s p <=? DEFAULT_MMAP_THRESHOLD_MAX))
        (set_par (par_mmap_threshold (chunksize s p)) ;;;
         set_par (fun q => par_trim_threshold (2 *w mmap_threshold q) q)) ;;;
      munmap_chunk p
    else _int_free fuel (arena_for_chunk s p) p false.

(** ** [realloc] *)

Definition words (bytes : Z) : nat := Z.to_nat (bytes / SIZE_SZ).

Definition realloc_nohook (fuel : nat) (oldmem bytes : Z) : M Z :=
  if (bytes =? 0) && negb (oldmem =? 0) then __libc_shm_free fuel oldmem ;;; ret 0
  else if oldmem =? 0 then __libc_shm_malloc fuel bytes
  else
    s <- get ;;
    let oldp := mem2chunk oldmem in
    let oldsize := chunksize s oldp in
    let ar_ptr := if chunk_is_mmapped s oldp then 0 else arena_for_chunk s oldp in
    if (u64 (- oldsize) <? oldp) || misaligned_chunk oldp then
      malloc_printerr (check_action (st_gl s)) "realloc(): invalid pointer" oldmem ar_ptr ;;; ret 0
    else
      match checked_request2size bytes with
      | None => set_errno ENOMEM ;;; ret 0
      | Some nb =>
          if chunk_is_mmapped s oldp then
            if nb <=? oldsize -w SIZE_SZ then ret oldmem
            else
              newmem <- __libc_shm_malloc fuel bytes ;;
              if newmem =? 0 then ret 0
              else
                modify (upd_mem (mem_copy newmem oldmem (words (oldsize -w 2 * SIZE_SZ)))) ;;;
                munmap_chunk oldp ;;;
                ret newmem
          else
            mutex_lock ar_ptr ;;;
            newp <- _int_shm_realloc fuel ar_ptr oldp oldsize nb ;;
            mutex_unlock ar_ptr ;;;
            s <- get ;;
            assert_ (from_arena s newp ar_ptr) "__libc_realloc: arena_for_chunk" ;;;
            if newp =? 0 then
              newp <- __libc_shm_malloc fuel bytes ;;
              when_ (truthy newp)
                (modify (upd_mem (mem_copy newp oldmem (words (oldsize -w SIZE_SZ)))) ;;;
                 _int_free fuel ar_ptr oldp false) ;;;
              ret newp
            else ret newp
      end.

Fixpoint realloc_calls (calls fuel : nat) (oldmem bytes : Z) : M Z :=
  match calls with
  | O => nofuel
  | S k =>
      s <- get ;;
      match realloc_hook (st_hk s) with
      | HookNull => realloc_nohook fuel oldmem bytes
      | HookCheck => realloc_check fuel oldmem bytes
      | HookIni =>
          modify (upd_hk (put_malloc_hook HookNull)) ;;;
          modify (upd_hk (put_realloc_hook HookNull)) ;;;
          ptmalloc_init fuel ;;;
          realloc_calls k fuel oldmem bytes
      end
  end.

Definition __libc_shm_realloc (fuel : nat) (oldmem bytes : Z) : M Z :=
  realloc_calls 2 fuel oldmem bytes.

(** ** [memalign] and its relatives *)

Definition memalign_nohook (fuel : nat) (alignment bytes : Z) : M Z :=
  if alignment <=? MALLOC_ALIGNMENT then __libc_shm_malloc fuel bytes
  else
    match memalign_args alignment bytes with
    | inr e => set_errno e ;;; ret 0
    | inl alignment =>
        match round_alignment alignment with
        | None => nofuel
        | Some alignment =>
            ar_ptr <- arena_get fuel (u64 (bytes + alignment + MINSIZE)) ;;
            let* (p, ar_ptr) :=
              with_retry fuel (fun ar => _int_memalign fuel ar alignment bytes) ar_ptr bytes in
            when_ (truthy ar_ptr) (mutex_unlock ar_ptr) ;;;
            s <- get ;;
            assert_ (from_arena s p ar_ptr) "_mid_memalign: arena_for_chunk" ;;;
            ret p
        end
    end.

(** [_mid_memalign]; [memalign_hook_ini] enters it again once. *)
Fixpoint memalign_calls (calls fuel : nat) (alignment bytes : Z) : M Z :=
  match calls with
  | O => nofuel
  | S k =>
      s <- get ;;
      match memalign_hook (st_hk s) with
      | HookNull => memalign_nohook fuel alignment bytes
      | HookCheck => memalign_check fuel alignment bytes
      | HookIni =>
          modify (upd_hk (put_memalign_hook HookNull)) ;;;
          ptmalloc_init fuel ;;;
          memalign_calls k fuel alignment bytes
      end
  end.

Definition _mid_memalign (fuel : nat) (alignment bytes : Z) : M Z :=
  memalign_calls 2 fuel alignment bytes.

Definition __libc_shm_memalign (fuel : nat) (alignment bytes : Z) : M Z :=
  _mid_memalign fuel alignment bytes.

Definition __libc_shm_valloc (fuel : nat) (bytes : Z) : M Z :=
  s <- get ;;
  when_ (malloc_initialized (st_ag s) <? 0) (ptmalloc_init fuel) ;;;
  _mid_memalign fuel (dl_pagesize (st_gl s)) bytes.

Definition __libc_shm_pvalloc (fuel : nat) (bytes : Z) : M Z :=
  s <- get ;;
  when_ (malloc_initialized (st_ag s) <? 0) (ptmalloc_init fuel) ;;;
  let pagesize := dl_pagesize (st_gl s) in
  let rounded_bytes := ALIGN_UP bytes pagesize in
  if u64 (SIZE_MAX - 2 * pagesize - MINSIZE) <? bytes then set_errno ENOMEM ;;; ret 0
  else _mid_memalign fuel pagesize rounded_bytes.

(** The result and the pointer stored through [memptr], if any. *)
Definition __posix_shm_memalign (fuel : nat) (alignment size : Z) : M (Z * option Z) :=
  if negb (alignment mod 8 =? 0) || negb (powerof2 (alignment / 8)) || (alignment =? 0) then
    ret (EINVAL, None)
  else
    mem <- _mid_memalign fuel alignment size ;;
    if negb (mem =? 0) then ret (0, Some mem) else ret (ENOMEM, None).

(** ** [calloc] *)

Definition HALF_INTERNAL_SIZE_T : Z := Z.shiftl 1 (8 * 8 / 2).

(** The product does not fit: the early return with [ENOMEM]. *)
Definition calloc_overflows (n elem_size : Z) : bool :=
  let bytes := n *w elem_size in
  (HALF_INTERNAL_SIZE_T <=? n |w elem_size)
  && negb (elem_size =? 0) && negb (bytes / elem_size =? n).

(** [memset (mem, 0, n)] for an 8-byte aligned [mem]: whole words, then the
    remaining bytes. *)
Definition mem_clear (mem n : Z) (m : memory) : memory :=
  mem_set (mem + 8 * (n / 8)) 0 (Z.to_nat (n mod 8)) (mem_zero mem (mem + 8 * (n / 8)) m).

(** The part of the old top that may hold old data. *)
Definition calloc_oldtop (s : state) (av : Z) : Z * Z :=
  if truthy av then
    let oldtop := top s av in
    let oldtopsize := chunksize s oldtop in
    if negb (av =? main_arena (st_gl s)) then
      let heap := heap_for_ptr oldtop in
      let avail := u64 (heap + word s (heap + off_mprotect_size) - oldtop) in
      (oldtop, if oldtopsize <? avail then avail else oldtopsize)
    else (oldtop, oldtopsize)
  else (0, 0).

(** Clearing [clearsize] bytes at [d], unrolled for at most nine words. *)
Definition calloc_clear (d clearsize : Z) : M unit :=
  let nclears := clearsize / 8 in
  assert_ (3 <=? nclears) "__libc_calloc: nclears >= 3" ;;;
  if 9 <? nclears then modify (upd_mem (mem_clear d clearsize))
  else
    st (d + 0) 0 ;;; st (d + 8) 0 ;;; st (d + 16) 0 ;;;
    when_ (4 <? nclears)
      (st (d + 24) 0 ;;; st (d + 32) 0 ;;;
       when_ (6 <? nclears)
         (st (d + 40) 0 ;;; st (d + 48) 0 ;;;
          when_ (8 <? nclears) (st (d + 56) 0 ;;; st (d + 64) 0))).

(** What is cleared after a successful allocation. *)
Definition calloc_fill (mem sz oldtop oldtopsize : Z) : M Z :=
  s <- get ;;
  let p := mem2chunk mem in
  if chunk_is_mmapped s p then
    when_ (truthy (perturb_byte (st_gl s))) (modify (upd_mem (mem_clear mem sz))) ;;; ret mem
  else
    let csz := chunksize s p in
    let csz :=
      if (perturb_byte (st_gl s) =? 0) && ((p =? oldtop) && (oldtopsize <? csz))
      then oldtopsize else csz in
    calloc_clear mem (csz -w SIZE_SZ) ;;; ret mem.

Definition __libc_shm_calloc (fuel : nat) (n elem_size : Z) : M Z :=
  let sz := n *w elem_size in
  if calloc_overflows n elem_size then set_errno ENOMEM ;;; ret 0
  else
    s <- get ;;
    if negb (bool_decide (malloc_hook (st_hk s) = HookNull)) then
      mem <- malloc_calls 2 fuel sz ;;
      if mem =? 0 then ret 0
      else modify (upd_mem (mem_clear mem sz)) ;;; ret mem
    else
      av <- arena_get fuel sz ;;
      s <- get ;;
      let (oldtop, oldtopsize) := calloc_oldtop s av in
      mem <- _int_malloc fuel av sz ;;
      s <- get ;;
      assert_ (from_arena s mem av) "__libc_calloc: arena_for_chunk" ;;;
      let* (mem, av) :=
        (if (mem =? 0) && negb (av =? 0) then
           av <- arena_get_retry fuel av sz ;;
           mem <- _int_malloc fuel av sz ;;
           ret (mem, av)
         else ret (mem, av)) in
      when_ (truthy av) (mutex_unlock av) ;;;
      if mem =? 0 then ret 0 else calloc_fill mem sz oldtop oldtopsize.

End Api.
