(* ===== verification/MallocDebug.v ===== *)
(** * Checking, trimming and reporting

    The [do_check_*] routines of [src/libipc/malloc/malloc.c], which state
    the invariants of chunks, bins and arenas; [malloc_trim],
    [malloc_usable_size], [mallinfo] and [malloc_stats].

    A [do_check_*] routine reads the state and asserts: it is the boolean
    that all its assertions hold.  A list that does not end within the fuel
    fails the check. *)

From S2P Require Import Prelude MallocState MallocCore MallocInt MallocArena MallocHooks MallocApi.

Section Debug.
Context `{PS : PageSource}.

(** ** The invariants the debugging build asserts *)

Definition do_check_chunk (s : state) (av p : Z) : bool :=
  let sz := chunksize s p in
  let max_address := top s av +w chunksize s (top s av) in
  let min_address := max_address -w system_mem s av in
  if negb (chunk_is_mmapped s p) then
    if negb (p =? top s av) then
      if contiguous s av then (min_address <=? p) && (p +w sz <=? top s av) else true
    else (MINSIZE <=? sz) && prev_inuse s p
  else
    (if contiguous s av && negb (top s av =? initial_top av)
     then (p <? min_address) || (max_address <=? p) else true)
    && (((prev_size s p +w sz) &w (dl_pagesize (st_gl s) - 1)) =? 0)
    && aligned_OK (chunk2mem p).

Definition do_check_free_chunk (s : state) (av p : Z) : bool :=
  let sz := size_ s p &w !w (PREV_INUSE |w NON_MAIN_ARENA) in
  let nxt := chunk_at_offset p sz in
  do_check_chunk s av p
  && negb (inuse s p)
  && negb (chunk_is_mmapped s p)
  && (if MINSIZE <=? sz then
        ((sz &w MALLOC_ALIGN_MASK) =? 0)
        && aligned_OK (chunk2mem p)
        && (prev_size s nxt =? sz)
        && prev_inuse s p
        && ((nxt =? top s av) || inuse s nxt)
        && (bk s (fd s p) =? p)
        && (fd s (bk s p) =? p)
      else sz =? SIZE_SZ).

Definition do_check_inuse_chunk (s : state) (av p : Z) : bool :=
  do_check_chunk s av p
  && (if chunk_is_mmapped s p then true
      else
        let nxt := next_chunk s p in
        inuse s p
        && (if negb (prev_inuse s p) then
              let prv := prev_chunk s p in
              (next_chunk s prv =? p) && do_check_free_chunk s av prv
            else true)
        && (if nxt =? top s av then prev_inuse s nxt && (MINSIZE <=? chunksize s nxt)
            else if negb (inuse s nxt) then do_check_free_chunk s av nxt
            else true)).

Definition do_check_remalloced_chunk (s : state) (av p nb : Z) : bool :=
  let sz := size_ s p &w !w (PREV_INUSE |w NON_MAIN_ARENA) in
  let main := main_arena (st_gl s) in
  (if negb (chunk_is_mmapped s p) then
     (av =? arena_for_chunk s p)
     && (if chunk_non_main_arena s p then negb (av =? main) else av =? main)
   else true)
  && do_check_inuse_chunk s av p
  && ((sz &w MALLOC_ALIGN_MASK) =? 0)
  && (MINSIZE <=? sz)
  && aligned_OK (chunk2mem p)
  && (0 <=? s64 sz - s64 nb)
  && (s64 sz - s64 (nb +w MINSIZE) <? 0).

Definition do_check_malloced_chunk (s : state) (av p nb : Z) : bool :=
  do_check_remalloced_chunk s av p nb && prev_inuse s p.

(** The chunks of fastbin [i] from [p] on: the sum of their sizes. *)
Fixpoint check_fastbin (fuel : nat) (s : state) (av i p total : Z) : option Z :=
  match fuel with
  | O => None
  | S k =>
      if p =? 0 then Some total
      else if do_check_inuse_chunk s av p && (fastbin_index (chunksize s p) =? i) then
        check_fastbin k s av i (fd s p) (total +w chunksize s p)
      else None
  end.

Fixpoint check_fastbins (fuel : nat) (s : state) (av max_fast_bin i : Z) (n : nat) (total : Z) : option Z :=
  match n with
  | O => Some total
  | S k =>
      let p := fastbin s av i in
      if (av =? main_arena (st_gl s)) && (max_fast_bin <? i) && negb (p =? 0) then None
      else
        match check_fastbin fuel s av i p total with
        | None => None
        | Some total => check_fastbins fuel s av max_fast_bin (i + 1) k total
        end
  end.

(** The list of distinct sizes around the large chunk [p] of bin [b]. *)
Definition check_nextsize (s : state) (b p : Z) : bool :=
  if negb (fd_nextsize s p =? 0) then
    if fd_nextsize s p =? p then bk_nextsize s p =? p
    else
      (if fd_nextsize s p =? first s b
       then chunksize s p <? chunksize s (fd_nextsize s p)
       else chunksize s (fd_nextsize s p) <? chunksize s p)
      && (if p =? first s b
          then chunksize s (bk_nextsize s p) <? chunksize s p
          else chunksize s p <? chunksize s (bk_nextsize s p))
  else bk_nextsize s p =? 0.

(** "chunk is followed by a legal chain of inuse chunks". *)
Fixpoint check_followers (fuel : nat) (s : state) (av q : Z) : bool :=
  match fuel with
  | O => false
  | S k =>
      if negb (q =? top s av) && inuse s q && (MINSIZE <=? chunksize s q) then
        do_check_inuse_chunk s av q && check_followers k s av (next_chunk s q)
      else true
  end.

Fixpoint check_bin (fuel : nat) (s : state) (av i b p : Z) : bool :=
  match fuel with
  | O => false
  | S k =>
      if p =? b then true
      else
        let size := chunksize s p in
        do_check_free_chunk s av p
        && (if 2 <=? i then
              (bin_index size =? i)
              && ((bk s p =? b) || (chunksize s p <=? chunksize s (bk s p)))
              && (if negb (in_smallbin_range size) then check_nextsize s b p else true)
            else if negb (in_smallbin_range size) then
              (fd_nextsize s p =? 0) && (bk_nextsize s p =? 0)
            else true)
        && check_followers fuel s av (next_chunk s p)
        && check_bin k s av i b (bk s p)
  end.

Fixpoint check_bins (fuel : nat) (s : state) (av i : Z) (n : nat) : bool :=
  match n with
  | O => true
  | S k =>
      let b := bin_at av i in
      (if 2 <=? i then
         let binbit := get_binmap s av i in
         let empty := last s b =? b in
         if binbit =? 0 then empty else true
       else true)
      && check_bin fuel s av i b (last s b)
      && check_bins fuel s av (i + 1) k
  end.

Definition do_check_malloc_state (fuel : nat) (s : state) (av : Z) : bool :=
  if (top s av =? 0) || (top s av =? initial_top av) then true
  else
    powerof2 (dl_pagesize (st_gl s))
    && (if (av =? main_arena (st_gl s)) && contiguous s av
        then (sbrk_base (par s) +w system_mem s av) =? (top s av +w chunksize s (top s av))
        else true)
    && ((get_max_fast s &w !w 1) <=? request2size MAX_FAST_SIZE)
    && match check_fastbins fuel s av (s32 (fastbin_index (get_max_fast s))) 0 (Z.to_nat NFASTBINS) 0 with
       | None => false
       | Some total => if negb (total =? 0) then have_fastchunks s av else true
       end
    && check_bins fuel s av 1 (Z.to_nat (NBINS - 1))
    && do_check_chunk s av (top s av).

(** ** [malloc_trim] *)

(** The chunks of one bin of [mtrim]: whether one of them holds a whole
    unused page.  [madvise] with [MADV_DONTNEED] keeps shared contents. *)
Fixpoint mtrim_bin (fuel : nat) (av bin p ps result : Z) : M Z :=
  match fuel with
  | O => nofuel
  | S k =>
      if p =? bin then ret result
      else
        s <- get ;;
        let psm1 := ps - 1 in
        let size := chunksize s p in
        result <-
          (if psm1 + sizeof_malloc_chunk <? size then
             let paligned_mem := u64 (p + sizeof_malloc_chunk + psm1) &w !w psm1 in
             assert_ (chunk2mem p + 4 * SIZE_SZ <=? paligned_mem) "mtrim: paligned_mem" ;;;
             assert_ (paligned_mem <? p + size) "mtrim: size" ;;;
             let size := u64 (size - (paligned_mem - p)) in
             ret (if psm1 <? size then 1 else result)
           else ret result) ;;
        mtrim_bin k av bin (bk s p) ps result
  end.

Fixpoint mtrim_bins (fuel : nat) (av i : Z) (n : nat) (ps result : Z) : M Z :=
  match n with
  | O => ret result
  | S k =>
      result <-
        (if (i =? 1) || (bin_index ps <=? i) then
           s <- get ;; mtrim_bin fuel av (bin_at av i) (last s (bin_at av i)) ps result
         else ret result) ;;
      mtrim_bins fuel av (i + 1) k ps result
  end.

Definition mtrim (fuel : nat) (av pad : Z) : M Z :=
  s <- get ;;
  if arena_is_corrupt s av then ret 0
  else
    malloc_consolidate fuel av ;;;
    let ps := dl_pagesize (st_gl s) in
    result <- mtrim_bins fuel av 1 (Z.to_nat (NBINS - 1)) ps 0 ;;
    t <- (if av =? main_arena (st_gl s) then systrim pad av else ret 0) ;;
    ret (result |w t).

(** [do { lock; acc = f (ar_ptr, acc); unlock; ar_ptr = ar_ptr->next; } while (ar_ptr != &main_arena);] *)
Fixpoint fold_arenas {A} (fuel : nat) (f : Z -> A -> M A) (ar_ptr : Z) (acc : A) : M A :=
  match fuel with
  | O => nofuel
  | S k =>
      mutex_lock ar_ptr ;;;
      acc <- f ar_ptr acc ;;
      mutex_unlock ar_ptr ;;;
      s <- get ;;
      let ar_ptr := next s ar_ptr in
      if ar_ptr =? main_arena (st_gl s) then ret acc else fold_arenas k f ar_ptr acc
  end.

Definition __shm_malloc_trim (fuel : nat) (pad : Z) : M Z :=
  s <- get ;;
  when_ (malloc_initialized (st_ag s) <? 0) (ptmalloc_init fuel) ;;;
  fold_arenas fuel (fun ar r => t <- mtrim fuel ar pad ;; ret (r |w t)) (main_arena (st_gl s)) 0.

(** ** [malloc_usable_size] *)

Definition musable (mem : Z) : M Z :=
  s <- get ;;
  if negb (mem =? 0) then
    let p := mem2chunk mem in
    if using_malloc_checking (st_hk s) =? 1 then malloc_check_get_size p
    else if chunk_is_mmapped s p then ret (chunksize s p -w 2 * SIZE_SZ)
    else if inuse s p then ret (chunksize s p -w SIZE_SZ)
    else ret 0
  else ret 0.

Definition __shm_malloc_usable_size (m : Z) : M Z := musable m.

(** ** [mallinfo] *)

Record mallinfo := mkInfo {
  mi_arena : Z; mi_ordblks : Z; mi_smblks : Z; mi_hblks : Z; mi_hblkhd : Z;
  mi_usmblks : Z; mi_fsmblks : Z; mi_uordblks : Z; mi_fordblks : Z; mi_keepcost : Z
}.

(** Number and total size of the chunks of a list: a fastbin ends with zero
    and runs along [fd], a bin ends with its header and runs along [bk]. *)
Fixpoint count_list (fuel : nat) (s : state) (step : Z -> Z) (stop p n total : Z) : option (Z * Z) :=
  match fuel with
  | O => None
  | S k =>
      if p =? stop then Some (n, total)
      else count_list k s step stop (step p) (n + 1) (total +w chunksize s p)
  end.

Fixpoint count_fastbins (fuel : nat) (s : state) (av i : Z) (k : nat) (n total : Z) : option (Z * Z) :=
  match k with
  | O => Some (n, total)
  | S k =>
      match count_list fuel s (fd s) 0 (fastbin s av i) n total with
      | None => None
      | Some (n, total) => count_fastbins fuel s av (i + 1) k n total
      end
  end.

Fixpoint count_bins (fuel : nat) (s : state) (av i : Z) (k : nat) (n total : Z) : option (Z * Z) :=
  match k with
  | O => Some (n, total)
  | S k =>
      let b := bin_at av i in
      match count_list fuel s (bk s) b (last s b) n total with
      | None => None
      | Some (n, total) => count_bins fuel s av (i + 1) k n total
      end
  end.

Definition int_mallinfo (fuel : nat) (av : Z) (m : mallinfo) : M mallinfo :=
  s <- get ;;
  when_ (top s av =? 0) (malloc_consolidate fuel av) ;;;
  s <- get ;;
  match count_fastbins fuel s av 0 (Z.to_nat NFASTBINS) 0 0 with
  | None => nofuel
  | Some (nfastblocks, fastavail) =>
      match count_bins fuel s av 1 (Z.to_nat (NBINS - 1)) 1 (chunksize s (top s av) +w fastavail) with
      | None => nofuel
      | Some (nblocks, avail) =>
          let is_main := av =? main_arena (st_gl s) in
          ret (mkInfo
            (s32 (mi_arena m + system_mem s av))
            (s32 (mi_ordblks m + nblocks))
            (s32 (mi_smblks m + nfastblocks))
            (if is_main then n_mmaps (par s) else mi_hblks m)
            (if is_main then s32 (mmapped_mem (par s)) else mi_hblkhd m)
            (if is_main then s32 (max_total_mem (par s)) else mi_usmblks m)
            (s32 (mi_fsmblks m + fastavail))
            (s32 (mi_uordblks m + (system_mem s av - avail)))
            (s32 (mi_fordblks m + avail))
            (if is_main then s32 (chunksize s (top s av)) else mi_keepcost m))
      end
  end.

Definition mallinfo_zero : mallinfo := mkInfo 0 0 0 0 0 0 0 0 0 0.

Definition __libc_shm_mallinfo (fuel : nat) : M mallinfo :=
  s <- get ;;
  when_ (malloc_initialized (st_ag s) <? 0) (ptmalloc_init fuel) ;;;
  fold_arenas fuel (int_mallinfo fuel) (main_arena (st_gl s)) mallinfo_zero.

(** ** [malloc_stats]: the numbers it prints *)

Record stats := mkStats {
  arenas_printed : list (Z * Z);   (* system bytes, in use bytes *)
  system_b : Z; in_use_b : Z; stat_max_n_mmaps : Z; stat_max_mmapped_mem : Z
}.

Definition __shm_malloc_stats (fuel : nat) : M stats :=
  s <- get ;;
  let b0 := u32 (mmapped_mem (par s)) in
  when_ (malloc_initialized (st_ag s) <? 0) (ptmalloc_init fuel) ;;;
  let* (lines, sys, used) :=
    fold_arenas fuel (fun ar acc =>
        let '(lines, sys, used) := acc in
        mi <- int_mallinfo fuel ar mallinfo_zero ;;
        ret (lines ++ [(u32 (mi_arena mi), u32 (mi_uordblks mi))],
             u32 (sys + mi_arena mi), u32 (used + mi_uordblks mi)))
      (main_arena (st_gl s)) ([], b0, b0) in
  s <- get ;;
  ret (mkStats lines sys used (u32 (max_n_mmaps (par s))) (max_mmapped_mem (par s))).

End Debug.
