(* ===== verification/MallocInfo.v ===== *)
(** * [malloc_info] and the saving and restoring of the allocator's state

    [__shm_malloc_info] of [src/libipc/malloc/malloc.c] (the numbers of its
    XML report) and [__shm_malloc_get_state]/[__shm_malloc_set_state] of
    [hooks.c.h]. *)

From S2P Require Import Prelude MallocState MallocCore MallocInt MallocArena MallocHooks MallocApi MallocDebug.

(** ** [malloc_info] *)

(** An entry of the local array [sizes]. *)
Record size_row := mkRow { row_from : Z; row_to : Z; row_total : Z; row_count : Z }.

(** What is printed for one arena. *)
Record heap_report := mkReport {
  hr_sizes : list size_row;          (* the [<size>] lines *)
  hr_unsorted : option size_row;     (* the [<unsorted>] line *)
  hr_nfastblocks : Z; hr_fastavail : Z; hr_nblocks : Z; hr_avail : Z;
  hr_system : Z; hr_max_system : Z; hr_aspace : Z; hr_aspace_mprotect : Z
}.

(** The totals printed at the end. *)
Record info_totals := mkTotals {
  total_nfastblocks : Z; total_fastavail : Z; total_nblocks : Z; total_avail : Z;
  total_n_mmaps : Z; total_mmapped_mem : Z;
  total_system : Z; total_max_system : Z; total_aspace : Z; total_aspace_mprotect : Z
}.

Definition sum_reports (f : heap_report -> Z) (rs : list heap_report) : Z :=
  fold_left (fun acc r => acc +w f r) rs 0.

Section Info.
Context `{PS : PageSource}.

(** [while (p != NULL) { ++nthissize; p = p->fd; }] *)
Fixpoint fast_length (fuel : nat) (s : state) (p n : Z) : option Z :=
  match fuel with
  | O => None
  | S k => if p =? 0 then Some n else fast_length k s (fd s p) (n +w 1)
  end.

Definition fast_row (fuel : nat) (s : state) (av i : Z) : option size_row :=
  let p := fastbin s av i in
  if p =? 0 then Some (mkRow 0 0 0 0)
  else
    let thissize := chunksize s p in
    match fast_length fuel s p 0 with
    | None => None
    | Some n => Some (mkRow (thissize -w (MALLOC_ALIGNMENT - 1)) thissize (n *w thissize) n)
    end.

(** [while (r != bin) { ... r = r->fd; }] on the raw [size] fields. *)
Fixpoint bin_row_loop (fuel : nat) (s : state) (bin r : Z) (row : size_row) : option size_row :=
  match fuel with
  | O => None
  | S k =>
      if r =? bin then Some row
      else
        let z := size_ s r in
        bin_row_loop k s bin (fd s r)
          (mkRow (Z.min (row_from row) z) (Z.max (row_to row) z)
                 (row_total row +w z) (row_count row +w 1))
  end.

Definition bin_row (fuel : nat) (s : state) (av i : Z) : option size_row :=
  let bin := bin_at av i in
  let r := fd s bin in
  let row0 := mkRow SIZE_MAX 0 0 0 in
  match (if r =? 0 then Some row0 else bin_row_loop fuel s bin r row0) with
  | None => None
  | Some row =>
      Some (if row_count row =? 0 then mkRow 0 (row_to row) (row_total row) (row_count row) else row)
  end.

Fixpoint rows (row : Z -> option size_row) (i : Z) (n : nat) : option (list size_row) :=
  match n with
  | O => Some []
  | S k =>
      match row i, rows row (i + 1) k with
      | Some r, Some rs => Some (r :: rs)
      | _, _ => None
      end
  end.

Definition sum_rows (f : size_row -> Z) (rs : list size_row) : Z :=
  fold_left (fun acc r => acc +w f r) rs 0.

Definition non_empty (r : size_row) : bool := negb (row_count r =? 0).

(** One turn of the loop over the arenas. *)
Definition malloc_info_arena (fuel : nat) (ar_ptr : Z) : M heap_report :=
  mutex_lock ar_ptr ;;;
  s <- get ;;
  match rows (fast_row fuel s ar_ptr) 0 (Z.to_nat NFASTBINS),
        rows (bin_row fuel s ar_ptr) 1 (Z.to_nat (NBINS - 1)) with
  | Some fast, Some bins =>
      mutex_unlock ar_ptr ;;;
      s <- get ;;
      let is_main := ar_ptr =? main_arena (st_gl s) in
      let heap := heap_for_ptr (top s ar_ptr) in
      ret (mkReport
        (List.filter non_empty (fast ++ tail bins))
        (match bins with r :: _ => if non_empty r then Some r else None | [] => None end)
        (sum_rows row_count fast)
        (sum_rows (fun r => row_count r *w row_to r) fast)
        (sum_rows row_count bins)
        (sum_rows row_total bins)
        (system_mem s ar_ptr) (max_system_mem s ar_ptr)
        (if is_main then system_mem s ar_ptr else word s (heap + off_heap_size))
        (if is_main then system_mem s ar_ptr else word s (heap + off_mprotect_size)))
  | _, _ => nofuel
  end.

Fixpoint malloc_info_loop (fuel turns : nat) (ar_ptr : Z) (acc : list heap_report) : M (list heap_report) :=
  match turns with
  | O => nofuel
  | S k =>
      r <- malloc_info_arena fuel ar_ptr ;;
      s <- get ;;
      let ar_ptr := next s ar_ptr in
      if ar_ptr =? main_arena (st_gl s) then ret (acc ++ [r])
      else malloc_info_loop fuel k ar_ptr (acc ++ [r])
  end.

(** [inr EINVAL] is the refusal of a non-zero [options]. *)
Definition __shm_malloc_info (fuel : nat) (options : Z) : M ((list heap_report * info_totals) + Z) :=
  if negb (options =? 0) then ret (inr EINVAL)
  else
    s <- get ;;
    when_ (malloc_initialized (st_ag s) <? 0) (ptmalloc_init fuel) ;;;
    rs <- malloc_info_loop fuel fuel (main_arena (st_gl s)) [] ;;
    s <- get ;;
    ret (inl (rs, mkTotals
      (sum_reports hr_nfastblocks rs) (sum_reports hr_fastavail rs)
      (sum_reports hr_nblocks rs) (sum_reports hr_avail rs)
      (n_mmaps (par s)) (mmapped_mem (par s))
      (sum_reports hr_system rs) (sum_reports hr_max_system rs)
      (sum_reports hr_aspace rs) (sum_reports hr_aspace_mprotect rs))).

End Info.

(** ** [struct malloc_save_state]: offsets of its fields *)

Definition MALLOC_STATE_MAGIC : Z := 1145849153. (* 0x444c4541 *)
Definition MALLOC_STATE_VERSION : Z := 0 * 256 + 4.
Definition ms_magic : Z := 0.
Definition ms_version : Z := 8.
Definition ms_av (i : Z) : Z := 16 + 8 * i.
Definition ms_sbrk_base : Z := 2080.
Definition ms_sbrked_mem_bytes : Z := 2088.
Definition ms_trim_threshold : Z := 2096.
Definition ms_top_pad : Z := 2104.
Definition ms_n_mmaps_max : Z := 2112.
Definition ms_mmap_threshold : Z := 2120.
Definition ms_check_action : Z := 2128.
Definition ms_max_sbrked_mem : Z := 2136.
Definition ms_max_total_mem : Z := 2144.
Definition ms_n_mmaps : Z := 2152.
Definition ms_max_n_mmaps : Z := 2156.
Definition ms_mmapped_mem : Z := 2160.
Definition ms_max_mmapped_mem : Z := 2168.
Definition ms_using_malloc_checking : Z := 2176.
Definition ms_max_fast : Z := 2184.
Definition ms_arena_test : Z := 2192.
Definition ms_arena_max : Z := 2200.
Definition ms_narenas : Z := 2208.
Definition sizeof_malloc_save_state : Z := 2216.

Section SaveState.
Context `{PS : PageSource}.

(** [for (i = 1; i < NBINS; i++)] of [get_state]. *)
Fixpoint save_bins (ms av i : Z) (n : nat) : M unit :=
  match n with
  | O => ret tt
  | S k =>
      s <- get ;;
      let b := bin_at av i in
      (if first s b =? b then
         st (ms + ms_av (2 * i + 3)) 0 ;;; st (ms + ms_av (2 * i + 2)) 0
       else
         st (ms + ms_av (2 * i + 2)) (first s b) ;;;
         st (ms + ms_av (2 * i + 3)) (last s b)) ;;;
      save_bins ms av (i + 1) k
  end.

(** The scalar fields from [sbrk_base] on. *)
Definition save_scalars (ms : Z) : M unit :=
  s <- get ;;
  let av := main_arena (st_gl s) in
  st (ms + ms_sbrk_base) (sbrk_base (par s)) ;;;
  st (ms + ms_sbrked_mem_bytes) (s32 (system_mem s av)) ;;;
  st (ms + ms_trim_threshold) (trim_threshold (par s)) ;;;
  st (ms + ms_top_pad) (top_pad (par s)) ;;;
  st (ms + ms_n_mmaps_max) (u32 (n_mmaps_max (par s))) ;;;
  st (ms + ms_mmap_threshold) (mmap_threshold (par s)) ;;;
  st (ms + ms_check_action) (check_action (st_gl s)) ;;;
  st (ms + ms_max_sbrked_mem) (max_system_mem s av) ;;;
  st (ms + ms_max_total_mem) 0 ;;;
  st (ms + ms_n_mmaps) (u32 (n_mmaps (par s))) ;;;
  st (ms + ms_max_n_mmaps) (u32 (max_n_mmaps (par s))) ;;;
  st (ms + ms_mmapped_mem) (mmapped_mem (par s)) ;;;
  st (ms + ms_max_mmapped_mem) (max_mmapped_mem (par s)) ;;;
  st (ms + ms_using_malloc_checking) (using_malloc_checking (st_hk s)) ;;;
  st (ms + ms_max_fast) (get_max_fast s) ;;;
  st (ms + ms_arena_test) (arena_test (par s)) ;;;
  st (ms + ms_arena_max) (arena_max (par s)) ;;;
  st (ms + ms_narenas) (narenas (st_ag s)).

Definition __shm_malloc_get_state (fuel : nat) : M Z :=
  ms <- __libc_shm_malloc fuel sizeof_malloc_save_state ;;
  if ms =? 0 then ret 0
  else
    s <- get ;;
    let av := main_arena (st_gl s) in
    mutex_lock av ;;;
    malloc_consolidate fuel av ;;;
    st (ms + ms_magic) MALLOC_STATE_MAGIC ;;;
    st (ms + ms_version) MALLOC_STATE_VERSION ;;;
    st (ms + ms_av 0) 0 ;;;
    st (ms + ms_av 1) 0 ;;;
    s <- get ;;
    st (ms + ms_av 2) (top s av) ;;;
    st (ms + ms_av 3) 0 ;;;
    save_bins ms av 1 (Z.to_nat (NBINS - 1)) ;;;
    save_scalars ms ;;;
    mutex_unlock av ;;;
    ret ms.

(** Restoring bin [i]. *)
Definition restore_bin (ms av i : Z) : M unit :=
  s <- get ;;
  let b := bin_at av i in
  let f := word s (ms + ms_av (2 * i + 2)) in
  let l := word s (ms + ms_av (2 * i + 3)) in
  if f =? 0 then
    assert_ (l =? 0) "malloc_set_state: ms->av[2 * i + 3] == 0" ;;;
    set_bk b b ;;; set_fd b b
  else if (3 <=? word s (ms + ms_version))
          && ((i <? NSMALLBINS)
              || ((largebin_index (chunksize s f) =? i) && (largebin_index (chunksize s l) =? i)))
  then
    set_fd b f ;;;
    set_bk b l ;;;
    set_bk f b ;;;
    set_fd l b ;;;
    mark_bin av i
  else
    set_bk b b ;;;
    set_fd b b ;;;
    let b := unsorted_chunks av in
    set_bk f b ;;;
    s <- get ;;
    set_fd l (fd s b) ;;;
    s <- get ;;
    set_bk (fd s b) l ;;;
    set_fd b f.

Fixpoint restore_bins (ms av i : Z) (n : nat) : M unit :=
  match n with
  | O => ret tt
  | S k => restore_bin ms av i ;;; restore_bins ms av (i + 1) k
  end.

(** [for (i = 0; i < n; ++i) a[i] = 0;] *)
Fixpoint clear_array (a width : Z) (n : nat) : M unit :=
  match n with
  | O => ret tt
  | S k => st a 0 ;;; clear_array (a + width) width k
  end.

(** Version below 3: clear the links of the list of distinct sizes. *)
Fixpoint clear_nextsize (fuel : nat) (av b : Z) : M unit :=
  match fuel with
  | O => nofuel
  | S k =>
      if b =? unsorted_chunks av then ret tt
      else
        s <- get ;;
        when_ (negb (in_smallbin_range (chunksize s b)))
          (set_fd_nextsize b 0 ;;; set_bk_nextsize b 0) ;;;
        s <- get ;;
        clear_nextsize k av (fd s b)
  end.

Definition restore_scalars (ms : Z) : M unit :=
  s <- get ;;
  let av := main_arena (st_gl s) in
  let f o := word s (ms + o) in
  set_par (par_sbrk_base (f ms_sbrk_base)) ;;;
  set_system_mem av (u64 (f ms_sbrked_mem_bytes)) ;;;
  set_par (par_trim_threshold (f ms_trim_threshold)) ;;;
  set_par (par_top_pad (f ms_top_pad)) ;;;
  set_par (par_n_mmaps_max (s32 (f ms_n_mmaps_max))) ;;;
  set_par (par_mmap_threshold (f ms_mmap_threshold)) ;;;
  modify (upd_gl (put_check_action (f ms_check_action))) ;;;
  set_max_system_mem av (f ms_max_sbrked_mem) ;;;
  set_par (par_n_mmaps (s32 (f ms_n_mmaps))) ;;;
  set_par (par_max_n_mmaps (s32 (f ms_max_n_mmaps))) ;;;
  set_par (par_mmapped_mem (f ms_mmapped_mem)) ;;;
  set_par (par_max_mmapped_mem (f ms_max_mmapped_mem)).

(** The hooks, for a version of at least 1. *)
Definition restore_hooks (ms : Z) : M unit :=
  s <- get ;;
  let saved := word s (ms + ms_using_malloc_checking) in
  let h := st_hk s in
  if truthy saved && (using_malloc_checking h =? 0) && (disallow_malloc_check h =? 0) then
    __shm_malloc_check_init
  else if (saved =? 0) && truthy (using_malloc_checking h) then
    modify (upd_hk (fun h => mkHk HookNull HookNull HookNull HookNull 0 (disallow_malloc_check h)))
  else ret tt.

Definition __shm_malloc_set_state (fuel : nat) (ms : Z) : M Z :=
  modify (upd_hk (put_disallow 1)) ;;;
  ptmalloc_init fuel ;;;
  s <- get ;;
  let av := main_arena (st_gl s) in
  let version := word s (ms + ms_version) in
  if negb (word s (ms + ms_magic) =? MALLOC_STATE_MAGIC) then ret (-1)
  else if Z.land MALLOC_STATE_VERSION (Z.lnot 255) <? Z.land version (Z.lnot 255) then ret (-2)
  else
    mutex_lock av ;;;
    clear_fastchunks av ;;;
    set_max_fast (if 4 <=? version then word s (ms + ms_max_fast) else 64) ;;;
    clear_array (fastbin_at av 0) 8 (Z.to_nat NFASTBINS) ;;;
    clear_array (binmap_at av 0) 4 (Z.to_nat BINMAPSIZE) ;;;
    set_top av (word s (ms + ms_av 2)) ;;;
    set_last_remainder av 0 ;;;
    restore_bins ms av 1 (Z.to_nat (NBINS - 1)) ;;;
    s <- get ;;
    when_ (version <? 3) (clear_nextsize fuel av (fd s (unsorted_chunks av))) ;;;
    restore_scalars ms ;;;
    when_ (1 <=? version) (restore_hooks ms) ;;;
    when_ (4 <=? version)
      (set_par (par_arena_test (word s (ms + ms_arena_test))) ;;;
       set_par (par_arena_max (word s (ms + ms_arena_max))) ;;;
       set_ag (put_narenas (word s (ms + ms_narenas)))) ;;;
    mutex_unlock av ;;;
    ret 0.

End SaveState.
