(* ===== verification/PageAlloc.v ===== *)
(** * The pages of the shared memory segment

    [SharedMemoryInformation] of [src/libipc/shared_memory_manager.cpp]: the
    bitmap of used pages, the search for free pages, growing the segment, and
    [shm_mmap], [shm_munmap], [shm_mremap], [shm_mprotect] on top of it; the
    pointer tests of [shm_malloc.h] and [ByteBitset] of [byte_bitset.h].

    The public operations hold [mtx] from entry to exit, so each is one
    atomic step of a process.  System calls are parameters ([Kernel]). *)

From S2P Require Import Prelude MallocState MallocCore.

(** ** [ByteBitset] *)

Definition popcount8 (data : Z) : Z :=
  fold_left (fun acc i => acc + (if Z.testbit data (Z.of_nat i) then 1 else 0)) (seq 0 8) 0.

Definition bb_count (data : Z) : Z := popcount8 data.
Definition bb_all (data : Z) : bool := data =? 255.
Definition bb_none (data : Z) : bool := data =? 0.
Definition bb_get (data index : Z) : bool := negb (Z.land data (Z.shiftl 1 index) =? 0).
Definition bb_set (data index : Z) (bit : bool) : Z :=
  if bit then Z.land (Z.lor data (Z.shiftl 1 index)) 255
  else Z.land (Z.lxor data (Z.land data (Z.shiftl 1 index))) 255.

(** ** Pointers into the segment *)

Definition shm_shared_memory_base : Z := 69269232549888.   (* 0x3f0000000000 *)
Definition shm_shared_memory_file : Z := 68169720922112.   (* 0x3e0000000000 *)
Definition shm_shared_memory_mask : Z := 18446742974197923840. (* 0xffffff0000000000 *)
Definition shm_is_shared_memory_pointer (p : Z) : bool :=
  Z.land p shm_shared_memory_mask =? shm_shared_memory_base.
Definition shm_is_shared_file_pointer (p : Z) : bool :=
  Z.land p shm_shared_memory_mask =? shm_shared_memory_file.

(** ** State *)

Record shm_info := mkShm {
  base : Z; has_forked : bool; has_unintenden_fork : bool;
  shared_size : Z;
  current_mapped_size : Z;          (* of this process: [unshared_infos] *)
  pages_used : gmap Z Z;            (* the bytes of the bitmap *)
  bitset_size : Z;                  (* bytes in [pages_used] *)
  first_unused_page_index : Z;
  mmap_next_free_address : Z;
  pagesize_ : Z;                    (* [_dl_pagesize] *)
  remap_unregistered : bool         (* of this process: [remapSharedMemory] failed and took the hooks away *)
}.

(** Byte [k] of the bitmap; fresh memory is zero. *)
Definition pbyte (i : shm_info) (k : Z) : Z := default 0 (pages_used i !! k).
Definition page_used (i : shm_info) (p : Z) : bool := bb_get (pbyte i (p / 8)) (p mod 8).

Definition put_pages (f : gmap Z Z -> gmap Z Z) (i : shm_info) : shm_info :=
  mkShm (base i) (has_forked i) (has_unintenden_fork i) (shared_size i) (current_mapped_size i)
    (f (pages_used i)) (bitset_size i) (first_unused_page_index i) (mmap_next_free_address i) (pagesize_ i) (remap_unregistered i).
Definition put_shared_size (v : Z) (i : shm_info) : shm_info :=
  mkShm (base i) (has_forked i) (has_unintenden_fork i) v (current_mapped_size i)
    (pages_used i) (bitset_size i) (first_unused_page_index i) (mmap_next_free_address i) (pagesize_ i) (remap_unregistered i).
Definition put_mapped_size (v : Z) (i : shm_info) : shm_info :=
  mkShm (base i) (has_forked i) (has_unintenden_fork i) (shared_size i) v
    (pages_used i) (bitset_size i) (first_unused_page_index i) (mmap_next_free_address i) (pagesize_ i) (remap_unregistered i).
Definition put_first_unused (v : Z) (i : shm_info) : shm_info :=
  mkShm (base i) (has_forked i) (has_unintenden_fork i) (shared_size i) (current_mapped_size i)
    (pages_used i) (bitset_size i) v (mmap_next_free_address i) (pagesize_ i) (remap_unregistered i).

Definition put_unregistered (b : bool) (i : shm_info) : shm_info :=
  mkShm (base i) (has_forked i) (has_unintenden_fork i) (shared_size i) (current_mapped_size i)
    (pages_used i) (bitset_size i) (first_unused_page_index i) (mmap_next_free_address i) (pagesize_ i) b.

(** [pages_used[i / 8].set (i % 8, bit)]. *)
Definition set_page (p : Z) (bit : bool) (i : shm_info) : shm_info :=
  put_pages (<[p / 8 := bb_set (pbyte i (p / 8)) (p mod 8) bit]>) i.

(** [for (long i = pos; i < pos + count; i++) pages_used[i / 8].set (i % 8, bit);] *)
Fixpoint set_pages (p : Z) (n : nat) (bit : bool) (i : shm_info) : shm_info :=
  match n with
  | O => i
  | S k => set_pages (p + 1) k bit (set_page p bit i)
  end.

(** The code the page allocator calls: system calls of the kernel. *)
Class Kernel := {
  k_ftruncate : Z -> bool;               (* [ftruncate (fd, size) == 0] *)
  k_mremap : Z -> Z -> Z -> Z;           (* [mremap (base, old, new, MREMAP_MAYMOVE)] *)
  k_mmap : Z -> Z -> Z -> Z -> Z;        (* [mmap (addr, length, prot, flags, -1, 0)] *)
  k_mprotect : Z -> Z -> Z -> Z
}.

(** A method returns, throws [std::runtime_error], or exits the process. *)
Inductive paged (A : Type) :=
| PgOk (a : A) (i : shm_info) (m : memory)
| PgThrow (i : shm_info)
| PgExit (i : shm_info).
Arguments PgOk {A}.
Arguments PgThrow {A}.
Arguments PgExit {A}.

Definition pageIndexToAddress (i : shm_info) (page : Z) : Z := base i + page * pagesize_ i.
Definition addressToPageIndex (i : shm_info) (address : Z) : Z := (address - base i) / pagesize_ i.

(** ** [findContinousFreePages] *)

(** The inner [for (int j = 0; j < 8; j++)]: [inr start] is the return,
    [inl (c, last_start)] the state after the byte. *)
Fixpoint scan_byte (n : nat) (byte i j c last_start count : Z) : (Z * Z) + Z :=
  match n with
  | O => inl (c, last_start)
  | S k =>
      if bb_get byte j then scan_byte k byte i (j + 1) 0 last_start count
      else
        let last_start := if c =? 0 then i + j else last_start in
        let c := c + 1 in
        if count <=? c then inr last_start
        else scan_byte k byte i (j + 1) c last_start count
  end.

(** [while (i / 8 < bitset_size)]; [n] is the number of bytes left. *)
Fixpoint find_loop (n : nat) (inf : shm_info) (i c last_start count : Z) : option Z :=
  match n with
  | O => None
  | S k =>
      let byte := pbyte inf (i / 8) in
      if bb_all byte then find_loop k inf (i + 8) 0 last_start count
      else if bb_none byte then
        let last_start := if c =? 0 then i else last_start in
        let c := c + 8 in
        if count <=? c then Some last_start
        else find_loop k inf (i + 8) c last_start count
      else
        match scan_byte 8 byte i 0 c last_start count with
        | inr start => Some start
        | inl (c, last_start) => find_loop k inf (i + 8) c last_start count
        end
  end.

(** [None] is the exception "Too much memory used!". *)
Definition findContinousFreePages (inf : shm_info) (count : Z) : option Z :=
  find_loop (Z.to_nat (bitset_size inf)) inf 1 0 0 count.

Section Pages.
Context `{K : Kernel}.

(** ** Growing the segment *)

Definition remapSharedMemory (old_shared_size : Z) (i : shm_info) (m : memory) : paged unit :=
  let addr := k_mremap (base i) old_shared_size (shared_size i) in
  if addr =? MAP_FAILED then PgThrow (put_unregistered true i)
  else if negb (addr =? base i) then PgThrow (put_unregistered true i)
  else PgOk tt (put_mapped_size (shared_size i) i) m.

Definition setFDsize (i : shm_info) (m : memory) : paged unit :=
  if k_ftruncate (shared_size i) then PgOk tt i m else PgThrow i.

Definition resizeSharedMemory (pages : Z) (i : shm_info) (m : memory) : paged unit :=
  if pages * pagesize_ i =? shared_size i then PgOk tt i m
  else
    match setFDsize (put_shared_size (pagesize_ i * pages) i) m with
    | PgOk _ i m =>
        match remapSharedMemory (current_mapped_size i) i m with
        | PgOk _ i m => PgOk tt (put_first_unused (Z.min (first_unused_page_index i) pages) i) m
        | r => r
        end
    | r => r
    end.

(** [internal_remap_shm]: follow a growth made by the other process. *)
Definition internal_remap_shm (i : shm_info) (m : memory) : paged unit :=
  if current_mapped_size i <? shared_size i then
    let result := k_mremap (base i) (current_mapped_size i) (shared_size i) in
    if result =? MAP_FAILED then PgExit i
    else if negb (result =? base i) then PgExit i
    else PgOk tt (put_mapped_size (shared_size i) i) m
  else PgOk tt i m.

Definition remap_shared_memory : shm_info -> memory -> paged unit := internal_remap_shm.

(** ** Requesting and freeing pages *)

(** The growth before pages [pos, pos + count) are handed out. *)
Definition ensure_mapped (pos count : Z) (i : shm_info) (m : memory) : paged unit :=
  match (if shared_size i <? (pos + count) * pagesize_ i
         then resizeSharedMemory (pos + count) i m else PgOk tt i m) with
  | PgOk _ i m =>
      if current_mapped_size i <? shared_size i
      then remapSharedMemory (current_mapped_size i) i m else PgOk tt i m
  | r => r
  end.

Definition requestContinousFreePagesInternal (count : Z) (i : shm_info) (m : memory) : paged Z :=
  match findContinousFreePages i count with
  | None => PgThrow i
  | Some pos =>
      match ensure_mapped pos count i m with
      | PgThrow i => PgThrow i
      | PgExit i => PgExit i
      | PgOk _ i m =>
          let a := pageIndexToAddress i pos in
          let m := if pos <? first_unused_page_index i
                   then mem_zero a (a + count * pagesize_ i) m else m in
          let i := set_pages pos (Z.to_nat count) true i in
          PgOk pos (put_first_unused (Z.max (first_unused_page_index i) (pos + count)) i) m
      end
  end.

Definition requestContinousFreePages (count : Z) (i : shm_info) (m : memory) : paged Z :=
  match remap_shared_memory i m with
  | PgOk _ i m => requestContinousFreePagesInternal count i m
  | PgThrow i => PgThrow i
  | PgExit i => PgExit i
  end.

(** Returns before it looks at [preferred_pos]. *)
Definition requestContinousFreePagesForMove (count preferred_pos : Z) (i : shm_info) (m : memory) : paged Z :=
  requestContinousFreePagesInternal count i m.

Definition freePages (pos count : Z) (i : shm_info) : shm_info :=
  set_pages pos (Z.to_nat count) false i.

(** ** The entry points *)

Definition shm_mmap (addr length prot flags fd offset : Z) (i : shm_info) (m : memory) : paged Z :=
  if (0 <=? fd) || (0 <? offset) || negb (addr =? 0) then
    let result := k_mmap addr length prot flags in
    PgOk result i (if result =? MAP_FAILED then m else mem_zero result (result + length) m)
  else
    let length := ALIGN_UP length (pagesize_ i) in
    match requestContinousFreePages (length / pagesize_ i) i m with
    | PgOk pageStart i m => PgOk (pageIndexToAddress i pageStart) i m
    | r => r
    end.

Definition shm_munmap (addr length : Z) (i : shm_info) : shm_info :=
  let length := ALIGN_UP length (pagesize_ i) in
  freePages (addressToPageIndex i addr) (length / pagesize_ i) i.

Definition shm_mremap (old_address old_size new_size : Z) (i : shm_info) (m : memory) : paged Z :=
  let old_size := ALIGN_UP old_size (pagesize_ i) in
  let new_size := ALIGN_UP new_size (pagesize_ i) in
  let old_page_index := addressToPageIndex i old_address in
  match requestContinousFreePagesForMove (new_size / pagesize_ i) old_page_index i m with
  | PgOk new_page_index i m =>
      if new_page_index =? old_page_index then PgOk old_address i m
      else
        let new_address := pageIndexToAddress i new_page_index in
        let m := mem_copy new_address old_address (Z.to_nat (old_size / 8)) m in
        PgOk new_address (freePages old_page_index (old_size / pagesize_ i) i) m
  | r => r
  end.

Definition shm_mprotect (addr len prot : Z) : Z :=
  if shm_is_shared_memory_pointer addr && ((prot =? 3) || (prot =? 1)) then 0
  else k_mprotect addr len prot.

(** A mapping requested by the other process. *)
Definition internal_mmap (addr length prot flags : Z) : Z :=
  if (addr =? 0) || (negb (shm_is_shared_memory_pointer addr) && negb (shm_is_shared_file_pointer addr))
  then MAP_FAILED
  else k_mmap addr length prot flags.

(** ** Initialisation *)

(** Offset of [shared_memory_for_malloc] in [SharedMemoryInformation] (packed
    by the [#pragma pack(1)] of [byte_bitset.h]): [base], two [bool]s,
    [shared_size], two pointers, [fd], [pages_used], [bitset_size],
    [first_unused_page_index], [mtx], [mmap_next_free_address]. *)
Definition off_malloc_memory : Z := 8 + 1 + 1 + 8 + 8 + 8 + 4 + 8 + 8 + 8 + 5 + 8.
Definition sizeof_shm_info : Z := off_malloc_memory + 2400.
Definition bitset_pages : Z := 512.

(** [while (ps * info_pages < sizeof *shared_memory_info) info_pages *= 2;] *)
Fixpoint info_pages_loop (fuel : nat) (ps info_pages : Z) : Z :=
  match fuel with
  | O => info_pages
  | S k => if ps * info_pages <? sizeof_shm_info then info_pages_loop k ps (info_pages * 2) else info_pages
  end.
Definition info_pages (ps : Z) : Z := info_pages_loop 12 ps 1.

(** [SharedMemoryInformation::init], up to [init_shm_malloc]. *)
Definition shm_init (size bitset used_pages ps : Z) : shm_info :=
  set_pages 0 (Z.to_nat used_pages) true
    (mkShm shm_shared_memory_base false false size size ∅ bitset used_pages 68169720922112 ps false).

(** [shared_memory_init] after the segment of that size was created and
    mapped at [shm_shared_memory_base]. *)
Definition shared_memory_init (ps : Z) : shm_info :=
  shm_init (ps * (info_pages ps + bitset_pages)) (bitset_pages * ps) (info_pages ps + bitset_pages) ps.

(** The address [init_shm_malloc] gets. *)
Definition malloc_memory (i : shm_info) : Z := base i + off_malloc_memory.

End Pages.

(** ** The page source of the allocator

    [__mmap], [__munmap] and [__mprotect] of [malloc.c] are these functions. *)

#[export] Instance shm_page_source `{K : Kernel} : PageSource := {|
  os_state := shm_info;
  sys_mmap addr size prot flags i m :=
    match shm_mmap addr size prot flags (-1) 0 i m with
    | PgOk p i m => if p =? MAP_FAILED then MmapFailed i m else MmapOk p i m
    | PgThrow i => MmapThrow i
    | PgExit i => MmapExit i
    end;
  sys_munmap addr len i := shm_munmap addr len i;
  sys_mprotect addr len prot i := shm_mprotect addr len prot
|}.
