(* ===== verification/SizeFacts.v ===== *)
(** * Size and bin arithmetic

    Facts about [request2size] and the bin indices of [src/libipc/malloc/malloc.c]. *)

From S2P Require Import Prelude MallocState.

(** ** Constants, evaluated *)

Lemma MINSIZE_32 : MINSIZE = 32.
Proof. reflexivity. Qed.

Lemma NFASTBINS_10 : NFASTBINS = 10.
Proof. reflexivity. Qed.

Lemma max_request : u64 (-2 * MINSIZE) = 18446744073709551552.
Proof. reflexivity. Qed.

(** ** Requests *)

Lemma round_down_mod x : (x - x mod 16) mod 16 = 0.
Proof. rewrite Zminus_mod_idemp_r, Z.sub_diag. done. Qed.

Lemma request2size_eq req :
  0 <= req < 18446744073709551552 ->
  request2size req = Z.max 32 (req + 23 - (req + 23) mod 16).
Proof.
  intros H. unfold request2size, MALLOC_ALIGN_MASK, MALLOC_ALIGNMENT, SIZE_SZ.
  change (2 * 8 - 1) with 15. rewrite MINSIZE_32, u64_add_l, u64_small by lia.
  rewrite land_not15 by lia.
  replace (req + 8 + 15) with (req + 23) by lia.
  split_cmp; zlia.
Qed.

Lemma REQUEST_OUT_OF_RANGE_spec req :
  REQUEST_OUT_OF_RANGE req = true <-> 18446744073709551552 <= req.
Proof. unfold REQUEST_OUT_OF_RANGE. rewrite max_request. apply Z.leb_le. Qed.

Lemma checked_request2size_some req nb :
  0 <= req -> checked_request2size req = Some nb ->
  req < 18446744073709551552 /\ nb = request2size req.
Proof.
  intros H0. unfold checked_request2size. destruct (REQUEST_OUT_OF_RANGE req) eqn:E; [done|].
  intros [= <-]. split; [|done].
  destruct (Z_lt_ge_dec req 18446744073709551552); [done|].
  exfalso. rewrite (proj2 (REQUEST_OUT_OF_RANGE_spec req)) in E by lia. done.
Qed.

(** What every padded size satisfies. *)
Definition good_size (nb : Z) : Prop := nb mod 16 = 0 /\ 32 <= nb < 18446744073709551600.

Lemma checked_good req nb :
  0 <= req -> checked_request2size req = Some nb -> good_size nb.
Proof.
  intros H0 H. apply checked_request2size_some in H as [H ->]; [|done].
  unfold good_size. rewrite request2size_eq by lia.
  pose proof (round_down_mod (req + 23)).
  destruct (Z.max_spec 32 (req + 23 - (req + 23) mod 16)) as [[? ->]|[? ->]]; [|by split; [|lia]].
  pose proof (Z.mod_pos_bound (req + 23) 16). split; [done|]. lia.
Qed.

(** ** Bin indices *)

Lemma smallbin_index_eq sz : 0 <= sz < 1024 -> smallbin_index sz = sz / 16.
Proof.
  intros H. change (smallbin_index sz) with (Z.shiftr (u32 sz) 4 + 0).
  rewrite u32_small by lia. rewrite Z.shiftr_div_pow2 by lia. change (2 ^ 4) with 16. lia.
Qed.

Lemma in_smallbin_range_spec sz : in_smallbin_range sz = true <-> sz < 1024.
Proof. apply Z.ltb_lt. Qed.

Lemma largebin_index_eq sz :
  largebin_index sz =
  if sz / 64 <=? 48 then 48 + sz / 64
  else if sz / 512 <=? 20 then 91 + sz / 512
  else if sz / 4096 <=? 10 then 110 + sz / 4096
  else if sz / 32768 <=? 4 then 119 + sz / 32768
  else if sz / 262144 <=? 2 then 124 + sz / 262144
  else 126.
Proof.
  unfold largebin_index. change (SIZE_SZ =? 8) with true. cbv iota.
  unfold largebin_index_64. rewrite !Z.shiftr_div_pow2 by lia. reflexivity.
Qed.

Lemma bin_index_eq sz :
  0 <= sz ->
  bin_index sz =
  if sz <? 1024 then sz / 16
  else if sz / 64 <=? 48 then 48 + sz / 64
  else if sz / 512 <=? 20 then 91 + sz / 512
  else if sz / 4096 <=? 10 then 110 + sz / 4096
  else if sz / 32768 <=? 4 then 119 + sz / 32768
  else if sz / 262144 <=? 2 then 124 + sz / 262144
  else 126.
Proof.
  intros H. unfold bin_index, in_smallbin_range. change MIN_LARGE_SIZE with 1024.
  destruct (Z.ltb_spec sz 1024); [apply smallbin_index_eq; lia|apply largebin_index_eq].
Qed.

Lemma bin_index_mono_aux x y : 0 <= x <= y -> bin_index x <= bin_index y.
Proof.
  intros H. rewrite !bin_index_eq by lia. repeat split_cmp; zlia.
Qed.

Lemma bin_index_bounds sz : 32 <= sz -> 2 <= bin_index sz <= 126.
Proof. intros H. rewrite bin_index_eq by lia. repeat split_cmp; zlia. Qed.

(** ** Claims *)

(** C24: padding a request.  For every request the range check lets through,
    the padded size is the least multiple of 16 that is at least [MINSIZE]
    and holds the request and one size field; nothing wraps around. *)
Theorem request2size_least (req nb : Z) :
  0 <= req -> checked_request2size req = Some nb ->
  nb mod MALLOC_ALIGNMENT = 0 /\ MINSIZE <= nb /\ req + SIZE_SZ <= nb < 18446744073709551616
  /\ forall k, k mod MALLOC_ALIGNMENT = 0 -> MINSIZE <= k -> req + SIZE_SZ <= k -> nb <= k.
Proof.
  intros H0 H. apply checked_request2size_some in H as [H ->]; [|done].
  rewrite request2size_eq by lia. rewrite MINSIZE_32.
  change MALLOC_ALIGNMENT with 16. change SIZE_SZ with 8.
  pose proof (round_down_mod (req + 23)).
  split; [by destruct (Z.max_spec 32 (req + 23 - (req + 23) mod 16)) as [[? ->]|[? ->]]|].
  pose proof (Z.mod_pos_bound (req + 23) 16). repeat split; try lia.
  intros k Hk ? ?. apply Z.max_lub; zlia.
Qed.

Lemma request2size_least_witness :
  checked_request2size 25 = Some 48 /\ 48 mod MALLOC_ALIGNMENT = 0.
Proof. split; [reflexivity|]. apply (request2size_least 25 48); [lia|reflexivity]. Defined.

(** The range check is exact: a request is refused precisely when its
    padding, twice [MINSIZE] included, would leave the 64-bit range. *)
Theorem checked_request2size_refuses (req : Z) :
  0 <= req < 18446744073709551616 ->
  checked_request2size req = None <-> 18446744073709551616 <= req + 2 * MINSIZE.
Proof.
  intros H. rewrite MINSIZE_32. unfold checked_request2size.
  pose proof (REQUEST_OUT_OF_RANGE_spec req) as R.
  destruct (REQUEST_OUT_OF_RANGE req); split; intros; try done.
  - assert (18446744073709551552 <= req) by (by apply R). lia.
  - exfalso. assert (false = true) by (apply R; lia). done.
Qed.

Lemma checked_request2size_refuses_witness : checked_request2size 18446744073709551560 = None.
Proof. apply (checked_request2size_refuses 18446744073709551560); [lia|rewrite MINSIZE_32; lia]. Defined.

(** The bins are ordered by size: a chunk kept in a bin above the bin of
    a request is large enough for the request, which is what the assertion
    [size >= nb] of the binmap scan relies on. *)
Theorem larger_bin_larger_chunk (sz nb : Z) :
  0 <= sz -> 0 <= nb -> bin_index nb < bin_index sz -> nb < sz.
Proof.
  intros Hs Hn H. destruct (Z_lt_ge_dec nb sz) as [|Hge]; [done|].
  pose proof (bin_index_mono_aux sz nb). lia.
Qed.

Lemma larger_bin_larger_chunk_witness : 1040 < 1088.
Proof. apply larger_bin_larger_chunk; [lia|lia|reflexivity]. Defined.

(** Every chunk size has a bin of its own: the index of a size from
    [MINSIZE] on is neither 0 (no bin) nor 1 (the unsorted list) and below
    [NBINS], and small chunks of one bin all have the same size. *)
Theorem bin_index_regular (sz sz' : Z) :
  MINSIZE <= sz -> MINSIZE <= sz' -> sz mod MALLOC_ALIGNMENT = 0 -> sz' mod MALLOC_ALIGNMENT = 0 ->
  2 <= bin_index sz < NBINS
  /\ (in_smallbin_range sz = true -> bin_index sz = bin_index sz' -> sz = sz').
Proof.
  rewrite MINSIZE_32. change MALLOC_ALIGNMENT with 16. intros H H' A A'.
  pose proof (bin_index_bounds sz H). split; [unfold NBINS; lia|].
  rewrite in_smallbin_range_spec. intros Hs. rewrite !bin_index_eq by lia.
  repeat split_cmp; zlia.
Qed.

Lemma bin_index_regular_witness : 2 <= bin_index 48 < NBINS.
Proof. apply (bin_index_regular 48 48); [rewrite MINSIZE_32; lia|rewrite MINSIZE_32; lia|reflexivity|reflexivity]. Defined.
