(* ===== verification/ListFacts.v ===== *)
(** * Lists of free chunks

    A bin is a circular doubly linked list through a header.  This file gives
    it an abstract list ([bin_list]) and shows what [unlink], the insertions
    and the removals of [src/libipc/malloc/malloc.c] do to it. *)

From S2P Require Import Prelude MallocState MallocCore MallocInt SizeFacts.

(** ** Running a computation symbolically

    [with_mem m s] is [s] with another memory: the operations below change
    the memory only, so their results are states of this form. *)

Definition with_mem `{PS : PageSource} (m : memory) (s : state) : state :=
  upd_mem (fun _ => m) s.

Section WithMem.
Context `{PS : PageSource}.

Lemma with_mem_id (s : state) : with_mem (st_mem s) s = s.
Proof. by destruct s. Qed.

Lemma with_mem_with_mem m m' (s : state) : with_mem m (with_mem m' s) = with_mem m s.
Proof. reflexivity. Qed.

Lemma word_with_mem m (s : state) a : word (with_mem m s) a = ld m a.
Proof. reflexivity. Qed.

Lemma st_run (s : state) a v : st a v s = Ok tt (with_mem (<[a := v]> (st_mem s)) s).
Proof. reflexivity. Qed.

Lemma bind_Ok {A B} (c : M A) (k : A -> M B) s a s' :
  c s = Ok a s' -> bind c k s = k a s'.
Proof. unfold bind. by intros ->. Qed.

End WithMem.

(** Unfolds the monad and the field updates, leaving memory updates. *)
Ltac mexec :=
  cbv beta iota zeta delta
    [bind get ret modify when_ st set_prev_size set_size set_fd set_bk set_fd_nextsize
     set_bk_nextsize set_head set_foot set_fastbin set_top set_flags set_binmap
     set_last_remainder set_system_mem set_max_system_mem set_next set_next_free
     set_attached_threads];
  cbn [st_mem st_gl st_ag st_hk st_env st_os st_log upd_mem upd_gl upd_ag upd_hk with_mem].

(** A flag that was just set is set. *)
Lemma truthy_lor h b : b <> 0 -> truthy ((h |w b) &w b) = true.
Proof.
  intros Hb. unfold truthy. rewrite Z.land_lor_distr_l, Z.land_diag.
  apply negb_true_iff, Z.eqb_neq. intros E. by apply Z.lor_eq_0_iff in E as [_ E].
Qed.

(** ** Chains *)

Definition linked (m : memory) (x y : Z) : Prop :=
  ld m (x + off_fd) = y /\ ld m (y + off_bk) = x.

Fixpoint chain (m : memory) (x : Z) (l : list Z) (z : Z) : Prop :=
  match l with
  | [] => linked m x z
  | y :: l => linked m x y /\ chain m y l z
  end.

(** Distinct chunks are at least [MINSIZE] apart, so their fields do not meet. *)
Definition apart (x y : Z) : Prop := x = y \/ 32 <= Z.abs (x - y).

#[export] Instance apart_dec x y : Decision (apart x y).
Proof. unfold apart. apply _. Defined.

Definition spaced (l : list Z) : Prop := forall x y, x ∈ l -> y ∈ l -> apart x y.

(** The circular list of bin header [b] holds the chunks [l], first to last. *)
Definition bin_list (m : memory) (b : Z) (l : list Z) : Prop :=
  chain m b l b /\ NoDup (b :: l) /\ spaced (b :: l).

Lemma chain_app m x l1 p l2 z :
  chain m x (l1 ++ p :: l2) z <-> chain m x l1 p /\ chain m p l2 z.
Proof.
  revert x. induction l1 as [|y l1 IH]; intros x; simpl; [done|].
  rewrite IH. tauto.
Qed.

Lemma chain_snoc m x l p z : chain m x (l ++ [p]) z <-> chain m x l p /\ linked m p z.
Proof. apply (chain_app m x l p []). Qed.

Lemma chain_frame m m' x l z :
  (forall a, a ∈ x :: l -> ld m' (a + off_fd) = ld m (a + off_fd)) ->
  (forall a, a ∈ l ++ [z] -> ld m' (a + off_bk) = ld m (a + off_bk)) ->
  chain m x l z -> chain m' x l z.
Proof.
  revert x. induction l as [|y l IH]; intros x Hf Hb; simpl.
  - intros [H1 H2]. split; [rewrite Hf by set_solver|rewrite Hb by set_solver]; done.
  - intros [[H1 H2] H]. split.
    + split; [rewrite Hf by set_solver|rewrite Hb by set_solver]; done.
    + apply IH; [intros a Ha; apply Hf; set_solver|intros a Ha; apply Hb; set_solver|done].
Qed.

Lemma last_default (y : Z) l d d' : List.last (y :: l) d = List.last (y :: l) d'.
Proof. revert y. induction l as [|z l IH]; intros y; [done|]. apply IH. Qed.

(** The last node of a chain gets another successor. *)
Lemma chain_retarget m m' x l p z :
  (forall a, a ∈ removelast (x :: l) -> ld m' (a + off_fd) = ld m (a + off_fd)) ->
  (forall a, a ∈ l -> ld m' (a + off_bk) = ld m (a + off_bk)) ->
  linked m' (List.last (x :: l) x) z ->
  chain m x l p -> chain m' x l z.
Proof.
  revert x. induction l as [|y l IH]; intros x Hf Hb Hz; [done|].
  change (linked m x y /\ chain m y l p -> linked m' x y /\ chain m' y l z). intros [[H1 H2] H].
  change (removelast (x :: y :: l)) with (x :: removelast (y :: l)) in Hf.
  split; [split; [rewrite Hf by (apply elem_of_cons; by left)|rewrite Hb by set_solver]; done|].
  apply IH; [|intros a Ha; apply Hb; apply elem_of_cons; by right| |done].
  - intros a Ha. apply Hf. apply elem_of_cons. by right.
  - rewrite (last_default y l y x). exact Hz.
Qed.

Lemma removelast_nodup x (l : list Z) a :
  NoDup (x :: l) -> a ∈ removelast (x :: l) -> a <> List.last (x :: l) x /\ a ∈ x :: l.
Proof.
  intros Hn Ha. assert (x :: l <> []) as Hne by done.
  pose proof (app_removelast_last x Hne) as E. rewrite E in Hn.
  apply list.NoDup_app in Hn as (_ & Hd & _). split.
  - intros ->. apply (Hd _ Ha). set_solver.
  - rewrite E. set_solver.
Qed.

Lemma last_elem x (l : list Z) d : List.last (x :: l) d ∈ x :: l.
Proof.
  assert (x :: l <> []) as Hne by done.
  rewrite (app_removelast_last d Hne) at 2. set_solver.
Qed.

Lemma hd_elem d (l : list Z) : hd d l ∈ d :: l.
Proof. destruct l; set_solver. Qed.

Lemma spaced_incl l l' : (forall x, x ∈ l' -> x ∈ l) -> spaced l -> spaced l'.
Proof. intros H Hs x y Hx Hy. apply Hs; auto. Qed.

(** Addresses of links of spaced nodes only meet when node and field agree. *)
Lemma spaced_fd_bk l x y : spaced l -> x ∈ l -> y ∈ l -> x + off_fd <> y + off_bk.
Proof. unfold off_fd, off_bk. intros H Hx Hy E. destruct (H x y Hx Hy); lia. Qed.

(** What the two stores of [unlink] do: the list closes over the gap. *)
Definition relink (bk_ fd_ : Z) (m : memory) : memory :=
  <[bk_ + off_fd := fd_]> (<[fd_ + off_bk := bk_]> m).

Section Relink.
Context (l : list Z) (B F : Z) (m : memory).
Hypothesis Hs : spaced l.
Hypothesis HB : B ∈ l.
Hypothesis HF : F ∈ l.

Lemma relink_linked : linked (relink B F m) B F.
Proof using All.
  pose proof (spaced_fd_bk l B F Hs HB HF). unfold relink. split; [apply ld_insert_eq|].
  rewrite ld_insert_ne by done. apply ld_insert_eq.
Qed.

Lemma relink_fd a : a ∈ l -> a <> B -> ld (relink B F m) (a + off_fd) = ld m (a + off_fd).
Proof using All.
  intros Ha Hne. pose proof (spaced_fd_bk l a F Hs Ha HF). unfold relink.
  rewrite !ld_insert_ne; [done|congruence|lia].
Qed.

Lemma relink_bk a : a ∈ l -> a <> F -> ld (relink B F m) (a + off_bk) = ld m (a + off_bk).
Proof using All.
  intros Ha Hne. pose proof (spaced_fd_bk l B a Hs HB Ha). unfold relink.
  rewrite !ld_insert_ne; [done|lia|done].
Qed.

End Relink.

Lemma bin_list_neighbours m b l1 p l2 :
  bin_list m b (l1 ++ p :: l2) ->
  ld m (p + off_bk) = List.last (b :: l1) b /\ ld m (p + off_fd) = hd b l2
  /\ ld m (List.last (b :: l1) b + off_fd) = p /\ ld m (hd b l2 + off_bk) = p.
Proof.
  intros [Hc _]. apply chain_app in Hc as [H1 H2].
  assert (linked m (List.last (b :: l1) b) p) as [? ?].
  { destruct l1 as [|y l1 _] using rev_ind; [done|].
    apply chain_snoc in H1 as [_ H1]. by rewrite app_comm_cons, last_last. }
  assert (linked m p (hd b l2)) as [? ?] by (destruct l2; [done|by destruct H2]).
  done.
Qed.

Lemma bin_list_remove m b l1 p l2 :
  bin_list m b (l1 ++ p :: l2) ->
  bin_list (relink (List.last (b :: l1) b) (hd b l2) m) b (l1 ++ l2).
Proof.
  intros (Hc & Hn & Hs).
  assert (NoDup (b :: l1 ++ l2)) as Hn'.
  { revert Hn. rewrite <- Permutation_middle, perm_swap. by intros [_ ?]%list.NoDup_cons. }
  assert (NoDup (b :: l1)) as Hn1 by (rewrite app_comm_cons in Hn'; by apply list.NoDup_app in Hn' as [? _]).
  set (B := List.last (b :: l1) b). set (F := hd b l2).
  assert (B ∈ b :: l1 ++ p :: l2) as HB by (pose proof (last_elem b l1 b); set_solver).
  assert (F ∈ b :: l1 ++ p :: l2) as HF by (pose proof (hd_elem b l2); set_solver).
  split; [|split; [done|revert Hs; apply spaced_incl; set_solver]].
  apply chain_app in Hc as [H1 H2].
  assert (forall z, linked (relink B F m) B z -> z = F ->
            chain (relink B F m) b l1 z) as Hpre.
  { intros z Hz ->. revert H1. apply chain_retarget; [| |done].
    - intros a Ha. apply removelast_nodup in Ha as [? ?]; [|done].
      eapply relink_fd; eauto. set_solver.
    - intros a Ha. eapply relink_bk; eauto; [set_solver|]. subst F.
      rewrite app_comm_cons in Hn'. apply list.NoDup_app in Hn' as (_ & Hd & _).
      apply list.NoDup_cons in Hn1 as [? _]. destruct l2; simpl; set_solver. }
  pose proof (relink_linked _ B F m Hs HB HF) as HL.
  destruct l2 as [|y l2]; [rewrite app_nil_r; by apply Hpre|].
  apply chain_app. split; [by apply Hpre|]. destruct H2 as [_ H2].
  revert H2. apply chain_frame; intros a Ha.
  - eapply relink_fd; eauto; [set_solver|]. subst B. intros ->.
    rewrite app_comm_cons in Hn'. apply list.NoDup_app in Hn' as (_ & Hd & _).
    apply (Hd _ (last_elem b l1 b) Ha).
  - eapply relink_bk; eauto; [set_solver|]. subst F. simpl.
    apply list.NoDup_cons in Hn' as [? Hn']. apply list.NoDup_app in Hn' as (_ & _ & Hd).
    apply list.NoDup_cons in Hd as [? _]. set_solver.
Qed.

(** A chunk [p] becomes the first of the list, whatever the order of the four
    stores: the front insertion of the unsorted list and of the small bins. *)
Lemma bin_list_insert m m' b l p :
  bin_list m b l -> p ∉ b :: l -> spaced (p :: b :: l) ->
  linked m' b p -> linked m' p (hd b l) ->
  (forall a, a ∈ l -> ld m' (a + off_fd) = ld m (a + off_fd)) ->
  (forall a, a ∈ b :: l -> a <> hd b l -> ld m' (a + off_bk) = ld m (a + off_bk)) ->
  bin_list m' b (p :: l).
Proof.
  intros (Hc & Hn & _) Hp Hs Hbp Hpf Hf Hb. split; [|split].
  - split; [done|]. destruct l as [|y l]; [done|]. split; [done|].
    destruct Hc as [_ Hc]. revert Hc. apply chain_frame; intros a Ha; [by apply Hf|].
    apply list.NoDup_cons in Hn as [Hby Hn]. apply list.NoDup_cons in Hn as [Hy _].
    apply Hb; simpl; set_solver.
  - apply list.NoDup_cons in Hn as [? ?]. apply list.NoDup_cons. split; [set_solver|].
    apply list.NoDup_cons. set_solver.
  - revert Hs. apply spaced_incl. set_solver.
Qed.

(** Stores outside the links of a list leave it as it is. *)
Lemma bin_list_frame m m' b l :
  (forall a, a ∈ b :: l -> ld m' (a + off_fd) = ld m (a + off_fd)) ->
  (forall a, a ∈ b :: l -> ld m' (a + off_bk) = ld m (a + off_bk)) ->
  bin_list m b l -> bin_list m' b l.
Proof.
  intros Hf Hb (Hc & ? & ?). split; [|done]. revert Hc. apply chain_frame; [done|].
  intros a Ha. apply Hb. set_solver.
Qed.

(** ** What the routines do to the lists *)

Section Routines.
Context `{PS : PageSource}.

(** [unlink] of a chunk that is not on the list of distinct sizes. *)
Lemma unlink_run (s : state) av b l1 P l2 :
  bin_list (st_mem s) b (l1 ++ P :: l2) ->
  size_ s P < 1024 \/ fd_nextsize s P = 0 ->
  unlink av P s = Ok tt (with_mem (relink (List.last (b :: l1) b) (hd b l2) (st_mem s)) s).
Proof.
  intros Hl Hsm. pose proof (bin_list_neighbours _ _ _ _ _ Hl) as (HB & HF & HB' & HF').
  destruct Hl as (_ & _ & Hs).
  set (B := List.last (b :: l1) b) in *. set (F := hd b l2) in *.
  assert (B ∈ b :: l1 ++ P :: l2) as HBin by (pose proof (last_elem b l1 b); set_solver).
  assert (F ∈ b :: l1 ++ P :: l2) as HFin by (pose proof (hd_elem b l2); set_solver).
  assert (apart B P /\ apart F P) as [HBP HFP] by (split; apply Hs; set_solver).
  unfold unlink. mexec. unfold fd, bk, word. rewrite HB, HF, HB', HF', !Z.eqb_refl.
  cbn [negb orb]. mexec. unfold size_, fd_nextsize, word in *. mexec.
  assert (forall o, o = off_size \/ o = off_fd_nextsize ->
            ld (relink B F (st_mem s)) (P + o) = ld (st_mem s) (P + o)) as Hfr.
  { intros o Ho. unfold relink, off_size, off_fd, off_bk, off_fd_nextsize, apart in *.
    rewrite !ld_insert_ne; [done|lia|lia]. }
  fold (relink B F (st_mem s)). rewrite !Hfr by auto.
  assert (negb (in_smallbin_range (ld (st_mem s) (P + off_size)))
          && truthy (ld (st_mem s) (P + off_fd_nextsize)) = false) as ->.
  { destruct Hsm as [Hsm|Hsm].
    - by rewrite (proj2 (in_smallbin_range_spec _) Hsm).
    - rewrite Hsm. apply andb_false_r. }
  reflexivity.
Qed.

End Routines.
