(* ===== verification/Rings.v ===== *)
(** * Lists of distinct sizes

    A large bin of [src/libipc/malloc/malloc.c] is sorted by size, largest
    first, and the first chunk of each size is also on a second, circular list
    through [fd_nextsize] and [bk_nextsize].  This file describes the two
    lists and what an insertion or a removal does to them. *)

From Stdlib Require Import Sorted.
From S2P Require Import Prelude MallocState MallocCore MallocInt SizeFacts ListFacts.

(** ** Circular lists

    A bin list read from another of its nodes. *)

(** Membership in a list built with [++] and [::]. *)
Ltac in_auto := first [assumption | right; assumption | repeat first [rewrite elem_of_app | rewrite elem_of_cons]; auto 10].

#[export] Instance spaced_proper : Proper (Permutation ==> iff) spaced.
Proof. intros l l' H. split; apply spaced_incl; intros x; by rewrite H. Qed.

Lemma bin_list_rotate m a l1 p l2 : bin_list m a (l1 ++ p :: l2) <-> bin_list m p (l2 ++ a :: l1).
Proof.
  assert (a :: l1 ++ p :: l2 ≡ₚ p :: l2 ++ a :: l1) as Hp by (rewrite <- !Permutation_middle, (Permutation_app_comm l1 l2); apply perm_swap).
  unfold bin_list. rewrite !chain_app, Hp. tauto.
Qed.

(** A node at the end, whatever the order of the stores. *)
Lemma bin_list_append m m' b l p :
  bin_list m b l -> p ∉ b :: l -> spaced (p :: b :: l) ->
  linked m' (List.last (b :: l) b) p -> linked m' p b ->
  (forall a, a ∈ b :: l -> a <> List.last (b :: l) b -> ld m' (a + off_fd) = ld m (a + off_fd)) ->
  (forall a, a ∈ l -> ld m' (a + off_bk) = ld m (a + off_bk)) ->
  bin_list m' b (l ++ [p]).
Proof.
  intros Hl Hp Hs H1 H2 Hfd Hbk. destruct l as [|B l _] using rev_ind.
  - apply (bin_list_insert m); try done; [intros a Ha; by apply elem_of_nil in Ha|].
    intros a ->%list_elem_of_singleton. done.
  - rewrite app_comm_cons, last_last in H1, Hfd. cbn [app] in Hfd. rewrite <- app_assoc. cbn [app].
    rewrite bin_list_rotate. cbn [app]. rewrite bin_list_rotate in Hl. cbn [app] in Hl.
    assert (NoDup (B :: b :: l)) as Hn by apply Hl.
    apply (bin_list_insert m); try done.
    + set_solver.
    + revert Hs. apply spaced_incl. set_solver.
    + intros a Ha. apply Hfd; [set_solver|]. intros ->. apply list.NoDup_cons in Hn. naive_solver.
    + cbn [hd]. intros a Ha Hne. apply Hbk. set_solver.
Qed.

(** The four stores that link [v] between two neighbours. *)
Definition link_in (m : memory) (B v F : Z) : memory :=
  <[B + off_fd := v]> (<[F + off_bk := v]> (<[v + off_fd := F]> (<[v + off_bk := B]> m))).

Lemma link_in_run m (L : list Z) B v F :
  spaced (v :: L) -> v ∉ L -> B ∈ L -> F ∈ L ->
  linked (link_in m B v F) B v /\ linked (link_in m B v F) v F
  /\ (forall a, a ∈ L -> a <> B -> ld (link_in m B v F) (a + off_fd) = ld m (a + off_fd))
  /\ (forall a, a ∈ L -> a <> F -> ld (link_in m B v F) (a + off_bk) = ld m (a + off_bk)).
Proof.
  intros Hs Hv HB HF. assert (forall a, a ∈ L -> a <> v) as Hne by (intros a Ha ->; done).
  assert (forall a c, a ∈ v :: L -> c ∈ v :: L -> a = c \/ 32 <= Z.abs (a - c)) as Hd by (intros; by apply Hs).
  pose proof (Hd v B ltac:(in_auto) ltac:(in_auto)). pose proof (Hd v F ltac:(in_auto) ltac:(in_auto)). pose proof (Hd B F ltac:(in_auto) ltac:(in_auto)).
  pose proof (Hne B HB). pose proof (Hne F HF). unfold link_in, linked, off_fd, off_bk. split_and!; try (mem_simp; done).
  - intros a Ha HaB. pose proof (Hd a v ltac:(in_auto) ltac:(in_auto)). pose proof (Hd a F ltac:(in_auto) ltac:(in_auto)). pose proof (Hne a Ha). by rewrite !ld_insert_ne by lia.
  - intros a Ha HaF. pose proof (Hd a v ltac:(in_auto) ltac:(in_auto)). pose proof (Hd a B ltac:(in_auto) ltac:(in_auto)). pose proof (Hne a Ha). by rewrite !ld_insert_ne by lia.
Qed.

(** A node enters anywhere in the list. *)
Lemma bin_list_between m b l1 l2 v :
  bin_list m b (l1 ++ l2) -> v ∉ b :: l1 ++ l2 -> spaced (v :: b :: l1 ++ l2) ->
  bin_list (link_in m (List.last (b :: l1) b) v (hd b l2)) b (l1 ++ v :: l2).
Proof.
  intros Hl Hv Hs. set (B := List.last (b :: l1) b). set (F := hd b l2).
  assert (B ∈ b :: l1 ++ l2 /\ F ∈ b :: l1 ++ l2) as [HB HF].
  { split; [pose proof (last_elem b l1 b) as H; fold B in H|pose proof (hd_elem b l2) as H; fold F in H]; apply elem_of_cons in H as [->|H]; in_auto. }
  destruct (link_in_run m _ B v F Hs Hv HB HF) as (L1 & L2 & Hfd & Hbk). set (m' := link_in m B v F) in *.
  destruct l1 as [|B' l1 _] using rev_ind.
  - apply (bin_list_insert m); try done. intros a Ha. apply Hfd; [by right|]. intros ->.
    destruct Hl as (_ & Hn & _). by apply list.NoDup_cons in Hn as [? _].
  - assert (B = B') as EB by (unfold B; rewrite app_comm_cons; apply last_last). unfold m' in *. clear m'. rewrite EB in *. clear EB B. set (m' := link_in m B' v F) in *.
    rewrite <- app_assoc in *. cbn [app] in *. rewrite bin_list_rotate in Hl. rewrite bin_list_rotate. change ((v :: l2) ++ b :: l1) with (v :: l2 ++ b :: l1).
    assert (forall a, a ∈ B' :: l2 ++ b :: l1 <-> a ∈ b :: l1 ++ B' :: l2) as Hin
      by (intros a; repeat first [rewrite elem_of_app | rewrite elem_of_cons]; tauto).
    assert (hd B' (l2 ++ b :: l1) = F) as EF by (unfold F; by destruct l2).
    apply (bin_list_insert m); try done; rewrite ?EF; try done.
    + by rewrite Hin.
    + revert Hs. apply spaced_incl. intros a [->|Ha]%elem_of_cons; [left|right; by apply Hin].
    + intros a Ha. apply Hfd; [apply Hin; by right|]. intros ->. destruct Hl as (_ & Hn & _). by apply list.NoDup_cons in Hn as [? _].
    + intros a Ha Hne. apply Hbk; [by apply Hin|done].
Qed.

(** The header is replaced by another node. *)
Lemma bin_list_replace m m' b p y l :
  bin_list m b (y :: l) -> p ∉ b :: y :: l -> spaced (p :: b :: y :: l) ->
  linked m' p y -> linked m' (List.last (y :: l) y) p ->
  (forall a, a ∈ y :: l -> a <> List.last (y :: l) y -> ld m' (a + off_fd) = ld m (a + off_fd)) ->
  (forall a, a ∈ l -> ld m' (a + off_bk) = ld m (a + off_bk)) ->
  bin_list m' p (y :: l).
Proof.
  intros ([Hby Hc] & Hn & _) Hp Hs H1 H2 Hfd Hbk. pose proof Hn as [Hb Hn']%list.NoDup_cons. split; [|split].
  - split; [done|]. revert Hc. apply chain_retarget; [|done|done].
    intros a [? ?]%removelast_nodup; [|done]. by apply Hfd.
  - apply list.NoDup_cons. split; [set_solver|done].
  - revert Hs. apply spaced_incl. set_solver.
Qed.

(** ** The second pair of links

    [shift m] shows [fd_nextsize] and [bk_nextsize] where [fd] and [bk] are,
    so that what is known of bin lists holds for the list of sizes. *)

Definition shift (m : memory) : memory := kmap (fun a => a - 16) m.

Lemma ld_shift m a : ld (shift m) a = ld m (a + 16).
Proof.
  unfold ld, shift. f_equal. assert (Inj (=) (=) (fun a : Z => a - 16)) as Hi by (intros ? ? ?; lia).
  rewrite <- (lookup_kmap (fun a => a - 16) m (a + 16)). f_equal. lia.
Qed.

Definition ring (m : memory) (hs : list Z) : Prop :=
  match hs with
  | [] => True
  | h :: t => bin_list (shift m) h t
  end.

(** [nlinked m x y]: [y] follows [x] on the list of sizes. *)
Definition nlinked (m : memory) (x y : Z) : Prop := ld m (x + off_fd_nextsize) = y /\ ld m (y + off_bk_nextsize) = x.

Lemma linked_shift m x y : linked (shift m) x y <-> nlinked m x y.
Proof. unfold linked, nlinked, off_fd, off_bk, off_fd_nextsize, off_bk_nextsize. rewrite !ld_shift, <- !Z.add_assoc. done. Qed.

Lemma shift_fd m a : ld (shift m) (a + off_fd) = ld m (a + off_fd_nextsize).
Proof. unfold off_fd, off_fd_nextsize. rewrite ld_shift. f_equal. lia. Qed.

Lemma shift_bk m a : ld (shift m) (a + off_bk) = ld m (a + off_bk_nextsize).
Proof. unfold off_bk, off_bk_nextsize. rewrite ld_shift. f_equal. lia. Qed.

Lemma ring_frame m m' hs :
  (forall a, a ∈ hs -> ld m' (a + off_fd_nextsize) = ld m (a + off_fd_nextsize)) ->
  (forall a, a ∈ hs -> ld m' (a + off_bk_nextsize) = ld m (a + off_bk_nextsize)) ->
  ring m hs -> ring m' hs.
Proof.
  destruct hs as [|h t]; [done|]. intros Hf Hb. apply bin_list_frame; intros a Ha; rewrite ?shift_fd, ?shift_bk; auto.
Qed.

Lemma ring_rotate m h1 p h2 : ring m (h1 ++ p :: h2) <-> bin_list (shift m) p (h2 ++ h1).
Proof. destruct h1 as [|a h1]; [by rewrite app_nil_r|]. apply bin_list_rotate. Qed.

Lemma ring_nodup m hs : ring m hs -> NoDup hs /\ spaced hs.
Proof. destruct hs as [|h t]; [split; [constructor|intros x y Hx; by apply elem_of_nil in Hx]|]. by intros (_ & ? & ?). Qed.

(** The neighbours of a node. *)
Definition rnext (h1 : list Z) (p : Z) (h2 : list Z) : Z := hd p (h2 ++ h1).
Definition rprev (h1 : list Z) (p : Z) (h2 : list Z) : Z := List.last (p :: h2 ++ h1) p.

Lemma last_cons_elem (x : Z) l d : List.last (x :: l) d ∈ x :: l.
Proof. apply last_elem. Qed.

Lemma ring_neighbours m h1 p h2 :
  ring m (h1 ++ p :: h2) ->
  nlinked m p (rnext h1 p h2) /\ nlinked m (rprev h1 p h2) p
  /\ rnext h1 p h2 ∈ h1 ++ p :: h2 /\ rprev h1 p h2 ∈ h1 ++ p :: h2.
Proof.
  rewrite ring_rotate. intros Hl. unfold rnext, rprev. split_and!.
  - destruct Hl as (Hc & _). apply linked_shift. destruct (h2 ++ h1); [done|apply Hc].
  - destruct Hl as (Hc & _). apply linked_shift. destruct (h2 ++ h1) as [|y l _] using rev_ind; [done|].
    apply chain_snoc in Hc as [_ Hc]. by rewrite app_comm_cons, last_last.
  - pose proof (hd_elem p (h2 ++ h1)). set_solver.
  - pose proof (last_elem p (h2 ++ h1) p). set_solver.
Qed.

(** A node leaves the ring. *)
Lemma ring_remove m m' h1 p h2 :
  let F := rnext h1 p h2 in
  let B := rprev h1 p h2 in
  ring m (h1 ++ p :: h2) -> nlinked m' B F ->
  (forall a, a ∈ h1 ++ h2 -> a <> B -> ld m' (a + off_fd_nextsize) = ld m (a + off_fd_nextsize)) ->
  (forall a, a ∈ h1 ++ h2 -> a <> F -> ld m' (a + off_bk_nextsize) = ld m (a + off_bk_nextsize)) ->
  ring m' (h1 ++ h2).
Proof.
  intros F B Hr HL Hfd Hbk. apply ring_rotate in Hr. unfold F, B, rnext, rprev in *.
  assert (forall a, a ∈ h1 ++ h2 <-> a ∈ h2 ++ h1) as Hin by (intros a; rewrite !elem_of_app; tauto).
  destruct (h2 ++ h1) as [|y r] eqn:E.
  - apply app_nil in E as [-> ->]. done.
  - cbn [hd] in *. change (List.last (p :: y :: r) p) with (List.last (y :: r) p) in *. rewrite (last_default y r p y) in *.
    pose proof Hr as ([_ Hc] & Hn & Hs). apply list.NoDup_cons in Hn as [Hp Hn].
    assert (bin_list (shift m') y r) as Hy.
    { split; [|split; [done|revert Hs; apply spaced_incl; set_solver]]. revert Hc. apply chain_retarget.
      - intros a [Ha Ha']%removelast_nodup; [|done]. rewrite !shift_fd. apply Hfd; [by apply Hin|]. done.
      - intros a Ha. rewrite !shift_bk. apply Hbk; [apply Hin; by right|]. intros ->. by apply list.NoDup_cons in Hn as [? _].
      - by apply linked_shift. }
    destruct h2 as [|z h2]; cbn [app] in E.
    + rewrite app_nil_r, E. exact Hy.
    + injection E as -> <-. by apply ring_rotate.
Qed.

(** A node enters the ring before [p]. *)
Lemma ring_insert m m' h1 p h2 v :
  let B := rprev h1 p h2 in
  ring m (h1 ++ p :: h2) -> v ∉ h1 ++ p :: h2 -> spaced (v :: h1 ++ p :: h2) -> nlinked m' B v -> nlinked m' v p ->
  (forall a, a ∈ h1 ++ p :: h2 -> a <> B -> ld m' (a + off_fd_nextsize) = ld m (a + off_fd_nextsize)) ->
  (forall a, a ∈ h1 ++ p :: h2 -> a <> p -> ld m' (a + off_bk_nextsize) = ld m (a + off_bk_nextsize)) ->
  ring m' (h1 ++ v :: p :: h2).
Proof.
  intros B Hr Hv Hs H1 H2 Hfd Hbk. change (v :: p :: h2) with ([v] ++ p :: h2). rewrite app_assoc. apply ring_rotate. rewrite app_assoc.
  apply ring_rotate in Hr. unfold B, rprev in *. apply linked_shift in H1, H2.
  assert (forall a, a ∈ h1 ++ p :: h2 <-> a ∈ p :: h2 ++ h1) as Hin by (intros a; rewrite elem_of_app, !elem_of_cons, elem_of_app; tauto).
  apply (bin_list_append (shift m)); try done.
  - by rewrite <- Hin.
  - revert Hs. apply spaced_incl. set_solver.
  - intros a Ha Hne. rewrite !shift_fd. apply Hfd; [by apply Hin|done].
  - intros a Ha. rewrite !shift_bk. apply Hbk; [apply Hin; by right|]. intros ->.
    destruct Hr as (_ & Hn & _). by apply list.NoDup_cons in Hn as [? _].
Qed.

(** A node enters at the end, which is before the first one. *)
Lemma ring_append m m' h t v :
  let B := List.last (h :: t) h in
  ring m (h :: t) -> v ∉ h :: t -> spaced (v :: h :: t) -> nlinked m' B v -> nlinked m' v h ->
  (forall a, a ∈ h :: t -> a <> B -> ld m' (a + off_fd_nextsize) = ld m (a + off_fd_nextsize)) ->
  (forall a, a ∈ h :: t -> a <> h -> ld m' (a + off_bk_nextsize) = ld m (a + off_bk_nextsize)) ->
  ring m' (h :: t ++ [v]).
Proof.
  intros B Hr Hv Hs H1 H2 Hfd Hbk. apply (bin_list_append (shift m)); try done; [by apply linked_shift|by apply linked_shift|..].
  - intros a Ha Hne. rewrite !shift_fd. by apply Hfd.
  - intros a Ha. rewrite !shift_bk. apply Hbk; [by right|]. intros ->.
    destruct Hr as (_ & Hn & _). by apply list.NoDup_cons in Hn as [? _].
Qed.

(** [q] takes the place of [p]. *)
Lemma ring_replace m m' h1 p h2 q :
  let F := rnext h1 p h2 in
  let B := rprev h1 p h2 in
  ring m (h1 ++ p :: h2) -> q ∉ h1 ++ p :: h2 -> spaced (q :: h1 ++ p :: h2) ->
  nlinked m' q (if decide (F = p) then q else F) -> nlinked m' (if decide (B = p) then q else B) q ->
  (forall a, a ∈ h1 ++ h2 -> a <> B -> ld m' (a + off_fd_nextsize) = ld m (a + off_fd_nextsize)) ->
  (forall a, a ∈ h1 ++ h2 -> a <> F -> ld m' (a + off_bk_nextsize) = ld m (a + off_bk_nextsize)) ->
  ring m' (h1 ++ q :: h2).
Proof.
  intros F B Hr Hq Hs H1 H2 Hfd Hbk. apply ring_rotate. apply ring_rotate in Hr. unfold F, B, rnext, rprev in *.
  assert (forall a, a ∈ h1 ++ h2 <-> a ∈ h2 ++ h1) as Hin by (intros a; rewrite !elem_of_app; tauto).
  assert (forall a, a ∈ h1 ++ p :: h2 <-> a ∈ p :: h2 ++ h1) as Hin' by (intros a; rewrite elem_of_app, !elem_of_cons, elem_of_app; tauto).
  rewrite Hin' in Hq. destruct (h2 ++ h1) as [|y r] eqn:E.
  - cbn [hd List.last] in *. rewrite decide_True in H1, H2 by done. apply linked_shift in H1.
    split; [done|]. split; [apply NoDup_singleton|]. intros x z ->%list_elem_of_singleton ->%list_elem_of_singleton. by left.
  - cbn [hd] in *. change (List.last (p :: y :: r) p) with (List.last (y :: r) p) in *. rewrite (last_default y r p y) in *.
    assert (p ∉ y :: r) as Hp by (destruct Hr as (_ & Hn & _); by apply list.NoDup_cons in Hn as [? _]).
    rewrite decide_False in H1 by (intros ->; apply Hp; left).
    rewrite decide_False in H2 by (intros Eq; apply Hp; rewrite <- Eq; apply last_elem).
    apply linked_shift in H1, H2. apply (bin_list_replace (shift m) _ p); try done.
    + revert Hs. apply spaced_incl. intros x [->|Hx]%elem_of_cons; [left|right; by apply Hin'].
    + intros a Ha Hne. rewrite !shift_fd. apply Hfd; [by apply Hin|done].
    + intros a Ha. rewrite !shift_bk. apply Hbk; [apply Hin; by right|]. intros ->.
      destruct Hr as (_ & Hn & _). apply list.NoDup_cons in Hn as [_ Hn]. by apply list.NoDup_cons in Hn as [? _].
Qed.

(** ** The first chunks of each size *)

Section Sizes.
Context (sz : Z -> Z).
Implicit Types (p x y v : Z) (l : list Z).

(** The chunks of [l] whose size differs from the size before them; [p] is the
    size before the list. *)
Fixpoint heads p l : list Z :=
  match l with
  | [] => []
  | x :: l => if sz x =? p then heads p l else x :: heads (sz x) l
  end.

Fixpoint last_size p l : Z :=
  match l with
  | [] => p
  | x :: l => last_size (sz x) l
  end.

Definition sorted l : Prop := StronglySorted (fun x y => sz y <= sz x) l.

Lemma heads_app p l1 l2 : heads p (l1 ++ l2) = heads p l1 ++ heads (last_size p l1) l2.
Proof.
  revert p. induction l1 as [|x l1 IH]; intros p; cbn; [done|]. destruct (Z.eqb_spec (sz x) p) as [->|]; [apply IH|]. by rewrite IH.
Qed.

Lemma elem_heads p l x : x ∈ heads p l -> x ∈ l.
Proof.
  revert p. induction l as [|y l IH]; intros p; cbn; [done|]. destruct (sz y =? p); rewrite ?elem_of_cons; naive_solver.
Qed.

Lemma last_size_in p l : last_size p l = p \/ exists x, x ∈ l /\ sz x = last_size p l.
Proof.
  revert p. induction l as [|y l IH]; intros p; cbn; [by left|right]. destruct (IH (sz y)) as [->|(x & ? & ?)]; [exists y|exists x]; set_solver.
Qed.

Lemma length_heads p l : (length (heads p l) <= length l)%nat.
Proof. revert p. induction l as [|x l IH]; intros p; cbn; [done|]. pose proof (IH p). pose proof (IH (sz x)). destruct (sz x =? p); cbn; lia. Qed.

(** Only the first chunk of a list is compared with the size before it. *)
Lemma heads_start p q l : (forall x, x ∈ l -> sz x <> p /\ sz x <> q) -> heads p l = heads q l.
Proof.
  destruct l as [|x l]; [done|]. intros H. destruct (H x ltac:(left)). cbn. by rewrite !(proj2 (Z.eqb_neq _ _)).
Qed.

Lemma heads_cover p l x : x ∈ l -> sz x <> p -> sorted l -> (forall y, y ∈ l -> sz y <= p \/ p = 0) -> 0 < sz x ->
  exists h, h ∈ heads p l /\ sz h = sz x.
Proof.
  intros Hx. revert p. induction l as [|y l IH]; intros p Hp Hs Hle H0; cbn; [by apply elem_of_nil in Hx|].
  apply StronglySorted_inv in Hs as [Hs Hy]. rewrite list.Forall_forall in Hy.
  apply elem_of_cons in Hx as [->|Hx]; [rewrite (proj2 (Z.eqb_neq _ _) Hp); exists y; split; [left|done]|].
  assert (forall z, z ∈ l -> sz z <= p \/ p = 0) as Hle' by (intros; apply Hle; by right).
  destruct (Z.eqb_spec (sz y) p) as [E|E]; [by apply IH|].
  destruct (decide (sz x = sz y)) as [Exy|Exy]; [exists y; split; [left|done]|].
  destruct (IH Hx (sz y)) as (h & ? & ?); try done; [intros z Hz; left; by apply Hy|].
  exists h. split; [by right|done].
Qed.

Lemma heads_inv p l g1 f g2 :
  heads p l = g1 ++ f :: g2 ->
  exists l1 l2, l = l1 ++ f :: l2 /\ g1 = heads p l1 /\ g2 = heads (sz f) l2 /\ last_size p l1 <> sz f.
Proof.
  revert p g1. induction l as [|x l IH]; intros p g1; cbn; [by destruct g1|].
  destruct (Z.eqb_spec (sz x) p) as [E|E]; intros H.
  - destruct (IH _ _ H) as (l1 & l2 & -> & -> & -> & Hl). exists (x :: l1), l2. cbn. rewrite (proj2 (Z.eqb_eq _ _) E), E. done.
  - destruct g1 as [|g g1]; injection H as -> H.
    + exists [], l. done.
    + destruct (IH _ _ H) as (l1 & l2 & -> & -> & -> & Hl). exists (g :: l1), l2. cbn. by rewrite (proj2 (Z.eqb_neq _ _) E).
Qed.

Lemma sorted_app l1 l2 : sorted (l1 ++ l2) <-> sorted l1 /\ sorted l2 /\ forall x y, x ∈ l1 -> y ∈ l2 -> sz y <= sz x.
Proof.
  unfold sorted. induction l1 as [|x l1 IH]; cbn [app].
  - split; [intros H; split_and!; [constructor|done|intros x y Hx; by apply elem_of_nil in Hx]|tauto].
  - split.
    + intros [H Hx]%StronglySorted_inv. apply IH in H as (H1 & H2 & H3). rewrite list.Forall_app in Hx. destruct Hx as [Hx1 Hx2].
      rewrite list.Forall_forall in Hx2. split_and!; [by constructor|done|]. intros a b [->|Ha]%elem_of_cons Hb; auto.
    + intros ([H1 Hx]%StronglySorted_inv & H2 & H3). constructor; [apply IH; split_and!; try done; intros; apply H3; [by right|done]|].
      rewrite list.Forall_app, (list.Forall_forall _ l2). split; [done|]. intros y Hy. apply H3; [left|done].
Qed.

(** A chunk whose size is not in the list yet. *)
Lemma heads_insert l1 v l2 :
  (forall x, x ∈ l1 -> sz v < sz x) -> (forall x, x ∈ l2 -> sz x < sz v) -> (forall x, x ∈ l1 ++ v :: l2 -> 0 < sz x) ->
  heads 0 (l1 ++ v :: l2) = heads 0 l1 ++ v :: heads 0 l2 /\ heads 0 (l1 ++ l2) = heads 0 l1 ++ heads 0 l2.
Proof.
  intros H1 H2 H0. assert (0 < sz v) by (apply H0; set_solver). rewrite !heads_app. cbn [heads].
  assert (last_size 0 l1 = 0 \/ sz v < last_size 0 l1) as Hl.
  { destruct (last_size_in 0 l1) as [?|(x & Hx & <-)]; [by left|right; auto]. }
  rewrite (proj2 (Z.eqb_neq _ _)) by lia. split.
  - do 2 f_equal. apply heads_start. intros x Hx. pose proof (H2 x Hx). pose proof (H0 x). set_solver by lia.
  - f_equal. apply heads_start. intros x Hx. pose proof (H2 x Hx). assert (0 < sz x) by (apply H0; set_solver). lia.
Qed.

Lemma heads_insert_equal l1 f v l2 : sz v = sz f -> heads 0 (l1 ++ f :: v :: l2) = heads 0 (l1 ++ f :: l2).
Proof.
  intros E. rewrite !heads_app. f_equal. cbn [heads]. rewrite E, Z.eqb_refl. by destruct (sz f =? last_size 0 l1).
Qed.

(** A chunk leaves the list: it was not the first of its size, it was alone,
    or the next one takes its place. *)
Lemma heads_remove l1 x l2 :
  NoDup (l1 ++ x :: l2) -> sorted (l1 ++ x :: l2) -> (forall y, y ∈ l1 ++ x :: l2 -> 0 < sz y) ->
  ((x ∉ heads 0 (l1 ++ x :: l2)) /\ heads 0 (l1 ++ l2) = heads 0 (l1 ++ x :: l2))
  \/ exists g1 g2, heads 0 (l1 ++ x :: l2) = g1 ++ x :: g2
     /\ match l2 with
        | y :: _ => if sz y =? sz x then heads 0 (l1 ++ l2) = g1 ++ y :: g2 /\ y ∉ heads 0 (l1 ++ x :: l2)
                    else heads 0 (l1 ++ l2) = g1 ++ g2 /\ y ∈ heads 0 (l1 ++ x :: l2)
        | [] => heads 0 (l1 ++ l2) = g1 ++ g2
        end.
Proof.
  intros Hn Hs H0. apply list.NoDup_app in Hn as (_ & Hd & [Hx Hn2]%list.NoDup_cons).
  assert (x ∉ l1) as Hx1 by (intros Hx1; apply (Hd x Hx1); left).
  apply sorted_app in Hs as (_ & Hs2 & H12). apply StronglySorted_inv in Hs2 as [_ Hx2]. rewrite list.Forall_forall in Hx2.
  rewrite !heads_app. cbn [heads]. destruct (Z.eqb_spec (sz x) (last_size 0 l1)) as [E|E].
  - left. split; [|done]. rewrite elem_of_app. intros [H%elem_heads|H%elem_heads]; done.
  - right. exists (heads 0 l1), (heads (sz x) l2). split; [done|]. destruct l2 as [|y l2]; [done|]. cbn [heads].
    assert (sz y <= sz x) by (apply Hx2; left). assert (0 < sz y) by (apply H0; set_solver).
    destruct (Z.eqb_spec (sz y) (sz x)) as [Ey|Ey].
    + rewrite Ey, (proj2 (Z.eqb_neq _ _) E). split; [done|]. rewrite elem_of_app, elem_of_cons.
      apply list.NoDup_cons in Hn2 as [Hy _]. intros [Hh%elem_heads|[->|Hh%elem_heads]]; [|set_solver|done]. apply (Hd y Hh). set_solver.
    + assert (sz y <> last_size 0 l1).
      { destruct (last_size_in 0 l1) as [->|(z & Hz & <-)]; [lia|]. assert (sz x <= sz z) by (apply H12; [done|left]). lia. }
      rewrite (proj2 (Z.eqb_neq _ _)) by done. split; [done|]. set_solver.
Qed.

End Sizes.

Lemma heads_ext sz sz' p l : (forall x, x ∈ l -> sz' x = sz x) -> heads sz' p l = heads sz p l.
Proof.
  revert p. induction l as [|x l IH]; intros p H; cbn; [done|]. rewrite (H x) by left.
  rewrite !IH by (intros; apply H; by right). done.
Qed.

Lemma sorted_by_ext sz sz' l : (forall x, x ∈ l -> sz' x = sz x) -> sorted sz l -> sorted sz' l.
Proof.
  intros H. unfold sorted. induction l as [|x l IH]; intros Hs; [constructor|].
  apply StronglySorted_inv in Hs as [Hs Hx]. constructor; [apply IH; [intros; apply H; by right|done]|].
  rewrite list.Forall_forall in *. intros y Hy. rewrite (H x) by left. rewrite (H y) by (by right). by apply Hx.
Qed.

(** ** A large bin *)

Definition head (m : memory) (x : Z) : Z := ld m (x + off_size).

(** [l] is sorted by size, the first chunks of each size form a ring, and the
    other chunks have no [fd_nextsize]. *)
Record size_list (m : memory) (l : list Z) : Prop := {
  sl_nodup : NoDup l;
  sl_sorted : sorted (head m) l;
  sl_pos : forall x, x ∈ l -> 0 < head m x;
  sl_ring : ring m (heads (head m) 0 l);
  sl_plain : forall x, x ∈ l -> x ∉ heads (head m) 0 l -> ld m (x + off_fd_nextsize) = 0 }.

Section SizeList.
Implicit Types (m : memory) (l : list Z) (x y v f : Z).

Lemma size_list_nil m : size_list m [].
Proof. split; [constructor|constructor|intros x Hx; by apply elem_of_nil in Hx|done|intros x Hx; by apply elem_of_nil in Hx]. Qed.

Lemma size_list_frame m m' l :
  (forall x, x ∈ l -> head m' x = head m x) ->
  (forall x, x ∈ l -> ld m' (x + off_fd_nextsize) = ld m (x + off_fd_nextsize)) ->
  (forall x, x ∈ l -> ld m' (x + off_bk_nextsize) = ld m (x + off_bk_nextsize)) ->
  size_list m l -> size_list m' l.
Proof.
  intros Hh Hf Hb []. split; rewrite ?(heads_ext (head m) (head m')) by done; [done|by apply (sorted_by_ext (head m))|..].
  - intros x Hx. rewrite Hh by done. by apply sl_pos0.
  - revert sl_ring0. apply ring_frame; intros a Ha%elem_heads; auto.
  - intros x Hx Hnx. rewrite Hf by done. auto.
Qed.

Lemma size_list_one m v : 0 < head m v -> nlinked m v v -> size_list m [v].
Proof.
  intros H0 Hl. split; cbn [heads]; rewrite ?(proj2 (Z.eqb_neq (head m v) 0)) by lia.
  - apply NoDup_singleton.
  - constructor; [constructor|done].
  - by intros x ->%list_elem_of_singleton.
  - split; [by apply linked_shift|]. split; [apply NoDup_singleton|]. intros x y ->%list_elem_of_singleton ->%list_elem_of_singleton. by left.
  - set_solver.
Qed.

(** Where a chunk of the list is, and what is before and after it. *)
Lemma size_list_app m l1 l2 : size_list m (l1 ++ l2) -> sorted (head m) l1 /\ sorted (head m) l2 /\ forall x y, x ∈ l1 -> y ∈ l2 -> head m y <= head m x.
Proof. intros []. by apply sorted_app. Qed.

(** A chunk of a size that is already there becomes the second of its size. *)
Lemma size_list_second m m' l1 f l2 v :
  size_list m (l1 ++ f :: l2) -> v ∉ l1 ++ f :: l2 -> head m' v = head m f -> ld m' (v + off_fd_nextsize) = 0 ->
  (forall x, x ∈ l1 ++ f :: l2 -> head m' x = head m x) ->
  (forall x, x ∈ l1 ++ f :: l2 -> ld m' (x + off_fd_nextsize) = ld m (x + off_fd_nextsize)) ->
  (forall x, x ∈ l1 ++ f :: l2 -> ld m' (x + off_bk_nextsize) = ld m (x + off_bk_nextsize)) ->
  size_list m' (l1 ++ f :: v :: l2).
Proof.
  intros Hs Hv Ev H0 Hh Hf Hb. destruct (size_list_frame m m' _ Hh Hf Hb Hs) as [].
  assert (head m' v = head m' f) as Ev' by (rewrite (Hh f) by in_auto; done).
  assert (forall x, x ∈ l1 ++ f :: v :: l2 <-> x = v \/ x ∈ l1 ++ f :: l2) as Hin by (intros x; rewrite !elem_of_app, !elem_of_cons; tauto).
  split; rewrite ?heads_insert_equal by done.
  - rewrite (perm_swap v f l2), <- Permutation_middle. by apply list.NoDup_cons.
  - apply sorted_app in sl_sorted0 as (H1 & [H2 H3]%StronglySorted_inv & H4). rewrite list.Forall_forall in H3.
    apply sorted_app. split_and!; [done| |].
    + constructor; [constructor; [done|]|]; rewrite list.Forall_forall; [intros y Hy; rewrite Ev'; by apply H3|].
      intros y [->|Hy]%elem_of_cons; [lia|by apply H3].
    + intros x y Hx. rewrite !elem_of_cons. intros [->|[->|Hy]]; [apply H4; [done|left]|rewrite Ev'; apply H4; [done|left]|apply H4; [done|by right]].
  - intros x [->|Hx]%Hin; [|auto]. rewrite Ev'. apply sl_pos0. in_auto.
  - done.
  - intros x [->|Hx]%Hin Hnx; [done|auto].
Qed.

Section New.
Context (m m' : memory) (l1 l2 : list Z) (v : Z).
Hypothesis Hs : size_list m (l1 ++ l2).
Hypothesis Hv : v ∉ l1 ++ l2.
Hypothesis Hpos : 0 < head m' v.
Hypothesis H1 : forall x, x ∈ l1 -> head m' v < head m x.
Hypothesis H2 : forall x, x ∈ l2 -> head m x < head m' v.
Hypothesis Hh : forall x, x ∈ l1 ++ l2 -> head m' x = head m x.

(** The first chunks of each size, with and without the new one. *)
Lemma new_heads :
  heads (head m') 0 (l1 ++ v :: l2) = heads (head m) 0 l1 ++ v :: heads (head m) 0 l2
  /\ heads (head m) 0 (l1 ++ l2) = heads (head m) 0 l1 ++ heads (head m) 0 l2.
Proof using All.
  rewrite <- (heads_ext (head m) (head m') 0 (l1 ++ l2)) by done.
  assert (forall x, x ∈ l1 \/ x ∈ l2 -> head m' x = head m x) as Hh' by (intros x Hx; apply Hh, elem_of_app, Hx).
  rewrite <- (heads_ext (head m) (head m') 0 l1), <- (heads_ext (head m) (head m') 0 l2) by auto.
  apply heads_insert.
  - intros x Hx. rewrite (Hh' x) by auto. auto.
  - intros x Hx. rewrite (Hh' x) by auto. auto.
  - intros x Hx. assert (x = v \/ x ∈ l1 ++ l2) as [->|Hx'] by (rewrite elem_of_app, elem_of_cons in Hx; rewrite elem_of_app; tauto); [done|].
    rewrite Hh by done. by apply (sl_pos _ _ Hs).
Qed.

Lemma size_list_new :
  ring m' (heads (head m) 0 l1 ++ v :: heads (head m) 0 l2) ->
  (forall x, x ∈ l1 ++ l2 -> x ∉ heads (head m) 0 (l1 ++ l2) -> ld m' (x + off_fd_nextsize) = ld m (x + off_fd_nextsize)) ->
  size_list m' (l1 ++ v :: l2).
Proof using All.
  intros Hr Hp. destruct new_heads as [E1 E2]. destruct Hs.
  assert (forall x, x ∈ l1 \/ x ∈ l2 -> head m' x = head m x) as Hh' by (intros x Hx; apply Hh, elem_of_app, Hx).
  assert (forall x, x ∈ l1 ++ v :: l2 <-> x = v \/ x ∈ l1 ++ l2) as Hin by (intros x; rewrite !elem_of_app, elem_of_cons; tauto). split; rewrite ?E1; [| | |done|].
  - rewrite <- Permutation_middle. by apply list.NoDup_cons.
  - assert (sorted (head m') (l1 ++ l2)) as (S1 & S2 & S3)%sorted_app by (by apply (sorted_by_ext (head m))).
    apply sorted_app. split_and!; [done| |].
    + constructor; [done|]. rewrite list.Forall_forall. intros y Hy. rewrite (Hh' y) by auto. pose proof (H2 y Hy). lia.
    + intros x y Hx [->|Hy]%elem_of_cons; [|by apply S3]. rewrite (Hh' x) by auto. pose proof (H1 x Hx). lia.
  - intros x [->|Hx]%Hin; [done|]. rewrite Hh by done. auto.
  - intros x [->|Hx]%Hin Hnx; rewrite elem_of_app, elem_of_cons in Hnx; [naive_solver|].
    assert (x ∉ heads (head m) 0 (l1 ++ l2)) by (rewrite E2, elem_of_app; tauto). rewrite Hp by done. auto.
Qed.

End New.

Lemma heads_first sz x l : 0 < sz x -> heads sz 0 (x :: l) = x :: heads sz (sz x) l.
Proof. intros H. cbn [heads]. by rewrite (proj2 (Z.eqb_neq (sz x) 0)) by lia. Qed.

(** A new size, before the smaller size that [f] is the first of. *)
Lemma size_list_before m m' l1 f l2 v :
  size_list m (l1 ++ f :: l2) -> v ∉ l1 ++ f :: l2 -> spaced (v :: l1 ++ f :: l2) -> 0 < head m' v ->
  (forall x, x ∈ l1 -> head m' v < head m x) -> head m f < head m' v ->
  (forall x, x ∈ l1 ++ f :: l2 -> head m' x = head m x) ->
  let B := ld m (f + off_bk_nextsize) in
  nlinked m' B v -> nlinked m' v f ->
  (forall a, a ∈ l1 ++ f :: l2 -> a <> B -> ld m' (a + off_fd_nextsize) = ld m (a + off_fd_nextsize)) ->
  (forall a, a ∈ l1 ++ f :: l2 -> a <> f -> ld m' (a + off_bk_nextsize) = ld m (a + off_bk_nextsize)) ->
  size_list m' (l1 ++ v :: f :: l2) /\ B ∈ l1 ++ f :: l2.
Proof.
  intros Hs Hv Hsp H0 H1 H2 Hh B HB Hf Hfd Hbk.
  assert (forall x, x ∈ f :: l2 -> head m x < head m' v) as H2'.
  { apply size_list_app in Hs as (_ & [_ Hx]%StronglySorted_inv & _). rewrite list.Forall_forall in Hx.
    intros x [->|Hin]%elem_of_cons; [done|]. pose proof (Hx x Hin). lia. }
  destruct (new_heads m m' l1 (f :: l2) v Hs Hv H0 H1 H2' Hh) as [_ E].
  rewrite (heads_first _ f) in E by (apply (sl_pos _ _ Hs); in_auto).
  pose proof (sl_ring _ _ Hs) as Hr. rewrite E in Hr. destruct (ring_neighbours _ _ _ _ Hr) as (_ & [_ HBe] & _ & HBin).
  fold B in HBe. rewrite <- HBe in HBin. assert (forall x, x ∈ heads (head m) 0 (l1 ++ f :: l2) -> x ∈ l1 ++ f :: l2) as Hsub by apply elem_heads.
  rewrite E in Hsub. split; [|by apply Hsub].
  apply (size_list_new m); try done.
  - rewrite (heads_first _ f) by (apply (sl_pos _ _ Hs); in_auto). apply (ring_insert m); try done.
    + intros Hx. by apply Hv, Hsub.
    + revert Hsp. apply spaced_incl. intros x [->|Hx]%elem_of_cons; [left|right; by apply Hsub].
    + by rewrite <- HBe.
    + intros a Ha Hne. apply Hfd; [by apply Hsub|]. by rewrite HBe.
    + intros a Ha Hne. apply Hbk; [by apply Hsub|done].
  - intros x Hx Hnx. apply Hfd; [done|]. intros ->. apply Hnx. by rewrite E.
Qed.

(** A new smallest size. *)
Lemma size_list_end m m' h l v :
  size_list m (h :: l) -> v ∉ h :: l -> spaced (v :: h :: l) -> 0 < head m' v ->
  (forall x, x ∈ h :: l -> head m' v < head m x) ->
  (forall x, x ∈ h :: l -> head m' x = head m x) ->
  let B := ld m (h + off_bk_nextsize) in
  nlinked m' B v -> nlinked m' v h ->
  (forall a, a ∈ h :: l -> a <> B -> ld m' (a + off_fd_nextsize) = ld m (a + off_fd_nextsize)) ->
  (forall a, a ∈ h :: l -> a <> h -> ld m' (a + off_bk_nextsize) = ld m (a + off_bk_nextsize)) ->
  size_list m' (h :: l ++ [v]) /\ B ∈ h :: l.
Proof.
  intros Hs Hv Hsp H0 H1 Hh B HB Hf Hfd Hbk.
  pose proof (heads_first (head m) h l (sl_pos _ _ Hs h ltac:(left))) as E. set (t := heads (head m) (head m h) l) in *.
  pose proof (sl_ring _ _ Hs) as Hr. rewrite E in Hr.
  destruct (ring_neighbours m [] h t Hr) as (_ & [_ HBe] & _ & HBin). unfold rprev in *. cbn [app] in *. rewrite app_nil_r in *. fold B in HBe. rewrite <- HBe in HBin.
  assert (forall x, x ∈ h :: t -> x ∈ h :: l) as Hsub by (intros x; rewrite <- E; apply elem_heads).
  split; [|by apply Hsub]. change (h :: l ++ [v]) with ((h :: l) ++ [v]).
  apply (size_list_new m m' (h :: l) [] v); rewrite ?app_nil_r; try done; [by intros x Hx%elem_of_nil|..].
  - rewrite E. cbn [heads app]. apply (ring_append m); try done.
    + intros Hx. by apply Hv, Hsub.
    + revert Hsp. apply spaced_incl. intros x [->|Hx]%elem_of_cons; [left|right; by apply Hsub].
    + by rewrite <- HBe.
    + intros a Ha Hne. apply Hfd; [by apply Hsub|]. by rewrite HBe.
    + intros a Ha Hne. apply Hbk; [by apply Hsub|done].
  - intros x Hx Hnx. apply Hfd; [done|]. intros ->. apply Hnx. by rewrite E.
Qed.

(** The first chunk of a size has neighbours that point back. *)
Lemma size_list_links m l x :
  size_list m l -> x ∈ heads (head m) 0 l ->
  let F := ld m (x + off_fd_nextsize) in
  let B := ld m (x + off_bk_nextsize) in
  F ∈ heads (head m) 0 l /\ B ∈ heads (head m) 0 l /\ ld m (F + off_bk_nextsize) = x /\ ld m (B + off_fd_nextsize) = x.
Proof.
  intros Hs (h1 & h2 & E)%list_elem_of_split F B. pose proof (sl_ring _ _ Hs) as Hr. rewrite E in *.
  destruct (ring_neighbours _ _ _ _ Hr) as ([H1 H2] & [H3 H4] & H5 & H6). unfold F, B. rewrite H1, H4. done.
Qed.

(** What is left of the list without [x], whichever way the ring is closed. *)
Lemma size_list_rest m m' l1 x l2 :
  size_list m (l1 ++ x :: l2) ->
  (forall y, y ∈ l1 ++ l2 -> head m' y = head m y) ->
  ring m' (heads (head m) 0 (l1 ++ l2)) ->
  (forall y, y ∈ l1 ++ l2 -> y ∉ heads (head m) 0 (l1 ++ l2) -> ld m' (y + off_fd_nextsize) = 0) ->
  size_list m' (l1 ++ l2).
Proof.
  intros [Hn Hs Hp _ _] Hh Hr Hpl. rewrite <- Permutation_middle in Hn. apply list.NoDup_cons in Hn as [_ Hn].
  assert (sorted (head m) (l1 ++ l2)) as Hs'.
  { apply sorted_app in Hs as (H1 & [H2 _]%StronglySorted_inv & H3). apply sorted_app. split_and!; try done. intros a b Ha Hb. apply H3; in_auto. }
  split; rewrite ?(heads_ext (head m) (head m')) by done; try done; [by apply (sorted_by_ext (head m))|].
  intros y Hy. rewrite Hh by done. apply Hp. rewrite elem_of_app in Hy. in_auto. tauto.
Qed.

(** [x] is not the first of its size. *)
Lemma size_list_remove_plain m m' l1 x l2 :
  size_list m (l1 ++ x :: l2) -> x ∉ heads (head m) 0 (l1 ++ x :: l2) ->
  (forall y, y ∈ l1 ++ l2 -> head m' y = head m y) ->
  (forall a, a ∈ l1 ++ l2 -> ld m' (a + off_fd_nextsize) = ld m (a + off_fd_nextsize)) ->
  (forall a, a ∈ l1 ++ l2 -> ld m' (a + off_bk_nextsize) = ld m (a + off_bk_nextsize)) ->
  size_list m' (l1 ++ l2).
Proof.
  intros Hs Hx Hh Hf Hb. pose proof Hs as [Hn Hso Hp Hr Hpl].
  destruct (heads_remove _ _ _ _ Hn Hso Hp) as [[_ E]|(g1 & g2 & E & _)]; [|rewrite E in Hx; set_solver].
  rewrite <- E in Hr. apply (size_list_rest m m' l1 x l2); try done.
  - revert Hr. apply ring_frame; intros a Ha%elem_heads; auto.
  - intros y Hy Hny. rewrite Hf by done. apply Hpl; [rewrite elem_of_app in Hy; in_auto; tauto|by rewrite <- E].
Qed.

(** [x] is the only chunk of its size. *)
Lemma size_list_remove_alone m m' l1 x l2 :
  size_list m (l1 ++ x :: l2) -> x ∈ heads (head m) 0 (l1 ++ x :: l2) ->
  match l2 with [] => True | y :: _ => head m y <> head m x end ->
  let F := ld m (x + off_fd_nextsize) in
  let B := ld m (x + off_bk_nextsize) in
  (forall y, y ∈ l1 ++ l2 -> head m' y = head m y) -> nlinked m' B F ->
  (forall a, a ∈ l1 ++ l2 -> a <> B -> ld m' (a + off_fd_nextsize) = ld m (a + off_fd_nextsize)) ->
  (forall a, a ∈ l1 ++ l2 -> a <> F -> ld m' (a + off_bk_nextsize) = ld m (a + off_bk_nextsize)) ->
  size_list m' (l1 ++ l2).
Proof.
  intros Hs Hx Hl2 F B Hh HL Hf Hb. pose proof Hs as [Hn Hso Hp Hr Hpl].
  destruct (heads_remove _ _ _ _ Hn Hso Hp) as [[? _]|(g1 & g2 & E & E2)]; [done|].
  assert (heads (head m) 0 (l1 ++ l2) = g1 ++ g2) as E'.
  { destruct l2 as [|y l2]; [done|]. by rewrite (proj2 (Z.eqb_neq _ _) Hl2) in E2; destruct E2. }
  assert (forall a, a ∈ g1 ++ g2 -> a ∈ l1 ++ l2) as Hsub by (intros a; rewrite <- E'; apply elem_heads).
  rewrite E in Hr. destruct (ring_neighbours _ _ _ _ Hr) as ([H1 _] & [_ H4] & _ & HB). fold F in H1. fold B in H4. rewrite <- H4 in HB.
  apply (size_list_rest m m' l1 x l2); rewrite ?E'; try done.
  - apply (ring_remove m m' g1 x g2); rewrite <- ?H1, <- ?H4; auto.
  - intros y Hy Hny. assert (y ∈ l1 ++ x :: l2 /\ y <> x) as [Hy' Hyx].
    { rewrite <- Permutation_middle in Hn. apply list.NoDup_cons in Hn as [Hn _]. split; [rewrite elem_of_app in Hy; in_auto; tauto|by intros ->]. }
    assert (y ∉ g1 ++ x :: g2) as Hny' by (rewrite elem_of_app, elem_of_cons; rewrite elem_of_app in Hny; tauto).
    rewrite Hf; [|done|by intros ->]. apply Hpl; [done|]. by rewrite E.
Qed.

(** [x] is followed by a chunk of its size, which takes its place. *)
Lemma size_list_remove_first m m' l1 x y l2 :
  size_list m (l1 ++ x :: y :: l2) -> spaced (l1 ++ x :: y :: l2) -> x ∈ heads (head m) 0 (l1 ++ x :: y :: l2) -> head m y = head m x ->
  let F := ld m (x + off_fd_nextsize) in
  let B := ld m (x + off_bk_nextsize) in
  (forall z, z ∈ l1 ++ y :: l2 -> head m' z = head m z) ->
  nlinked m' y (if decide (F = x) then y else F) -> nlinked m' (if decide (B = x) then y else B) y ->
  (forall a, a ∈ l1 ++ y :: l2 -> a <> y -> a <> B -> ld m' (a + off_fd_nextsize) = ld m (a + off_fd_nextsize)) ->
  (forall a, a ∈ l1 ++ y :: l2 -> a <> y -> a <> F -> ld m' (a + off_bk_nextsize) = ld m (a + off_bk_nextsize)) ->
  size_list m' (l1 ++ y :: l2).
Proof.
  intros Hs Hsp Hx Ey F B Hh H1' H2' Hf Hb. pose proof Hs as [Hn Hso Hp Hr Hpl].
  destruct (heads_remove _ _ _ _ Hn Hso Hp) as [[? _]|(g1 & g2 & E & E2)]; [done|].
  rewrite (proj2 (Z.eqb_eq _ _) Ey) in E2. destruct E2 as [E' Hy].
  assert (forall a, a ∈ g1 ++ y :: g2 -> a ∈ l1 ++ y :: l2) as Hsub by (intros a; rewrite <- E'; apply elem_heads).
  assert (forall a, a ∈ g1 ++ x :: g2 -> a ∈ l1 ++ x :: y :: l2) as Hsub' by (intros a; rewrite <- E; apply elem_heads).
  assert (forall a, a ∈ g1 ++ g2 -> a ∈ l1 ++ y :: l2 /\ a <> y) as Hg.
  { intros a Ha. rewrite E, elem_of_app, elem_of_cons in Hy. rewrite elem_of_app in Ha. split; [apply Hsub; in_auto; tauto|intros ->; tauto]. }
  rewrite E in Hr, Hy. destruct (ring_neighbours _ _ _ _ Hr) as ([H1 _] & [_ H4] & _ & HB). fold F in H1. fold B in H4. rewrite <- H4 in HB.
  apply (size_list_rest m m' l1 x (y :: l2)); rewrite ?E'; try done.
  - apply (ring_replace m m' g1 x g2 y); rewrite <- ?H1, <- ?H4; try done.
    + revert Hsp. apply spaced_incl. intros a [->|Ha]%elem_of_cons; [in_auto|by apply Hsub'].
    + intros a [? ?]%Hg. auto.
    + intros a [? ?]%Hg. auto.
  - intros z Hz Hnz. assert (z ∈ l1 ++ x :: y :: l2 /\ z <> x) as [Hz' Hzx].
    { rewrite <- Permutation_middle in Hn. apply list.NoDup_cons in Hn as [Hn _]. split; [rewrite elem_of_app, elem_of_cons in Hz; in_auto; tauto|by intros ->]. }
    assert (z <> y /\ z ∉ g1 ++ x :: g2) as [Hzy Hnz'].
    { rewrite elem_of_app, elem_of_cons. rewrite elem_of_app, elem_of_cons in Hnz. naive_solver. }
    rewrite Hf; [|done|done|by intros ->]. apply Hpl; [done|]. by rewrite E.
Qed.

End SizeList.
