(* ===== verification/LargeBin.v ===== *)
(** * The routines on large bins

    [unlink] of a chunk of a large bin, the insertion of a chunk at its place
    in the bin, and the search for the smallest chunk that fits
    ([src/libipc/malloc/malloc.c]). *)

From Stdlib Require Import Sorted.
From S2P Require Import Prelude MallocState MallocCore MallocInt SizeFacts ListFacts Rings.

(** Nodes that are at least 64 bytes apart: none of their six fields meet. *)
Definition wide (l : list Z) : Prop := forall x y, x ∈ l -> y ∈ l -> x = y \/ 64 <= Z.abs (x - y).

Lemma wide_incl l l' : (forall x, x ∈ l' -> x ∈ l) -> wide l -> wide l'.
Proof. intros H Hw x y Hx Hy. apply Hw; auto. Qed.

Lemma wide_spaced l : wide l -> spaced l.
Proof. intros H x y Hx Hy. unfold apart. destruct (H x y Hx Hy); lia. Qed.

(** The bin with header [b] holds the large chunks [l]; the field of the header
    where a chunk has [fd_nextsize] is a link of the next bin and not null. *)
Record large_bin (m : memory) (b : Z) (l : list Z) : Prop := {
  lb_list : bin_list m b l;
  lb_sizes : size_list m l;
  lb_wide : wide (b :: l);
  lb_pos : forall x, x ∈ l -> 0 < x;
  lb_head : forall x, x ∈ l -> 1024 <= head m x /\ head m x mod 16 = 1;
  lb_next : ld m (b + off_fd_nextsize) <> 0 }.

(** The cells that [unlink] and the insertion may write. *)
Definition not_field (b : Z) (l : list Z) (c : Z) : Prop :=
  (c <> b + off_fd /\ c <> b + off_bk)
  /\ forall x, x ∈ l -> c <> x + off_fd /\ c <> x + off_bk /\ c <> x + off_fd_nextsize /\ c <> x + off_bk_nextsize.

Ltac offs := unfold head, nlinked, linked, off_prev_size, off_size, off_fd, off_bk, off_fd_nextsize, off_bk_nextsize in *.

Section LargeBin.
Context `{PS : PageSource}.

(** What the ring part of [unlink] stores. *)
Definition close_ring (m : memory) (P FD : Z) (first : bool) : memory :=
  let F := ld m (P + off_fd_nextsize) in
  let B := ld m (P + off_bk_nextsize) in
  if first then
    if F =? P then <[FD + off_fd_nextsize := FD]> (<[FD + off_bk_nextsize := FD]> m)
    else <[B + off_fd_nextsize := FD]> (<[F + off_bk_nextsize := FD]> (<[FD + off_bk_nextsize := B]> (<[FD + off_fd_nextsize := F]> m)))
  else <[B + off_fd_nextsize := F]> (<[F + off_bk_nextsize := B]> m).

Lemma unlink_nextsize_run (s : state) AV P FD :
  let m := st_mem s in
  let F := ld m (P + off_fd_nextsize) in
  let B := ld m (P + off_bk_nextsize) in
  ld m (F + off_bk_nextsize) = P -> ld m (B + off_fd_nextsize) = P -> wide [P; FD; F; B] -> P <> FD ->
  unlink_nextsize AV P FD s = Ok tt (with_mem (close_ring m P FD (ld m (FD + off_fd_nextsize) =? 0)) s).
Proof.
  intros m F B HF HB Hw HP. unfold unlink_nextsize, close_ring. mexec. unfold fd_nextsize, bk_nextsize, word. fold m. fold F B.
  rewrite HF, HB, Z.eqb_refl. cbn [negb orb]. mexec. fold m F B.
  pose proof (Hw P FD ltac:(in_auto) ltac:(in_auto)). pose proof (Hw P F ltac:(in_auto) ltac:(in_auto)).
  pose proof (Hw F B ltac:(in_auto) ltac:(in_auto)). pose proof (Hw FD F ltac:(in_auto) ltac:(in_auto)).
  assert (forall k a v, a <> P + off_fd_nextsize -> ld (<[a := v]> k) (P + off_fd_nextsize) = ld k (P + off_fd_nextsize)) as E1 by (intros; by apply ld_insert_ne).
  assert (forall k a v, a <> P + off_bk_nextsize -> ld (<[a := v]> k) (P + off_bk_nextsize) = ld k (P + off_bk_nextsize)) as E2 by (intros; by apply ld_insert_ne).
  offs. destruct (ld m (FD + 32) =? 0).
  - destruct (F =? P) eqn:EF; mexec; [done|]. bool_hyps. fold m.
    rewrite !E1, !E2 by lia. fold m F B. done.
  - mexec. fold m. rewrite !E1 by lia. fold F B.
    assert (ld (<[F + 40 := B]> m) (P + 40) = B) as -> by (rewrite ld_insert; case_decide; done). done.
Qed.

(** The stores to the links of the bin leave headers and rings alone. *)
Lemma relink_field m B F (L : list Z) x o :
  wide L -> B ∈ L -> F ∈ L -> x ∈ L -> o = off_size \/ o = off_fd_nextsize \/ o = off_bk_nextsize ->
  ld (relink B F m) (x + o) = ld m (x + o).
Proof.
  intros Hw HB HF Hx Ho. pose proof (Hw B x HB Hx). pose proof (Hw F x HF Hx). unfold relink. offs.
  rewrite !ld_insert_ne by lia. done.
Qed.

Lemma relink_sizes m B F b l : wide (b :: l) -> B ∈ b :: l -> F ∈ b :: l -> size_list m l -> size_list (relink B F m) l.
Proof.
  intros Hw HB HF. apply size_list_frame; intros x Hx; [unfold head|..]; apply (relink_field _ _ _ (b :: l)); auto; by right.
Qed.

(** The stores of the ring part touch fields of the chunks of the list only. *)
Lemma close_ring_frame m P FD first (L : list Z) c :
  (first = true -> FD ∈ L) -> ld m (P + off_fd_nextsize) ∈ L -> ld m (P + off_bk_nextsize) ∈ L ->
  (forall x, x ∈ L -> c <> x + off_fd_nextsize /\ c <> x + off_bk_nextsize) ->
  ld (close_ring m P FD first) c = ld m c.
Proof.
  intros HFD HF HB Hc. unfold close_ring. destruct (Hc _ HF), (Hc _ HB).
  destruct first; [destruct (Hc _ (HFD eq_refl))|]; repeat case_match; by rewrite !ld_insert_ne.
Qed.

Lemma not_field_ring L x o c : wide L -> x ∈ L -> (o = off_size \/ o = off_fd \/ o = off_bk) -> c = x + o ->
  forall y, y ∈ L -> c <> y + off_fd_nextsize /\ c <> y + off_bk_nextsize.
Proof. intros Hw Hx Ho -> y Hy. pose proof (Hw x y Hx Hy). offs. lia. Qed.

Section Unlink.
Context (m : memory) (b : Z) (l1 : list Z) (P : Z) (l2 : list Z).
Hypothesis Hsl : size_list m (l1 ++ P :: l2).
Hypothesis Hw : wide (b :: l1 ++ P :: l2).
Hypothesis Hpos : forall x, x ∈ l1 ++ P :: l2 -> 0 < x.
Hypothesis Hnext : ld m (b + off_fd_nextsize) <> 0.
Hypothesis HP : P ∈ heads (head m) 0 (l1 ++ P :: l2).

Let F := ld m (P + off_fd_nextsize).
Let B := ld m (P + off_bk_nextsize).
Let FD := hd b l2.

(** The next chunk has no [fd_nextsize] exactly if it has the same size. *)
Lemma next_test : (ld m (FD + off_fd_nextsize) =? 0) = match l2 with y :: _ => head m y =? head m P | [] => false end.
Proof using All.
  unfold FD. destruct l2 as [|y l3]; cbn [hd]; [by apply Z.eqb_neq|].
  pose proof Hsl as [Hn Hso Hp _ Hpl]. destruct (heads_remove _ _ _ _ Hn Hso Hp) as [[? _]|(g1 & g2 & _ & E)]; [done|].
  destruct (head m y =? head m P).
  - apply Z.eqb_eq, Hpl; [in_auto|apply E].
  - destruct E as [_ Hy]. destruct (size_list_links _ _ _ Hsl Hy) as (Hi & _). apply elem_heads in Hi.
    apply Z.eqb_neq. pose proof (Hpos _ Hi). lia.
Qed.

Lemma ring_nodes : F ∈ l1 ++ P :: l2 /\ B ∈ l1 ++ P :: l2 /\ ld m (F + off_bk_nextsize) = P /\ ld m (B + off_fd_nextsize) = P.
Proof using Hsl HP.
  clear Hw Hpos Hnext. destruct (size_list_links _ _ _ Hsl HP) as (H1%elem_heads & H2%elem_heads & H3 & H4). done.
Qed.

Lemma unlink_ring_sizes first :
  first = match l2 with y :: _ => head m y =? head m P | [] => false end ->
  size_list (close_ring m P FD first) (l1 ++ l2).
Proof using All.
  intros Hfi. destruct ring_nodes as (HF & HB & HF' & HB').
  assert (forall x, x ∈ l1 ++ P :: l2 -> x ∈ b :: l1 ++ P :: l2) as Hb by (intros; in_auto).
  assert (forall x, x ∈ l1 ++ l2 -> x ∈ b :: l1 ++ P :: l2) as Hb' by (intros x Hx; rewrite elem_of_app in Hx; in_auto; tauto).
  assert (P ∉ l1 ++ l2) as HPn by (pose proof (sl_nodup _ _ Hsl) as Hn; rewrite <- Permutation_middle in Hn; by apply list.NoDup_cons in Hn as [? _]).
  assert (forall a c, a ∈ l1 ++ P :: l2 -> c ∈ l1 ++ P :: l2 -> a = c \/ 64 <= Z.abs (a - c)) as Hd by (intros; apply Hw; auto).
  assert (FD ∈ b :: l1 ++ P :: l2) as HFD by (unfold FD; pose proof (hd_elem b l2) as [->|E]%elem_of_cons; in_auto).
  assert (forall y, y ∈ l1 ++ l2 -> head (close_ring m P FD first) y = head m y) as Hh.
  { intros y Hy. unfold head. apply (close_ring_frame _ _ _ _ (b :: l1 ++ P :: l2)); auto.
    eapply not_field_ring; [exact Hw|by apply Hb'|by left|done]. }
  destruct l2 as [|y l3] eqn:E2; [|destruct (head m y =? head m P) eqn:Ey].
  - subst first. apply (size_list_remove_alone m _ l1 P []); try done; fold F B; unfold close_ring; fold F B.
    + pose proof (Hd F B HF HB). offs. split; [apply ld_insert_eq|rewrite ld_insert_ne by lia; apply ld_insert_eq].
    + intros a Ha Hne. pose proof (Hd a F ltac:(rewrite app_nil_r in Ha; in_auto) HF). offs. rewrite !ld_insert_ne by lia. done.
    + intros a Ha Hne. pose proof (Hd a B ltac:(rewrite app_nil_r in Ha; in_auto) HB). offs. rewrite !ld_insert_ne by lia. done.
  - subst first. apply Z.eqb_eq in Ey. unfold FD in *. cbn [hd] in *. clear HFD.
    assert (y ∈ l1 ++ P :: y :: l3) as Hy by in_auto. assert (y <> P) as HyP by (intros ->; apply HPn; in_auto).
    assert (y ∉ heads (head m) 0 (l1 ++ P :: y :: l3)) as Hyh.
    { pose proof Hsl as [Hn Hso Hp _ Hpl]. destruct (heads_remove _ _ _ _ Hn Hso Hp) as [[? _]|(g1 & g2 & _ & E)]; [done|].
      rewrite (proj2 (Z.eqb_eq _ _) Ey) in E. apply E. }
    destruct (size_list_links _ _ _ Hsl HP) as (HFh & HBh & _ & _). fold F in HFh. fold B in HBh.
    assert (y <> F /\ y <> B) as [HyF HyB] by (split; intros ->; done).
    assert (F = P <-> B = P) as HFB.
    { split; intros E; rewrite E in *; [unfold B; exact HF'|unfold F; exact HB']. }
    apply (size_list_remove_first m _ l1 P y l3); try done; fold F B.
    + revert Hw. intros Hw'. apply wide_spaced. revert Hw'. apply wide_incl. auto.
    + pose proof (Hd y F Hy HF). pose proof (Hd y B Hy HB). pose proof (Hd F B HF HB). clear Hd. unfold close_ring. fold F B. destruct (Z.eqb_spec F P) as [EF|EF]; [rewrite decide_True by done|rewrite decide_False by done]; offs.
      * split; [apply ld_insert_eq|rewrite ld_insert_ne by lia; apply ld_insert_eq].
      * split; mem_simp; done.
    + pose proof (Hd y F Hy HF). pose proof (Hd y B Hy HB). pose proof (Hd F B HF HB). clear Hd. unfold close_ring. fold F B. destruct (Z.eqb_spec F P) as [EF|EF]; [rewrite decide_True by tauto|rewrite decide_False by tauto]; offs.
      * split; [apply ld_insert_eq|rewrite ld_insert_ne by lia; apply ld_insert_eq].
      * split; mem_simp; done.
    + intros a Ha Hay Hne. assert (a ∈ l1 ++ P :: y :: l3) as Ha' by (rewrite elem_of_app, elem_of_cons in Ha; in_auto; tauto).
      pose proof (Hd a y Ha' Hy). pose proof (Hd a F Ha' HF). pose proof (Hd a B Ha' HB). clear Hd Hw.
      unfold close_ring. fold F B. destruct (F =? P); offs; by rewrite !ld_insert_ne by lia.
    + intros a Ha Hay Hne. assert (a ∈ l1 ++ P :: y :: l3) as Ha' by (rewrite elem_of_app, elem_of_cons in Ha; in_auto; tauto).
      pose proof (Hd a y Ha' Hy). pose proof (Hd a F Ha' HF). pose proof (Hd a B Ha' HB). clear Hd Hw.
      unfold close_ring. fold F B. destruct (F =? P); offs; by rewrite !ld_insert_ne by lia.
  - subst first. apply Z.eqb_neq in Ey. apply (size_list_remove_alone m _ l1 P (y :: l3)); try done; fold F B; unfold close_ring; fold F B.
    + pose proof (Hd F B HF HB). offs. split; [apply ld_insert_eq|rewrite ld_insert_ne by lia; apply ld_insert_eq].
    + intros a Ha Hne. pose proof (Hd a F ltac:(rewrite elem_of_app, elem_of_cons in Ha; in_auto; tauto) HF). offs. rewrite !ld_insert_ne by lia. done.
    + intros a Ha Hne. pose proof (Hd a B ltac:(rewrite elem_of_app, elem_of_cons in Ha; in_auto; tauto) HB). offs. rewrite !ld_insert_ne by lia. done.
Qed.

End Unlink.

(** [unlink] up to the ring part. *)
Lemma unlink_links (s : state) av b l1 P l2 :
  bin_list (st_mem s) b (l1 ++ P :: l2) ->
  let m1 := relink (List.last (b :: l1) b) (hd b l2) (st_mem s) in
  unlink av P s =
  when_ (negb (in_smallbin_range (ld m1 (P + off_size))) && truthy (ld m1 (P + off_fd_nextsize)))
    (unlink_nextsize av P (hd b l2)) (with_mem m1 s).
Proof.
  intros Hl m1. pose proof (bin_list_neighbours _ _ _ _ _ Hl) as (HB & HF & HB' & HF').
  unfold unlink, m1. mexec. unfold fd, bk, word. rewrite HB, HF, HB', HF', !Z.eqb_refl. cbn [negb orb]. mexec. reflexivity.
Qed.

(** [unlink] takes a chunk out of a large bin: both lists close over it. *)
Lemma unlink_large (s : state) av b l1 P l2 :
  large_bin (st_mem s) b (l1 ++ P :: l2) ->
  exists m', unlink av P s = Ok tt (with_mem m' s) /\ bin_list m' b (l1 ++ l2) /\ size_list m' (l1 ++ l2)
    /\ forall c, not_field b (l1 ++ P :: l2) c -> ld m' c = ld (st_mem s) c.
Proof.
  intros [Hl Hs Hw Hpos Hh Hnx]. rewrite (unlink_links _ _ b l1 P l2) by done. cbn zeta.
  pose proof (bin_list_remove _ _ _ _ _ Hl) as Hl1. set (B := List.last (b :: l1) b) in *. set (F := hd b l2) in *.
  assert (B ∈ b :: l1 ++ P :: l2 /\ F ∈ b :: l1 ++ P :: l2) as [HB HF].
  { split; [pose proof (last_elem b l1 b) as H|pose proof (hd_elem b l2) as H]; fold B in H || fold F in H; apply elem_of_cons in H as [->|H]; in_auto. }
  set (m1 := relink B F (st_mem s)) in *. pose proof (relink_sizes _ B F _ _ Hw HB HF Hs) as Hs1. fold m1 in Hs1.
  assert (P ∈ b :: l1 ++ P :: l2) as HPin by in_auto.
  assert (forall x o, x ∈ b :: l1 ++ P :: l2 -> o = off_size \/ o = off_fd_nextsize \/ o = off_bk_nextsize -> ld m1 (x + o) = ld (st_mem s) (x + o)) as Hk
    by (intros x o Hx Ho; by apply (relink_field _ _ _ (b :: l1 ++ P :: l2))).
  assert (forall c, not_field b (l1 ++ P :: l2) c -> ld m1 c = ld (st_mem s) c) as Hc1.
  { intros c [Hcb Hc]. assert (forall x, x ∈ b :: l1 ++ P :: l2 -> c <> x + off_fd /\ c <> x + off_bk) as Hcx.
    { intros x [->|Hx]%elem_of_cons; [done|]. destruct (Hc x Hx) as (? & ? & _). done. }
    destruct (Hcx B HB), (Hcx F HF). unfold m1, relink. by rewrite !ld_insert_ne. }
  assert (in_smallbin_range (ld m1 (P + off_size)) = false) as ->.
  { rewrite Hk by auto. destruct (Hh P ltac:(in_auto)) as [Hge _]. apply not_true_iff_false. rewrite in_smallbin_range_spec. unfold head in Hge. lia. }
  cbn [negb andb]. destruct (decide (P ∈ heads (head m1) 0 (l1 ++ P :: l2))) as [HP|HP].
  - destruct (ring_nodes m1 l1 P l2 Hs1 HP) as (HFr & HBr & HFr' & HBr').
    assert (truthy (ld m1 (P + off_fd_nextsize)) = true) as -> by (apply negb_true_iff, Z.eqb_neq; pose proof (Hpos _ HFr); lia).
    pose proof (next_test m1 b l1 P l2 Hs1 Hw Hpos ltac:(rewrite Hk by in_auto; done) HP) as Ht. fold F in Ht.
    pose proof (unlink_ring_sizes m1 b l1 P l2 Hs1 Hw Hpos ltac:(rewrite Hk by in_auto; done) HP _ eq_refl) as Hs2. fold F in Hs2. rewrite <- Ht in Hs2.
    assert (forall x, x ∈ l1 ++ P :: l2 -> x ∈ b :: l1 ++ P :: l2) as Hb by (intros; in_auto).
    eexists. split; [apply (unlink_nextsize_run (with_mem m1 s)); cbn [st_mem with_mem upd_mem]; try done|].
    + revert Hw. apply wide_incl. intros x. set_unfold. intros [->|[->|[->|[->|[]]]]]; auto; set_unfold; auto.
    + intros E. unfold F in E. pose proof (sl_nodup _ _ Hs) as Hn. destruct l2 as [|y l2]; cbn [hd] in E.
      * subst P. destruct Hl as (_ & Hn' & _). apply list.NoDup_cons in Hn' as [Hn' _]. apply Hn'. in_auto.
      * subst y. rewrite <- Permutation_middle in Hn. apply list.NoDup_cons in Hn as [Hn _]. apply Hn. in_auto.
    + split_and!; [|done|].
      * revert Hl1. apply bin_list_frame; intros a Ha; apply (close_ring_frame _ _ _ _ (b :: l1 ++ P :: l2)); auto;
          (eapply not_field_ring; [exact Hw| | |reflexivity]; [rewrite elem_of_cons, elem_of_app in Ha; in_auto; tauto|by auto]).
      * intros c Hc. rewrite <- Hc1 by done. destruct Hc as [_ Hc]. apply (close_ring_frame _ _ _ _ (l1 ++ P :: l2)); auto.
        -- cbn [st_mem with_mem upd_mem]; rewrite Ht. unfold F. destruct l2 as [|y l2]; [done|]. intros _. in_auto.
        -- intros x Hx. destruct (Hc x Hx) as (_ & _ & ? & ?). done.
  - assert (truthy (ld m1 (P + off_fd_nextsize)) = false) as ->.
    { unfold truthy. rewrite (sl_plain _ _ Hs1 P) by (done || in_auto). done. }
    exists m1. split_and!; [done|done| |done]. apply (size_list_remove_plain m1 m1 l1 P l2); done.
Qed.

(** ** Insertion *)

Lemma main_flag x : x mod 16 = 1 -> ((x &w NON_MAIN_ARENA) =? 0) = true.
Proof. intros H. unfold NON_MAIN_ARENA. rewrite land_4. apply Z.eqb_eq. zlia. Qed.

(** The walk down the sizes stops at the first one that is not larger. *)
Lemma large_position_run fuel (s : state) b l size g1 f g2 :
  large_bin (st_mem s) b l -> heads (head (st_mem s)) 0 l = g1 ++ f :: g2 ->
  (forall x, x ∈ g1 -> size < head (st_mem s) x) -> (exists x, x ∈ f :: g2 /\ head (st_mem s) x <= size) -> (length g2 < fuel)%nat ->
  exists g1' f' g2', heads (head (st_mem s)) 0 l = g1' ++ f' :: g2' /\ (forall x, x ∈ g1' -> size < head (st_mem s) x)
    /\ head (st_mem s) f' <= size /\ large_position fuel size f s = Ok f' s.
Proof.
  intros Hlb. revert g1 f g2. induction fuel as [|k IH]; intros g1 f g2 E Hg Hex Hfu; [lia|]. cbn [large_position]. mexec. unfold size_ at 1, word.
  fold (head (st_mem s) f). destruct (Z.ltb_spec size (head (st_mem s) f)) as [Hlt|Hge]; [|by exists g1, f, g2].
  destruct g2 as [|f2 g2].
  { destruct Hex as (x & ->%list_elem_of_singleton & ?). lia. }
  pose proof (sl_ring _ _ (lb_sizes _ _ _ Hlb)) as Hr. rewrite E in Hr. destruct (ring_neighbours _ _ _ _ Hr) as ([Hn _] & _). cbn [rnext app hd] in Hn.
  assert (f2 ∈ l) as Hf2 by (apply (elem_heads (head (st_mem s)) 0); rewrite E; in_auto).
  unfold fd_nextsize, word. unfold rnext in Hn. cbn [app hd] in Hn. rewrite Hn. unfold assert_, size_, word.
  rewrite main_flag by (by apply (lb_head _ _ _ Hlb)). mexec.
  apply (IH (g1 ++ [f]) f2 g2); [by rewrite E, <- app_assoc| | |cbn in Hfu; lia].
  - intros x [Hx|Hx]%elem_of_app; [auto|apply list_elem_of_singleton in Hx as ->; done].
  - destruct Hex as (x & [->|Hx]%elem_of_cons & Hle); [lia|]. by exists x.
Qed.

Lemma last_smallest (m : memory) b h t x : sorted (head m) (h :: t) -> x ∈ h :: t -> head m (List.last (h :: t) b) <= head m x.
Proof.
  revert h. induction t as [|y t IH]; intros h Hs Hx.
  - apply list_elem_of_singleton in Hx as ->. done.
  - change (List.last (h :: y :: t) b) with (List.last (y :: t) b). apply StronglySorted_inv in Hs as [Hs Hh].
    rewrite list.Forall_forall in Hh. apply elem_of_cons in Hx as [->|Hx]; [apply Hh, last_elem|by apply IH].
Qed.

(** Everything before the first chunk of a size is larger than that chunk. *)
Lemma before_larger (m : memory) l1 x k : sorted (head m) l1 -> (forall y, y ∈ l1 -> 0 < head m y) ->
  (forall y, y ∈ heads (head m) 0 l1 -> k < head m y) -> x ∈ l1 -> k < head m x.
Proof.
  intros Hs Hp Hk Hx. pose proof (Hp x Hx).
  destruct (heads_cover (head m) 0 l1 x) as (y & Hy & <-); [done|lia|done|by right|done|by apply Hk].
Qed.

Section Insert.
Context (s : state) (b v size : Z) (l : list Z).
Let m := st_mem s.
Hypothesis Hlb : large_bin m b l.
Hypothesis Hv : v ∉ b :: l.
Hypothesis Hw : wide (v :: b :: l).
Hypothesis Hpos : 0 < v.
Hypothesis Hsz : head m v = size + 1 /\ size mod 16 = 0 /\ 1024 <= size.
Hypothesis Hplain : ld m (v + off_fd_nextsize) = 0.

(** Only the fields of the ring change. *)
Definition ring_only (m1 : memory) : Prop :=
  forall c, (forall x, x ∈ v :: l -> c <> x + off_fd_nextsize /\ c <> x + off_bk_nextsize) -> ld m1 c = ld m c.

Lemma ring_only_head m1 x : ring_only m1 -> x ∈ v :: l -> head m1 x = head m x.
Proof using Hw.
  intros Hr Hx. unfold head. apply Hr. eapply not_field_ring; [|exact Hx|by left|reflexivity].
  revert Hw. apply wide_incl. intros y Hy. apply elem_of_cons in Hy as [->|Hy]; in_auto.
Qed.

(** The four stores that put [v] into the ring before [f]. *)
Definition ring_in (f : Z) : memory :=
  let B := ld m (f + off_bk_nextsize) in
  <[B + off_fd_nextsize := v]> (<[f + off_bk_nextsize := v]> (<[v + off_bk_nextsize := B]> (<[v + off_fd_nextsize := f]> m))).

Lemma ring_in_links f : f ∈ l -> ld m (f + off_bk_nextsize) ∈ l ->
  let B := ld m (f + off_bk_nextsize) in
  ring_only (ring_in f) /\ nlinked (ring_in f) B v /\ nlinked (ring_in f) v f
  /\ (forall a, a ∈ l -> a <> B -> ld (ring_in f) (a + off_fd_nextsize) = ld m (a + off_fd_nextsize))
  /\ (forall a, a ∈ l -> a <> f -> ld (ring_in f) (a + off_bk_nextsize) = ld m (a + off_bk_nextsize)).
Proof using Hv Hw.
  clear Hlb Hsz. intros Hf HB B. fold B in HB.
  assert (forall a c, a ∈ v :: l -> c ∈ v :: l -> a = c \/ 64 <= Z.abs (a - c)) as Hd.
  { intros a c Ha Hc. apply Hw; [apply elem_of_cons in Ha as [->|?]|apply elem_of_cons in Hc as [->|?]]; in_auto. }
  assert (forall a, a ∈ l -> a <> v) as Hne by (intros a Ha ->; apply Hv; in_auto).
  pose proof (Hd v f ltac:(in_auto) ltac:(in_auto)). pose proof (Hd v B ltac:(in_auto) ltac:(in_auto)). pose proof (Hd B f ltac:(in_auto) ltac:(in_auto)).
  pose proof (Hne f Hf). pose proof (Hne B HB). unfold ring_in. fold B. split_and!.
  - intros c Hc. destruct (Hc v ltac:(in_auto)), (Hc f ltac:(in_auto)), (Hc B ltac:(in_auto)). by rewrite !ld_insert_ne.
  - offs. split; mem_simp; done.
  - offs. split; mem_simp; done.
  - intros a Ha HaB. pose proof (Hd a v ltac:(in_auto) ltac:(in_auto)). pose proof (Hd a f ltac:(in_auto) ltac:(in_auto)). pose proof (Hne a Ha).
    clear Hd Hw. offs. by rewrite !ld_insert_ne by lia.
  - intros a Ha HaB. pose proof (Hd a v ltac:(in_auto) ltac:(in_auto)). pose proof (Hd a B ltac:(in_auto) ltac:(in_auto)). pose proof (Hne a Ha).
    clear Hd Hw. offs. by rewrite !ld_insert_ne by lia.
Qed.

Lemma insert_run_smallest h t fuel :
  l = h :: t -> size + 1 < head m (List.last (h :: t) b) ->
  exists m1, large_insert fuel v size b s = Ok (List.last (b :: h :: t) b, b) (with_mem m1 s)
    /\ size_list m1 (h :: t ++ [v]) /\ ring_only m1.
Proof using All.
  intros El Hlt. pose proof Hlb as [Hl Hs Hwl Hp Hh Hnx]. rewrite El in Hl, Hs, Hwl, Hp, Hh. destruct Hsz as (Hsv & Hs16 & Hs1k).
  pose proof Hl as ([Hbh Hbl] & Hnd & _).
  assert (ld m (b + off_bk) = List.last (h :: t) b) as Hlast.
  { destruct (h :: t) as [|z t' _] eqn:Et using rev_ind; [done|]. rewrite last_last. destruct Hl as (Hc & _). by apply chain_snoc in Hc as [_ [_ ?]]. }
  assert (h <> b) as Hhb by (apply list.NoDup_cons in Hnd as [Hnd _]; intros ->; apply Hnd; left).
  pose proof (last_elem h t b) as Hz. set (z := List.last (h :: t) b) in *.
  assert (h ∈ heads (head m) 0 (h :: t)) as Hhh by (rewrite heads_first by (apply (sl_pos _ _ Hs); left); left).
  destruct (size_list_links _ _ _ Hs Hhh) as (_ & HB%elem_heads & _ & HB'). set (B := ld m (h + off_bk_nextsize)) in *.
  destruct (ring_in_links h) as (Hro & L1 & L2 & L3 & L4); [rewrite El; left|by rewrite El|]. fold B in L1, L3. rewrite El in L3, L4.
  exists (ring_in h). split; [|split; [|done]].
  - unfold large_insert. mexec. unfold fd, bk, size_, word. fold m. destruct Hbh as [-> _]. rewrite Hlast, (proj2 (Z.eqb_neq h b) Hhb). cbn [negb].
    unfold assert_. rewrite main_flag by (by apply Hh). mexec. unfold PREV_INUSE. rewrite lor_16 by (done || lia).
    fold (head m z). rewrite (proj2 (Z.ltb_lt _ _) Hlt). fold m.
    unfold bk_nextsize, fd, word. mexec. fold m.
    assert (v ∈ v :: b :: l /\ b ∈ v :: b :: l /\ h ∈ v :: b :: l /\ B ∈ v :: b :: l) as (I1 & I2 & I3 & I4).
    { rewrite El. split_and!; [left|right; left|right; right; left|right; by right]. }
    pose proof (Hw v b I1 I2) as D1. pose proof (Hw v h I1 I3) as D2. pose proof (Hw v B I1 I4) as D3. pose proof (Hw b B I2 I4) as D4. pose proof (Hw h B I3 I4) as D5.
    assert (v <> b /\ v <> h /\ v <> B) as (N1 & N2 & N3).
    { split_and!; intros E; apply Hv; rewrite El, E; [left|right; left|right; done]. }
    assert (ld m (b + off_fd) = h) as Hbf by (destruct Hl as ([[? _] _] & _); done).
    unfold ring_in. fold B. unfold B in *. offs. clear Hw Hwl Hp Hh L3 L4.
    repeat first [mem_step | rewrite Hbf]. rewrite (insert_insert_ne _ (ld m (h + 40) + 32) (h + 40)) by lia. reflexivity.
  - apply (size_list_end m _ h t v); try done.
    + intros Hin. apply Hv. rewrite El. by right.
    + apply wide_spaced. revert Hw. rewrite El. apply wide_incl. intros x. set_unfold. tauto.
    + rewrite (ring_only_head _ v) by (done || left). lia.
    + intros x Hx. rewrite (ring_only_head _ v) by (done || left). pose proof (last_smallest m b h t x (sl_sorted _ _ Hs) Hx). fold z in H. lia.
    + intros x Hx. apply ring_only_head; [done|rewrite El; by right].
Qed.

(** The case of a size in the middle, found by [large_position]. *)
Lemma insert_run_middle h t fuel :
  l = h :: t -> head m (List.last (h :: t) b) <= size + 1 -> (length l < fuel)%nat ->
  exists l1 l2 m1, l = l1 ++ l2
    /\ large_insert fuel v size b s = Ok (List.last (b :: l1) b, hd b l2) (with_mem m1 s)
    /\ size_list m1 (l1 ++ v :: l2) /\ ring_only m1.
Proof using All.
  intros El Hge Hfu. pose proof Hlb as [Hl Hs Hwl Hp Hh Hnx]. destruct Hsz as (Hsv & Hs16 & Hs1k).
  assert (ld m (b + off_fd) = h /\ ld m (b + off_bk) = List.last (h :: t) b /\ h <> b) as (Hfd & Hlast & Hhb).
  { rewrite El in Hl. destruct Hl as (Hc & [Hnd _]%list.NoDup_cons & _). split_and!; [apply Hc| |intros ->; apply Hnd; left].
    destruct (h :: t) as [|z t' _] eqn:Et using rev_ind; [done|]. rewrite last_last. by apply chain_snoc in Hc as [_ [_ ?]]. }
  pose proof (last_elem h t b) as Hz. rewrite <- El in Hz, Hge, Hlast. set (z := List.last l b) in *.
  assert (h ∈ l) as Hhl by (rewrite El; left).
  assert (heads (head m) 0 l = [] ++ h :: heads (head m) (head m h) t) as Eh by (rewrite El; apply heads_first, (sl_pos _ _ Hs), Hhl).
  destruct (large_position_run fuel s b l (size + 1) [] h (heads (head m) (head m h) t) Hlb Eh) as (g1 & f & g2 & Ef & Hg & Hle & Hrun).
  { intros x Hx. by apply elem_of_nil in Hx. }
  { destruct (heads_cover (head m) 0 l z Hz) as (x & Hx & Hxz); [pose proof (sl_pos _ _ Hs z Hz); lia|apply (sl_sorted _ _ Hs)|by right|by apply (sl_pos _ _ Hs)|].
    exists x. rewrite Eh in Hx. split; [done|]. fold m. lia. }
  { apply (f_equal length) in Eh. cbn in Eh. pose proof (length_heads (head m) 0 l). lia. }
  fold m in Ef, Hg, Hle. destruct (heads_inv _ _ _ _ _ _ Ef) as (l1 & l2 & E12 & Eg1 & Eg2 & _).
  assert (forall x, x ∈ l1 -> size + 1 < head m x) as Hl1.
  { intros x Hx. apply (before_larger m l1); [|intros y Hy; apply (sl_pos _ _ Hs); rewrite E12; in_auto| |done].
    - pose proof (sl_sorted _ _ Hs) as Hso. rewrite E12 in Hso. by apply sorted_app in Hso as [? _].
    - intros y Hy. apply Hg. by rewrite Eg1. }
  assert (f ∈ l) as Hfl by (rewrite E12; in_auto).
  unfold large_insert. mexec. unfold fd, bk, size_, word. fold m. rewrite Hfd, Hlast, (proj2 (Z.eqb_neq h b) Hhb). cbn [negb].
  unfold assert_. rewrite main_flag by (by apply Hh). mexec. unfold PREV_INUSE. rewrite lor_16 by (done || lia).
  fold m. fold (head m z). rewrite (proj2 (Z.ltb_ge _ _)) by lia. rewrite main_flag by (by apply Hh). mexec. rewrite Hrun. fold m. fold (head m f).
  pose proof Hl as Hl'. rewrite E12 in Hl'. pose proof (bin_list_neighbours _ _ _ _ _ Hl') as (Hfb & Hff & _ & Hff').
  destruct (Z.eqb_spec (size + 1) (head m f)) as [Eq|Ne].
  - exists (l1 ++ [f]), l2, m. mexec. unfold fd, bk, word. fold m. rewrite Hff, Hff'. change (with_mem m s) with (with_mem (st_mem s) s). rewrite with_mem_id.
    rewrite app_comm_cons, last_last, <- !app_assoc. split; [done|]. split; [done|]. split; [|done].
    apply (size_list_second m); rewrite <- ?E12; try done; [|lia]. intros Hin. apply Hv. by right.
  - exists l1, (f :: l2), (ring_in f). cbn [hd].
    assert (f ∈ heads (head m) 0 l) as Hfh by (rewrite Ef; in_auto).
    destruct (size_list_links _ _ _ Hs Hfh) as (_ & HB%elem_heads & _ & HB').
    destruct (ring_in_links f Hfl HB) as (Hro & L1 & L2 & L3 & L4). split_and!; [done| | |done].
    + unfold bk_nextsize, bk, word. mexec. fold m.
      assert (v ∈ v :: b :: l /\ f ∈ v :: b :: l /\ ld m (f + off_bk_nextsize) ∈ v :: b :: l) as (I1 & I2 & I3).
      { split_and!; [left|right; by right|right; by right]. }
      pose proof (Hw v f I1 I2) as D1. pose proof (Hw v _ I1 I3) as D2. pose proof (Hw f _ I2 I3) as D3.
      assert (v <> f) as N by (intros ->; apply Hv; by right).
      unfold ring_in. rewrite <- Hfb. offs. clear Hw Hwl Hp Hh L1 L2 L3 L4 Hro. set (B := ld m (f + 40)) in *.
      repeat first [mem_step | progress fold B]. reflexivity.
    + rewrite E12 in Hs, L3, L4. apply (size_list_before m _ l1 f l2 v); rewrite <- ?E12 in *; try done.
      * intros Hin. apply Hv. by right.
      * apply wide_spaced. revert Hw. apply wide_incl. intros x [->|Hx]%elem_of_cons; [left|right; by right].
      * rewrite (ring_only_head _ v) by (done || left). lia.
      * intros x Hx. rewrite (ring_only_head _ v) by (done || left). rewrite Hsv. auto.
      * rewrite (ring_only_head _ v) by (done || left). lia.
      * intros x Hx. apply ring_only_head; [done|by right].
Qed.

(** [large_insert] finds a place for the chunk in any large bin. *)
Lemma large_insert_run fuel :
  (length l < fuel)%nat ->
  exists l1 l2 m1, l = l1 ++ l2
    /\ large_insert fuel v size b s = Ok (List.last (b :: l1) b, hd b l2) (with_mem m1 s)
    /\ size_list m1 (l1 ++ v :: l2) /\ ring_only m1.
Proof using All.
  intros Hfu. assert (l = [] \/ exists h t, l = h :: t) as [El|(h & t & El)] by (clear; destruct l; eauto).
  - exists [], [], (<[v + off_fd_nextsize := v]> (<[v + off_bk_nextsize := v]> m)). split; [done|]. split; [|split].
    + unfold large_insert. mexec. unfold fd, word. pose proof (lb_list _ _ _ Hlb) as (Hc & _). rewrite El in Hc. destruct Hc as [Hf _]. fold m. rewrite Hf, Z.eqb_refl. done.
    + apply size_list_one; [unfold head in *|]; offs; mem_simp; [lia|]. split; mem_simp; done.
    + intros c Hc. destruct (Hc v ltac:(left)). by rewrite !ld_insert_ne.
  - destruct (Z_lt_ge_dec (size + 1) (head m (List.last (h :: t) b))) as [Hlt|Hge].
    + destruct (insert_run_smallest h t fuel El Hlt) as (m1 & Hrun & Hs1 & Hro).
      exists (h :: t), [], m1. rewrite app_nil_r. split_and!; try done.
    + apply (insert_run_middle h t); [done|lia|done].
Qed.

End Insert.

(** ** The search of a large bin *)

Lemma chunksize_head (s : state) x : 0 <= head (st_mem s) x < 18446744073709551616 -> head (st_mem s) x mod 16 = 1 -> chunksize s x = head (st_mem s) x - 1.
Proof.
  intros Hr Hm. unfold chunksize, size_, word. fold (head (st_mem s) x). change SIZE_BITS with 7. rewrite land_not7 by done. zlia.
Qed.

Lemma large_search_run fuel (s : state) b l nb g1 f g2 :
  large_bin (st_mem s) b l -> (forall x, x ∈ l -> head (st_mem s) x < 18446744073709551616) ->
  heads (head (st_mem s)) 0 l = g1 ++ f :: g2 ->
  (forall x, x ∈ g2 -> head (st_mem s) x <= nb) -> (exists x, x ∈ g1 ++ [f] /\ nb < head (st_mem s) x) -> (length g1 < fuel)%nat ->
  exists g1' f' g2', heads (head (st_mem s)) 0 l = g1' ++ f' :: g2' /\ (forall x, x ∈ g2' -> head (st_mem s) x <= nb)
    /\ nb < head (st_mem s) f' /\ large_search fuel f nb s = Ok f' s.
Proof.
  intros Hlb Hr. revert g1 f g2. induction fuel as [|k IH]; intros g1 f g2 E Hg Hex Hfu; [lia|]. cbn [large_search]. mexec.
  assert (forall x, x ∈ g1 ++ f :: g2 -> x ∈ l) as Hin by (intros x; rewrite <- E; apply elem_heads).
  assert (f ∈ l) as Hf by (apply Hin; in_auto). destruct (lb_head _ _ _ Hlb f Hf) as [Hge Hm].
  rewrite chunksize_head by (done || pose proof (Hr f Hf); lia).
  destruct (Z.ltb_spec (head (st_mem s) f - 1) nb) as [Hlt|Hge']; [|exists g1, f, g2; split_and!; try done; lia].
  destruct g1 as [|f0 g1 _] using rev_ind.
  { destruct Hex as (x & ->%list_elem_of_singleton & ?). lia. }
  pose proof (sl_ring _ _ (lb_sizes _ _ _ Hlb)) as Hri. rewrite E in Hri. destruct (ring_neighbours _ _ _ _ Hri) as (_ & [_ Hp] & _).
  unfold rprev in Hp. rewrite app_assoc, app_comm_cons, last_last in Hp. unfold bk_nextsize, word. rewrite Hp.
  apply (IH g1 f0 (f :: g2)); [by rewrite E, <- app_assoc| | |rewrite length_app in Hfu; cbn in Hfu; lia].
  - intros x [->|Hx]%elem_of_cons; [lia|auto].
  - destruct Hex as (x & [Hx|Hx]%elem_of_app & Hlt'); [by exists x|]. apply list_elem_of_singleton in Hx as ->. lia.
Qed.

End LargeBin.
