(* ===== verification/Bins.v ===== *)
(** * The bins of an arena

    [bins_ok] describes all bins of an arena at once: which chunks each bin
    holds, that a chunk is in the bin of its size, that the large bins are
    sorted with their lists of distinct sizes, and that the binmap marks every
    bin that is not empty.  The lemmas say what taking a chunk out of its bin,
    putting one on the unsorted list and putting one into its bin do
    ([src/libipc/malloc/malloc.c]). *)

From Stdlib Require Import Sorted.
From S2P Require Import Prelude MallocState MallocCore MallocInt SizeFacts ListFacts Rings LargeBin.

Definition valid_bin (i : Z) : Prop := 1 <= i < NBINS.
Definition large_index (i : Z) : Prop := 64 <= i < NBINS.

(** The chunk addresses [G] are apart from each other and from the arena; the
    chunks [Bg] among them are large. *)
Record heap_geom (av : Z) (G Bg : list Z) : Prop := {
  hg_av : 0 < av;
  hg_apart : forall x y, x ∈ G -> y ∈ G -> apart x y;
  hg_arena : forall x, x ∈ G -> 0 < x /\ (x + 64 <= av \/ av + 2304 <= x);
  hg_big : forall x, x ∈ Bg -> x ∈ G /\ (x + 1024 <= av \/ av + 2304 <= x)
    /\ forall y, y ∈ G -> y = x \/ y + 32 <= x \/ x + 1024 <= y }.

(** A cell that is no link of a bin header or of a chunk of [G], nor a field of
    the list of sizes of a chunk of [Bg]. *)
Definition nonlink (av : Z) (G Bg : list Z) (c : Z) : Prop :=
  (forall i, valid_bin i -> c <> bin_at av i + 16 /\ c <> bin_at av i + 24)
  /\ (forall x, x ∈ G -> c <> x + 16 /\ c <> x + 24)
  /\ (forall x, x ∈ Bg -> c <> x + 32 /\ c <> x + 40).

(** The bit of bin [i] in the binmap. *)
Definition marked (av : Z) (m : memory) (i : Z) : Prop := (ld m (binmap_at av (idx2block i)) &w idx2bit i) <> 0.

(** The header of a free chunk of the main arena: its size and [PREV_INUSE]. *)
Definition free_head (m : memory) (x : Z) : Prop := head m x mod 16 = 1 /\ 33 <= head m x < 18446744073709551616.

(** Bin [i] of the arena holds the chunks [L i], all of them in [G]. *)
Record bins_ok (av : Z) (G Bg : list Z) (L : Z -> list Z) (m : memory) : Prop := {
  bo_list : forall i, valid_bin i -> bin_list m (bin_at av i) (L i);
  bo_in : forall i x, valid_bin i -> x ∈ L i -> x ∈ G;
  bo_one : forall i j x, valid_bin i -> valid_bin j -> x ∈ L i -> x ∈ L j -> i = j;
  bo_head : forall i x, valid_bin i -> x ∈ L i -> free_head m x;
  bo_big : forall i x, valid_bin i -> x ∈ L i -> 1024 <= head m x -> x ∈ Bg;
  bo_index : forall i x, 2 <= i < NBINS -> x ∈ L i -> bin_index (head m x - 1) = i;
  bo_plain : forall i x, 1 <= i < 64 -> x ∈ L i -> 1024 <= head m x -> ld m (x + off_fd_nextsize) = 0;
  bo_sizes : forall i, large_index i -> size_list m (L i);
  bo_marked : forall i, 2 <= i < NBINS -> L i <> [] -> marked av m i;
  bo_map : forall k, 0 <= k < BINMAPSIZE -> 0 <= ld m (binmap_at av k) < 4294967296 }.

Lemma bin_at_eq av i : bin_at av i = av + 112 + 16 * i.
Proof. unfold bin_at, off_bins, off_fd. lia. Qed.

Lemma binmap_at_eq av k : binmap_at av k = av + 2176 + 4 * k.
Proof. unfold binmap_at, off_binmap. lia. Qed.

Lemma idx2block_range i : 0 <= i < NBINS -> 0 <= idx2block i < BINMAPSIZE.
Proof.
  unfold NBINS, idx2block. change BINMAPSHIFT with 5. change BINMAPSIZE with 4. rewrite Z.shiftr_div_pow2 by lia. change (2 ^ 5) with 32. zlia.
Qed.

Lemma large_valid i : large_index i -> valid_bin i.
Proof. unfold large_index, valid_bin. lia. Qed.

Lemma large_size sz : 0 <= sz -> 64 <= bin_index sz <-> 1024 <= sz.
Proof. intros H. rewrite bin_index_eq by lia. repeat split_cmp; zlia. Qed.

Section Bins.
Context (av : Z) (G Bg : list Z).
Implicit Types (m : memory) (L : Z -> list Z).

Lemma hg_header x i : heap_geom av G Bg -> x ∈ G -> valid_bin i -> 48 <= Z.abs (x - bin_at av i).
Proof. intros [_ _ H _] Hx Hi. rewrite bin_at_eq. destruct (H x Hx) as [_ ?]. unfold valid_bin, NBINS in Hi. lia. Qed.

Lemma hg_big_header x i : heap_geom av G Bg -> x ∈ Bg -> valid_bin i -> 160 <= Z.abs (x - bin_at av i).
Proof. intros [_ _ _ H] Hx Hi. rewrite bin_at_eq. destruct (H x Hx) as (_ & ? & _). unfold valid_bin, NBINS in Hi. lia. Qed.

Lemma bin_pos i : heap_geom av G Bg -> valid_bin i -> 0 < bin_at av i.
Proof. intros [H _ _ _] Hi. rewrite bin_at_eq. unfold valid_bin in Hi. lia. Qed.

(** Two nodes of two bins: their link cells do not meet. *)
Lemma bins_disjoint L m i j x y :
  heap_geom av G Bg -> bins_ok av G Bg L m -> valid_bin i -> valid_bin j -> i <> j ->
  x ∈ bin_at av i :: L i -> y ∈ bin_at av j :: L j -> 16 <= Z.abs (x - y).
Proof.
  intros Hg Hb Hi Hj Hij [->|Hx]%elem_of_cons [->|Hy]%elem_of_cons.
  - rewrite !bin_at_eq. lia.
  - pose proof (hg_header _ _ Hg (bo_in _ _ _ _ _ Hb j y Hj Hy) Hi). lia.
  - pose proof (hg_header _ _ Hg (bo_in _ _ _ _ _ Hb i x Hi Hx) Hj). lia.
  - destruct (hg_apart _ _ _ Hg x y) as [->|]; [by apply (bo_in _ _ _ _ _ Hb i)|by apply (bo_in _ _ _ _ _ Hb j)| |lia].
    by destruct (Hij (bo_one _ _ _ _ _ Hb i j y Hi Hj Hx Hy)).
Qed.

(** ** What the bins depend on *)

Inductive bin_cell L : Z -> Prop :=
| cell_header i o : valid_bin i -> o = 16 \/ o = 24 -> bin_cell L (bin_at av i + o)
| cell_chunk i x o : valid_bin i -> x ∈ L i -> o = 8 \/ o = 16 \/ o = 24 -> bin_cell L (x + o)
| cell_sizes i x o : valid_bin i -> x ∈ L i -> x ∈ Bg -> o = 32 \/ o = 40 -> bin_cell L (x + o)
| cell_map k : 0 <= k < BINMAPSIZE -> bin_cell L (binmap_at av k).

(** The chunks of a large bin are large. *)
Lemma large_chunks L m i x : bins_ok av G Bg L m -> large_index i -> x ∈ L i -> x ∈ Bg /\ 1024 < head m x.
Proof.
  intros Hb Hi Hx. pose proof (large_valid i Hi) as Hv. destruct (bo_head _ _ _ _ _ Hb i x Hv Hx) as [Hm1 Hr].
  pose proof (bo_index _ _ _ _ _ Hb i x ltac:(unfold large_index in Hi; lia) Hx) as Hidx.
  assert (1024 <= head m x - 1) by (apply large_size; [lia|]; unfold large_index in Hi; lia).
  split; [apply (bo_big _ _ _ _ _ Hb i)|]; (done || lia).
Qed.

Lemma bins_frame L m m' : (forall c, bin_cell L c -> ld m' c = ld m c) -> bins_ok av G Bg L m -> bins_ok av G Bg L m'.
Proof.
  intros Hc Hok. pose proof Hok as [].
  assert (forall i x, valid_bin i -> x ∈ L i -> head m' x = head m x) as Hh by (intros i x Hi Hx; apply Hc, (cell_chunk _ i); auto).
  assert (forall k, 0 <= k < BINMAPSIZE -> ld m' (binmap_at av k) = ld m (binmap_at av k)) as Hm by (intros; by apply Hc, cell_map).
  split; try done.
  - intros i Hi. generalize (bo_list0 i Hi). apply bin_list_frame; intros a [->|Ha]%elem_of_cons; unfold off_fd, off_bk; apply Hc;
      solve [apply (cell_header _ i); auto | apply (cell_chunk _ i); auto].
  - intros i x Hi Hx. unfold free_head. rewrite (Hh i) by done. by apply (bo_head0 i).
  - intros i x Hi Hx. rewrite (Hh i) by done. by apply (bo_big0 i).
  - intros i x Hi Hx. rewrite (Hh i) by (done || unfold valid_bin; lia). by apply (bo_index0 i).
  - intros i x Hi Hx. assert (valid_bin i) as Hv by (unfold valid_bin, NBINS; lia). rewrite (Hh i) by done. intros H1.
    rewrite Hc; [by apply (bo_plain0 i)|]. apply (cell_sizes _ i); auto. by apply (bo_big0 i).
  - intros i Hi. pose proof (large_valid i Hi) as Hv. generalize (bo_sizes0 i Hi).
    assert (forall x, x ∈ L i -> x ∈ Bg) as HB by (intros x Hx; by apply (large_chunks L m i)).
    apply size_list_frame; intros x Hx; [by apply (Hh i)|..]; apply Hc; unfold off_fd_nextsize, off_bk_nextsize; apply (cell_sizes _ i); auto.
  - intros i Hi Hne. unfold marked. rewrite Hm by (apply idx2block_range; lia). by apply bo_marked0.
  - intros k Hk. rewrite Hm by done. auto.
Qed.

Lemma bins_ext L L' m : (forall i, valid_bin i -> L' i = L i) -> bins_ok av G Bg L m -> bins_ok av G Bg L' m.
Proof.
  intros H [].
  assert (forall i, 2 <= i < NBINS -> L' i = L i) as H2 by (intros; apply H; unfold valid_bin; lia).
  assert (forall i, 1 <= i < 64 -> L' i = L i) as H1 by (intros; apply H; unfold valid_bin, NBINS; lia).
  assert (forall i, large_index i -> L' i = L i) as H3 by (intros; by apply H, large_valid).
  split; try done; intros i; intros; repeat first [rewrite H in * by done | rewrite H2 in * by done | rewrite H1 in * by done | rewrite H3 in * by done]; eauto.
Qed.

Lemma bins_within G' Bg' L m :
  (forall i x, valid_bin i -> x ∈ L i -> x ∈ G' /\ (x ∈ Bg -> x ∈ Bg')) -> bins_ok av G Bg L m -> bins_ok av G' Bg' L m.
Proof. intros H []. split; try done; intros i x Hi Hx; [by apply (H i)|]. intros Hh. apply (H i); auto. by apply (bo_big0 i). Qed.

(** ** One bin changes *)

Definition upd_bin (i : Z) (l : list Z) (L : Z -> list Z) (j : Z) : list Z := if j =? i then l else L j.

(** Chunk [x] may be in bin [i]. *)
Record may_hold m L i x : Prop := {
  mh_in : x ∈ G;
  mh_one : forall j, valid_bin j -> j <> i -> x ∉ L j;
  mh_head : free_head m x;
  mh_big : 1024 <= head m x -> x ∈ Bg;
  mh_index : 2 <= i -> bin_index (head m x - 1) = i;
  mh_plain : i < 64 -> 1024 <= head m x -> ld m (x + off_fd_nextsize) = 0 }.

Lemma bins_change L m m' i l' :
  bins_ok av G Bg L m -> valid_bin i -> bin_list m' (bin_at av i) l' -> (large_index i -> size_list m' l') ->
  (forall x, x ∈ l' -> may_hold m' L i x) -> (2 <= i -> l' <> [] -> marked av m' i) ->
  (forall j, 2 <= j < NBINS -> j <> i -> marked av m j -> marked av m' j) ->
  (forall k, 0 <= k < BINMAPSIZE -> 0 <= ld m' (binmap_at av k) < 4294967296) ->
  (forall j x o, valid_bin j -> j <> i -> x ∈ bin_at av j :: L j -> o = 16 \/ o = 24 -> ld m' (x + o) = ld m (x + o)) ->
  (forall j x o, valid_bin j -> j <> i -> x ∈ L j -> o = 8 \/ (o = 32 \/ o = 40) /\ 1024 <= head m x -> ld m' (x + o) = ld m (x + o)) ->
  bins_ok av G Bg (upd_bin i l' L) m'.
Proof.
  intros Hb Hi Hl Hs Hm Hk Hk' Hmap Hlinks Hfields.
  assert (forall j x, valid_bin j -> j <> i -> x ∈ L j -> head m' x = head m x) as Hh by (intros j x Hj Hji Hx; apply (Hfields j); auto).
  assert (forall (P : Z -> list Z -> Prop) j, (j = i -> P i l') -> (j <> i -> P j (L j)) -> P j (upd_bin i l' L j)) as Hcase.
  { intros P j H1 H2. unfold upd_bin. destruct (Z.eqb_spec j i) as [->|]; auto. }
  split.
  - intros j Hj. apply (Hcase (fun j l => bin_list m' (bin_at av j) l)); [done|]. intros Hji.
    generalize (bo_list _ _ _ _ _ Hb j Hj). apply bin_list_frame; intros a Ha; unfold off_fd, off_bk; apply (Hlinks j); auto.
  - intros j x Hj. apply (Hcase (fun j l => x ∈ l -> x ∈ G)); intros Hji Hx; [by apply Hm|by apply (bo_in _ _ _ _ _ Hb j)].
  - intros j k x Hj Hk0. unfold upd_bin. destruct (Z.eqb_spec j i) as [->|Hji], (Z.eqb_spec k i) as [->|Hki]; try done; intros Hx Hx'.
    + by destruct (mh_one _ _ _ _ (Hm x Hx) k Hk0 Hki).
    + by destruct (mh_one _ _ _ _ (Hm x Hx') j Hj Hji).
    + by apply (bo_one _ _ _ _ _ Hb j k x).
  - intros j x Hj. apply (Hcase (fun j l => x ∈ l -> free_head m' x)); intros Hji Hx; [by apply Hm|].
    unfold free_head. rewrite (Hh j) by done. by apply (bo_head _ _ _ _ _ Hb j).
  - intros j x Hj. apply (Hcase (fun j l => x ∈ l -> 1024 <= head m' x -> x ∈ Bg)); intros Hji Hx; [by apply Hm|].
    rewrite (Hh j) by done. by apply (bo_big _ _ _ _ _ Hb j).
  - intros j x Hj. apply (Hcase (fun j l => x ∈ l -> bin_index (head m' x - 1) = j)); intros Hji Hx; [apply Hm; [done|lia]|].
    rewrite (Hh j) by (done || unfold valid_bin; lia). by apply (bo_index _ _ _ _ _ Hb j).
  - intros j x Hj. apply (Hcase (fun j l => x ∈ l -> 1024 <= head m' x -> ld m' (x + off_fd_nextsize) = 0)); intros Hji Hx; [apply Hm; [done|lia]|].
    assert (valid_bin j) as Hv by (unfold valid_bin, NBINS; lia). rewrite (Hh j) by done. intros H1.
    rewrite (Hfields j) by auto. by apply (bo_plain _ _ _ _ _ Hb j).
  - intros j Hj. apply (Hcase (fun j l => size_list m' l)); [intros ->; auto|]. intros Hji. pose proof (large_valid j Hj) as Hv.
    generalize (bo_sizes _ _ _ _ _ Hb j Hj). apply size_list_frame; intros x Hx; [by apply (Hh j)|..];
      destruct (large_chunks _ _ _ _ Hb Hj Hx); apply (Hfields j); auto; right; split; (lia || auto).
  - intros j Hj. apply (Hcase (fun j l => l <> [] -> marked av m' j)); intros Hji Hne; [apply Hk; [lia|done]|].
    apply Hk'; [done|done|]. by apply (bo_marked _ _ _ _ _ Hb j).
  - done.
Qed.

(** A cell that is no link of the header of bin [i] and no field of the chunks
    [l], as far as the routines on that bin write fields. *)
Definition outside (i : Z) (l : list Z) (c : Z) : Prop :=
  (c <> bin_at av i + 16 /\ c <> bin_at av i + 24)
  /\ (forall y, y ∈ l -> c <> y + 16 /\ c <> y + 24)
  /\ (large_index i -> forall y, y ∈ l -> c <> y + 32 /\ c <> y + 40).

Lemma nonlink_outside i l c :
  valid_bin i -> (forall y, y ∈ l -> y ∈ G /\ (large_index i -> y ∈ Bg)) -> nonlink av G Bg c -> outside i l c.
Proof.
  intros Hi Hl (H1 & H2 & H3). split; [by apply H1|]. split; [intros y Hy; by apply H2, Hl|].
  intros Hlg y Hy. apply H3. by apply Hl.
Qed.

Section Outside.
Context (L : Z -> list Z) (m : memory) (i : Z) (l : list Z).
Hypothesis Hg : heap_geom av G Bg.
Hypothesis Hb : bins_ok av G Bg L m.
Hypothesis Hi : valid_bin i.
Hypothesis Hl : forall y, y ∈ l -> y ∈ G /\ (large_index i -> y ∈ Bg) /\ forall j, valid_bin j -> j <> i -> y ∉ L j.

Lemma outside_header x : x ∈ G -> outside i l (x + 8).
Proof using Hg Hi Hl.
  clear Hb. intros Hx. pose proof (hg_header x i Hg Hx Hi) as Hh. split; [lia|]. split.
  - intros y Hy. destruct (hg_apart _ _ _ Hg x y Hx) as [->|]; [by apply Hl|lia|lia].
  - intros Hlg y Hy. destruct (Hl y Hy) as (_ & HB & _). destruct (hg_big _ _ _ Hg y (HB Hlg)) as (_ & _ & Hd).
    destruct (Hd x Hx) as [->|[|]]; lia.
Qed.

Lemma outside_link j x o : valid_bin j -> j <> i -> x ∈ bin_at av j :: L j -> o = 16 \/ o = 24 -> outside i l (x + o).
Proof using All.
  intros Hj Hji Hx Ho. assert (x = bin_at av j \/ x ∈ G) as Hx'.
  { apply elem_of_cons in Hx as [->|Hx]; [by left|right]. by apply (bo_in _ _ _ _ _ Hb j). }
  assert (forall y, y ∈ l -> x <> y) as Hne.
  { intros y Hy <-. destruct (Hl x Hy) as (Hx2 & _ & Hnot). apply elem_of_cons in Hx as [->|Hx]; [|by apply (Hnot j)].
    pose proof (hg_header _ j Hg Hx2 Hj). lia. }
  split; [|split].
  - destruct Hx' as [->|Hx']; [rewrite !bin_at_eq; lia|]. pose proof (hg_header x i Hg Hx' Hi). lia.
  - intros y Hy. destruct (Hl y Hy) as (Hy' & _). destruct Hx' as [->|Hx'].
    + pose proof (hg_header y j Hg Hy' Hj). lia.
    + destruct (hg_apart _ _ _ Hg x y Hx' Hy') as [->|]; [by destruct (Hne y Hy)|lia].
  - intros Hlg y Hy. destruct (Hl y Hy) as (_ & HB & _). specialize (HB Hlg). destruct Hx' as [->|Hx'].
    + pose proof (hg_big_header y j Hg HB Hj). lia.
    + destruct (hg_big _ _ _ Hg y HB) as (_ & _ & Hd). destruct (Hd x Hx') as [->|[|]]; [by destruct (Hne y Hy)|lia|lia].
Qed.

Lemma outside_sizes x o : x ∈ Bg -> (large_index i -> x ∉ l) -> o = 32 \/ o = 40 -> outside i l (x + o).
Proof using Hg Hi Hl.
  clear Hb. intros Hx Hne Ho. pose proof (hg_big_header x i Hg Hx Hi). destruct (hg_big _ _ _ Hg x Hx) as (Hx' & _ & Hd).
  split; [lia|]. split.
  - intros y Hy. destruct (Hl y Hy) as (Hy' & _). destruct (Hd y Hy') as [->|[|]]; lia.
  - intros Hlg y Hy. destruct (Hl y Hy) as (Hy' & _). destruct (Hd y Hy') as [->|[|]]; [by destruct (Hne Hlg)|lia|lia].
Qed.

Lemma outside_field c : (av + 2176 <= c < av + 2304) \/ (av <= c < av + 144) -> outside i l c.
Proof using Hg Hi Hl.
  clear Hb. intros Hc. split; [|split].
  - rewrite bin_at_eq. unfold valid_bin, NBINS in Hi. lia.
  - intros y Hy. destruct (Hl y Hy) as (Hy' & _). destruct (hg_arena _ _ _ Hg y Hy') as [_ ?]. lia.
  - intros Hlg y Hy. destruct (Hl y Hy) as (_ & HB & _). destruct (hg_big _ _ _ Hg y (HB Hlg)) as (_ & ? & _). lia.
Qed.

Lemma outside_map k : 0 <= k < BINMAPSIZE -> outside i l (binmap_at av k).
Proof using Hg Hi Hl. clear Hb. intros Hk. change BINMAPSIZE with 4 in Hk. apply outside_field. rewrite binmap_at_eq. lia. Qed.

(** No cell of a chunk or of a bin header is in the binmap. *)
Definition not_map (c : Z) : Prop := forall k, 0 <= k < BINMAPSIZE -> c <> binmap_at av k.

Lemma chunk_not_map x o : x ∈ G -> 0 <= o < 64 -> not_map (x + o).
Proof using Hg.
  clear Hb Hi Hl. intros Hx Ho k Hk. change BINMAPSIZE with 4 in Hk. rewrite binmap_at_eq. destruct (hg_arena _ _ _ Hg x Hx). lia.
Qed.

Lemma header_not_map j o : valid_bin j -> 0 <= o < 32 -> not_map (bin_at av j + o).
Proof using Type.
  clear Hg Hb Hi Hl. intros Hj Ho k Hk. change BINMAPSIZE with 4 in Hk. rewrite binmap_at_eq, bin_at_eq. unfold valid_bin, NBINS in Hj. lia.
Qed.

(** A routine that writes only fields of bin [i] and marks in the binmap, and
    that leaves the lists of the bin in order, leaves the other bins as they
    were. *)
Lemma bins_other m' l' :
  (forall c, outside i l c -> not_map c -> ld m' c = ld m c) ->
  (forall x, x ∈ l' -> x ∈ l) ->
  bin_list m' (bin_at av i) l' -> (large_index i -> size_list m' l') ->
  (forall x, x ∈ l' -> may_hold m L i x) -> (2 <= i -> l' <> [] -> marked av m' i) ->
  (forall j, 2 <= j < NBINS -> marked av m j -> marked av m' j) ->
  (forall k, 0 <= k < BINMAPSIZE -> 0 <= ld m' (binmap_at av k) < 4294967296) ->
  bins_ok av G Bg (upd_bin i l' L) m'.
Proof using All.
  intros Hc Hsub Hlist Hsz Hm Hk Hmk Hmap.
  assert (forall x, x ∈ G -> head m' x = head m x) as Hh.
  { intros x Hx. apply Hc; [by apply outside_header|]. unfold off_size. apply chunk_not_map; [done|lia]. }
  assert (forall x, x ∈ Bg -> x ∈ G) as HBG by (intros x Hx; by apply (hg_big _ _ _ Hg)).
  apply (bins_change L m); try done.
  - intros x Hx. destruct (Hm x Hx). split; unfold free_head; rewrite ?Hh by done; try done. intros H64 H1k.
    rewrite Hc; [by apply mh_plain0| |apply chunk_not_map; [auto|unfold off_fd_nextsize; lia]].
    apply outside_sizes; [auto|unfold large_index; lia|by left].
  - intros j Hj _. by apply Hmk.
  - intros j x o Hj Hji Hx Ho. apply Hc; [by apply (outside_link j)|]. apply elem_of_cons in Hx as [->|Hx].
    + apply header_not_map; [done|lia].
    + apply chunk_not_map; [by apply (bo_in _ _ _ _ _ Hb j)|lia].
  - intros j x o Hj Hji Hx Ho. pose proof (bo_in _ _ _ _ _ Hb j x Hj Hx). apply Hc; [|apply chunk_not_map; [done|lia]].
    destruct Ho as [->|[Ho Hbig]]; [by apply outside_header|].
    apply outside_sizes; [by apply (bo_big _ _ _ _ _ Hb j)| |done]. intros _ Hin. destruct (Hl x Hin) as (_ & _ & Hnot). by apply (Hnot j).
Qed.

End Outside.

(** ** Taking a chunk out of its bin *)

Lemma bin_chunks L m i y :
  bins_ok av G Bg L m -> valid_bin i -> y ∈ L i -> y ∈ G /\ (large_index i -> y ∈ Bg) /\ forall j, valid_bin j -> j <> i -> y ∉ L j.
Proof.
  intros Hb Hi Hy. split; [by apply (bo_in _ _ _ _ _ Hb i)|]. split; [intros Hlg; by apply (large_chunks L m i)|].
  intros j Hj Hji Hy'. by apply Hji, (bo_one _ _ _ _ _ Hb j i y).
Qed.

Lemma held L m i x : bins_ok av G Bg L m -> valid_bin i -> x ∈ L i -> may_hold m L i x.
Proof.
  intros Hb Hi Hx. destruct (bin_chunks L m i x Hb Hi Hx) as (? & ? & ?). pose proof Hi as Hi'. unfold valid_bin in Hi'.
  split; try done; [by apply (bo_head _ _ _ _ _ Hb i)|by apply (bo_big _ _ _ _ _ Hb i)|..].
  - intros H2. apply (bo_index _ _ _ _ _ Hb i); [lia|done].
  - intros H64. apply (bo_plain _ _ _ _ _ Hb i); [lia|done].
Qed.

(** A bin that holds large chunks is not the last one, so the field after the
    links of its header is a link of the next bin. *)
Lemma large_bin_at L m i : heap_geom av G Bg -> bins_ok av G Bg L m -> large_index i -> i <= 126 -> large_bin m (bin_at av i) (L i).
Proof.
  intros Hg Hb Hi H126. pose proof (large_valid i Hi) as Hv. assert (valid_bin (i + 1)) as Hv1 by (unfold valid_bin, NBINS, large_index in *; lia).
  split.
  - by apply (bo_list _ _ _ _ _ Hb).
  - by apply (bo_sizes _ _ _ _ _ Hb).
  - intros x y. rewrite !elem_of_cons.
    assert (forall x, x ∈ L i -> x ∈ Bg) as HB by (intros z Hz; by apply (large_chunks L m i)).
    intros [->|Hx] [->|Hy]; [by left|..].
    + right. pose proof (hg_big_header y i Hg (HB y Hy) Hv). lia.
    + right. pose proof (hg_big_header x i Hg (HB x Hx) Hv). lia.
    + destruct (hg_big _ _ _ Hg x (HB x Hx)) as (_ & _ & Hd). destruct (Hd y) as [->|[|]]; [by apply (hg_big _ _ _ Hg), HB|by left| |lia].
      destruct (hg_big _ _ _ Hg y (HB y Hy)) as (_ & _ & Hd'). destruct (Hd' x) as [->|[|]]; [by apply (hg_big _ _ _ Hg), HB|by left|lia|lia].
  - intros x Hx. by apply (hg_arena _ _ _ Hg), (bo_in _ _ _ _ _ Hb i).
  - intros x Hx. destruct (large_chunks L m i x Hb Hi Hx). destruct (bo_head _ _ _ _ _ Hb i x Hv Hx). lia.
  - replace (bin_at av i + off_fd_nextsize) with (bin_at av (i + 1) + off_fd) by (rewrite !bin_at_eq; unfold off_fd, off_fd_nextsize; lia).
    destruct (bo_list _ _ _ _ _ Hb (i + 1) Hv1) as (Hc & _). assert (ld m (bin_at av (i + 1) + off_fd) ∈ bin_at av (i + 1) :: L (i + 1)) as Hin.
    { destruct (L (i + 1)) as [|y l]; [destruct Hc as [-> _]; left|]. destruct Hc as [[-> _] _]. right. left. }
    apply elem_of_cons in Hin as [->|Hin]; [pose proof (bin_pos _ Hg Hv1); lia|].
    destruct (hg_arena _ _ _ Hg _ (bo_in _ _ _ _ _ Hb _ _ Hv1 Hin)). lia.
Qed.

Lemma large_not_last L m i x : bins_ok av G Bg L m -> large_index i -> x ∈ L i -> i <= 126.
Proof.
  intros Hb Hi Hx. pose proof (bo_index _ _ _ _ _ Hb i x ltac:(unfold large_index in Hi; lia) Hx) as Hidx.
  destruct (large_chunks L m i x Hb Hi Hx). pose proof (bin_index_bounds (head m x - 1)). lia.
Qed.

Lemma filter_notin (l : list Z) x : x ∉ l -> filter (fun y => y <> x) l = l.
Proof.
  induction l as [|y l IH]; [done|]. rewrite not_elem_of_cons. intros [? ?].
  rewrite filter_cons_True by done. by rewrite IH.
Qed.

Lemma filter_split (l1 l2 : list Z) x : NoDup (l1 ++ x :: l2) -> filter (fun y => y <> x) (l1 ++ x :: l2) = l1 ++ l2.
Proof.
  intros (H1 & H2 & H3)%list.NoDup_app. apply list.NoDup_cons in H3 as [Hx _].
  rewrite list.filter_app, filter_cons_False by naive_solver. rewrite !filter_notin; [done|done|].
  intros Hl. apply (H2 x Hl). left.
Qed.

(** The lists without [x], as a change of the one bin that held it. *)
Definition without (x : Z) (L : Z -> list Z) (j : Z) : list Z := filter (fun y => y <> x) (L j).

Lemma bins_without L m m' i l1 x l2 :
  heap_geom av G Bg -> bins_ok av G Bg L m -> valid_bin i -> L i = l1 ++ x :: l2 ->
  (forall c, outside i (L i) c -> ld m' c = ld m c) ->
  bin_list m' (bin_at av i) (l1 ++ l2) -> (large_index i -> size_list m' (l1 ++ l2)) ->
  bins_ok av G Bg (without x L) m'.
Proof.
  intros Hg Hb Hi El Hc Hl Hs.
  assert (forall y, y ∈ l1 ++ l2 -> y ∈ L i) as Hsub by (intros y; rewrite El; rewrite !elem_of_app, elem_of_cons; tauto).
  apply (bins_ext (upd_bin i (l1 ++ l2) L)).
  - intros j Hj. unfold without, upd_bin. destruct (Z.eqb_spec j i) as [->|Hji].
    + rewrite El, filter_split; [done|]. destruct (bo_list _ _ _ _ _ Hb i Hi) as (_ & Hn & _). rewrite El in Hn. by apply list.NoDup_cons in Hn as [_ Hn].
    + apply filter_notin. destruct (bin_chunks L m i x Hb Hi) as (_ & _ & Hx); [rewrite El; in_auto|]. by apply Hx.
  - assert (forall y, y ∈ L i -> y ∈ G /\ (large_index i -> y ∈ Bg) /\ forall j, valid_bin j -> j <> i -> y ∉ L j) as Hch
      by (intros y Hy; by apply (bin_chunks L m i)).
    assert (forall k, 0 <= k < BINMAPSIZE -> ld m' (binmap_at av k) = ld m (binmap_at av k)) as Hmap
      by (intros k Hk; apply Hc, (outside_map L i); done).
    assert (forall j, 2 <= j < NBINS -> marked av m j -> marked av m' j) as Hmk
      by (intros j Hj; unfold marked; rewrite Hmap by (apply idx2block_range; lia); done).
    apply (bins_other L m i (L i)); try done; auto.
    + intros x' Hx'. apply held; auto.
    + intros H2 Hne. unfold valid_bin in Hi. apply Hmk; [lia|]. apply (bo_marked _ _ _ _ _ Hb i); [lia|]. rewrite El. by destruct l1.
    + intros k Hk. rewrite Hmap by done. by apply (bo_map _ _ _ _ _ Hb).
Qed.

(** The last chunk of the unsorted list or of a small bin is unlinked by two
    stores. *)
Lemma bins_take_last L m i l0 x :
  heap_geom av G Bg -> bins_ok av G Bg L m -> 1 <= i < 64 -> L i = l0 ++ [x] ->
  let b := bin_at av i in
  let B := List.last (b :: l0) b in
  ld m (b + off_bk) = x /\ ld m (x + off_bk) = B /\ ld m (B + off_fd) = x /\ x <> b
  /\ bins_ok av G Bg (without x L) (relink B b m) /\ (forall c, outside i (L i) c -> c <> B + off_fd /\ c <> b + off_bk)
  /\ forall c, nonlink av G Bg c -> c <> B + off_fd /\ c <> b + off_bk.
Proof.
  intros Hg Hb Hi El b B. assert (valid_bin i) as Vi by (unfold valid_bin, NBINS; lia). pose proof (bo_list _ _ _ _ _ Hb i Vi) as Hl. rewrite El in Hl.
  pose proof (bin_list_neighbours _ _ _ _ _ Hl) as (H1 & _ & H3 & H4). cbn [hd] in H4. fold b B in H1, H3, H4.
  assert (B = b \/ B ∈ L i) as HB by (unfold B; pose proof (last_elem b l0 b) as [->|?]%elem_of_cons; [by left|right; rewrite El; in_auto]).
  assert (forall c, outside i (L i) c -> c <> B + off_fd /\ c <> b + off_bk) as Hout.
  { intros c ([Hc1 Hc1'] & Hc2 & _). unfold off_fd, off_bk. split; [|done]. destruct HB as [->|HB]; [done|by apply Hc2]. }
  split_and!.
  - done.
  - done.
  - done.
  - intros ->. destruct Hl as (_ & Hn & _). apply list.NoDup_cons in Hn as [Hn _]. apply Hn. in_auto.
  - pose proof (bin_list_remove _ _ _ _ _ Hl) as Hrm. cbn [hd] in Hrm. fold b B in Hrm.
    apply (bins_without L m _ i l0 x []); try done; [|unfold large_index; lia].
    intros c Hc. destruct (Hout c Hc). unfold relink. by rewrite !ld_insert_ne.
  - done.
  - intros c Hc. apply Hout. apply (nonlink_outside i); [done| |done]. intros y Hy. destruct (bin_chunks L m i y Hb Vi Hy) as (? & ? & _). done.
Qed.

(** ** Putting a chunk on the unsorted list *)

(** A chunk becomes the first of bin 1, the unsorted list. *)
Definition push_unsorted (x : Z) (L : Z -> list Z) (i : Z) : list Z := if i =? 1 then x :: L 1 else L i.

Lemma bins_push L m m' x :
  heap_geom av G Bg -> bins_ok av G Bg L m -> x ∈ G -> (forall i, valid_bin i -> x ∉ L i) ->
  free_head m' x -> (1024 <= head m' x -> x ∈ Bg /\ ld m' (x + off_fd_nextsize) = 0) ->
  let u := bin_at av 1 in
  linked m' u x -> linked m' x (hd u (L 1)) ->
  (forall i y, valid_bin i -> y ∈ bin_at av i :: L i -> y <> u -> ld m' (y + 16) = ld m (y + 16)) ->
  (forall i y, valid_bin i -> y ∈ bin_at av i :: L i -> y <> hd u (L 1) -> ld m' (y + 24) = ld m (y + 24)) ->
  (forall i y o, valid_bin i -> y ∈ L i -> o = 8 \/ (o = 32 \/ o = 40) /\ 1024 <= head m y -> ld m' (y + o) = ld m (y + o)) ->
  (forall k, 0 <= k < BINMAPSIZE -> ld m' (binmap_at av k) = ld m (binmap_at av k)) ->
  bins_ok av G Bg (push_unsorted x L) m'.
Proof.
  intros Hg Hb Hx Hnew Hhd Hbig u H1 H2 Hfd Hbk Hfields Hmap. assert (valid_bin 1) as V1 by done.
  assert (forall i y, valid_bin i -> y ∈ L i -> head m' y = head m y) as Hh by (intros i y Hi Hy; apply (Hfields i); auto).
  assert (forall j, 2 <= j < NBINS -> marked av m j -> marked av m' j) as Hmk
    by (intros j Hj; unfold marked; rewrite Hmap by (apply idx2block_range; lia); done).
  apply (bins_change L m m' 1 (x :: L 1)); try done.
  - apply (bin_list_insert m); try done; [by apply (bo_list _ _ _ _ _ Hb)|..].
    + intros [->|Hx']%elem_of_cons; [|by apply (Hnew 1)]. pose proof (hg_header _ 1 Hg Hx V1). unfold u in *. lia.
    + intros a c Ha Hc. assert (forall z, z ∈ x :: u :: L 1 -> z = u \/ z ∈ G) as Hz.
      { intros z. rewrite !elem_of_cons. intros [->|[->|Hz]]; [by right|by left|right; by apply (bo_in _ _ _ _ _ Hb 1)]. }
      destruct (Hz a Ha) as [->|Ga], (Hz c Hc) as [->|Gc]; [by left|..|by apply (hg_apart _ _ _ Hg)]; right;
        [pose proof (hg_header c 1 Hg Gc V1)|pose proof (hg_header a 1 Hg Ga V1)]; unfold u; lia.
    + intros a Ha. apply (Hfd 1); [done|by right|]. intros ->.
      destruct (bo_list _ _ _ _ _ Hb 1 V1) as (_ & Hn & _). by apply list.NoDup_cons in Hn as [? _].
    + intros a Ha Hne. by apply (Hbk 1).
  - unfold large_index. lia.
  - intros y [->|Hy]%elem_of_cons.
    + split; try done; [intros j Hj _; by apply Hnew|intros; by apply Hbig|intros _ ?; by apply Hbig].
    + destruct (held L m 1 y Hb V1 Hy). split; unfold free_head; rewrite ?(Hh 1) by done; try done.
      intros _ H1k. rewrite (Hfields 1) by auto. by apply mh_plain0.
  - intros j Hj _. by apply Hmk.
  - intros k Hk. rewrite Hmap by done. by apply (bo_map _ _ _ _ _ Hb).
  - intros j y o Hj Hj1 Hy [->| ->].
    + apply (Hfd j); [done|done|]. intros ->. pose proof (bins_disjoint L m 1 j u u Hg Hb V1 Hj (not_eq_sym Hj1) ltac:(left) Hy). lia.
    + apply (Hbk j); [done|done|]. intros ->. pose proof (bins_disjoint L m 1 j _ _ Hg Hb V1 Hj (not_eq_sym Hj1) (hd_elem u (L 1)) Hy). lia.
  - intros j y o Hj _ Hy Ho. by apply (Hfields j).
Qed.

(** ** Marking a bin *)

Definition with_mark (m : memory) (i : Z) : memory :=
  <[binmap_at av (idx2block i) := ld m (binmap_at av (idx2block i)) |w idx2bit i]> m.

Lemma idx2bit_eq i : 0 <= i < NBINS -> idx2bit i = 2 ^ (i mod 32).
Proof.
  intros Hi. unfold idx2bit. change (u32 (Z.shiftl 1 BINMAPSHIFT) - 1) with (2 ^ 5 - 1). rewrite land_mask_low by lia. change (2 ^ 5) with 32.
  rewrite Z.shiftl_1_l. apply u32_small. pose proof (Z.mod_pos_bound i 32). split; [apply Z.pow_nonneg; lia|].
  change 4294967296 with (2 ^ 32). apply Z.pow_lt_mono_r; lia.
Qed.

Lemma lor_u32 x y : 0 <= x < 4294967296 -> 0 <= y < 4294967296 -> 0 <= (x |w y) < 4294967296.
Proof.
  intros Hx Hy. split; [apply Z.lor_nonneg; lia|]. change 4294967296 with (2 ^ 32) in *.
  destruct (Z.eq_dec (Z.lor x y) 0) as [->|Hne]; [lia|]. apply Z.log2_lt_pow2; [assert (0 <= Z.lor x y) by (apply Z.lor_nonneg; lia); lia|].
  rewrite Z.log2_lor by lia. destruct (Z.eq_dec x 0) as [->|Hx0], (Z.eq_dec y 0) as [->|Hy0]; cbn;
    rewrite ?Z.max_lub_lt_iff; repeat split; try lia; apply Z.log2_lt_pow2; lia.
Qed.

Lemma with_mark_spec m m' i :
  2 <= i < NBINS -> (forall k, 0 <= k < BINMAPSIZE -> ld m' (binmap_at av k) = ld (with_mark m i) (binmap_at av k)) ->
  (forall k, 0 <= k < BINMAPSIZE -> 0 <= ld m (binmap_at av k) < 4294967296) ->
  marked av m' i /\ (forall j, 2 <= j < NBINS -> marked av m j -> marked av m' j)
  /\ forall k, 0 <= k < BINMAPSIZE -> 0 <= ld m' (binmap_at av k) < 4294967296.
Proof.
  intros Hi Hm Hr. pose proof (idx2block_range i ltac:(lia)) as Hk.
  assert (0 < idx2bit i < 4294967296) as Hbit.
  { rewrite idx2bit_eq by lia. pose proof (Z.mod_pos_bound i 32). change 4294967296 with (2 ^ 32).
    split; [apply Z.pow_pos_nonneg; lia|apply Z.pow_lt_mono_r; lia]. }
  assert (forall k, 0 <= k < BINMAPSIZE -> ld m' (binmap_at av k)
    = if decide (k = idx2block i) then ld m (binmap_at av k) |w idx2bit i else ld m (binmap_at av k)) as Hv.
  { intros k Hk'. rewrite Hm by done. unfold with_mark. rewrite ld_insert. rewrite !binmap_at_eq. repeat case_decide; subst; (done || lia). }
  split_and!.
  - unfold marked. rewrite Hv, decide_True by done. pose proof (truthy_lor (ld m (binmap_at av (idx2block i))) (idx2bit i) ltac:(lia)) as Ht.
    unfold truthy in Ht. by apply negb_true_iff, Z.eqb_neq in Ht.
  - intros j Hj. pose proof (idx2block_range j ltac:(lia)) as Hkj. unfold marked. rewrite Hv by done. case_decide as E; [|done].
    intros Hne E0. apply Hne. rewrite Z.land_lor_distr_l in E0. by apply Z.lor_eq_0_iff in E0 as [? _].
  - intros k Hk'. rewrite Hv by done. pose proof (Hr k Hk'). case_decide; [apply lor_u32; lia|done].
Qed.

Section Run.
Context `{PS : PageSource}.

(** [unlink] takes a chunk out of whichever bin holds it. *)
Lemma bins_unlink (s : state) L i x :
  heap_geom av G Bg -> bins_ok av G Bg L (st_mem s) -> valid_bin i -> x ∈ L i ->
  exists m', unlink av x s = Ok tt (with_mem m' s) /\ bins_ok av G Bg (without x L) m'
    /\ (forall c, outside i (L i) c -> ld m' c = ld (st_mem s) c) /\ forall c, nonlink av G Bg c -> ld m' c = ld (st_mem s) c.
Proof.
  intros Hg Hb Hi Hx. pose proof Hx as (l1 & l2 & El)%list_elem_of_split.
  assert (exists m', unlink av x s = Ok tt (with_mem m' s) /\ bin_list m' (bin_at av i) (l1 ++ l2) /\ (large_index i -> size_list m' (l1 ++ l2))
            /\ forall c, outside i (L i) c -> ld m' c = ld (st_mem s) c) as (m' & Hrun & Hl & Hs & Hc).
  { pose proof (bo_list _ _ _ _ _ Hb i Hi) as Hli. destruct (Z_lt_ge_dec i 64) as [H64|H64].
    - rewrite El in Hli. eexists. split; [apply (unlink_run s av _ l1 x l2 Hli)|].
      + destruct (Z_lt_ge_dec (head (st_mem s) x) 1024) as [?|?]; [by left|right].
        apply (bo_plain _ _ _ _ _ Hb i); [unfold valid_bin in Hi; lia|done|lia].
      + split; [exact (bin_list_remove _ _ l1 x l2 Hli)|]. split; [unfold large_index; lia|]. intros c (H1 & H2 & _).
        assert (forall y, y ∈ bin_at av i :: l1 ++ x :: l2 -> c <> y + 16 /\ c <> y + 24) as Hy.
        { intros y [->|Hy]%elem_of_cons; [done|]. apply H2. by rewrite El. }
        unfold relink, off_fd, off_bk.
        destruct (Hy (List.last (bin_at av i :: l1) (bin_at av i))) as [? _]; [pose proof (last_elem (bin_at av i) l1 (bin_at av i)) as [->|?]%elem_of_cons; in_auto|].
        destruct (Hy (hd (bin_at av i) l2)) as [_ ?]; [pose proof (hd_elem (bin_at av i) l2) as [->|?]%elem_of_cons; in_auto|].
        by rewrite !ld_insert_ne.
    - assert (large_index i) as Hlg by (unfold large_index; unfold valid_bin in Hi; lia).
      pose proof (large_bin_at L _ i Hg Hb Hlg (large_not_last _ _ _ _ Hb Hlg Hx)) as Hlb. rewrite El in Hlb.
      destruct (unlink_large s av _ l1 x l2 Hlb) as (m' & Hrun & Hl & Hs & Hc). exists m'. split_and!; try done.
      intros c (H1 & H2 & H3). apply Hc. split; [done|]. intros y Hy. rewrite <- El in Hy. destruct (H2 y Hy), (H3 Hlg y Hy). done. }
  exists m'. split; [done|]. split; [by apply (bins_without L (st_mem s) m' i l1 x l2)|]. split; [done|].
  intros c Hn. apply Hc. apply (nonlink_outside i); [done| |done]. intros y Hy. destruct (bin_chunks L _ i y Hb Hi Hy) as (? & ? & _). done.
Qed.

(** ** Putting a chunk into its bin *)

Lemma link_in_frame m i l1 l2 v c :
  outside i (v :: l1 ++ l2) c -> ld (link_in m (List.last (bin_at av i :: l1) (bin_at av i)) v (hd (bin_at av i) l2)) c = ld m c.
Proof.
  intros (H1 & H2 & _).
  assert (forall y, y ∈ bin_at av i :: l1 ++ l2 -> c <> y + 16 /\ c <> y + 24) as Hy by (intros y [->|Hy]%elem_of_cons; [done|apply H2; by right]).
  destruct (Hy (List.last (bin_at av i :: l1) (bin_at av i))) as [? _].
  { pose proof (last_elem (bin_at av i) l1 (bin_at av i)) as [->|?]%elem_of_cons; in_auto. }
  destruct (Hy (hd (bin_at av i) l2)) as [_ ?]; [pose proof (hd_elem (bin_at av i) l2) as [->|?]%elem_of_cons; in_auto|].
  destruct (H2 v ltac:(left)). unfold link_in, off_fd, off_bk. by rewrite !ld_insert_ne.
Qed.

Lemma link_in_field m (N : list Z) B v F x o :
  wide N -> B ∈ N -> v ∈ N -> F ∈ N -> x ∈ N -> o = off_size \/ o = off_fd_nextsize \/ o = off_bk_nextsize ->
  ld (link_in m B v F) (x + o) = ld m (x + o).
Proof.
  intros Hw HB Hv HF Hx Ho. pose proof (Hw x B Hx HB). pose proof (Hw x v Hx Hv). pose proof (Hw x F Hx HF).
  unfold link_in. offs. by rewrite !ld_insert_ne by lia.
Qed.

Section Place.
Context (s : state) (L : Z -> list Z) (v size : Z).
Let m := st_mem s.
Let i := bin_index size.
Hypothesis Hg : heap_geom av G Bg.
Hypothesis Hb : bins_ok av G Bg L m.
Hypothesis Hv : v ∈ G.
Hypothesis Hnew : forall j, valid_bin j -> v ∉ L j.
Hypothesis Hsz : head m v = size + 1 /\ size mod 16 = 0 /\ 32 <= size < 18446744073709551600.
Hypothesis Hbig : 1024 <= size -> v ∈ Bg /\ ld m (v + off_fd_nextsize) = 0.

Lemma place_index : 2 <= i < NBINS /\ (large_index i <-> 1024 <= size).
Proof using Hsz.
  clear Hb. destruct Hsz as (_ & _ & Hr). pose proof (bin_index_bounds size ltac:(lia)) as Hi. fold i in Hi.
  pose proof (large_size size ltac:(lia)). unfold large_index, NBINS, i in *. lia.
Qed.

Lemma place_nodes y : y ∈ v :: L i -> y ∈ G /\ (large_index i -> y ∈ Bg) /\ forall j, valid_bin j -> j <> i -> y ∉ L j.
Proof using All.
  destruct place_index as [Hi Hlg]. assert (valid_bin i) as Vi by (unfold valid_bin; lia).
  intros [->|Hy]%elem_of_cons; [|by apply (bin_chunks L m i)]. split_and!; [done| |intros; by apply Hnew]. intros H. by apply Hbig, Hlg.
Qed.

Lemma place_apart : spaced (v :: bin_at av i :: L i) /\ v ∉ bin_at av i :: L i.
Proof using All.
  destruct place_index as [Hi Hlg]. assert (valid_bin i) as Vi by (unfold valid_bin; lia).
  assert (forall z, z ∈ v :: bin_at av i :: L i -> z = bin_at av i \/ z ∈ G) as Hz.
  { intros z. rewrite !elem_of_cons. intros [->|[->|Hz]]; [by right|by left|right; by apply (bo_in _ _ _ _ _ Hb i)]. }
  split.
  - intros a c Ha Hc. destruct (Hz a Ha) as [->|Ga], (Hz c Hc) as [->|Gc]; [by left|..|by apply (hg_apart _ _ _ Hg)]; right;
      [pose proof (hg_header c i Hg Gc Vi)|pose proof (hg_header a i Hg Ga Vi)]; lia.
  - intros [E|Hx]%elem_of_cons; [|by apply (Hnew i)]. pose proof (hg_header v i Hg Hv Vi). lia.
Qed.

Lemma place_wide : large_index i -> wide (v :: bin_at av i :: L i).
Proof using All.
  intros Hlg. assert (i <= 126) as H126 by (destruct Hsz as (_ & _ & ?); pose proof (bin_index_bounds size ltac:(lia)); unfold i; lia).
  pose proof (lb_wide _ _ _ (large_bin_at L m i Hg Hb Hlg H126)) as Hw. pose proof place_nodes as Hn.
  assert (forall z, z ∈ bin_at av i :: L i -> v = z \/ 64 <= Z.abs (v - z)) as Hvz.
  { intros z. destruct (Hn v ltac:(left)) as (_ & HvB & _). specialize (HvB Hlg). intros [->|Hz]%elem_of_cons.
    - pose proof (hg_big_header v i Hg HvB (large_valid i Hlg)). lia.
    - destruct (Hn z ltac:(by right)) as (HzG & HzB & _). specialize (HzB Hlg). destruct (hg_big _ _ _ Hg v HvB) as (_ & _ & Hd), (hg_big _ _ _ Hg z HzB) as (_ & _ & Hd').
      pose proof (Hd z HzG). pose proof (Hd' v Hv). lia. }
  intros x y [->|Hx]%elem_of_cons [->|Hy]%elem_of_cons; [by left|by apply Hvz| |by apply Hw]. destruct (Hvz x Hx); lia.
Qed.

(** The bins once the chunk is linked in; [m1] has the list of sizes updated. *)
Lemma place_done m1 l1 l2 :
  L i = l1 ++ l2 -> (forall c, outside i (v :: L i) c -> ld m1 c = ld m c) ->
  (forall a o, a ∈ bin_at av i :: L i -> o = 16 \/ o = 24 -> ld m1 (a + o) = ld m (a + o)) ->
  (large_index i -> size_list m1 (l1 ++ v :: l2)) ->
  let b := bin_at av i in
  let m' := link_in (with_mark m1 i) (List.last (b :: l1) b) v (hd b l2) in
  bins_ok av G Bg (upd_bin i (l1 ++ v :: l2) L) m' /\ (forall c, outside i (v :: L i) c -> not_map c -> ld m' c = ld m c)
  /\ forall c, nonlink av G Bg c -> not_map c -> ld m' c = ld m c.
Proof using All.
  intros El Hm1 Hlinks Hsl b m'. destruct place_index as [Hi Hlg]. assert (valid_bin i) as Vi by (unfold valid_bin; lia).
  destruct place_apart as [Hsp Hvn]. pose proof place_nodes as Hn.
  assert (forall c, not_map c -> ld (with_mark m1 i) c = ld m1 c) as Hwm.
  { intros c Hc. unfold with_mark. apply ld_insert_ne. intros E. apply (Hc (idx2block i)); [apply idx2block_range; lia|done]. }
  assert (forall c, outside i (v :: L i) c -> ld m' c = ld (with_mark m1 i) c) as Hm'.
  { intros c Hc. unfold m', b. apply link_in_frame. by rewrite <- El. }
  assert (forall c, outside i (v :: L i) c -> not_map c -> ld m' c = ld m c) as Hc.
  { intros c Ho Hnm. rewrite Hm', Hwm by done. by apply Hm1. }
  assert (forall y, y ∈ b :: L i -> forall o, 0 <= o < 32 -> not_map (y + o)) as Hnm.
  { intros y [->|Hy]%elem_of_cons o Ho; [by apply header_not_map|]. apply chunk_not_map; [done|by apply (bo_in _ _ _ _ _ Hb i)|lia]. }
  assert (List.last (b :: l1) b ∈ v :: b :: L i /\ hd b l2 ∈ v :: b :: L i) as [HB HF].
  { rewrite El. split; right; [pose proof (last_elem b l1 b) as [->|?]%elem_of_cons|pose proof (hd_elem b l2) as [->|?]%elem_of_cons]; in_auto. }
  assert (bin_list (with_mark m1 i) b (l1 ++ l2)) as Hl1.
  { rewrite <- El. generalize (bo_list _ _ _ _ _ Hb i Vi). apply bin_list_frame; intros a Ha; unfold off_fd, off_bk;
      (rewrite Hwm by (apply Hnm; [done|lia])); apply Hlinks; auto. }
  destruct (with_mark_spec m1 m' i Hi) as (Hk1 & Hk2 & Hk3).
  { intros k Hk. apply Hm', (outside_map L i); try done. }
  { intros k Hk. rewrite Hm1 by (apply (outside_map L i); done). by apply (bo_map _ _ _ _ _ Hb). }
  assert (forall j, 2 <= j < NBINS -> marked av m j -> marked av m' j) as Hk2'.
  { intros j Hj Hmj. apply Hk2; [done|]. unfold marked. rewrite Hm1; [done|]. apply (outside_map L i); try done. apply idx2block_range. lia. }
  assert (forall y, y ∈ l1 ++ v :: l2 <-> y ∈ v :: L i) as Hin by (intros y; rewrite El, !elem_of_app, !elem_of_cons, elem_of_app; tauto).
  split; [|split; [exact Hc|]].
  - apply (bins_other L m i (v :: L i)); try done.
    + intros y. by rewrite Hin.
    + unfold m'. rewrite El in Hsp, Hvn. by apply bin_list_between.
    + intros Hlg'. generalize (Hsl Hlg'). apply size_list_frame; intros y Hy; apply Hin in Hy;
        (unfold m', head; rewrite (link_in_field _ (v :: b :: L i)); [|by apply place_wide|done|left|done|apply elem_of_cons in Hy as [->|Hy]; in_auto|by auto];
         apply Hwm, chunk_not_map; [done|by apply Hn|unfold off_size, off_fd_nextsize, off_bk_nextsize; lia]).
    + intros y Hy%Hin. apply elem_of_cons in Hy as [->|Hy]; [|by apply held]. destruct Hsz as (Hs1 & Hs2 & Hs3).
      split; rewrite ?Hs1; try done.
      * intros j Hj _. by apply Hnew.
      * unfold free_head. rewrite Hs1. split; [zlia|lia].
      * intros H1k. apply Hbig. zlia.
      * intros _. unfold i. f_equal. lia.
      * intros H64 H1k. apply Hbig. zlia.
  - intros c Hnl. apply Hc, (nonlink_outside i); [done| |done]. intros y Hy. destruct (Hn y Hy) as (? & ? & _). done.
Qed.

(** [place_in_bin] puts the chunk into the bin of its size. *)
Lemma bins_place fuel :
  (length (L i) < fuel)%nat ->
  exists l1 l2 m', L i = l1 ++ l2 /\ place_in_bin fuel av v size s = Ok tt (with_mem m' s)
    /\ bins_ok av G Bg (upd_bin i (l1 ++ v :: l2) L) m' /\ (forall c, outside i (v :: L i) c -> not_map c -> ld m' c = ld m c)
    /\ forall c, nonlink av G Bg c -> not_map c -> ld m' c = ld m c.
Proof using All.
  intros Hfu. destruct place_index as [Hi Hlg]. assert (valid_bin i) as Vi by (unfold valid_bin; lia). destruct place_apart as [Hsp Hvn].
  pose proof (bo_list _ _ _ _ _ Hb i Vi) as Hl. set (b := bin_at av i) in *.
  assert (exists l1 l2 m1, L i = l1 ++ l2 /\ (forall c, outside i (v :: L i) c -> ld m1 c = ld m c)
    /\ (forall a o, a ∈ b :: L i -> o = 16 \/ o = 24 -> ld m1 (a + o) = ld m (a + o)) /\ (large_index i -> size_list m1 (l1 ++ v :: l2))
    /\ (if in_smallbin_range size then s <- get ;; ret (b, fd s b) else large_insert fuel v size b) s
       = Ok (List.last (b :: l1) b, hd b l2) (with_mem m1 s)) as (l1 & l2 & m1 & El & Hm1 & Hlk & Hsl & Hrun).
  { destruct (in_smallbin_range size) eqn:Esm.
    - apply in_smallbin_range_spec in Esm. exists [], (L i), m. split_and!; try done; [intros H%Hlg; lia|]. mexec.
      change (with_mem m s) with (with_mem (st_mem s) s). rewrite with_mem_id. do 2 f_equal. unfold fd, word. destruct Hl as (Hc & _). fold m.
      destruct (L i); apply Hc.
    - assert (1024 <= size) as H1k by (apply Z.nlt_ge; rewrite <- in_smallbin_range_spec, Esm; done).
      assert (large_index i) as Hlgi by (by apply Hlg). pose proof (place_wide Hlgi) as Hw.
      assert (i <= 126) as H126 by (pose proof (bin_index_bounds size ltac:(lia)); unfold i; lia).
      pose proof (large_bin_at L m i Hg Hb Hlgi H126) as Hlb. destruct Hsz as (Hs1 & Hs2 & Hs3). destruct (Hbig H1k) as [HvB Hv0].
      destruct (large_insert_run s b v size (L i) Hlb Hvn Hw ltac:(by apply (hg_arena _ _ _ Hg)) ltac:(split_and!; done) Hv0 fuel Hfu)
        as (l1 & l2 & m1 & El & Hrun & Hsl & Hro).
      exists l1, l2, m1. split_and!; try done.
      + intros c (_ & _ & Hc). apply Hro. intros x Hx. unfold off_fd_nextsize, off_bk_nextsize. by apply Hc.
      + intros a o Ha Ho. apply Hro. intros y Hy.
        apply (not_field_ring (v :: b :: L i) a o _ Hw); [by right|unfold off_fd, off_bk; lia|done|]. apply elem_of_cons in Hy as [->|Hy]; in_auto. }
  exists l1, l2, (link_in (with_mark m1 i) (List.last (b :: l1) b) v (hd b l2)). split; [done|]. split.
  - unfold place_in_bin. change (if in_smallbin_range size then smallbin_index size else largebin_index size) with i. cbv zeta. fold b.
    rewrite (bind_Ok _ _ _ _ _ Hrun). unfold mark_bin, binmap. mexec. reflexivity.
  - apply place_done; done.
Qed.

End Place.

End Run.

End Bins.
