(* ===== verification/BinProps.v ===== *)
(** * Properties of the bins

    What [unlink] ([src/libipc/malloc/malloc.c]) does to a list of free
    chunks and to the rest of the memory, and a concrete page source and state
    for the examples. *)

From S2P Require Import Prelude MallocState MallocCore MallocInt SizeFacts ListFacts.

(** A concrete page source, for examples: addresses only grow. *)
Definition bump_source : PageSource := {|
  os_state := Z;
  sys_mmap addr size prot flags o m := MmapOk o (o + size) m;
  sys_munmap addr len o := o;
  sys_mprotect addr len prot o := 0
|}.

(** A state over a given memory, with the main arena at [av]. *)
Definition state_of (m : memory) (av : Z) : @state bump_source :=
  @mkSt bump_source m (mkGl av mp_init 128 DEFAULT_CHECK_ACTION 0 0 4096)
    (mkAg av 0 0 0 1 0 1 0 0 0) (mkHk HookNull HookNull HookNull HookNull 0 0)
    (mkEnv [] false 1 false) 1048576 [].

Section Unlink.
Context `{PS : PageSource}.

(** [unlink] takes a chunk out of its list.  On a well-formed bin list it
    succeeds, the bin holds the same chunks in the same order without [P],
    and only the two links around [P] change. *)
Theorem unlink_removes (s : state) (av b P : Z) (l1 l2 : list Z) :
  bin_list (st_mem s) b (l1 ++ P :: l2) ->
  size_ s P < MIN_LARGE_SIZE \/ fd_nextsize s P = 0 ->
  exists s', unlink av P s = Ok tt s'
    /\ bin_list (st_mem s') b (l1 ++ l2)
    /\ (forall a, a <> bk s P + off_fd -> a <> fd s P + off_bk -> word s' a = word s a)
    /\ s' = with_mem (st_mem s') s.
Proof.
  intros Hl Hsm. rewrite (unlink_run s av b l1 P l2 Hl Hsm). eexists. split; [done|].
  split; [by apply bin_list_remove in Hl|]. split; [|done].
  apply bin_list_neighbours in Hl as (HB & HF & _). unfold bk, fd, word. rewrite HB, HF.
  intros a H1 H2. mexec. unfold relink. by rewrite !ld_insert_ne.
Qed.

(** C35: [unlink] finds a corrupted list before it writes to it: when a
    neighbour does not point back, the process aborts (the default
    [check_action] asks for it) with no cell changed but the flag word that
    marks the arena corrupt. *)
Theorem unlink_corrupted_aborts (s : state) (av P : Z) :
  check_action (st_gl s) = DEFAULT_CHECK_ACTION -> av <> 0 ->
  bk s (fd s P) <> P \/ fd s (bk s P) <> P ->
  exists s', unlink av P s = Aborted "corrupted double-linked list" s'
    /\ arena_is_corrupt s' av = true
    /\ forall a, a <> av + off_flags -> word s' a = word s a.
Proof.
  intros Hact Hav Hbad. unfold unlink. mexec.
  assert (negb (bk s (fd s P) =? P) || negb (fd s (bk s P) =? P) = true) as ->.
  { destruct Hbad as [H|H]; apply Z.eqb_neq in H; rewrite H; [done|apply orb_true_r]. }
  unfold malloc_printerr, truthy. rewrite Hact, (proj2 (Z.eqb_neq av 0) Hav).
  cbn [negb]. unfold set_arena_corrupt, libc_message, abort. mexec.
  eexists. split; [reflexivity|]. split.
  - unfold arena_is_corrupt, flags, word. cbn [add_log st_mem upd_mem with_mem]. rewrite ld_insert_eq.
    by apply truthy_lor.
  - intros a Ha. unfold word. cbn [add_log st_mem upd_mem with_mem]. by rewrite ld_insert_ne.
Qed.

End Unlink.

(** Two chunks of 64 bytes in the small bin of arena 4096. *)
Definition two_chunks : memory :=
  let b := bin_at 4096 4 in
  list_to_map [(b + 16, 16384); (b + 24, 16640); (16384 + 16, 16640); (16384 + 24, b);
               (16640 + 16, b); (16640 + 24, 16384); (16384 + 8, 65); (16640 + 8, 65)].

Lemma two_chunks_list : bin_list two_chunks (bin_at 4096 4) [16384; 16640].
Proof.
  split; [repeat split; vm_compute; reflexivity|]. split; [by vm_compute; apply (bool_decide_unpack _)|].
  intros x y Hx Hy. change (bin_at 4096 4) with 4272 in *. set_unfold. unfold apart. lia.
Qed.

Lemma unlink_removes_witness :
  exists s', @unlink bump_source 4096 16384 (state_of two_chunks 4096) = Ok tt s'
    /\ bin_list (st_mem s') (bin_at 4096 4) [16640].
Proof.
  destruct (unlink_removes (state_of two_chunks 4096) 4096 (bin_at 4096 4) 16384 [] [16640])
    as (s' & H & Hl & _); [apply two_chunks_list|left; reflexivity|]. by exists s'.
Defined.

Lemma unlink_corrupted_aborts_witness :
  exists s', @unlink bump_source 4096 16384 (state_of (<[16640 + 24 := 0]> two_chunks) 4096)
             = Aborted "corrupted double-linked list" s'.
Proof.
  destruct (unlink_corrupted_aborts (state_of (<[16640 + 24 := 0]> two_chunks) 4096) 4096 16384)
    as (s' & H & _); [reflexivity|lia|left; vm_compute; discriminate|]. by exists s'.
Defined.
