(* ===== verification/FastProps.v ===== *)
(** * The fastbins

    Freeing a small chunk pushes it on its fastbin and the next request of
    that size pops it ([int_free_fast], [int_malloc_fast] of
    [src/libipc/malloc/malloc.c]); freeing it twice is detected. *)

From S2P Require Import Prelude MallocState MallocCore MallocInt SizeFacts ListFacts BinProps.

(** The chunk [p] lies outside the arena at [av]. *)
Definition off_arena (av p : Z) : Prop := p + 48 <= av \/ av + sizeof_malloc_state <= p.

Lemma fastbin_index_eq sz : 32 <= sz < 4294967296 -> fastbin_index sz = sz / 16 - 2.
Proof.
  intros H. unfold fastbin_index. change (SIZE_SZ =? 8) with true. cbv iota.
  rewrite (u32_small sz) by lia. rewrite Z.shiftr_div_pow2 by lia. change (2 ^ 4) with 16.
  apply u32_small. zlia.
Qed.

Section Fast.
Context `{PS : PageSource}.

(** A chunk that [_int_free] accepts on the fastbin path. *)
Record fast_ok (s : state) (av p : Z) : Prop := {
  fo_align : p mod 16 = 0;
  fo_pos : 0 <= p /\ p + chunksize s p <= 18446744073709551616;
  fo_off : off_arena av p;
  fo_size : chunksize s p mod 16 = 0 /\ 32 <= chunksize s p <= get_max_fast s;
  fo_max : get_max_fast s <= 160;
  fo_next : bad_next_size s av p (chunksize s p) = false;
  fo_perturb : perturb_byte (st_gl s) = 0
}.

(** The memory after pushing [p]. *)
Definition push_fast (s : state) (av p : Z) : memory :=
  let idx := fastbin_index (chunksize s p) in
  <[fastbin_at av idx := p]>
    (<[p + off_fd := fastbin s av idx]>
       (<[av + off_flags := flags s av &w u32 (Z.lnot FASTCHUNKS_BIT)]> (st_mem s))).

Lemma fast_ok_guards s av p :
  fast_ok s av p ->
  (u64 (- chunksize s p) <? p) || misaligned_chunk p = false
  /\ (chunksize s p <? MINSIZE) || negb (aligned_OK (chunksize s p)) = false
  /\ (chunksize s p <=? get_max_fast s) = true.
Proof.
  intros []. rewrite MINSIZE_32. unfold misaligned_chunk, aligned_OK, truthy.
  change (MALLOC_ALIGNMENT =? 2 * SIZE_SZ) with true. cbv iota.
  change MALLOC_ALIGN_MASK with 15. rewrite !land_15, fo_align0, (proj1 fo_size0).
  rewrite u64_neg by lia. change (0 =? 0) with true. cbn [negb].
  repeat split; rewrite ?orb_false_r; [apply Z.ltb_ge|apply Z.ltb_ge|apply Z.leb_le]; lia.
Qed.

(** The fastbin cells of the arena and the fields of [p] do not meet. *)
Lemma fast_idx_range s av p :
  fast_ok s av p -> 0 <= fastbin_index (chunksize s p) <= 8.
Proof. intros []. rewrite fastbin_index_eq by lia. zlia. Qed.

Lemma int_free_fast_push s av p have_lock :
  fast_ok s av p ->
  fastbin s av (fastbin_index (chunksize s p)) <> p ->
  (have_lock = true -> fastbin s av (fastbin_index (chunksize s p)) <> 0 ->
     fastbin_index (chunksize s (fastbin s av (fastbin_index (chunksize s p))))
     = fastbin_index (chunksize s p)
     /\ off_arena av (fastbin s av (fastbin_index (chunksize s p)))) ->
  int_free_fast av p (chunksize s p) have_lock s = Ok tt (with_mem (push_fast s av p) s).
Proof.
  intros Hok Hne Hold. pose proof (fast_idx_range _ _ _ Hok) as Hidx.
  pose proof (fo_off _ _ _ Hok) as Hoff. unfold int_free_fast. mexec.
  rewrite (fo_next _ _ _ Hok). unfold free_perturb, set_fastchunks. mexec.
  rewrite (fo_perturb _ _ _ Hok). change (truthy 0) with false. mexec.
  unfold push_fast, fastbin, word in *. mexec.
  set (idx := fastbin_index (chunksize s p)) in *.
  assert (av + off_flags <> fastbin_at av idx) as Hfl
    by (unfold fastbin_at, off_flags, off_fastbinsY; lia).
  rewrite !ld_insert_ne by done.
  set (old := ld (st_mem s) (fastbin_at av idx)) in *.
  rewrite (proj2 (Z.eqb_neq old p) Hne).
  destruct (have_lock && truthy old) eqn:Ehl; cbn [andb]; [|reflexivity].
  apply andb_true_iff in Ehl as [-> Ho]. unfold truthy in Ho. bool_hyps.
  destruct (Hold eq_refl Ho) as [Hi Hoo].
  assert (forall v, chunksize (upd_mem (fun m => <[av + off_flags := v]> m) s) old
                    = chunksize s old) as Hc.
  { intros v. unfold chunksize, size_, word. mexec.
    rewrite ld_insert_ne; [done|]. unfold off_arena, sizeof_malloc_state, off_flags, off_size in *. lia. }
  rewrite Hc, Hi, Z.eqb_refl. reflexivity.
Qed.

Lemma int_free_fast_path fuel s av p have_lock :
  fast_ok s av p ->
  _int_free fuel av p have_lock s = int_free_fast av p (chunksize s p) have_lock s.
Proof.
  intros Hok. destruct (fast_ok_guards _ _ _ Hok) as (H1 & H2 & H3).
  unfold _int_free. mexec. by rewrite H1, H2, H3.
Qed.

(** The pushed chunk keeps its size, and its fastbin starts with it. *)
Lemma push_fast_reads s av p :
  fast_ok s av p ->
  let s1 := with_mem (push_fast s av p) s in
  let idx := fastbin_index (chunksize s p) in
  chunksize s1 p = chunksize s p /\ fastbin s1 av idx = p /\ fd s1 p = fastbin s av idx.
Proof.
  intros Hok. pose proof (fast_idx_range _ _ _ Hok) as Hidx.
  pose proof (fo_off _ _ _ Hok) as Hoff.
  unfold push_fast, fastbin, fd, chunksize, size_, word. mexec.
  fold (size_ s p). fold (chunksize s p). set (idx := fastbin_index _) in *.
  unfold off_arena, fastbin_at, sizeof_malloc_state, off_fastbinsY, off_flags, off_fd, off_size in *.
  split; [|split].
  - rewrite !ld_insert_ne by lia. reflexivity.
  - apply ld_insert_eq.
  - rewrite ld_insert_ne by lia. apply ld_insert_eq.
Qed.

(** C3: what was freed last is handed out first.  Freeing a chunk of a fast
    size puts it at the head of its fastbin, and the next request padded to
    the same size gets the same chunk and leaves the fastbin as it was. *)
Theorem fast_free_malloc_lifo (fuel : nat) (s : state) (av p bytes : Z) (have_lock : bool) :
  fast_ok s av p ->
  fastbin s av (fastbin_index (chunksize s p)) <> p ->
  (have_lock = true -> fastbin s av (fastbin_index (chunksize s p)) <> 0 ->
     fastbin_index (chunksize s (fastbin s av (fastbin_index (chunksize s p))))
     = fastbin_index (chunksize s p)
     /\ off_arena av (fastbin s av (fastbin_index (chunksize s p)))) ->
  checked_request2size bytes = Some (chunksize s p) -> av <> 0 -> p <> 0 ->
  exists s1 s2,
    _int_free fuel av p have_lock s = Ok tt s1
    /\ _int_malloc fuel av bytes s1 = Ok (chunk2mem p) s2
    /\ forall i, 0 <= i < NFASTBINS -> fastbin s2 av i = fastbin s av i.
Proof.
  intros Hok Hne Hold Hreq Hav Hp.
  exists (with_mem (push_fast s av p) s).
  destruct (push_fast_reads s av p Hok) as (Hc & Hf & Hd).
  destruct (fast_ok_guards _ _ _ Hok) as (_ & _ & Hle).
  rewrite int_free_fast_path, int_free_fast_push by done.
  set (s1 := with_mem (push_fast s av p) s) in *.
  set (idx := fastbin_index (chunksize s p)) in *.
  exists (with_mem (<[fastbin_at av idx := fastbin s av idx]> (st_mem s1)) s1).
  split; [done|]. split.
  - unfold _int_malloc. rewrite Hreq, (proj2 (Z.eqb_neq av 0) Hav).
    unfold int_malloc_fast. mexec. change (get_max_fast s1) with (get_max_fast s). rewrite Hle.
    fold idx. rewrite Hf, (proj2 (Z.eqb_neq p 0) Hp), Hd.
    assert (chunksize (upd_mem (fun m => <[fastbin_at av idx := fastbin s av idx]> m) s1) p
            = chunksize s p) as ->.
    { rewrite <- Hc. unfold chunksize, size_, word. mexec. rewrite ld_insert_ne; [done|].
      pose proof (fo_off _ _ _ Hok). pose proof (fast_idx_range _ _ _ Hok).
      unfold off_arena, fastbin_at, sizeof_malloc_state, off_fastbinsY, off_size in *. lia. }
    fold idx. rewrite Z.eqb_refl. cbn [negb]. unfold alloc_perturb. mexec.
    change (st_gl s1) with (st_gl s). rewrite (fo_perturb _ _ _ Hok). reflexivity.
  - rewrite NFASTBINS_10. intros i Hi. subst s1. unfold fastbin, push_fast, word. mexec. fold idx.
    pose proof (fast_idx_range _ _ _ Hok) as Hx. fold idx in Hx.
    pose proof (fo_off _ _ _ Hok).
    unfold off_arena, fastbin_at, sizeof_malloc_state, off_fastbinsY, off_flags, off_fd in *.
    destruct (Z.eq_dec i idx) as [->|]; [apply ld_insert_eq|]. by rewrite !ld_insert_ne by lia.
Qed.

(** C34: a double free is caught.  Freeing the chunk that heads its fastbin
    again aborts, and apart from the two flag bits of the arena no cell has
    changed. *)
Theorem fast_double_free_aborts (fuel : nat) (s : state) (av p : Z) (have_lock : bool) :
  fast_ok s av p -> av <> 0 -> check_action (st_gl s) = DEFAULT_CHECK_ACTION ->
  fastbin s av (fastbin_index (chunksize s p)) = p ->
  exists s', _int_free fuel av p have_lock s = Aborted "double free or corruption (fasttop)" s'
    /\ forall a, a <> av + off_flags -> word s' a = word s a.
Proof.
  intros Hok Hav Hact Hp. rewrite int_free_fast_path by done.
  pose proof (fast_idx_range _ _ _ Hok) as Hidx. unfold int_free_fast. mexec.
  rewrite (fo_next _ _ _ Hok). unfold free_perturb, set_fastchunks. mexec.
  rewrite (fo_perturb _ _ _ Hok). change (truthy 0) with false. mexec.
  unfold fastbin, word in *. mexec.
  rewrite ld_insert_ne by (unfold fastbin_at, off_flags, off_fastbinsY; lia).
  rewrite Hp, Z.eqb_refl. unfold free_errout, malloc_printerr, truthy.
  rewrite andb_false_r. mexec. rewrite Hact, (proj2 (Z.eqb_neq av 0) Hav). cbn [negb].
  unfold set_arena_corrupt, libc_message, abort. mexec.
  eexists. split; [reflexivity|]. intros a Ha. cbn [add_log st_mem upd_mem with_mem].
  by rewrite !ld_insert_ne.
Qed.

End Fast.

(** An arena at 4096 with one chunk in use at 16384, of 48 bytes. *)
Definition one_chunk : @state bump_source :=
  state_of (list_to_map [(16384 + 8, 49); (16432 + 8, 65537); (4096 + off_system_mem, 1048576)]) 4096.

Lemma one_chunk_ok : fast_ok one_chunk 4096 16384.
Proof.
  split; [reflexivity|split; [lia|vm_compute; discriminate]|right; vm_compute; discriminate
         |split; [reflexivity|split; vm_compute; discriminate]|vm_compute; discriminate|reflexivity|reflexivity].
Qed.

Lemma fast_free_malloc_lifo_witness :
  exists s1 s2, _int_free 1 4096 16384 false one_chunk = Ok tt s1
    /\ _int_malloc 1 4096 40 s1 = Ok (chunk2mem 16384) s2.
Proof.
  destruct (fast_free_malloc_lifo 1 one_chunk 4096 16384 40 false) as (s1 & s2 & H1 & H2 & _);
    [apply one_chunk_ok|vm_compute; discriminate|done|reflexivity|lia|lia|].
  by exists s1, s2.
Defined.

(** The same chunk, already at the head of its fastbin. *)
Definition freed_chunk : @state bump_source :=
  with_mem (<[fastbin_at 4096 1 := 16384]> (st_mem one_chunk)) one_chunk.

Lemma fast_double_free_aborts_witness :
  exists s', _int_free 1 4096 16384 false freed_chunk
             = Aborted "double free or corruption (fasttop)" s'.
Proof.
  destruct (fast_double_free_aborts 1 freed_chunk 4096 16384 false) as (s' & H & _);
    [|lia|reflexivity|reflexivity|by exists s'].
  split; [reflexivity|split; [lia|vm_compute; discriminate]|right; vm_compute; discriminate
         |split; [reflexivity|split; vm_compute; discriminate]|vm_compute; discriminate|reflexivity|reflexivity].
Defined.
