(* ===== verification/InitProps.v ===== *)
(** * Initialisation, the top chunk and the system break

    [malloc_init_state], the split of the top chunk, and the consequences of
    the disabled [sbrk] for [systrim] and [sysmalloc]
    ([src/libipc/malloc/malloc.c]). *)

From S2P Require Import Prelude MallocState MallocCore MallocInt SizeFacts ListFacts BinProps.

Section Init.
Context `{PS : PageSource}.

(** ** [malloc_init_state] *)

Lemma init_bins_run n : forall (s : state) av i,
  exists m', init_bins av i n s = Ok tt (with_mem m' s)
    /\ (forall j, i <= j < i + Z.of_nat n ->
          ld m' (bin_at av j + off_fd) = bin_at av j /\ ld m' (bin_at av j + off_bk) = bin_at av j)
    /\ (forall a, ~ (bin_at av i + off_fd <= a < bin_at av (i + Z.of_nat n) + off_fd) ->
          ld m' a = word s a).
Proof.
  induction n as [|n IH]; intros s av i.
  - exists (st_mem s). rewrite with_mem_id. split; [done|]. split; [lia|done].
  - cbn [init_bins]. unfold bin_at, off_bins, off_fd, off_bk in *.
    set (b := av + 144 + (i - 1) * 2 * 8 - 16) in *.
    set (s1 := with_mem (<[b + 16 := b]> (<[b + 24 := b]> (st_mem s))) s).
    destruct (IH s1 av (i + 1)) as (m' & Hrun & Hin & Hout).
    exists m'. split.
    { unfold bind. mexec. exact Hrun. }
    assert (word s1 (b + 16) = b /\ word s1 (b + 24) = b) as [W1 W2].
    { unfold s1, word. mexec. split; mem_simp; done. }
    split.
    + intros j Hj. destruct (Z.eq_dec j i) as [->|]; [|apply Hin; lia].
      fold b. rewrite !Hout by lia. done.
    + intros a Ha. rewrite Hout by lia. unfold s1, word. mexec.
      rewrite !ld_insert_ne by lia. done.
Qed.

(** The flag and top words are written after the bins, and are not part of them. *)
Lemma init_tail (s s' : state) (m1 : memory) (av f : Z) :
  (forall j, 1 <= j < 128 ->
     ld m1 (bin_at av j + off_fd) = bin_at av j /\ ld m1 (bin_at av j + off_bk) = bin_at av j) ->
  (forall a, ~ (bin_at av 1 + off_fd <= a < bin_at av 128 + off_fd) -> a <> av + off_flags ->
     ld m1 a = word s a) ->
  st_mem s' = <[av + off_top := initial_top av]> (<[av + off_flags := f |w FASTCHUNKS_BIT]> m1) ->
  (forall i, 1 <= i < NBINS -> bin_list (st_mem s') (bin_at av i) [])
  /\ have_fastchunks s' av = false
  /\ top s' av = unsorted_chunks av
  /\ (forall a, ~ (av + off_bins <= a < av + off_binmap) ->
        a <> av + off_flags -> a <> av + off_top -> word s' a = word s a).
Proof.
  intros Hin Hout Hm. unfold have_fastchunks, flags, top, word in *. rewrite Hm.
  unfold off_top, off_flags, off_bins, off_binmap, NBINS in *.
  split; [|split; [|split]].
  - intros i Hi. destruct (Hin i Hi) as [H1 H2].
    unfold bin_at, off_fd, off_bk, off_bins in *. split; [|split].
    + split; unfold off_fd, off_bk; rewrite !ld_insert_ne by lia; done.
    + apply NoDup_singleton.
    + intros x y Hx Hy. set_unfold. left. lia.
  - rewrite ld_insert_ne, ld_insert_eq by lia. rewrite Z.land_lor_distr_l.
    apply Z.eqb_neq. intros E. apply Z.lor_eq_0_iff in E as [_ E]. done.
  - apply ld_insert_eq.
  - intros a Ha H1 H2. rewrite !ld_insert_ne by done. apply Hout; [|done].
    unfold bin_at, off_bins, off_fd. lia.
Qed.

Lemma init_state_run (s : state) (av : Z) :
  exists s', malloc_init_state av s = Ok tt s'
    /\ ((forall i, 1 <= i < NBINS -> bin_list (st_mem s') (bin_at av i) [])
        /\ have_fastchunks s' av = false
        /\ top s' av = unsorted_chunks av
        /\ (forall a, ~ (av + off_bins <= a < av + off_binmap) ->
              a <> av + off_flags -> a <> av + off_top -> word s' a = word s a))
    /\ get_max_fast s' = (if av =? main_arena (st_gl s) then 128 else get_max_fast s)
    /\ contiguous s' av = (av =? main_arena (st_gl s)) && contiguous s av.
Proof.
  destruct (init_bins_run (Z.to_nat (NBINS - 1)) s av 1) as (m1 & Hrun & Hin & Hout).
  unfold malloc_init_state. unfold bind at 1. rewrite Hrun. clear Hrun.
  change (1 + Z.of_nat (Z.to_nat (NBINS - 1))) with 128 in *.
  assert (ld m1 (av + off_flags) = flags s av) as Hfl
    by (apply Hout; unfold bin_at, off_flags, off_bins, off_fd; lia).
  unfold set_noncontiguous, set_max_fast. mexec.
  destruct (av =? main_arena (st_gl s)); mexec.
  - eexists. split; [reflexivity|]. split; [|split; [reflexivity|]].
    + apply (init_tail s _ m1 av (ld m1 (av + off_flags)) Hin); [auto|]. reflexivity.
    + unfold contiguous, flags, word in *. mexec. cbn [upd_mem upd_gl st_mem with_mem].
      unfold off_top, off_flags in *. rewrite ld_insert_ne, ld_insert_eq by lia.
      rewrite Hfl, Z.land_lor_distr_l, Z.lor_0_r. reflexivity.
  - eexists. split; [reflexivity|]. split; [|split; [reflexivity|]].
    + eapply (init_tail s _ (<[av + off_flags := flags s av |w NONCONTIGUOUS_BIT]> m1) av).
      * intros j Hj. destruct (Hin j Hj) as [H1 H2].
        unfold bin_at, off_flags, off_bins, off_fd, off_bk in *. rewrite !ld_insert_ne by lia. done.
      * intros a Ha Hne. rewrite ld_insert_ne by done. auto.
      * unfold flags, word. mexec. cbn [upd_mem st_mem with_mem]. rewrite Hfl. reflexivity.
    + unfold contiguous, flags, word in *. mexec. cbn [upd_mem upd_gl st_mem with_mem].
      unfold off_top, off_flags in *. rewrite ld_insert_ne, !ld_insert_eq by lia.
      rewrite !Z.land_lor_distr_l. apply Z.eqb_neq. intros E.
      apply Z.lor_eq_0_iff in E as [E _]. apply Z.lor_eq_0_iff in E as [_ E]. done.
Qed.

(** Initialising an arena empties it: every bin is the circular list of
    its header alone, there are no fast chunks, [top] is the header of the
    unsorted list (so the first allocation asks for memory), and the main
    arena gets the default fastbin limit; memory outside the arena's bins,
    flags and top is untouched. *)
Theorem malloc_init_state_empty (s : state) (av : Z) :
  exists s', malloc_init_state av s = Ok tt s'
    /\ ((forall i, 1 <= i < NBINS -> bin_list (st_mem s') (bin_at av i) [])
        /\ have_fastchunks s' av = false
        /\ top s' av = unsorted_chunks av
        /\ (forall a, ~ (av + off_bins <= a < av + off_binmap) ->
              a <> av + off_flags -> a <> av + off_top -> word s' a = word s a))
    /\ get_max_fast s' = (if av =? main_arena (st_gl s) then 128 else get_max_fast s)
    /\ contiguous s' av = (av =? main_arena (st_gl s)) && contiguous s av.
Proof. apply init_state_run. Qed.

(** ** The disabled system break *)

(** The main arena is never given back to the system: [systrim] returns 0
    and changes nothing, because [sbrk] is replaced by a function that always
    fails. *)
Theorem systrim_keeps (s : state) (pad av : Z) : systrim pad av s = Ok 0 s.
Proof.
  unfold systrim, MORECORE, shm_no_morecore. mexec.
  change (MORECORE_FAILURE =? MORECORE_FAILURE) with true. cbn [negb].
  repeat match goal with |- context [if ?c then _ else _] => destruct c end; reflexivity.
Qed.

(** ** The top chunk *)

(** A request that fits into [top] splits it: the caller gets the old top
    chunk with the padded size, the rest is the new top, the two tile the old
    one, and no other cell changes. *)
Theorem int_malloc_top_splits (s : state) (av nb bytes : Z) :
  good_size nb -> 0 <= top s av -> top s av mod 16 = 0 ->
  top s av + chunksize s (top s av) < 18446744073709551616 ->
  chunksize s (top s av) mod 16 = 0 -> nb + MINSIZE <= chunksize s (top s av) ->
  top s av + 8 <> av + off_top -> top s av + nb + 8 <> av + off_top ->
  perturb_byte (st_gl s) = 0 ->
  exists s', int_malloc_top av nb bytes s = Ok (Some (chunk2mem (top s av))) s'
    /\ top s' av = top s av + nb
    /\ chunksize s' (top s av) = nb
    /\ chunksize s' (top s' av) = chunksize s (top s av) - nb
    /\ prev_inuse s' (top s' av) = true
    /\ chunk_non_main_arena s' (top s av) = negb (av =? main_arena (st_gl s))
    /\ (forall a, a <> av + off_top -> a <> top s av + 8 -> a <> top s av + nb + 8 ->
          word s' a = word s a).
Proof.
  rewrite MINSIZE_32. unfold good_size. set (t := top s av). set (sz := chunksize s t).
  intros [Hm Hr] Ht0 Ht Hend Hsz Hfit N1 N2 Hper.
  unfold int_malloc_top. mexec. fold t. fold sz. rewrite MINSIZE_32, u64_small by lia.
  rewrite (proj2 (Z.leb_le _ _) Hfit). unfold alloc_perturb, chunk_at_offset. mexec.
  rewrite Hper. change (truthy 0) with false. mexec.
  rewrite !(u64_small (t + nb)), (u64_small (sz - nb)) by lia.
  assert (arena_flag s av = 0 \/ arena_flag s av = 4) as Hflag
    by (unfold arena_flag, NON_MAIN_ARENA; destruct (_ =? _); auto).
  assert (nb |w PREV_INUSE |w arena_flag s av = nb + (1 + arena_flag s av)) as Eh.
  { unfold PREV_INUSE. rewrite <- Z.lor_assoc.
    destruct Hflag as [-> | ->]; [change (1 |w 0) with 1|change (1 |w 4) with 5];
      rewrite lor_16 by lia; lia. }
  assert (u64 (sz - nb) = sz - nb) as _ by (apply u64_small; lia).
  assert ((sz - nb) mod 16 = 0) as Hrem by zlia.
  rewrite (lor_16 (sz - nb) PREV_INUSE) by (done || (unfold PREV_INUSE; lia)).
  change (sz - nb + PREV_INUSE) with (sz - nb + 1).
  eexists. split; [reflexivity|].
  unfold top, chunksize, prev_inuse, chunk_non_main_arena, size_, word, truthy.
  unfold off_size, off_top in *. cbn [upd_mem st_mem st_gl].
  assert (t + 8 <> t + nb + 8) by lia.
  rewrite !(ld_insert_ne _ _ (av + 128)) by done. rewrite ld_insert_eq.
  rewrite (ld_insert_ne _ _ (t + 8)) by done. rewrite !ld_insert_eq.
  change SIZE_BITS with 7. rewrite !land_not7 by (rewrite ?Eh; lia).
  split; [done|]. rewrite Eh.
  split; [destruct Hflag as [-> | ->]; zlia|]. split; [zlia|].
  split; [change PREV_INUSE with 1; rewrite land_1; apply negb_true_iff, Z.eqb_neq; zlia|].
  split.
  - change NON_MAIN_ARENA with 4. rewrite land_4. unfold arena_flag, NON_MAIN_ARENA in *.
    destruct (av =? main_arena (st_gl s)); cbn [negb];
      [apply negb_false_iff, Z.eqb_eq|apply negb_true_iff, Z.eqb_neq]; zlia.
  - intros a H1 H2 H3. by rewrite !ld_insert_ne by done.
Qed.

(** ** The first region *)

(** The region the main arena asks for when it has no top chunk yet. *)
Definition first_region (s : state) (nb : Z) : Z :=
  Z.max MMAP_AS_MORECORE_SIZE (ALIGN_UP (nb + top_pad (par s) + MINSIZE) 4096).

(** The state in which the main arena [av] is initialised but has no memory. *)
Record no_memory (s : state) (av : Z) : Prop := {
  nm_main : main_arena (st_gl s) = av;
  nm_pos : 0 < av < 9223372036854775808;
  nm_top : top s av = initial_top av;
  nm_size : chunksize s (initial_top av) = 0;
  nm_cont : flags s av = FASTCHUNKS_BIT;
  nm_page : dl_pagesize (st_gl s) = 4096;
  nm_pad : 0 <= top_pad (par s) < 1073741824;
  nm_sys : system_mem s av = 0 /\ max_system_mem s av = 0
}.

Lemma first_region_bounds (s : state) (av nb : Z) :
  no_memory s av -> good_size nb -> nb < 1073741824 ->
  nb + 32 <= first_region s nb < 4294967296 /\ first_region s nb mod 16 = 0
  /\ ALIGN_UP (ALIGN_UP (nb + top_pad (par s) + 32) 4096 +w 0) 4096 = ALIGN_UP (nb + top_pad (par s) + 32) 4096.
Proof.
  intros [] [Hm Hr] Hnb. pose proof (ALIGN_UP_4096_spec (nb + top_pad (par s) + 32) ltac:(lia)) as Hal.
  unfold first_region, MMAP_AS_MORECORE_SIZE. rewrite MINSIZE_32.
  set (R0 := ALIGN_UP (nb + top_pad (par s) + 32) 4096) in *. split; [lia|]. split.
  - destruct (Z.max_spec (1024 * 1024) R0) as [[? ->]|[? ->]]; zlia.
  - rewrite u64_small, Z.add_0_r, ALIGN_UP_4096 by lia. zlia.
Qed.

Lemma page_aligned_chunk brk :
  brk mod 4096 = 0 -> 0 <= brk < 9223372036854775808 -> ((chunk2mem brk &w MALLOC_ALIGN_MASK) =? 0) = true.
Proof.
  intros Hpg Hb. unfold chunk2mem. change MALLOC_ALIGN_MASK with 15.
  rewrite land_15, u64_small by (unfold SIZE_SZ; lia). apply Z.eqb_eq. unfold SIZE_SZ. zlia.
Qed.

Lemma sysmalloc_main_first fuel (s : state) (av nb brk : Z) o m' :
  no_memory s av -> good_size nb -> nb < 1073741824 ->
  sys_mmap 0 (first_region s nb) PROT_RW (MAP_ANONYMOUS |w MAP_PRIVATE) (st_os s) (st_mem s)
    = MmapOk brk o m' ->
  brk mod 4096 = 0 -> av + sizeof_malloc_state <= brk < 9223372036854775808 ->
  (forall a, av <= a < av + sizeof_malloc_state -> ld m' a = word s a) ->
  exists s', sysmalloc_main fuel nb av (initial_top av) 0 (chunk_at_offset (initial_top av) 0) s = Ok tt s'
    /\ st_mem s' = <[av + off_system_mem := first_region s nb]>
                     (<[brk + 8 := first_region s nb + 1]>
                       (<[av + off_top := brk]>
                         (<[av + off_system_mem := first_region s nb]>
                           (<[av + off_flags := 3]> m'))))
    /\ main_arena (st_gl s') = av /\ st_os s' = o.
Proof.
  intros Hnm Hgood Hnb Hmap Hpg Hbrk Hfr.
  destruct (first_region_bounds s av nb Hnm Hgood Hnb) as (HR32 & HR16 & HR0).
  destruct Hnm, Hgood as [Hm Hr]. unfold sizeof_malloc_state, first_region in *. rewrite MINSIZE_32 in *.
  set (R0 := ALIGN_UP (nb + top_pad (par s) + 32) 4096) in *. set (R := MMAP_AS_MORECORE_SIZE `max` R0) in *.
  assert (contiguous s av = true) as Hc by (unfold contiguous; by rewrite nm_cont0).
  assert ((if R0 <? MMAP_AS_MORECORE_SIZE then MMAP_AS_MORECORE_SIZE else R0) = R) as HR
    by (subst R; split_cmp; lia).
  assert (nb < R) as HnbR by lia.
  unfold sysmalloc_main. mexec.
  rewrite Hc, nm_page0, MINSIZE_32, Z.sub_0_r, u64_u64, (u64_small (nb + _ + 32)) by lia.
  fold R0. rewrite HR0, HR. unfold MORECORE, shm_no_morecore.
  assert ((if 0 <? s64 R0 then MORECORE_FAILURE else MORECORE_FAILURE) = 0) as -> by (destruct (0 <? s64 R0); reflexivity).
  change (0 =? MORECORE_FAILURE) with true. cbn [negb].
  rewrite (proj2 (Z.ltb_lt nb R) HnbR). unfold MMAP. 
  change (0 |w MAP_ANONYMOUS |w MAP_PRIVATE) with (MAP_ANONYMOUS |w MAP_PRIVATE).
  rewrite Hmap. cbv iota beta.
  assert (negb (brk =? MAP_FAILED) = true) as -> by (unfold MAP_FAILED; apply negb_true_iff, Z.eqb_neq; lia).
  unfold set_noncontiguous, set_par. mexec.
  rewrite (proj2 (Z.eqb_neq brk MORECORE_FAILURE)) by (unfold MORECORE_FAILURE; lia). cbn [negb].
  rewrite (proj2 (Z.eqb_neq (brk + R) MORECORE_FAILURE)) by (unfold MORECORE_FAILURE; lia).
  rewrite andb_false_r. change (truthy 0) with false. rewrite andb_false_r. cbn [andb].
  assert (ld m' (av + off_flags) = 1 /\ ld m' (av + off_system_mem) = 0) as [Hf Hsm].
  { rewrite !Hfr by (unfold off_flags, off_system_mem, sizeof_malloc_state in *; lia).
    unfold flags, system_mem in *. rewrite nm_cont0. split; [reflexivity|tauto]. }
  unfold sysmalloc_new_top. mexec.
  match goal with |- context [contiguous ?s2 av] => assert (contiguous s2 av = false) as -> end.
  { unfold contiguous, flags, word. mexec. cbn [upd_mem upd_gl st_mem set_os].
    unfold off_flags, off_system_mem in *. rewrite ld_insert_ne, ld_insert_eq by lia. by rewrite Hf. }
  change (MALLOC_ALIGNMENT =? 2 * SIZE_SZ) with true. cbv iota.
  unfold assert_. rewrite page_aligned_chunk by lia. mexec.
  rewrite (proj2 (Z.eqb_neq (brk + R) MORECORE_FAILURE)) by (unfold MORECORE_FAILURE; lia). cbn [negb].
  rewrite ?(proj2 (Z.eqb_neq (brk + R) MORECORE_FAILURE)) by (unfold MORECORE_FAILURE; lia).
  change (0 =? 0) with true. change (0 <? 0) with false. cbn [negb]. cbv iota beta.
  eexists. split; [reflexivity|]. split; [|done].
  cbn [upd_mem upd_gl set_os st_mem]. unfold flags, system_mem, word.
  cbn [upd_mem upd_gl set_os st_mem].
  unfold off_top, off_flags, off_system_mem, off_size in *.
  rewrite !(ld_insert_ne _ (brk + 8)) by lia.
  rewrite !(ld_insert_ne _ (av + 128)) by lia. rewrite !ld_insert_eq.
  rewrite !(ld_insert_ne _ (av + 40)) by lia. rewrite Hf, Hsm.
  rewrite !Z.add_0_r, !Z.add_0_l. rewrite !u64_u64.
  replace (brk + R - brk) with R by lia. rewrite !(u64_small R) by lia.
  unfold PREV_INUSE. by rewrite (lor_16 R 1).
Qed.

(** C23: the first allocation of the main arena.  With no memory yet, a
    request below the mmap threshold maps one region (at least 1 MB, and room
    for the padding), makes it the top chunk, splits the request off its
    start, and accounts for it; the arena is no longer contiguous. *)
Theorem sysmalloc_first_region (fuel : nat) (s : state) (av nb brk : Z) (o : os_state) (m' : memory) :
  no_memory s av -> good_size nb -> nb < 1073741824 -> nb < mmap_threshold (par s) ->
  sys_mmap 0 (first_region s nb) PROT_RW (MAP_ANONYMOUS |w MAP_PRIVATE) (st_os s) (st_mem s)
    = MmapOk brk o m' ->
  brk mod 4096 = 0 -> av + sizeof_malloc_state <= brk < 9223372036854775808 ->
  (forall a, av <= a < av + sizeof_malloc_state -> ld m' a = word s a) ->
  exists s', sysmalloc fuel nb av s = Ok (chunk2mem brk) s'
    /\ chunksize s' brk = nb
    /\ top s' av = brk + nb
    /\ chunksize s' (brk + nb) = first_region s nb - nb
    /\ system_mem s' av = first_region s nb /\ max_system_mem s' av = first_region s nb
    /\ contiguous s' av = false.
Proof.
  intros Hnm Hgood Hnb Hth Hmap Hpg Hbrk Hfr.
  destruct (sysmalloc_main_first fuel s av nb brk o m' Hnm Hgood Hnb Hmap Hpg Hbrk Hfr)
    as (s1 & Hrun & Hmem & Hmain & _).
  destruct (first_region_bounds s av nb Hnm Hgood Hnb) as (HR & HR16 & _).
  destruct Hnm, Hgood as [Hm Hr]. unfold sizeof_malloc_state in *.
  set (R := first_region s nb) in *.
  unfold sysmalloc. mexec.
  rewrite (proj2 (Z.eqb_neq av 0)), (proj2 (Z.leb_gt _ _) Hth) by lia. cbn [orb andb].
  unfold sysmalloc_body. mexec. rewrite nm_top0, nm_size0, Z.eqb_refl.
  change (0 =? 0) with true. cbn [andb orb]. unfold assert_.
  rewrite MINSIZE_32, (u64_small (nb + 32)), (proj2 (Z.ltb_lt 0 (nb + 32))) by lia. mexec.
  rewrite nm_main0, Z.eqb_refl. cbn [negb]. rewrite Hrun.
  assert (ld (st_mem s1) (av + off_max_system_mem) = 0 /\ ld (st_mem s1) (av + off_system_mem) = R
    /\ ld (st_mem s1) (av + off_top) = brk /\ ld (st_mem s1) (brk + 8) = R + 1
    /\ ld (st_mem s1) (av + off_flags) = 3) as (E1 & E2 & E3 & E4 & E5).
  { rewrite Hmem. unfold off_max_system_mem, off_system_mem, off_top, off_flags.
    rewrite !(ld_insert_ne _ _ (av + 2224)) by lia. rewrite Hfr by lia.
    unfold max_system_mem in nm_sys0. unfold off_max_system_mem in nm_sys0.
    repeat split; [tauto|..]; mem_simp; done. }
  unfold sysmalloc_finish. mexec. unfold max_system_mem, system_mem, word. rewrite E1, E2.
  rewrite (proj2 (Z.ltb_lt 0 R)) by lia. mexec.
  unfold top, word. cbn [upd_mem st_mem].
  unfold off_max_system_mem, off_system_mem, off_top, off_flags in *.
  rewrite !(ld_insert_ne _ (av + 2224)) by lia. rewrite E3.
  assert (forall x, chunksize (upd_mem (fun m => <[av + 2224 := x]> m) s1) brk = R) as Hcs.
  { intros x. unfold chunksize, size_, word, off_size. cbn [upd_mem st_mem].
    rewrite ld_insert_ne, E4 by lia. change SIZE_BITS with 7. rewrite land_not7 by lia. zlia. }
  rewrite Hcs, MINSIZE_32, (u64_small (nb + 32)), (proj2 (Z.leb_le (nb + 32) R)) by lia.
  mexec. unfold arena_flag. cbn [upd_mem st_gl]. rewrite Hmain, Z.eqb_refl.
  unfold chunk_at_offset. rewrite (u64_small (brk + nb)), (u64_small (R - nb)) by lia.
  unfold PREV_INUSE. rewrite Z.lor_0_r, (lor_16 nb 1), (lor_16 (R - nb) 1) by (lia || zlia).
  eexists. split; [reflexivity|].
  unfold chunksize, contiguous, flags, size_, word, off_size, off_flags. cbn [upd_mem st_mem].
  change SIZE_BITS with 7.
  repeat split; mem_simp; rewrite ?E2, ?E5, ?land_not7 by lia; try done; zlia.
Qed.
End Init.

(** An arena at 4096 whose top chunk at 16384 has 64 KB. *)
Definition with_top : @state bump_source :=
  state_of (list_to_map [(4096 + off_top, 16384); (16384 + 8, 65537)]) 4096.

Lemma int_malloc_top_splits_witness :
  exists s', int_malloc_top 4096 48 40 with_top = Ok (Some (chunk2mem 16384)) s'
    /\ top s' 4096 = 16432 /\ chunksize s' 16384 = 48.
Proof.
  destruct (int_malloc_top_splits with_top 4096 48 40) as (s' & H1 & H2 & H3 & _);
    [split; [reflexivity|lia]|vm_compute; discriminate|reflexivity|reflexivity|reflexivity
    |vm_compute; discriminate|vm_compute; discriminate|vm_compute; discriminate|reflexivity|].
  by exists s'.
Defined.

(** An initialised main arena at 4096 without memory; the page source hands
    out addresses from 1048576 on. *)
Definition fresh_arena : @state bump_source :=
  state_of (list_to_map [(4096 + off_top, initial_top 4096); (4096 + off_flags, FASTCHUNKS_BIT)]) 4096.

Lemma fresh_arena_no_memory : no_memory fresh_arena 4096.
Proof. split; try reflexivity; try (split; reflexivity); split; vm_compute; congruence. Qed.

Lemma sysmalloc_first_region_witness :
  exists s', sysmalloc 1 48 4096 fresh_arena = Ok (chunk2mem 1048576) s'
    /\ top s' 4096 = 1048624 /\ system_mem s' 4096 = 1048576.
Proof.
  destruct (sysmalloc_first_region 1 fresh_arena 4096 48 1048576 2097152 (st_mem fresh_arena))
    as (s' & H1 & _ & H2 & _ & H3 & _);
    [apply fresh_arena_no_memory|split; [reflexivity|lia]|lia|reflexivity|reflexivity|reflexivity
    |vm_compute; split; congruence|done|].
  exists s'. repeat split; [done|done|]. rewrite H3. reflexivity.
Defined.
