(* ===== verification/ApiProps.v ===== *)
(** * Properties of the entry points

    The overflow check of [calloc], the rounding of alignments, the argument
    checks of [posix_memalign], and [mallopt]
    ([src/libipc/malloc/malloc.c]). *)

From S2P Require Import Prelude MallocState MallocCore MallocInt MallocArena MallocHooks MallocApi SizeFacts ListFacts BinProps FastProps InitProps.

(** ** [calloc] *)

Lemma le_lor a b : 0 <= a -> 0 <= b -> a <= Z.lor a b.
Proof.
  intros Ha Hb.
  assert (Z.lor a b = a + Z.ldiff b a) as ->.
  { rewrite Z.add_nocarry_lor.
    - apply Z.bits_inj'. intros i _. rewrite !Z.lor_spec, Z.ldiff_spec.
      by destruct (Z.testbit a i), (Z.testbit b i).
    - apply Z.bits_inj'. intros i _. rewrite Z.land_spec, Z.ldiff_spec, Z.bits_0.
      by destruct (Z.testbit a i), (Z.testbit b i). }
  assert (0 <= Z.ldiff b a) by (apply Z.ldiff_nonneg; lia). lia.
Qed.

(** The overflow check of [calloc] is exact: it refuses precisely the
    products that do not fit into 64 bits, although it only divides when an
    operand has a bit in its upper half. *)
Theorem calloc_overflow_exact (n elem_size : Z) :
  0 <= n < 18446744073709551616 -> 0 <= elem_size < 18446744073709551616 ->
  calloc_overflows n elem_size = true <-> 18446744073709551616 <= n * elem_size.
Proof.
  intros Hn He. unfold calloc_overflows. change HALF_INTERNAL_SIZE_T with 4294967296.
  rewrite !andb_true_iff, !negb_true_iff, Z.leb_le, !Z.eqb_neq.
  split.
  - intros [[_ He0] Hd]. destruct (Z_lt_ge_dec (n * elem_size) 18446744073709551616); [|lia].
    rewrite u64_small in Hd by nia. rewrite Z.div_mul in Hd by done. done.
  - intros Hov. assert (elem_size <> 0) by nia. split; [split; [|done]|].
    + destruct (Z_le_gt_dec 4294967296 (n |w elem_size)) as [|Hlt]; [done|].
      assert (n < 4294967296 /\ elem_size < 4294967296); [|nia].
      pose proof (le_lor n elem_size). pose proof (le_lor elem_size n) as Hr.
      rewrite Z.lor_comm in Hr. lia.
    + intros E. pose proof (u64_range (n * elem_size)).
      assert (u64 (n * elem_size) / elem_size * elem_size <= u64 (n * elem_size))
        by (rewrite Z.mul_comm; apply Z.mul_div_le; lia).
      rewrite E in *. lia.
Qed.

Lemma calloc_overflow_exact_witness : calloc_overflows 8589934592 4294967296 = true.
Proof. apply calloc_overflow_exact; lia. Defined.

(** ** Alignments *)

Lemma powerof2_pow2 x :
  0 < x < 18446744073709551616 -> powerof2 x = true -> x = 2 ^ Z.log2 x.
Proof.
  intros Hx. unfold powerof2. rewrite Z.eqb_eq, u64_small by lia. intros H.
  pose proof (Z.log2_spec x). destruct (Z.eq_dec x (2 ^ Z.log2 x)) as [|Hne]; [done|exfalso].
  assert (Z.testbit (Z.land (x - 1) x) (Z.log2 x) = true) as Hb.
  { rewrite Z.land_spec, Z.bit_log2 by lia. rewrite andb_true_r.
    replace (Z.log2 x) with (Z.log2 (x - 1)); [apply Z.bit_log2; pose proof (Z.log2_nonneg x); nia|].
    apply Z.log2_unique; [apply Z.log2_nonneg|lia]. }
  rewrite H, Z.bits_0 in Hb. done.
Qed.

Lemma pow2_powerof2 k : 0 <= k < 64 -> powerof2 (2 ^ k) = true.
Proof.
  intros Hk. unfold powerof2. apply Z.eqb_eq.
  assert (0 < 2 ^ k <= 2 ^ 63) by (split; [lia|apply Z.pow_le_mono_r; lia]).
  change (2 ^ 63) with 9223372036854775808 in *.
  rewrite u64_small by lia. rewrite Z.land_comm.
  rewrite (land_mask_low k) by lia. apply Z.mod_same. lia.
Qed.

Lemma grow_alignment_spec fuel : forall k alignment,
  5 <= k -> alignment <= 2 ^ 63 -> (63 - k < Z.of_nat fuel) -> 2 ^ k < 2 * alignment -> k <= 63 ->
  exists j, grow_alignment fuel (2 ^ k) alignment = Some (2 ^ j)
    /\ k <= j <= 63 /\ alignment <= 2 ^ j < 2 * alignment.
Proof.
  induction fuel as [|fuel IH]; intros k alignment Hk Ha Hf Hlt Hk63; [lia|].
  cbn [grow_alignment]. destruct (Z.ltb_spec (2 ^ k) alignment) as [Hl|Hl].
  - assert (k < 63) by (destruct (Z.eq_dec k 63) as [->|]; lia).
    assert (u64 (Z.shiftl (2 ^ k) 1) = 2 ^ (k + 1)) as ->.
    { rewrite Z.shiftl_mul_pow2 by lia. rewrite <- Z.pow_add_r by lia. apply u64_small.
      split; [lia|]. change 18446744073709551616 with (2 ^ 64). apply Z.pow_lt_mono_r; lia. }
    destruct (IH (k + 1) alignment) as (j & ? & ? & ?); try lia.
    + rewrite Z.pow_add_r by lia. lia.
    + exists j. repeat split; try done; lia.
  - exists k. repeat split; try done; lia.
Qed.

(** Alignments are rounded up to the next power of two: for every
    alignment the earlier checks let through, the loop ends and yields a
    power of two at least as large and less than twice as large. *)
Theorem round_alignment_next_power (alignment : Z) :
  MALLOC_ALIGNMENT < alignment <= SIZE_MAX / 2 + 1 ->
  exists k, round_alignment alignment = Some (2 ^ k) /\ 0 <= k <= 63
    /\ alignment <= 2 ^ k < 2 * alignment.
Proof.
  change MALLOC_ALIGNMENT with 16. change (SIZE_MAX / 2 + 1) with 9223372036854775808.
  intros Ha. unfold round_alignment. destruct (powerof2 alignment) eqn:E.
  - apply powerof2_pow2 in E; [|lia]. exists (Z.log2 alignment). rewrite <- E.
    pose proof (Z.log2_nonneg alignment). pose proof (Z.log2_le_mono alignment 9223372036854775808).
    change (Z.log2 9223372036854775808) with 63 in *. repeat split; try lia.
  - change (MALLOC_ALIGNMENT * 2) with (2 ^ 5).
    destruct (grow_alignment_spec 64 5 alignment) as (k & ? & ? & ?); try lia.
    exists k. repeat split; try done; lia.
Qed.

Lemma round_alignment_next_power_witness :
  exists k, round_alignment 100 = Some (2 ^ k) /\ 100 <= 2 ^ k < 200.
Proof.
  destruct (round_alignment_next_power 100) as (k & H1 & _ & H2); [vm_compute; split; congruence|].
  by exists k.
Defined.

(** ** [posix_memalign] *)

Lemma posix_alignment_ok k :
  3 <= k <= 63 ->
  negb (2 ^ k mod 8 =? 0) || negb (powerof2 (2 ^ k / 8)) || (2 ^ k =? 0) = false.
Proof.
  intros Hk. assert (2 ^ k = 2 ^ (k - 3) * 8) as E
    by (change 8 with (2 ^ 3); rewrite <- Z.pow_add_r by lia; f_equal; lia).
  assert (0 < 2 ^ (k - 3)) by lia. rewrite E.
  rewrite Z.mod_mul, Z.div_mul, pow2_powerof2 by lia.
  change (0 =? 0) with true. cbn [negb orb]. apply Z.eqb_neq. lia.
Qed.

Section Api.
Context `{PS : PageSource}.

(** [posix_memalign] accepts exactly the powers of two that are multiples
    of the pointer size: any other alignment returns [EINVAL] and changes
    nothing, and a legal one never returns [EINVAL]. *)
Theorem posix_memalign_einval (fuel : nat) (alignment size : Z) (s : state) :
  0 <= alignment < 18446744073709551616 ->
  ((forall k, 3 <= k <= 63 -> alignment <> 2 ^ k) ->
     __posix_shm_memalign fuel alignment size s = Ok (EINVAL, None) s)
  /\ (forall k r s', 3 <= k <= 63 -> alignment = 2 ^ k ->
        __posix_shm_memalign fuel alignment size s = Ok r s' -> r.1 <> EINVAL).
Proof.
  intros Ha. unfold __posix_shm_memalign. split.
  - intros Hno.
    destruct (negb (alignment mod 8 =? 0) || negb (powerof2 (alignment / 8)) || (alignment =? 0)) eqn:E;
      [done|exfalso].
    bool_hyps. assert (0 < alignment / 8 < 18446744073709551616) by zlia.
    match goal with H : powerof2 _ = true |- _ => apply powerof2_pow2 in H as Hp; [|done] end.
    set (j := Z.log2 (alignment / 8)) in *.
    assert (0 <= j) by apply Z.log2_nonneg.
    assert (alignment = 2 ^ (j + 3)) as E
      by (rewrite Z.pow_add_r by lia; rewrite <- Hp; change (2 ^ 3) with 8; zlia).
    apply (Hno (j + 3)); [|done]. split; [lia|].
    assert (j + 3 < 64); [|lia]. apply (Z.pow_lt_mono_r_iff 2); [lia|lia|].
    rewrite <- E. change (2 ^ 64) with 18446744073709551616. lia.
  - intros k r s' Hk -> Hrun. rewrite posix_alignment_ok in Hrun by done.
    unfold bind in Hrun. destruct (_mid_memalign fuel (2 ^ k) size s) as [mem s1| | | |]; try done.
    unfold ret in Hrun. destruct (negb (mem =? 0)); injection Hrun as <- _; simpl; done.
Qed.

(** ** [mallopt] *)

Lemma max_fast_of_le v : 0 <= v <= 160 -> 0 <= max_fast_of v <= 160.
Proof.
  intros Hv. unfold max_fast_of, SIZE_SZ. change SMALLBIN_WIDTH with 16. change MALLOC_ALIGN_MASK with 15.
  split_cmp; [lia|]. rewrite u64_small, land_not15 by lia. zlia.
Qed.

(** [mallopt] validates its arguments: it never touches memory, fails
    exactly for a fastbin limit outside [0, MAX_FAST_SIZE] and for an mmap
    threshold above half a heap, and a fastbin limit it accepts keeps every
    fast chunk inside the array of fastbins. *)
Theorem mallopt_switch_spec (s : state) (param_number value : Z) :
  -2147483648 <= value < 2147483648 ->
  exists r s', mallopt_switch param_number value s = Ok r s'
    /\ st_mem s' = st_mem s
    /\ (r = 0 \/ r = 1)
    /\ (r = 0 <-> (param_number = M_MXFAST /\ ~ (0 <= value <= MAX_FAST_SIZE))
               \/ (param_number = M_MMAP_THRESHOLD /\ ~ (0 <= value <= HEAP_MAX_SIZE / 2)))
    /\ (param_number = M_MXFAST -> r = 1 ->
          forall sz, MINSIZE <= sz <= get_max_fast s' -> 0 <= fastbin_index sz < NFASTBINS).
Proof.
  intros Hv. rewrite MINSIZE_32, NFASTBINS_10.
  unfold mallopt_switch, M_MXFAST, M_TRIM_THRESHOLD, M_TOP_PAD, M_MMAP_THRESHOLD, M_MMAP_MAX,
    M_CHECK_ACTION, M_PERTURB, M_ARENA_TEST, M_ARENA_MAX, set_par, set_max_fast.
  change MAX_FAST_SIZE with 160. change (HEAP_MAX_SIZE / 2) with 33554432.
  destruct (Z.eqb_spec param_number 1) as [->|].
  { destruct ((0 <=? value) && (value <=? 160)) eqn:E; mexec.
    - bool_hyps. exists 1. eexists. split; [reflexivity|]. repeat split; auto; try lia;
        unfold get_max_fast in *; cbn [upd_gl put_max_fast st_gl global_max_fast] in *;
        pose proof (max_fast_of_le value); rewrite fastbin_index_eq by lia; zlia.
    - exists 0, s. apply andb_false_iff in E. rewrite !Z.leb_gt in E. repeat split; auto; lia. }
  destruct (Z.eqb_spec param_number (-3)) as [->|].
  { cbn [Z.eqb]. destruct (Z.ltb_spec 33554432 (u64 value)) as [H|H]; mexec.
    - exists 0, s. repeat split; auto; try lia. intros _. right. split; [done|]. intros ?.
      rewrite u64_small in H by lia. lia.
    - exists 1. eexists. split; [reflexivity|]. repeat split; auto; try lia.
      intros [?|[_ Hn]]; [lia|exfalso]. apply Hn.
      destruct (Z_lt_ge_dec value 0); [rewrite u64_neg in H by lia; lia|].
      rewrite u64_small in H by lia. lia. }
  exists 1. repeat match goal with
            | |- context [param_number =? ?c] => destruct (Z.eqb_spec param_number c) end;
    mexec; try (destruct (0 <? value); mexec);
    (eexists; split; [reflexivity|]; repeat split; auto; lia).
Qed.

(** A fastbin limit of 1 to 7 bytes makes the allocator forget its heap.
    [mallopt] accepts it, [set_max_fast] rounds it to zero, and zero is what
    [malloc_consolidate] takes for "not initialised": the next consolidation
    empties every bin and drops the top chunk. *)
Theorem mallopt_small_mxfast_forgets_heap (fuel : nat) (s : state) (value : Z) :
  1 <= value <= 7 ->
  exists s1 s2, mallopt_switch M_MXFAST value s = Ok 1 s1
    /\ malloc_consolidate fuel (main_arena (st_gl s)) s1 = Ok tt s2
    /\ top s2 (main_arena (st_gl s)) = unsorted_chunks (main_arena (st_gl s))
    /\ forall i, 1 <= i < NBINS -> bin_list (st_mem s2) (bin_at (main_arena (st_gl s)) i) [].
Proof.
  intros Hv. set (s1 := upd_gl (put_max_fast 0) s).
  destruct (init_state_run s1 (main_arena (st_gl s))) as (s2 & Hrun & (Hb & _ & Ht & _) & _).
  assert (max_fast_of value = 0) as E.
  { unfold max_fast_of, SIZE_SZ. change MALLOC_ALIGN_MASK with 15.
    rewrite (proj2 (Z.eqb_neq value 0)), u64_small, land_not15 by lia. zlia. }
  exists s1, s2. split; [|split; [exact Hrun|done]].
  unfold mallopt_switch, set_max_fast. change (M_MXFAST =? M_MXFAST) with true. change MAX_FAST_SIZE with 160.
  rewrite (proj2 (Z.leb_le 0 value)), (proj2 (Z.leb_le value 160)) by lia. mexec. by rewrite E.
Qed.

End Api.

Lemma mallopt_small_mxfast_forgets_heap_witness :
  exists s1 s2, mallopt_switch M_MXFAST 1 one_chunk = Ok 1 s1
    /\ malloc_consolidate 1 4096 s1 = Ok tt s2 /\ top s2 4096 = unsorted_chunks 4096.
Proof.
  destruct (mallopt_small_mxfast_forgets_heap 1 one_chunk 1) as (s1 & s2 & H1 & H2 & H3 & _); [lia|].
  by exists s1, s2.
Defined.

Lemma posix_memalign_einval_witness :
  @__posix_shm_memalign bump_source 1 24 100 one_chunk = Ok (EINVAL, None) one_chunk.
Proof.
  apply (posix_memalign_einval 1 24 100 one_chunk); [lia|].
  intros k Hk E. assert (k < 5) by (apply (Z.pow_lt_mono_r_iff 2); lia).
  assert (k = 3 \/ k = 4) as [-> | ->] by lia; discriminate.
Defined.

Lemma mallopt_switch_spec_witness :
  exists r s', mallopt_switch M_MXFAST 200 one_chunk = Ok r s' /\ st_mem s' = st_mem one_chunk.
Proof.
  destruct (mallopt_switch_spec one_chunk M_MXFAST 200) as (r & s' & H1 & H2 & _); [lia|].
  by exists r, s'.
Defined.
