(* ===== verification/HookProps.v ===== *)
(** * Properties of the checking hooks

    The magic byte and the chain of length bytes
    ([src/libipc/malloc/hooks.c.h]): what [mem2mem_check] writes,
    [malloc_check_get_size] reads back. *)

From S2P Require Import Prelude MallocState MallocCore MallocInt MallocHooks SizeFacts ListFacts BinProps.

(** ** Bytes in words *)

Lemma ld_byte_testbit m a i :
  0 <= i ->
  Z.testbit (ld_byte m a) i = (i <? 8) && Z.testbit (ld m (a - a mod 8)) (i + 8 * (a mod 8)).
Proof.
  intros Hi. unfold ld_byte. rewrite Z.land_spec, Z.shiftr_spec by lia.
  change 255 with (Z.ones 8). rewrite Z.testbit_ones_nonneg by lia. apply andb_comm.
Qed.

Lemma st_byte_testbit m a v i :
  0 <= i ->
  Z.testbit (ld (st_byte m a v) (a - a mod 8)) i =
  if (8 * (a mod 8) <=? i) && (i <? 8 * (a mod 8) + 8)
  then Z.testbit v (i - 8 * (a mod 8)) else Z.testbit (ld m (a - a mod 8)) i.
Proof.
  intros Hi. assert (0 <= a mod 8 < 8) by (apply Z.mod_pos_bound; lia).
  unfold st_byte. rewrite ld_insert_eq, Z.lor_spec, Z.ldiff_spec, !Z.shiftl_spec by lia.
  set (sh := 8 * (a mod 8)) in *.
  change 255 with (Z.ones 8). rewrite Z.land_spec.
  destruct (Z.leb_spec sh i); cbn [andb].
  - rewrite !Z.testbit_ones_nonneg by lia.
    destruct (Z.ltb_spec (i - sh) 8), (Z.ltb_spec i (sh + 8)); try lia; cbn [negb andb orb].
    + by rewrite andb_false_r, andb_true_r.
    + by rewrite andb_false_r, andb_true_r, orb_false_r.
  - rewrite !(Z.testbit_neg_r _ (i - sh)) by lia. cbn [negb andb orb].
    by rewrite andb_true_r, orb_false_r.
Qed.

Lemma ld_st_byte_eq m a v : ld_byte (st_byte m a v) a = Z.land v 255.
Proof.
  assert (0 <= a mod 8 < 8) by (apply Z.mod_pos_bound; lia).
  apply Z.bits_inj'. intros i Hi. rewrite ld_byte_testbit, st_byte_testbit by lia.
  change 255 with (Z.ones 8). rewrite Z.land_spec, Z.testbit_ones_nonneg by lia.
  destruct (Z.ltb_spec i 8); cbn [andb]; [|by rewrite andb_false_r].
  rewrite andb_true_r.
  rewrite (proj2 (Z.leb_le _ _)), (proj2 (Z.ltb_lt _ _)) by lia. cbn [andb]. f_equal. lia.
Qed.

Lemma ld_st_byte_ne m a b v : a <> b -> ld_byte (st_byte m a v) b = ld_byte m b.
Proof.
  intros Hne. assert (0 <= a mod 8 < 8 /\ 0 <= b mod 8 < 8) by (split; apply Z.mod_pos_bound; lia).
  destruct (Z.eq_dec (a - a mod 8) (b - b mod 8)) as [E|E].
  - apply Z.bits_inj'. intros i Hi. rewrite !ld_byte_testbit, <- E, st_byte_testbit by lia.
    destruct (Z.ltb_spec i 8); [|done]. cbn [andb].
    assert ((8 * (a mod 8) <=? i + 8 * (b mod 8)) && (i + 8 * (b mod 8) <? 8 * (a mod 8) + 8) = false) as ->; [|done].
    apply andb_false_iff. rewrite Z.leb_gt, Z.ltb_ge.
    assert (a mod 8 <> b mod 8) by lia. lia.
  - unfold ld_byte, st_byte. by rewrite ld_insert_ne.
Qed.

Lemma ld_st_byte_word m a v c : c <> a - a mod 8 -> ld (st_byte m a v) c = ld m c.
Proof. intros H. unfold st_byte. by rewrite ld_insert_ne. Qed.

(** ** The chain *)

(** The length bytes lie behind [req_sz], up to [i]. *)
Lemma write_chain_byte n : forall ptr magic req i m a,
  ~ (ptr + req < a <= ptr + i) -> ld_byte (write_chain n ptr magic req i m) a = ld_byte m a.
Proof.
  induction n as [|n IH]; intros ptr magic req i m a Ha; [done|]. cbn [write_chain].
  destruct (Z.ltb_spec req i); [|done].
  assert (0 <= (if Z.min (i - req) 255 =? magic then Z.min (i - req) 255 - 1 else Z.min (i - req) 255))
    by (destruct (_ =? magic); lia).
  rewrite IH by lia. apply ld_st_byte_ne. lia.
Qed.

Lemma write_chain_word n : forall ptr magic req i m c,
  ptr mod 8 = 0 -> 0 <= req -> c < ptr -> ld (write_chain n ptr magic req i m) c = ld m c.
Proof.
  induction n as [|n IH]; intros ptr magic req i m c Hp Hr Hc; [done|]. cbn [write_chain].
  destruct (Z.ltb_spec req i); [|done]. rewrite IH by done.
  apply ld_st_byte_word. zlia.
Qed.

Lemma walk_chain n : forall fuel ptr magic req i m,
  0 <= magic < 256 -> magic <> 1 -> 0 <= req <= i -> i - req <= Z.of_nat n ->
  i - req < Z.of_nat fuel ->
  chain_walk fuel (st_byte (write_chain n ptr magic req i m) (ptr + req) magic) (ptr - 16) magic (i + 16)
  = Some (req + 16).
Proof.
  assert (forall x, 0 <= x < 256 -> Z.land x 255 = x) as Hb.
  { intros x Hx. rewrite (land_mask_low 8) by lia. by apply Z.mod_small. }
  induction n as [|n IH]; intros [|fuel] ptr magic req i m Hm Hm1 Hri Hn Hf; try lia.
  - assert (i = req) as -> by lia. cbn [write_chain chain_walk].
    replace (ptr - 16 + (req + 16)) with (ptr + req) by lia.
    by rewrite ld_st_byte_eq, Hb, Z.eqb_refl by lia.
  - cbn [write_chain]. destruct (Z.ltb_spec req i) as [Hlt|Hge].
    + set (b := if Z.min (i - req) 255 =? magic then Z.min (i - req) 255 - 1 else Z.min (i - req) 255).
      assert (0 < b <= i - req /\ b < 256 /\ b <> magic) as (Hb1 & Hb2 & Hb3).
      { unfold b. destruct (Z.eqb_spec (Z.min (i - req) 255) magic); lia. }
      cbn [chain_walk]. replace (ptr - 16 + (i + 16)) with (ptr + i) by lia.
      rewrite ld_st_byte_ne, write_chain_byte, ld_st_byte_eq, Hb by lia.
      rewrite (proj2 (Z.eqb_neq b magic)) by done.
      rewrite (proj2 (Z.leb_gt b 0)), (proj2 (Z.ltb_ge _ _)) by (unfold SIZE_SZ; lia). cbn [orb].
      replace (i + 16 - b) with (i - b + 16) by lia. apply IH; lia.
    + assert (i = req) as -> by lia. cbn [chain_walk].
      replace (ptr - 16 + (req + 16)) with (ptr + req) by lia.
      by rewrite ld_st_byte_eq, Hb, Z.eqb_refl by lia.
Qed.

Lemma magicbyte_range p : 0 <= magicbyte p < 256 /\ magicbyte p <> 1.
Proof.
  unfold magicbyte. rewrite (land_mask_low 8) by lia. change (2 ^ 8) with 256.
  pose proof (Z.mod_pos_bound (Z.lxor (Z.shiftr p 3) (Z.shiftr p 11)) 256).
  split_cmp; lia.
Qed.

Section Magic.
Context `{PS : PageSource}.

(** The bytes of a chunk that its user may fill. *)
Definition usable (s : state) (p : Z) : Z :=
  chunksize s p - 16 + (if chunk_is_mmapped s p then 0 else 8).

(** The checker remembers the requested size.  After [mem2mem_check] has
    written the magic byte and the length bytes of a chunk with room for the
    request, [malloc_check_get_size] finds the magic byte and returns exactly
    the requested size, for heap and for mmapped chunks, and the header of the
    chunk is unchanged. *)
Theorem check_size_roundtrip (s : state) (ptr req : Z) :
  ptr mod 16 = 0 -> 16 <= ptr < 18446744073709551616 ->
  0 <= req < usable s (ptr - 16) -> chunksize s (ptr - 16) < 9223372036854775808 ->
  using_malloc_checking (st_hk s) = 1 ->
  exists s', mem2mem_check ptr req s = Ok ptr s'
    /\ malloc_check_get_size (ptr - 16) s' = Ok req s'
    /\ size_ s' (ptr - 16) = size_ s (ptr - 16).
Proof.
  intros Hal Hptr Hreq Hsz Huse. unfold usable in Hreq.
  destruct (magicbyte_range (ptr - 16)) as [Hm Hm1].
  set (p := ptr - 16) in *. set (magic := magicbyte p) in *.
  set (max_sz := chunksize s p - 16 + (if chunk_is_mmapped s p then 0 else 8)) in *.
  assert (0 < max_sz <= chunksize s p) as Hmax by (subst max_sz; destruct (chunk_is_mmapped s p); lia).
  set (m' := st_byte (write_chain (Z.to_nat max_sz) ptr magic req (max_sz - 1) (st_mem s)) (ptr + req) magic).
  exists (with_mem m' s).
  assert (ld m' (p + off_size) = size_ s p) as Hsize.
  { subst m'. rewrite ld_st_byte_word by (unfold off_size; zlia).
    apply write_chain_word; unfold off_size; zlia. }
  assert (chunksize (with_mem m' s) p = chunksize s p) as Hc
    by (unfold chunksize; change (size_ (with_mem m' s) p) with (ld m' (p + off_size)); by rewrite Hsize).
  assert (chunk_is_mmapped (with_mem m' s) p = chunk_is_mmapped s p) as Hmm
    by (unfold chunk_is_mmapped; change (size_ (with_mem m' s) p) with (ld m' (p + off_size)); by rewrite Hsize).
  split; [|split; [|exact Hsize]].
  - unfold mem2mem_check. rewrite (proj2 (Z.eqb_neq ptr 0)) by lia. mexec.
    assert (mem2chunk ptr = p) as -> by (unfold mem2chunk, SIZE_SZ; apply u64_small; lia).
    unfold SIZE_SZ. fold magic.
    assert ((if negb (chunk_is_mmapped s p) then chunksize s p -w 2 * 8 +w 8 else chunksize s p -w 2 * 8)
            = max_sz) as ->.
    { subst max_sz m'. destruct (chunk_is_mmapped s p) eqn:E; cbn [negb];
        rewrite ?u64_add_l, u64_small by lia; lia. }
    rewrite (u64_small (max_sz - 1)) by lia. reflexivity.
  - unfold malloc_check_get_size, assert_. mexec. rewrite Huse. change (1 =? 1) with true. mexec.
    change (chunksize (upd_mem (fun _ => m') s) p) with (chunksize (with_mem m' s) p).
    change (chunk_is_mmapped (upd_mem (fun _ => m') s) p) with (chunk_is_mmapped (with_mem m' s) p).
    rewrite Hc, Hmm. fold magic.
    assert (u64 (chunksize s p - 1 + (if chunk_is_mmapped s p then 0 else SIZE_SZ)) = max_sz - 1 + 16) as ->.
    { unfold SIZE_SZ. subst max_sz m'. destruct (chunk_is_mmapped s p) eqn:E; rewrite u64_small by lia; lia. }
    unfold walk. replace p with (ptr - 16) by done. unfold m'.
    rewrite walk_chain by lia. cbv iota. rewrite u64_small by (unfold SIZE_SZ; lia).
    unfold SIZE_SZ. by replace (req + 16 - 2 * 8) with req by lia.
Qed.

End Magic.

(** A chunk of 48 bytes with checking switched on. *)
Definition checked_chunk : @state bump_source :=
  upd_hk (fun _ => mkHk HookCheck HookCheck HookCheck HookCheck 1 0)
    (state_of (list_to_map [(16384 + 8, 49)]) 4096).

Lemma check_size_roundtrip_witness :
  exists s', mem2mem_check 16400 20 checked_chunk = Ok 16400 s'
    /\ malloc_check_get_size 16384 s' = Ok 20 s'.
Proof.
  destruct (check_size_roundtrip checked_chunk 16400 20) as (s' & H1 & H2 & _);
    [reflexivity|lia|split; [lia|reflexivity]|reflexivity|reflexivity|].
  by exists s'.
Defined.
