(* ===== verification/PageProps.v ===== *)
(** * Properties of the page allocator

    The bitmap of pages, the first-fit search, the pages handed out by
    [requestContinousFreePages], and the address windows
    ([src/libipc/shared_memory_manager.cpp], [byte_bitset.h],
    [shm_malloc.h]). *)

From S2P Require Import Prelude MallocState MallocCore PageAlloc.

(** ** Bits of a byte *)

Lemma bb_get_testbit d i : 0 <= i -> bb_get d i = Z.testbit d i.
Proof.
  intros Hi. unfold bb_get. rewrite Z.shiftl_1_l. destruct (Z.testbit d i) eqn:E.
  - apply negb_true_iff, Z.eqb_neq. intros H.
    assert (Z.testbit (Z.land d (2 ^ i)) i = true) as Hb
      by (by rewrite Z.land_spec, E, Z.pow2_bits_true).
    by rewrite H, Z.bits_0 in Hb.
  - apply negb_false_iff, Z.eqb_eq. apply Z.bits_inj'. intros j Hj.
    rewrite Z.land_spec, Z.bits_0, Z.pow2_bits_eqb by lia.
    destruct (Z.eqb_spec i j) as [->|]; [by rewrite E|apply andb_false_r].
Qed.

Lemma testbit_255 j : 0 <= j < 8 -> Z.testbit 255 j = true.
Proof. intros Hj. change 255 with (Z.ones 8). rewrite Z.testbit_ones_nonneg by lia. apply Z.ltb_lt. lia. Qed.

Lemma bb_set_get d i b j :
  0 <= i < 8 -> 0 <= j < 8 -> bb_get (bb_set d i b) j = if i =? j then b else bb_get d j.
Proof.
  intros Hi Hj. rewrite !bb_get_testbit by lia. unfold bb_set. rewrite Z.shiftl_1_l.
  destruct b; rewrite Z.land_spec, testbit_255, andb_true_r by lia.
  - rewrite Z.lor_spec, Z.pow2_bits_eqb by lia. destruct (i =? j); [apply orb_true_r|apply orb_false_r].
  - rewrite Z.lxor_spec, Z.land_spec, Z.pow2_bits_eqb by lia.
    destruct (i =? j); [rewrite andb_true_r; apply xorb_nilpotent|by rewrite andb_false_r, xorb_false_r].
Qed.

Lemma bb_set_range d i b : 0 <= bb_set d i b < 256.
Proof.
  unfold bb_set. destruct b; rewrite (land_mask_low 8) by lia; apply Z.mod_pos_bound; lia.
Qed.

Lemma bb_all_get d j : bb_all d = true -> 0 <= j < 8 -> bb_get d j = true.
Proof. intros H Hj. apply Z.eqb_eq in H as ->. rewrite bb_get_testbit by lia. by apply testbit_255. Qed.

Lemma bb_none_get d j : bb_none d = true -> 0 <= j -> bb_get d j = false.
Proof. intros H Hj. apply Z.eqb_eq in H as ->. rewrite bb_get_testbit by lia. apply Z.bits_0. Qed.

(** ** Pages *)

Lemma page_used_set_page p b i q :
  0 <= p -> 0 <= q -> page_used (set_page p b i) q = if p =? q then b else page_used i q.
Proof.
  intros Hp Hq. unfold page_used, set_page, pbyte. cbn [put_pages pages_used].
  assert (0 <= p mod 8 < 8 /\ 0 <= q mod 8 < 8) by (split; apply Z.mod_pos_bound; lia).
  destruct (Z.eq_dec (p / 8) (q / 8)) as [E|E].
  - rewrite E, lookup_insert_eq. cbn [default id from_option]. rewrite bb_set_get by lia.
    destruct (Z.eqb_spec (p mod 8) (q mod 8)), (Z.eqb_spec p q); try done; exfalso; zlia.
  - rewrite lookup_insert_ne by done. destruct (Z.eqb_spec p q); [congruence|done].
Qed.

Lemma page_used_set_pages n : forall p b i q,
  0 <= p -> 0 <= q ->
  page_used (set_pages p n b i) q = if in_range p (p + Z.of_nat n) q then b else page_used i q.
Proof.
  unfold in_range. induction n as [|n IH]; intros p b i q Hp Hq; cbn [set_pages].
  - destruct (Z.leb_spec p q), (Z.ltb_spec q (p + Z.of_nat 0)); cbn [andb]; try done; lia.
  - rewrite IH, page_used_set_page by lia.
    destruct (Z.eqb_spec p q), (Z.leb_spec p q), (Z.leb_spec (p + 1) q),
      (Z.ltb_spec q (p + 1 + Z.of_nat n)), (Z.ltb_spec q (p + Z.of_nat (S n))); cbn [andb]; try done; lia.
Qed.

(** [set_pages] leaves the other fields alone. *)
Lemma set_pages_fields n : forall p b i,
  base (set_pages p n b i) = base i /\ shared_size (set_pages p n b i) = shared_size i
  /\ current_mapped_size (set_pages p n b i) = current_mapped_size i
  /\ bitset_size (set_pages p n b i) = bitset_size i
  /\ first_unused_page_index (set_pages p n b i) = first_unused_page_index i
  /\ pagesize_ (set_pages p n b i) = pagesize_ i.
Proof. induction n as [|n IH]; intros p b i; [done|]. apply (IH (p + 1) b (set_page p b i)). Qed.

(** ** The search *)

Definition free_range (i : shm_info) (a b : Z) : Prop := forall q, a <= q < b -> page_used i q = false.

(** The state of the search after the pages below [q]: the run that ends at
    [q] has [c] pages and is maximal, and no run of [count] pages lies below. *)
Record search_inv (i : shm_info) (count q c last_start : Z) : Prop := {
  si_range : 0 <= c <= q;
  si_small : c < count;
  si_free : free_range i (q - c) q;
  si_start : 0 < c -> last_start = q - c + 1;
  si_max : q - c = 0 \/ page_used i (q - c - 1) = true;
  si_none : forall a, 0 <= a -> a + count <= q -> ~ free_range i a (a + count)
}.

(** What the search promises for a result [r]: the first run of [count] free
    pages starts one page before [r]. *)
Definition first_fit (i : shm_info) (count r : Z) : Prop :=
  1 <= r /\ r - 1 + count <= 8 * bitset_size i
  /\ free_range i (r - 1) (r - 1 + count)
  /\ forall a, 0 <= a < r - 1 -> ~ free_range i a (a + count).

Lemma search_used i count q c ls d :
  search_inv i count q c ls -> 0 < count -> 0 < d ->
  (forall x, q <= x < q + d -> page_used i x = true) -> search_inv i count (q + d) 0 ls.
Proof.
  intros [] Hc Hd Hu. split; try lia.
  - intros x Hx. lia.
  - right. apply Hu. lia.
  - intros a Ha Hle Hf. destruct (Z_le_gt_dec (a + count) q); [by apply (si_none0 a)|].
    assert (page_used i (a + count - 1) = true) as E by (apply Hu; lia).
    rewrite Hf in E by lia. done.
Qed.

Lemma search_free i count q c ls d :
  search_inv i count q c ls -> 0 < d -> free_range i q (q + d) ->
  (c + d < count -> search_inv i count (q + d) (c + d) (if c =? 0 then q + 1 else ls))
  /\ (if c =? 0 then q + 1 else ls) = q - c + 1
  /\ free_range i (q - c) (q + d).
Proof.
  intros [] Hd Hu.
  assert (free_range i (q - c) (q + d)) as Hf.
  { intros x Hx. destruct (Z_lt_ge_dec x q); [apply si_free0|apply Hu]; lia. }
  assert ((if c =? 0 then q + 1 else ls) = q - c + 1) as Hls
    by (destruct (Z.eqb_spec c 0); [lia|apply si_start0; lia]).
  split; [|done]. intros Hlt. split; try lia.
  - by replace (q + d - (c + d)) with (q - c) by lia.
  - replace (q + d - (c + d)) with (q - c) by lia. done.
  - intros a Ha Hle Hr. destruct (Z_le_gt_dec (a + count) q); [by apply (si_none0 a)|].
    destruct si_max0 as [|Hm]; [lia|]. rewrite (Hr (q - c - 1)) in Hm by lia. done.
Qed.

(** A run that reaches [count] at page [q] is the first one. *)
Lemma search_found i count q c ls e :
  search_inv i count q c ls -> free_range i (q - c) e -> q - c + count <= e ->
  q < e <= 8 * bitset_size i -> q - c + count > q -> first_fit i count (q - c + 1).
Proof.
  intros [] Hf Hlen He Hgt.
  split; [lia|]. split; [lia|]. split.
  - intros x Hx. apply Hf. lia.
  - intros a Ha Hr. destruct (Z_le_gt_dec (a + count) q); [apply (si_none0 a); [lia|lia|done]|].
    destruct si_max0 as [|Hm]; [lia|]. rewrite (Hr (q - c - 1)) in Hm by lia. done.
Qed.

Lemma page_used_byte i k j : 0 <= j < 8 -> page_used i (8 * k + j) = bb_get (pbyte i k) j.
Proof. intros Hj. unfold page_used. f_equal; [f_equal|]; zlia. Qed.

Lemma scan_byte_spec n : forall inf k j c ls count,
  0 < count -> 0 <= k < bitset_size inf -> j + Z.of_nat n = 8 -> 0 <= j ->
  search_inv inf count (8 * k + j) c ls ->
  match scan_byte n (pbyte inf k) (8 * k + 1) j c ls count with
  | inr r => first_fit inf count r
  | inl (c', ls') => search_inv inf count (8 * k + 8) c' ls'
  end.
Proof.
  induction n as [|n IH]; intros inf k j c ls count Hc Hk Hj Hj0 Hinv; cbn [scan_byte].
  - assert (j = 8) as -> by lia. done.
  - destruct (bb_get (pbyte inf k) j) eqn:E; rewrite <- page_used_byte in E by lia.
    + apply IH; try lia. replace (8 * k + (j + 1)) with (8 * k + j + 1) by lia.
      apply (search_used _ _ _ c); [done|done|lia|]. intros x Hx. by replace x with (8 * k + j) by lia.
    + assert (free_range inf (8 * k + j) (8 * k + j + 1)) as Hfr
        by (intros x Hx; by replace x with (8 * k + j) by lia).
      destruct (search_free _ _ _ _ _ 1 Hinv ltac:(lia) Hfr) as (Hn & Hls & Hf).
      replace (8 * k + 1 + j) with (8 * k + j + 1) by lia.
      destruct (Z.leb_spec count (c + 1)) as [Hle|Hgt].
      * rewrite Hls. pose proof (si_small _ _ _ _ _ Hinv).
        apply (search_found inf count (8 * k + j) c ls (8 * k + j + 1)); try done; lia.
      * apply IH; try lia. replace (8 * k + (j + 1)) with (8 * k + j + 1) by lia. apply Hn. lia.
Qed.

Lemma find_loop_spec n : forall inf k c ls count,
  0 < count -> 0 <= k -> k + Z.of_nat n = bitset_size inf ->
  search_inv inf count (8 * k) c ls ->
  match find_loop n inf (8 * k + 1) c ls count with
  | Some r => first_fit inf count r
  | None => forall a, 0 <= a -> a + count <= 8 * bitset_size inf -> ~ free_range inf a (a + count)
  end.
Proof.
  induction n as [|n IH]; intros inf k c ls count Hc Hk Hn Hinv; cbn [find_loop].
  - replace (bitset_size inf) with k by lia. apply (si_none _ _ _ _ _ Hinv).
  - replace ((8 * k + 1) / 8) with k by zlia.
    replace (8 * k + 1 + 8) with (8 * (k + 1) + 1) by lia.
    replace (8 * (k + 1)) with (8 * k + 8) in * by lia.
    assert (forall c' ls', search_inv inf count (8 * k + 8) c' ls' ->
      match find_loop n inf (8 * k + 8 + 1) c' ls' count with
      | Some r => first_fit inf count r
      | None => forall a, 0 <= a -> a + count <= 8 * bitset_size inf -> ~ free_range inf a (a + count)
      end) as IH'.
    { intros c' ls' Hi. replace (8 * k + 8) with (8 * (k + 1)) in * by lia. apply IH; [done|lia|lia|done]. }
    clear IH. destruct (bb_all (pbyte inf k)) eqn:Ea; [|destruct (bb_none (pbyte inf k)) eqn:En].
    + apply IH', (search_used _ _ _ c); [done|done|lia|]. intros x Hx.
      replace x with (8 * k + (x - 8 * k)) by lia. rewrite page_used_byte by lia. apply bb_all_get; [done|lia].
    + assert (free_range inf (8 * k) (8 * k + 8)) as Hfr.
      { intros x Hx. replace x with (8 * k + (x - 8 * k)) by lia. rewrite page_used_byte by lia.
        apply bb_none_get; [done|lia]. }
      destruct (search_free _ _ _ _ _ 8 Hinv ltac:(lia) Hfr) as (Hs & Hls & Hf).
      destruct (Z.leb_spec count (c + 8)) as [Hle|Hgt]; [|apply IH', Hs; lia].
      rewrite Hls. pose proof (si_small _ _ _ _ _ Hinv).
      apply (search_found inf count (8 * k) c ls (8 * k + 8)); try done; lia.
    + replace (8 * k) with (8 * k + 0) in Hinv by lia.
      pose proof (scan_byte_spec 8 inf k 0 c ls count Hc ltac:(lia) ltac:(lia) ltac:(lia) Hinv) as Hb.
      destruct (scan_byte 8 _ _ 0 c ls count) as [[c' ls']|r]; [by apply IH'|done].
Qed.

Lemma find_spec inf count :
  0 < count -> 0 <= bitset_size inf ->
  match findContinousFreePages inf count with
  | Some r => first_fit inf count r
  | None => forall a, 0 <= a -> a + count <= 8 * bitset_size inf -> ~ free_range inf a (a + count)
  end.
Proof.
  intros Hc Hb. unfold findContinousFreePages. apply (find_loop_spec _ inf 0 0 0 count); try lia.
  split; try lia. intros x Hx. lia.
Qed.

(** The search for free pages is first fit, shifted by one page.  When it
    returns [r], the first run of [count] free pages starts at page [r - 1];
    when it throws, there is no such run in the bitmap. *)
Theorem find_first_fit (inf : shm_info) (count : Z) :
  0 < count -> 0 <= bitset_size inf ->
  match findContinousFreePages inf count with
  | Some r => first_fit inf count r
  | None => forall a, 0 <= a -> a + count <= 8 * bitset_size inf -> ~ free_range inf a (a + count)
  end.
Proof. apply find_spec. Qed.

(** A bitmap of two bytes with pages 0 to 4 in use. *)
Definition small_bitmap : shm_info :=
  mkShm shm_shared_memory_base false false 20480 20480 {[0 := 31]} 2 5 0 4096 false.

Lemma find_first_fit_witness :
  findContinousFreePages small_bitmap 4 = Some 6 /\ first_fit small_bitmap 4 6.
Proof.
  split; [reflexivity|]. apply (find_first_fit small_bitmap 4); [lia|vm_compute; discriminate].
Defined.

(** ** Handing out pages *)

Section Request.
Context `{K : Kernel}.

(** Pages from [first_unused_page_index] on have never been handed out: they
    are zero, and they are the end of the segment. *)
Record pages_inv (i : shm_info) (m : memory) : Prop := {
  pi_ps : 0 < pagesize_ i;
  pi_bits : 0 <= bitset_size i;
  pi_first : 0 <= first_unused_page_index i /\ first_unused_page_index i * pagesize_ i <= shared_size i;
  pi_zero : forall a, pageIndexToAddress i (first_unused_page_index i) <= a -> ld m a = 0
}.

Definition same_pages (i i' : shm_info) : Prop :=
  base i' = base i /\ pages_used i' = pages_used i /\ bitset_size i' = bitset_size i
  /\ pagesize_ i' = pagesize_ i /\ first_unused_page_index i' = first_unused_page_index i.

(** Growing the segment keeps the pages and makes it long enough. *)
Lemma ensure_mapped_ok pos count i m u i' m' :
  0 < pagesize_ i -> first_unused_page_index i * pagesize_ i <= shared_size i ->
  ensure_mapped pos count i m = PgOk u i' m' ->
  m' = m /\ same_pages i i' /\ shared_size i <= shared_size i' /\ (pos + count) * pagesize_ i <= shared_size i'.
Proof.
  intros Hps Hfu. unfold ensure_mapped, resizeSharedMemory, setFDsize, remapSharedMemory.
  destruct (Z.ltb_spec (shared_size i) ((pos + count) * pagesize_ i)) as [Hlt|Hge].
  - rewrite (proj2 (Z.eqb_neq _ _)) by lia. cbn.
    destruct (k_ftruncate _); [|done]. cbn.
    destruct (_ =? MAP_FAILED); [done|]. destruct (negb _); [done|]. cbn.
    rewrite Z.ltb_irrefl. intros [= <- <- <-]. unfold same_pages. cbn.
    assert (first_unused_page_index i <= pos + count) by nia. repeat split; lia.
  - destruct (current_mapped_size i <? shared_size i); cbn.
    + destruct (_ =? MAP_FAILED); [done|]. destruct (negb _); [done|].
      intros [= <- <- <-]. unfold same_pages. cbn. repeat split; lia.
    + intros [= <- <- <-]. unfold same_pages. repeat split; lia.
Qed.

Lemma page_used_same i i' q : same_pages i i' -> page_used i' q = page_used i q.
Proof. intros (_ & E & _). unfold page_used, pbyte. by rewrite E. Qed.

(** The marks of a request. *)
Lemma request_marks count pos i i' m m' :
  pages_inv i m -> 0 < count ->
  requestContinousFreePagesInternal count i m = PgOk pos i' m' ->
  1 <= pos /\ base i' = base i /\ pagesize_ i' = pagesize_ i
  /\ forall q, 0 <= q -> page_used i' q = in_range pos (pos + count) q || page_used i q.
Proof.
  intros [] Hc. unfold requestContinousFreePagesInternal.
  pose proof (find_spec i count Hc pi_bits0) as Hfind.
  destruct (findContinousFreePages i count) as [r|]; [|done].
  destruct (ensure_mapped r count i m) as [u i1 m1| |] eqn:E; [|done|done].
  apply ensure_mapped_ok in E as (-> & Hs & _); [|done|lia].
  intros [= -> <- <-]. destruct Hfind as (Hr1 & _).
  destruct (Hs) as (Eb & _ & Ebs & Eps & _).
  destruct (set_pages_fields (Z.to_nat count) pos true i1) as (F1 & _ & _ & _ & _ & F6).
  cbn [put_first_unused base pagesize_]. rewrite F1, F6, Eb, Eps. split; [lia|]. split; [done|]. split; [done|].
  intros q Hq. unfold page_used at 1, pbyte. cbn [put_first_unused pages_used].
  fold (pbyte (set_pages pos (Z.to_nat count) true i1) (q / 8)).
  fold (page_used (set_pages pos (Z.to_nat count) true i1) q).
  rewrite page_used_set_pages, (page_used_same i) by (done || lia).
  rewrite Z2Nat.id by lia. by destruct (in_range _ _ q).
Qed.

(** C6: the pages of a successful request read as zero, are marked used, and
    nothing else changes: no other page changes its mark and no cell outside
    the handed-out range its value; the invariant on unused pages is kept.
    Recycled pages are cleared, fresh ones are zero already. *)
Theorem request_pages_zeroed (count pos : Z) (i i' : shm_info) (m m' : memory) :
  pages_inv i m -> 0 < count ->
  requestContinousFreePagesInternal count i m = PgOk pos i' m' ->
  let lo := pageIndexToAddress i pos in
  let hi := pageIndexToAddress i (pos + count) in
  (forall a, lo <= a < hi -> ld m' a = 0)
  /\ (forall a, ~ (lo <= a < hi) -> ld m' a = ld m a)
  /\ (forall q, 0 <= q -> page_used i' q = in_range pos (pos + count) q || page_used i q)
  /\ pages_inv i' m'.
Proof.
  intros Hinv Hc Hreq. pose proof (request_marks _ _ _ _ _ _ Hinv Hc Hreq) as (Hr1 & _ & _ & Hmarks).
  destruct Hinv. revert Hreq. unfold requestContinousFreePagesInternal.
  destruct (findContinousFreePages i count) as [r|]; [|done].
  destruct (ensure_mapped r count i m) as [u i1 m1| |] eqn:E; [|done|done].
  apply ensure_mapped_ok in E as (-> & Hs & Hgrow & Hlong); [|done|lia].
  intros [= -> <- <-]. destruct (Hs) as (Eb & _ & Ebs & Eps & Efu).
  destruct (set_pages_fields (Z.to_nat count) pos true i1) as (F1 & F2 & _ & F4 & F5 & F6).
  unfold pageIndexToAddress in *. cbn zeta. rewrite F5, Eb, Eps, Efu.
  replace (base i + pos * pagesize_ i + count * pagesize_ i)
    with (base i + (pos + count) * pagesize_ i) by lia.
  set (lo := base i + pos * pagesize_ i). set (hi := base i + (pos + count) * pagesize_ i).
  assert (forall a, ld (if pos <? first_unused_page_index i then mem_zero lo hi m else m) a
                    = if in_range lo hi a then 0 else ld m a) as Hld.
  { intros a. destruct (Z.ltb_spec pos (first_unused_page_index i)); [apply ld_mem_zero|].
    destruct (in_range lo hi a) eqn:R; [|done]. unfold in_range in R. bool_hyps.
    apply pi_zero0. subst lo. nia. }
  split; [|split; [|split]].
  - intros a Ha. rewrite Hld. unfold in_range. by rewrite (proj2 (Z.leb_le _ _)), (proj2 (Z.ltb_lt _ _)) by lia.
  - intros a Ha. rewrite Hld. unfold in_range.
    destruct (Z.leb_spec lo a), (Z.ltb_spec a hi); cbn [andb]; try done; lia.
  - exact Hmarks.
  - split; unfold pageIndexToAddress; cbn [put_first_unused pagesize_ bitset_size first_unused_page_index shared_size base].
    + by rewrite F6, Eps.
    + by rewrite F4, Ebs.
    + rewrite F6, Eps, F2. nia.
    + rewrite F6, Eps, F1, Eb. intros a Ha. rewrite Hld.
      destruct (in_range lo hi a); [done|]. apply pi_zero0. nia.
Qed.

(** C31: a request for a single page can return a page that is in use.  When
    the first free page is followed by a used one, the returned page is that
    used one: the search starts its page counter at 1 although the bitmap
    starts at page 0. *)
Theorem single_page_request_overlaps (i i' : shm_info) (m m' : memory) (f pos : Z) :
  0 < pagesize_ i -> 0 <= bitset_size i -> first_unused_page_index i * pagesize_ i <= shared_size i ->
  0 <= f < 8 * bitset_size i -> page_used i f = false ->
  (forall q, 0 <= q < f -> page_used i q = true) -> page_used i (f + 1) = true ->
  requestContinousFreePagesInternal 1 i m = PgOk pos i' m' ->
  pos = f + 1 /\ page_used i pos = true.
Proof.
  intros Hps Hbs Hfu Hf Hfree Hbelow Hused. unfold requestContinousFreePagesInternal.
  pose proof (find_spec i 1 ltac:(lia) Hbs) as Hfind.
  destruct (findContinousFreePages i 1) as [r|]; [|done].
  destruct (ensure_mapped r 1 i m) as [u i1 m1| |]; [|done|done].
  intros [= -> _ _]. destruct Hfind as (Hr1 & _ & Hfr & Hmin).
  assert (pos - 1 = f) as Hpos.
  { destruct (Z_lt_ge_dec (pos - 1) f) as [Hlt|Hge].
    - assert (page_used i (pos - 1) = true) as E by (apply Hbelow; lia). rewrite Hfr in E by lia. done.
    - destruct (Z.eq_dec (pos - 1) f); [done|exfalso]. apply (Hmin f); [lia|].
      intros q Hq. by replace q with f by lia. }
  assert (pos = f + 1) as -> by lia. done.
Qed.

(** Following a growth of the segment changes the mapped size only. *)
Lemma internal_remap_same i m u i1 m1 :
  pages_inv i m -> internal_remap_shm i m = PgOk u i1 m1 -> same_pages i i1 /\ m1 = m /\ pages_inv i1 m.
Proof.
  intros []. unfold internal_remap_shm.
  destruct (_ <? _); [destruct (_ =? MAP_FAILED); [done|]; destruct (negb _); [done|]|];
    intros [= <- <- <-]; (split; [repeat split|]; split; [done|]; by split).
Qed.

(** [shm_munmap] frees exactly the pages that [shm_mmap] gave.  After a
    mapping of [length] bytes is removed with its own length, the pages marked
    used are those marked before the call to [shm_mmap], less the pages of the
    mapping. *)
Theorem mmap_munmap_exact (length prot flags a : Z) (i i' : shm_info) (m m' : memory) :
  pages_inv i m -> 0 < ALIGN_UP length (pagesize_ i) / pagesize_ i ->
  shm_mmap 0 length prot flags (-1) 0 i m = PgOk a i' m' ->
  exists pos, 1 <= pos /\ a = pageIndexToAddress i pos
    /\ forall q, 0 <= q ->
         page_used (shm_munmap a length i') q
         = page_used i q && negb (in_range pos (pos + ALIGN_UP length (pagesize_ i) / pagesize_ i) q).
Proof.
  intros Hinv. set (count := ALIGN_UP length (pagesize_ i) / pagesize_ i). intros Hc.
  unfold shm_mmap. change ((0 <=? -1) || (0 <? 0) || negb (0 =? 0)) with false. cbv iota zeta.
  fold count. unfold requestContinousFreePages, remap_shared_memory.
  destruct (internal_remap_shm i m) as [u i1 m1| |] eqn:E; [|done|done].
  apply internal_remap_same in E as (Hs & -> & Hinv1); [|done].
  destruct (requestContinousFreePagesInternal count i1 m) as [pos i2 m2| |] eqn:E; [|done|done].
  intros [= <- <- <-]. apply request_marks in E as (Hpos & Eb & Eps & Hm); [|done|done].
  destruct (Hs) as (Eb1 & _ & _ & Eps1 & _). destruct Hinv as [Hps _ _ _].
  exists pos. split; [done|]. unfold pageIndexToAddress. rewrite Eb, Eb1, Eps, Eps1. split; [done|].
  intros q Hq. unfold shm_munmap, freePages, addressToPageIndex. rewrite Eb, Eb1, Eps, Eps1. fold count.
  replace ((base i + pos * pagesize_ i - base i) / pagesize_ i) with pos
    by (rewrite Z.add_simpl_l, Z.div_mul; lia).
  rewrite page_used_set_pages, Hm, (page_used_same i i1), Z2Nat.id by (done || lia).
  by destruct (in_range _ _ q), (page_used i q).
Qed.

End Request.

(** A kernel on which every call succeeds without moving anything. *)
Definition good_kernel : Kernel := {|
  k_ftruncate _ := true; k_mremap b _ _ := b; k_mmap a _ _ _ := a; k_mprotect _ _ _ := 0 |}.

(** The state after [shared_memory_init] and a first request of 256 pages. *)
Definition first_request : paged Z :=
  @requestContinousFreePagesInternal good_kernel 256 (shared_memory_init 4096) ∅.
Definition after_first : shm_info :=
  match first_request with PgOk _ i _ => i | PgThrow i => i | PgExit i => i end.

Lemma request_pages_zeroed_witness :
  exists pos i' m', @requestContinousFreePagesInternal good_kernel 4 small_bitmap ∅ = PgOk pos i' m'
    /\ ld m' (pageIndexToAddress small_bitmap pos) = 0 /\ pages_inv i' m'.
Proof.
  eexists _, _, _. split; [reflexivity|].
  edestruct (@request_pages_zeroed good_kernel 4 6 small_bitmap) as (H1 & _ & _ & H4);
    [split; [reflexivity|vm_compute; discriminate|split; vm_compute; discriminate
      |intros; apply ld_empty]|lia|reflexivity|].
  split; [|exact H4]. apply H1. vm_compute. split; [discriminate|reflexivity].
Defined.

(** The overlap is reachable: after the first request, the page in front of it
    is free and the page behind that is the first page handed out. *)
Lemma single_page_request_overlaps_witness :
  first_request = PgOk 514 after_first ∅
  /\ exists pos i2 m2, @requestContinousFreePagesInternal good_kernel 1 after_first ∅ = PgOk pos i2 m2
       /\ pos = 514 /\ page_used after_first pos = true.
Proof.
  split; [vm_compute; reflexivity|].
  destruct (@requestContinousFreePagesInternal good_kernel 1 after_first ∅) as [pos i2 m2| |] eqn:E;
    [|exfalso; revert E; vm_compute; discriminate|exfalso; revert E; vm_compute; discriminate].
  exists pos, i2, m2. split; [done|].
  apply (@single_page_request_overlaps good_kernel after_first i2 ∅ m2 513 pos);
    [vm_compute; reflexivity|vm_compute; discriminate|vm_compute; discriminate
    |vm_compute; split; [discriminate|reflexivity]|vm_compute; reflexivity| |vm_compute; reflexivity|done].
  assert (forallb (fun n => page_used after_first (Z.of_nat n)) (seq 0 513) = true) as Hall
    by (vm_compute; reflexivity).
  intros q Hq. rewrite forallb_forall in Hall.
  rewrite <- (Z2Nat.id q) by lia. apply Hall, in_seq. lia.
Defined.

Lemma mmap_munmap_exact_witness :
  exists a i' m', @shm_mmap good_kernel 0 16384 3 2 (-1) 0 small_bitmap ∅ = PgOk a i' m'
    /\ exists pos, a = pageIndexToAddress small_bitmap pos /\ page_used (shm_munmap a 16384 i') pos = false.
Proof.
  destruct (@shm_mmap good_kernel 0 16384 3 2 (-1) 0 small_bitmap ∅) as [a i' m'| |] eqn:E;
    [|exfalso; revert E; vm_compute; discriminate|exfalso; revert E; vm_compute; discriminate].
  exists a, i', m'. split; [done|].
  destruct (@mmap_munmap_exact good_kernel 16384 3 2 a small_bitmap i' ∅ m') as (pos & Hpos & Ha & Hq);
    [|vm_compute; reflexivity|done|].
  - split; [reflexivity|vm_compute; discriminate|split; vm_compute; discriminate|intros; apply ld_empty].
  - exists pos. split; [done|]. rewrite Hq by lia.
    change (ALIGN_UP 16384 (pagesize_ small_bitmap) / pagesize_ small_bitmap) with 4.
    unfold in_range. rewrite (proj2 (Z.leb_le _ _)), (proj2 (Z.ltb_lt _ _)) by lia. apply andb_false_r.
Defined.

(** ** Pointers of the segment *)

Lemma pointer_mask addr : 0 <= addr < 18446744073709551616 ->
  Z.land addr shm_shared_memory_mask = addr - addr mod 1099511627776.
Proof.
  intros Ha. unfold shm_shared_memory_mask. change 18446742974197923840 with (u64 (Z.lnot (2 ^ 40 - 1))).
  rewrite land_u64_r by lia. by rewrite land_mask_down by lia.
Qed.

Lemma shared_memory_window addr : 0 <= addr < 18446744073709551616 ->
  shm_is_shared_memory_pointer addr = in_range 69269232549888 70368744177664 addr.
Proof.
  intros Ha. unfold shm_is_shared_memory_pointer, shm_shared_memory_base, in_range. rewrite pointer_mask by lia.
  apply eq_true_iff_eq. rewrite andb_true_iff, Z.eqb_eq, Z.leb_le, Z.ltb_lt. zlia.
Qed.

Lemma shared_file_window addr : 0 <= addr < 18446744073709551616 ->
  shm_is_shared_file_pointer addr = in_range 68169720922112 69269232549888 addr.
Proof.
  intros Ha. unfold shm_is_shared_file_pointer, shm_shared_memory_file, in_range. rewrite pointer_mask by lia.
  apply eq_true_iff_eq. rewrite andb_true_iff, Z.eqb_eq, Z.leb_le, Z.ltb_lt. zlia.
Qed.

Lemma internal_mmap_window `{K : Kernel} addr length prot flags : 0 <= addr < 18446744073709551616 ->
  internal_mmap addr length prot flags =
  (if in_range 68169720922112 70368744177664 addr then k_mmap addr length prot flags else MAP_FAILED).
Proof.
  intros Ha. unfold internal_mmap. rewrite shared_memory_window, shared_file_window by lia. unfold in_range.
  destruct (Z.eqb_spec addr 0), (Z.leb_spec 69269232549888 addr), (Z.ltb_spec addr 70368744177664),
    (Z.leb_spec 68169720922112 addr), (Z.ltb_spec addr 69269232549888); cbn; try done; lia.
Qed.

(** The pointer tests are exactly membership in the two windows of a
    terabyte, and a mapping that the other process asks for is only ever made
    at an address of one of them. *)
Theorem internal_mmap_confined `{K : Kernel} (addr length prot flags : Z) :
  0 <= addr < 18446744073709551616 ->
  (shm_is_shared_memory_pointer addr = in_range 69269232549888 70368744177664 addr)
  /\ (shm_is_shared_file_pointer addr = in_range 68169720922112 69269232549888 addr)
  /\ internal_mmap addr length prot flags =
     (if in_range 68169720922112 70368744177664 addr then k_mmap addr length prot flags else MAP_FAILED).
Proof. intros Ha. by rewrite shared_memory_window, shared_file_window, internal_mmap_window. Qed.

Lemma internal_mmap_confined_witness :
  @internal_mmap good_kernel 69269232549888 4096 3 2 = 69269232549888
  /\ @internal_mmap good_kernel 4096 4096 3 2 = MAP_FAILED.
Proof.
  split.
  - by rewrite (proj2 (proj2 (@internal_mmap_confined good_kernel 69269232549888 4096 3 2 ltac:(lia)))).
  - by rewrite (proj2 (proj2 (@internal_mmap_confined good_kernel 4096 4096 3 2 ltac:(lia)))).
Defined.
