(* ===== verification/PageType.v ===== *)
(** * The types of the page allocator's state

    What holds of [SharedMemoryInformation]
    ([src/libipc/shared_memory_manager.cpp]) after every entry point, on every
    way out: return, exception or exit. *)

From S2P Require Import Prelude MallocState MallocCore PageAlloc PageProps.

(** Bytes of the bitmap are bytes and no further than one past its end, sizes
    are whole pages, the process maps no more than the segment has, and a page
    in use is below the first page that was never used. *)
Record shm_wt (i : shm_info) : Prop := {
  wt_page : pagesize_ i = 4096;
  wt_bits : 0 < bitset_size i;
  wt_byte : forall k b, pages_used i !! k = Some b -> 0 <= b < 256 /\ 0 <= k <= bitset_size i;
  wt_shared : shared_size i mod 4096 = 0;
  wt_mapped : 0 <= current_mapped_size i <= shared_size i /\ current_mapped_size i mod 4096 = 0;
  wt_first : 0 <= first_unused_page_index i /\ first_unused_page_index i * 4096 <= shared_size i;
  wt_used : forall p, 0 <= p -> page_used i p = true -> p < first_unused_page_index i }.

Lemma set_pages_byte n : forall p b i k x,
  0 <= p -> (forall k b, pages_used i !! k = Some b -> 0 <= b < 256 /\ 0 <= k <= bitset_size i) ->
  p + Z.of_nat n <= 8 * bitset_size i + 1 ->
  pages_used (set_pages p n b i) !! k = Some x -> 0 <= x < 256 /\ 0 <= k <= bitset_size i.
Proof.
  induction n as [|n IH]; intros p b i k x Hp Hi Hn; cbn [set_pages]; [apply Hi|].
  intros H. apply IH in H; [exact H|lia| |cbn; lia]. cbn [set_page put_pages pages_used bitset_size].
  intros j y. rewrite lookup_insert_Some. intros [[<- <-]|[_ Hy]]; [|by apply Hi].
  split; [apply bb_set_range|]. zlia.
Qed.

(** Marking pages below the limit, or clearing pages, keeps the types. *)
Lemma set_pages_wt p n b i :
  shm_wt i -> 0 <= p -> p + Z.of_nat n <= 8 * bitset_size i + 1 ->
  (b = true -> p + Z.of_nat n <= first_unused_page_index i) -> shm_wt (set_pages p n b i).
Proof.
  intros [] Hp Hn Hb. destruct (set_pages_fields n p b i) as (_ & F2 & F3 & F4 & F5 & F6).
  split; rewrite ?F2, ?F3, ?F4, ?F5, ?F6; try done.
  - intros k x Hx. by eapply set_pages_byte.
  - intros q Hq. rewrite page_used_set_pages by lia. unfold in_range.
    destruct (Z.leb_spec p q), (Z.ltb_spec q (p + Z.of_nat n)); cbn [andb]; try by apply wt_used0.
    intros ->. specialize (Hb eq_refl). lia.
Qed.

Definition paged_state {A} (r : paged A) : shm_info :=
  match r with PgOk _ i _ => i | PgThrow i => i | PgExit i => i end.

Section Types.
Context `{K : Kernel}.

Lemma grown_wt i n :
  shm_wt i -> shared_size i <= n -> n mod 4096 = 0 -> shm_wt (put_shared_size n i).
Proof. intros [] Hn Hm. split; cbn [put_shared_size pagesize_ bitset_size pages_used shared_size current_mapped_size first_unused_page_index]; try done; lia. Qed.

Lemma mapped_wt i : shm_wt i -> shm_wt (put_mapped_size (shared_size i) i).
Proof. intros []. split; cbn [put_mapped_size pagesize_ bitset_size pages_used shared_size current_mapped_size first_unused_page_index]; try done; lia. Qed.

Lemma unregistered_wt i b : shm_wt i -> shm_wt (put_unregistered b i).
Proof. by intros []. Qed.

Lemma remap_wt old i m : shm_wt i -> shm_wt (paged_state (remapSharedMemory old i m)).
Proof.
  intros Hi. unfold remapSharedMemory. destruct (_ =? MAP_FAILED); [by apply unregistered_wt|].
  destruct (negb _); [by apply unregistered_wt|by apply mapped_wt].
Qed.

Lemma follow_wt i m : shm_wt i -> shm_wt (paged_state (internal_remap_shm i m)).
Proof.
  intros Hi. unfold internal_remap_shm. destruct (_ <? _); [|done].
  destruct (_ =? MAP_FAILED); [done|]. destruct (negb _); [done|]. by apply mapped_wt.
Qed.

(** Growing to [pages] pages, more than the segment has. *)
Lemma resize_wt pages i m :
  shm_wt i -> shared_size i < pages * 4096 -> shm_wt (paged_state (resizeSharedMemory pages i m)).
Proof.
  intros Hi Hp. pose proof Hi as []. unfold resizeSharedMemory. rewrite wt_page0, (proj2 (Z.eqb_neq _ _)) by lia.
  assert (shm_wt (put_shared_size (4096 * pages) i)) as Hg by (apply grown_wt; [done|lia|zlia]).
  unfold setFDsize. destruct (k_ftruncate _); [|done].
  pose proof (remap_wt (current_mapped_size (put_shared_size (4096 * pages) i)) _ m Hg) as Hr.
  unfold remapSharedMemory in *. destruct (_ =? MAP_FAILED); [done|]. destruct (negb _); [done|]. cbn [paged_state] in *.
  cbn [put_mapped_size put_shared_size first_unused_page_index]. rewrite Z.min_l by lia. by destruct Hr.
Qed.

Lemma ensure_wt pos count i m :
  shm_wt i -> shm_wt (paged_state (ensure_mapped pos count i m)).
Proof.
  intros Hi. unfold ensure_mapped. destruct (Z.ltb_spec (shared_size i) ((pos + count) * pagesize_ i)) as [Hlt|_].
  - rewrite (wt_page _ Hi) in Hlt. pose proof (resize_wt (pos + count) i m Hi Hlt) as Hr.
    destruct (resizeSharedMemory _ _ _) as [u i1 m1| |]; [|done|done]. cbn [paged_state] in Hr.
    destruct (_ <? _); [by apply remap_wt|done].
  - destruct (_ <? _); [by apply remap_wt|done].
Qed.

Lemma request_wt count i m :
  shm_wt i -> 0 < count -> shm_wt (paged_state (requestContinousFreePagesInternal count i m)).
Proof.
  intros Hi Hc. pose proof Hi as []. unfold requestContinousFreePagesInternal.
  pose proof (find_spec i count Hc ltac:(lia)) as Hfind.
  destruct (findContinousFreePages i count) as [r|]; [|done]. destruct Hfind as (Hr1 & Hr2 & _).
  pose proof (ensure_wt r count i m Hi) as He.
  destruct (ensure_mapped r count i m) as [u i1 m1| |] eqn:E; [|done|done]. cbn [paged_state] in *.
  apply ensure_mapped_ok in E as (_ & Hs & _ & Hlong); [|lia|lia].
  destruct Hs as (_ & _ & Hb & _ & Hf). rewrite wt_page0 in Hlong.
  destruct (set_pages_fields (Z.to_nat count) r true i1) as (_ & _ & _ & _ & F5 & _). rewrite F5.
  set (i2 := put_first_unused (Z.max (first_unused_page_index i1) (r + count)) i1).
  assert (shm_wt i2) as H2.
  { destruct He. split; cbn [i2 put_first_unused pagesize_ bitset_size pages_used shared_size current_mapped_size first_unused_page_index]; try done; [lia|].
    intros p Hp Hu. specialize (wt_used1 p Hp Hu). lia. }
  assert (shm_wt (set_pages r (Z.to_nat count) true i2)) as H3.
  { apply set_pages_wt; [done|lia|cbn [i2 put_first_unused bitset_size]; lia|]. intros _. cbn [i2 put_first_unused first_unused_page_index]. lia. }
  assert (forall n p i f, put_first_unused f (set_pages p n true i) = set_pages p n true (put_first_unused f i)) as Hcomm.
  { induction n as [|n IH]; intros p j f; cbn [set_pages]; [done|]. rewrite IH. done. }
  rewrite Hcomm. exact H3.
Qed.

(** ** The entry points *)

Inductive shm_call :=
| CMmap (addr length prot flags fd offset : Z)
| CMunmap (addr length : Z)
| CMremap (old_address old_size new_size : Z)
| CFollow
| CResize (pages : Z).

Definition run_call (c : shm_call) (i : shm_info) (m : memory) : shm_info :=
  match c with
  | CMmap addr length prot flags fd offset => paged_state (shm_mmap addr length prot flags fd offset i m)
  | CMunmap addr length => shm_munmap addr length i
  | CMremap old_address old_size new_size => paged_state (shm_mremap old_address old_size new_size i m)
  | CFollow => paged_state (remap_shared_memory i m)
  | CResize pages => paged_state (resizeSharedMemory pages i m)
  end.

(** A range of the segment that is within the bitmap. *)
Definition range_ok (i : shm_info) (addr length : Z) : Prop :=
  base i <= addr /\ 0 <= length <= 18446744073709551616 - 4096
  /\ addressToPageIndex i addr + ALIGN_UP length 4096 / 4096 <= 8 * bitset_size i.

Definition call_pre (c : shm_call) (i : shm_info) : Prop :=
  match c with
  | CMmap _ length _ _ _ _ => 0 < length <= 18446744073709551616 - 4096
  | CMunmap addr length => range_ok i addr length
  | CMremap old old_size new_size => range_ok i old old_size /\ 0 < new_size <= 18446744073709551616 - 4096
  | CFollow => True
  | CResize pages => shared_size i <= pages * 4096
  end.

Lemma pages_pos length : 0 < length <= 18446744073709551616 - 4096 -> 0 < ALIGN_UP length 4096 / 4096.
Proof. intros H. destruct (ALIGN_UP_4096_spec length ltac:(lia)) as [H1 H2]. zlia. Qed.

Lemma free_wt addr length i :
  shm_wt i -> range_ok i addr length -> shm_wt (freePages (addressToPageIndex i addr) (ALIGN_UP length 4096 / 4096) i).
Proof.
  intros Hi (Hb & Hl & Hr). pose proof (wt_page _ Hi) as Hp. unfold freePages.
  assert (0 <= ALIGN_UP length 4096 / 4096) by (destruct (ALIGN_UP_4096_spec length ltac:(lia)); zlia).
  apply set_pages_wt; [done| |lia|done]. unfold addressToPageIndex. rewrite Hp. apply Z.div_pos; lia.
Qed.

Lemma request_frame count i m pos i' m' :
  shm_wt i -> requestContinousFreePagesInternal count i m = PgOk pos i' m' ->
  base i' = base i /\ bitset_size i' = bitset_size i /\ pagesize_ i' = pagesize_ i.
Proof.
  intros []. unfold requestContinousFreePagesInternal. destruct (findContinousFreePages i count) as [r|]; [|done].
  destruct (ensure_mapped r count i m) as [u i1 m1| |] eqn:E; [|done|done].
  apply ensure_mapped_ok in E as (_ & (H1 & _ & H2 & H3 & _) & _); [|lia|lia].
  destruct (set_pages_fields (Z.to_nat count) r true i1) as (F1 & _ & _ & F4 & _ & F6).
  intros [= _ <- _]. cbn [put_first_unused base bitset_size pagesize_]. by rewrite F1, F4, F6.
Qed.

(** C12: the state of the page allocator keeps its types.  Every entry point,
    called with a range of the segment, leaves a state whose bitmap holds
    bytes, whose sizes are whole pages, which maps no more than the segment
    and marks no page beyond the first unused one, whether it returns, throws
    or exits.  The initial state is of this kind ([init_wt]). *)
Theorem pages_well_typed (c : shm_call) (i : shm_info) (m : memory) :
  shm_wt i -> call_pre c i -> shm_wt (run_call c i m).
Proof.
  intros Hi Hpre. pose proof (wt_page _ Hi) as Hp. destruct c as [addr length prot flags fd offset|addr length|old old_size new_size| |pages];
    cbn [run_call call_pre] in *.
  - unfold shm_mmap. destruct (_ || _); [done|]. rewrite Hp. unfold requestContinousFreePages, remap_shared_memory.
    pose proof (follow_wt i m Hi) as Hf. destruct (internal_remap_shm i m) as [u i1 m1| |]; [|done|done]. cbn [paged_state] in Hf.
    pose proof (request_wt _ i1 m1 Hf (pages_pos _ Hpre)) as Hr.
    by destruct (requestContinousFreePagesInternal _ i1 m1).
  - unfold shm_munmap. rewrite Hp. by apply free_wt.
  - destruct Hpre as [Hold Hnew]. unfold shm_mremap, requestContinousFreePagesForMove. rewrite Hp.
    pose proof (request_wt _ i m Hi (pages_pos _ Hnew)) as Hr.
    destruct (requestContinousFreePagesInternal _ i m) as [pos i1 m1| |] eqn:E; [|done|done]. cbn [paged_state] in Hr.
    destruct (_ =? _); [done|]. cbn [paged_state]. destruct (request_frame _ _ _ _ _ _ Hi E) as (Eb & Ebs & Eps).
    rewrite Eps, Hp. unfold range_ok in Hold. replace (addressToPageIndex i old) with (addressToPageIndex i1 old)
      by (unfold addressToPageIndex; by rewrite Eb, Eps).
    apply free_wt; [done|]. unfold range_ok. unfold addressToPageIndex in *. rewrite Eb, Ebs, Eps. exact Hold.
  - by apply follow_wt.
  - destruct (decide (pages * 4096 = shared_size i)) as [E|E].
    + unfold resizeSharedMemory. by rewrite Hp, (proj2 (Z.eqb_eq _ _) E).
    + apply resize_wt; [done|lia].
Qed.

End Types.

Lemma init_wt : shm_wt (shared_memory_init 4096).
Proof.
  assert (forall p, 0 <= p -> page_used (shared_memory_init 4096) p = in_range 0 513 p) as Hu.
  { intros p Hp. unfold shared_memory_init, shm_init. rewrite page_used_set_pages by lia.
    change (Z.of_nat (Z.to_nat (info_pages 4096 + bitset_pages))) with 513. rewrite Z.add_0_l.
    destruct (in_range 0 513 p); [done|]. unfold page_used, pbyte. cbn [pages_used]. rewrite lookup_empty. simpl.
    unfold bb_get. by rewrite Z.land_0_l. }
  destruct (set_pages_fields (Z.to_nat (info_pages 4096 + bitset_pages)) 0 true
    (mkShm shm_shared_memory_base false false (4096 * (info_pages 4096 + bitset_pages)) (4096 * (info_pages 4096 + bitset_pages))
      ∅ (bitset_pages * 4096) (info_pages 4096 + bitset_pages) 68169720922112 4096 false)) as (_ & F2 & F3 & F4 & F5 & F6).
  unfold shared_memory_init, shm_init in *. split.
  - by rewrite F6.
  - by rewrite F4.
  - rewrite F4. intros k b Hk. apply set_pages_byte in Hk; [exact Hk|lia| |vm_compute; discriminate].
    intros j y. cbn [pages_used]. by rewrite lookup_empty.
  - by rewrite F2.
  - rewrite F2, F3. split; [split|reflexivity]; vm_compute; discriminate.
  - rewrite F2, F5. split; vm_compute; discriminate.
  - rewrite F5. intros p Hp Hup. rewrite Hu in Hup by done. unfold in_range in Hup. bool_hyps.
    cbn [first_unused_page_index]. change (info_pages 4096 + bitset_pages) with 513. lia.
Qed.

Lemma pages_well_typed_witness :
  shm_wt (@run_call good_kernel (CMmap 0 10000 3 34 (-1) 0) (shared_memory_init 4096) ∅).
Proof. apply (@pages_well_typed good_kernel); [exact init_wt|vm_compute; split; [reflexivity|discriminate]]. Defined.
