(* ===== verification/PageLockProps.v ===== *)
(** * The shared lock makes page operations atomic

    Every interleaving of the steps of [PageLock] in which [semop] does not
    fail gives the results and the state of the operations of [PageAlloc] run
    one after the other; a [lock] that a signal interrupts breaks this. *)

From stdpp Require Import functions.
From S2P Require Import Prelude MallocState MallocCore PageAlloc PageProps PageLock.

Section LockProps.
Context `{K : Kernel} (proc_of : nat -> nat).
Implicit Types (a : mach) (x y : nat) (i : shm_info) (m : memory) (o : page_op).

(** ** The rest of an operation *)

Definition advanced (pos count : Z) i m : page_result * shm_info * memory :=
  (Returned pos, put_first_unused (Z.max (first_unused_page_index i) (pos + count)) i, m).

Definition placed_pages (pos count : Z) i m : page_result * shm_info * memory :=
  let a := pageIndexToAddress i pos in
  advanced pos count (set_pages pos (Z.to_nat count) true i)
    (if pos <? first_unused_page_index i then mem_zero a (a + count * pagesize_ i) m else m).

Definition finish (pc : page_pc) i m : page_result * shm_info * memory :=
  match pc with
  | AtRemap count => settle (requestContinousFreePages count i m) m
  | AtFind count => settle (requestContinousFreePagesInternal count i m) m
  | AtGrow pos count =>
      match ensure_mapped pos count i m with
      | PgOk _ i m => placed_pages pos count i m
      | PgThrow i => (Threw, i, m)
      | PgExit i => (Exited, i, m)
      end
  | AtZero pos count => placed_pages pos count i m
  | AtMark p n pos count => advanced pos count (set_pages p n true i) m
  | AtAdvance pos count => advanced pos count i m
  | AtClear p n => (Returned 0, set_pages p n false i, m)
  | AtUnlock r => (r, i, m)
  end.

Lemma finish_entry o i m : finish (entry o) i m = settle (atomic o i m) m.
Proof. by destruct o. Qed.

Lemma follow_contents i m u i' m' : remap_shared_memory i m = PgOk u i' m' -> m' = m.
Proof.
  unfold remap_shared_memory, internal_remap_shm. destruct (_ <? _); [|congruence].
  destruct (_ =? _); [done|]. destruct (negb _); [done|]. congruence.
Qed.

(** A step does not change where the operation ends. *)
Lemma page_step_finish pc i m :
  finish (page_step pc i m).1.1 (page_step pc i m).1.2 (page_step pc i m).2 = finish pc i m.
Proof.
  destruct pc as [count|count|pos count|pos count|p [|n] pos count|pos count|p [|n]|r]; try done; cbn [page_step finish].
  - unfold requestContinousFreePages. destruct (remap_shared_memory i m) as [u i1 m1| |] eqn:E; [|done|done].
    apply follow_contents in E as ->. done.
  - unfold requestContinousFreePagesInternal. destruct (findContinousFreePages i count) as [pos|]; [|done].
    cbn [fst snd finish]. by destruct (ensure_mapped pos count i m) as [u i1 m1| |].
  - by destruct (ensure_mapped pos count i m) as [u i1 m1| |].
Qed.

(** ** Views *)

Lemma view_commit a x i m : view proc_of (commit proc_of a x i m) x = i.
Proof. unfold view, local_info, commit. cbn. rewrite lookup_insert_eq. by destruct i. Qed.

Lemma commit_commit a x i m i' m' :
  commit proc_of (commit proc_of a x i m) x i' m' = commit proc_of a x i' m'.
Proof. unfold commit. cbn. by rewrite insert_insert_eq. Qed.

Lemma serial_snoc l x o a :
  serial proc_of (l ++ [(x, o)]) a =
  ((serial proc_of l a).1 ++ [(serial_op proc_of x o (serial proc_of l a).2).1], (serial_op proc_of x o (serial proc_of l a).2).2).
Proof.
  revert a. induction l as [|[y o'] l IH]; intros a; cbn [serial app].
  - cbn [fst snd]. by destruct (serial_op proc_of x o a).
  - destruct (serial_op proc_of y o' a) as [r a1]. rewrite IH. by destruct (serial proc_of l a1).
Qed.

(** ** The invariant *)

Definition outside (t : thread) : Prop := match t with Inside _ _ => False | _ => True end.

(** Thread [x] is inside: its operation began in [a]. *)
Definition busy a (s : psys) x : Prop := exists o pc,
  threads s x = Inside o pc /\ (forall y, y <> x -> outside (threads s y))
  /\ finish pc (view proc_of (machine s) x) (contents (machine s)) = settle (atomic o (view proc_of a x) (contents a)) (contents a)
  /\ (machine s = a /\ pc = entry o
      \/ machine s = commit proc_of a x (view proc_of (machine s) x) (contents (machine s))).

Definition lock_inv a0 (s : psys) : Prop := exists a,
  serial proc_of (returned s).*1 a0 = ((returned s).*2, a)
  /\ (mtx s = Some 1 /\ (forall x, outside (threads s x)) /\ machine s = a
      \/ mtx s = Some 0 /\ exists x, busy a s x).

Lemma outside_insert (f : nat -> thread) x t y : outside t -> (y <> x -> outside (f y)) -> outside (<[x := t]> f y).
Proof.
  intros Ht Hf. destruct (decide (y = x)) as [->|Hne]; [by rewrite fn_lookup_insert|].
  rewrite fn_lookup_insert_ne by done. by apply Hf.
Qed.

Lemma lock_inv_init i m u : lock_inv (machine (page_init i m u)) (page_init i m u).
Proof. exists (machine (page_init i m u)). split; [done|]. by left. Qed.

(** The thread that is inside is [x]. *)
Lemma busy_inside a s x y o pc : busy a s x -> threads s y = Inside o pc -> y = x.
Proof.
  intros (o' & pc' & _ & Hout & _) Hy. destruct (decide (y = x)) as [|Hne]; [done|].
  specialize (Hout y Hne). by rewrite Hy in Hout.
Qed.

(** Waiting for the lock, or starting to. *)
Lemma lock_inv_outside a0 s x t :
  lock_inv a0 s -> outside (threads s x) -> outside t -> lock_inv a0 (set_thread x t s).
Proof.
  intros (a & Ha & [(Hm & Hout & Hs)|(Hm & y & o & pc & Hy & Hout & Hrest)]) Hx Ht; exists a; split; try done.
  - left. split; [done|]. split; [|done]. intros y. by apply outside_insert.
  - right. split; [done|]. exists y, o, pc. destruct (decide (x = y)) as [->|Hne]; [by rewrite Hy in Hx|].
    cbn [set_thread threads machine]. rewrite fn_lookup_insert_ne by done. split; [done|]. split; [|done].
    intros z Hz. apply outside_insert; [done|]. intros _. by apply Hout.
Qed.

Lemma lock_inv_lock a0 s x s' : lock_inv a0 s -> exec_lock false x s = Some s' -> lock_inv a0 s'.
Proof.
  intros (a & Ha & Hs) E. unfold exec_lock in E. destruct (threads s x) as [|o|] eqn:Ex; try done.
  destruct Hs as [(Hm & Hout & Hs)|(Hm & _)]; rewrite Hm in E; [|done]. injection E as <-.
  exists a. split; [done|]. right. split; [done|]. exists x, o, (entry o).
  cbn [set_thread set_mtx threads machine]. rewrite fn_lookup_insert. split; [done|]. split; [|split].
  - intros y Hy. rewrite fn_lookup_insert_ne by done. apply Hout.
  - by rewrite finish_entry, Hs.
  - by left.
Qed.

Lemma lock_inv_work a0 s x s' : lock_inv a0 s -> exec_page proc_of (Work x) s = Some s' -> lock_inv a0 s'.
Proof.
  intros (a & Ha & Hs) E. cbn [exec_page] in E. destruct (threads s x) as [| |o pc] eqn:Ex; [done|done|].
  destruct Hs as [(_ & Hout & _)|(Hm & z & Hz)]; [specialize (Hout x); by rewrite Ex in Hout|].
  pose proof (busy_inside a s z x o pc Hz Ex) as <-. destruct Hz as (o' & pc' & Hx & Hout & Hf & Hc).
  rewrite Ex in Hx. injection Hx as <- <-.
  pose proof (page_step_finish pc (view proc_of (machine s) x) (contents (machine s))) as Hstep.
  destruct (page_step pc _ _) as [[pc1 i1] m1]. cbn [fst snd] in Hstep.
  assert (commit proc_of (machine s) x i1 m1 = commit proc_of a x i1 m1) as Hcc.
  { destruct Hc as [[-> _]| ->]; [done|]. by rewrite commit_commit. }
  assert (s' = mkPs (mtx s) (commit proc_of (machine s) x i1 m1) (<[x := Inside o pc1]> (threads s)) (returned s)) as ->
    by (destruct pc; congruence).
  exists a. split; [done|]. right. split; [done|]. exists x, o, pc1. cbn [threads machine]. rewrite fn_lookup_insert.
  split; [done|]. split; [intros y Hy; rewrite fn_lookup_insert_ne by done; by apply Hout|].
  rewrite view_commit. split; [by rewrite <- Hf, <- Hstep|]. by right.
Qed.

Lemma lock_inv_unlock a0 s x s' : lock_inv a0 s -> exec_page proc_of (Unlock x) s = Some s' -> lock_inv a0 s'.
Proof.
  intros (a & Ha & Hs) E. cbn [exec_page] in E. destruct (threads s x) as [| |o pc] eqn:Ex; [done|done|].
  destruct Hs as [(_ & Hout & _)|(Hm & z & Hz)]; [specialize (Hout x); by rewrite Ex in Hout|].
  pose proof (busy_inside a s z x o pc Hz Ex) as <-. destruct Hz as (o' & pc' & Hx & Hout & Hf & Hc).
  rewrite Ex in Hx. injection Hx as <- <-. destruct pc as [| | | | | | |r]; try done.
  destruct Hc as [[_ Hc]|Hc]; [by destruct o|]. cbn [finish] in Hf.
  assert (s' = mkPs (SharedMutex_unlock (mtx s)) (machine s) (<[x := Idle]> (threads s)) (returned s ++ [(x, o, r)])) as ->
    by (destruct r; congruence).
  exists (machine s). cbn [returned machine mtx threads]. rewrite !fmap_app. cbn [fmap list_fmap fst snd].
  rewrite serial_snoc, Ha. cbn [fst snd]. unfold serial_op. rewrite <- Hf, <- Hc. cbn [fst snd]. split; [done|].
  left. rewrite Hm. split; [done|]. split; [|done]. intros y. apply outside_insert; [done|apply Hout].
Qed.

Lemma lock_inv_reach s0 s : lock_inv (machine s0) s0 -> page_reach proc_of s0 s -> lock_inv (machine s0) s.
Proof.
  intros H0. induction 1 as [|s a s' Hr IH Ha E]; [done|]. destruct a as [x o|x| |x|x|]; try done.
  - cbn [exec_page] in E. destruct (threads s x) as [| |] eqn:Ex; try done. injection E as <-.
    apply lock_inv_outside; [done|by rewrite Ex|done].
  - by eapply lock_inv_lock.
  - by eapply lock_inv_work.
  - by eapply lock_inv_unlock.
Qed.

(** Some thread can go on, unless one has exited inside the guard. *)
Lemma lock_progress a0 s x o : lock_inv a0 s -> threads s x = Locking o ->
  (exists y o', threads s y = Inside o' (AtUnlock Exited))
  \/ exists y b s', b ∈ [Lock y; Work y; Unlock y] /\ exec_page proc_of b s = Some s'.
Proof.
  intros (a & _ & [(Hm & _ & _)|(_ & y & o' & pc & Hy & _)]) Hx.
  - right. eexists x, (Lock x), _. split; [set_solver|]. cbn [exec_page]. unfold exec_lock. by rewrite Hx, Hm.
  - destruct (exec_page proc_of (Work y) s) as [s'|] eqn:E; [right; exists y, (Work y), s'; by set_solver|].
    cbn [exec_page] in E. rewrite Hy in E.
    destruct pc as [| | | | | | |r]; [by destruct (page_step _ _ _) as [[? ?] ?]..|].
    destruct r; [right; eexists y, (Unlock y), _; (split; [set_solver|]); cbn [exec_page]; by rewrite Hy..|].
    left. eauto.
Qed.

(** C14: the semaphore of the segment makes the page operations atomic.  In
    every interleaving of their steps, by any threads of any processes, in
    which [semop] does not fail: at most one thread is inside the guard; when
    none is, the segment, the sizes each process has mapped and the results
    returned so far are those of the same operations run one after the other
    in the order in which they returned; and while a thread waits for the
    lock, some thread can go on, unless one called [exit] inside the guard. *)
Theorem page_ops_serial i m u s :
  let s0 := page_init i m u in
  page_reach proc_of s0 s ->
  (forall x y o o' pc pc', threads s x = Inside o pc -> threads s y = Inside o' pc' -> x = y)
  /\ ((forall x, outside (threads s x)) ->
      serial proc_of (returned s).*1 (machine s0) = ((returned s).*2, machine s))
  /\ (forall x o, threads s x = Locking o ->
      (exists y o', threads s y = Inside o' (AtUnlock Exited))
      \/ exists y b s', b ∈ [Lock y; Work y; Unlock y] /\ exec_page proc_of b s = Some s').
Proof.
  intros s0 Hr. pose proof (lock_inv_reach s0 s (lock_inv_init i m u) Hr) as Hi.
  split; [|split; [|intros x o; by apply (lock_progress (machine s0))]].
  - destruct Hi as (a & _ & [(_ & Hout & _)|(_ & z & Hz)]); intros x y o o' pc pc' Hx Hy.
    + specialize (Hout x). by rewrite Hx in Hout.
    + by rewrite (busy_inside a s z x o pc Hz Hx), (busy_inside a s z y o' pc' Hz Hy).
  - intros Hout. destruct Hi as (a & Ha & [(_ & _ & ->)|(_ & z & o & pc & Hz & _)]); [done|].
    specialize (Hout z). by rewrite Hz in Hout.
Qed.

End LockProps.

(** ** Runs *)

Fixpoint run_page `{K : Kernel} (proc_of : nat -> nat) (l : list page_action) (s : psys) : option psys :=
  match l with
  | [] => Some s
  | a :: l => s ← exec_page proc_of a s; run_page proc_of l s
  end.

Lemma run_page_reach `{K : Kernel} proc_of s0 l : forall s s',
  page_reach proc_of s0 s -> forallb undisturbed l = true -> run_page proc_of l s = Some s' -> page_reach proc_of s0 s'.
Proof.
  induction l as [|a l IH]; intros s s' Hs Hl; cbn [run_page forallb] in *; [congruence|].
  apply andb_true_iff in Hl as [Ha Hl]. destruct (exec_page proc_of a s) as [s1|] eqn:E; cbn [mbind option_bind]; [|done].
  intros Hrun. apply (IH s1); [by eapply page_next|done|done].
Qed.

(** Two processes with the segment of [small_bitmap]. *)
Definition two_processes : psys := page_init small_bitmap ∅ {[0%nat := (20480, false); 1%nat := (20480, false)]}.

(** Both ask for two pages; the second waits until the first is done. *)
Definition two_requests : list page_action :=
  [Call 0 (OpRequest 2); Lock 0; Work 0; Work 0; Call 1 (OpRequest 2)]
  ++ repeat (Work 0) 6 ++ [Unlock 0; Lock 1] ++ repeat (Work 1) 8 ++ [Unlock 1].

Lemma page_ops_serial_witness :
  match @run_page good_kernel (fun x => x) two_requests two_processes with
  | Some s => @serial good_kernel (fun x => x) [(0%nat, OpRequest 2); (1%nat, OpRequest 2)] (machine two_processes)
         = ([Returned 6; Returned 9], machine s)
  | None => False
  end.
Proof.
  destruct (@run_page good_kernel (fun x => x) two_requests two_processes) as [s|] eqn:E.
  2: apply (f_equal (fun r => match r with Some _ => true | None => false end)) in E; vm_compute in E; discriminate E.
  assert (returned s = [(0%nat, OpRequest 2, Returned 6); (1%nat, OpRequest 2, Returned 9)]) as Hr.
  { apply (f_equal (fun r => match r with Some s => returned s | None => [] end)) in E. cbv iota in E.
    rewrite <- E. vm_compute. reflexivity. }
  assert (forall x, outside (threads s x)) as Hout.
  { intros x. assert (threads s x = match @run_page good_kernel (fun x => x) two_requests two_processes with Some s => threads s x | None => Idle end) as ->
      by (by rewrite E). destruct x as [|[|x]]; vm_compute; exact I. }
  destruct (@page_ops_serial good_kernel (fun x => x) small_bitmap ∅ {[0%nat := (20480, false); 1%nat := (20480, false)]} s)
    as (_ & H & _).
  { apply (run_page_reach _ _ two_requests two_processes); [constructor|reflexivity|exact E]. }
  specialize (H Hout). rewrite Hr in H. exact H.
Defined.

(** ** A lock call that is interrupted *)

Section Interrupted.
Context `{K : Kernel} (proc_of : nat -> nat).
Implicit Types (s : psys) (i : shm_info) (m : memory) (f : nat -> thread).


Definition same_room i i' : Prop :=
  shared_size i' = shared_size i /\ pagesize_ i' = pagesize_ i /\ current_mapped_size i' = current_mapped_size i.

Lemma set_page_room p b i : same_room i (set_page p b i).
Proof. done. Qed.


















End Interrupted.


