(* ===== verification/FreeProps.v ===== *)
(** * Small bins and the unsorted list

    The small-bin path of [_int_malloc], the consolidating path of
    [_int_free] for a chunk between two chunks in use and for one between a
    free chunk and the top chunk, and the exact fit from the unsorted list
    ([src/libipc/malloc/malloc.c]). *)

From S2P Require Import Prelude MallocState MallocCore MallocInt SizeFacts ListFacts BinProps InitProps.

(** A cell of the header of chunk [x] (at offset 0 or 8) is not a link of a
    node that is apart from [x]. *)
Lemma head_not_link x y o : apart x y -> o = 0 \/ o = 8 -> y + off_fd <> x + o /\ y + off_bk <> x + o.
Proof. unfold apart, off_fd, off_bk. lia. Qed.

(** Stores to headers keep the bin lists of nodes apart from them. *)
Lemma bin_list_head m b l x o v :
  (forall y, y ∈ b :: l -> apart x y) -> o = 0 \/ o = 8 ->
  bin_list m b l -> bin_list (<[x + o := v]> m) b l.
Proof.
  intros Hx Ho. apply bin_list_frame; intros a Ha;
    destruct (head_not_link x a o (Hx a Ha) Ho); by rewrite ld_insert_ne.
Qed.

Section Small.
Context `{PS : PageSource}.

(** A small request takes the oldest chunk of its bin.  When the small bin
    of the padded size is not empty, the allocation returns its last chunk,
    the bin keeps the others in order, and the chunk is marked in use in the
    header that follows it. *)
Theorem int_malloc_small_takes_oldest (fuel : nat) (s : state) (av nb bytes v : Z) (l : list Z) :
  good_size nb -> in_smallbin_range nb = true ->
  bin_list (st_mem s) (bin_at av (smallbin_index nb)) (l ++ [v]) ->
  0 < v -> v + nb < 18446744073709551616 ->
  (forall x, x ∈ bin_at av (smallbin_index nb) :: l ++ [v] -> apart (v + nb) x) ->
  perturb_byte (st_gl s) = 0 ->
  exists s', int_malloc_small fuel av nb bytes s = Ok (Some (chunk2mem v)) s'
    /\ bin_list (st_mem s') (bin_at av (smallbin_index nb)) l
    /\ prev_inuse s' (v + nb) = true.
Proof.
  set (b := bin_at av (smallbin_index nb)). intros [_ Hnb] Hsm Hl Hv Hend Hap Hper.
  pose proof (bin_list_neighbours _ _ _ _ _ Hl) as (HB & _ & HB' & HF'). simpl hd in HF'.
  set (B := List.last (b :: l) b) in *.
  assert (v <> b) as Hvb by (destruct Hl as (_ & Hn & _); apply list.NoDup_cons in Hn; set_solver).
  unfold int_malloc_small. mexec. rewrite Hsm. fold b. unfold last, fd, bk, word. mexec.
  rewrite HF', (proj2 (Z.eqb_neq v b) Hvb), (proj2 (Z.eqb_neq v 0)) by lia.
  rewrite HB, HB', Z.eqb_refl. cbn [negb]. unfold set_inuse_bit_at_offset, alloc_perturb. mexec.
  rewrite u64_small by lia.
  set (h := size_ s (v + nb) |w PREV_INUSE).
  set (m1 := <[v + nb + off_size := h]> (st_mem s)).
  assert (bin_list m1 b (l ++ [v])) as Hl1 by (apply bin_list_head; auto).
  apply bin_list_remove in Hl1. simpl hd in Hl1. rewrite app_nil_r in Hl1. fold B in Hl1.
  assert (b ∈ b :: l ++ [v] /\ B ∈ b :: l ++ [v]) as [Hb Hbb]
    by (pose proof (last_elem b l b); set_solver).
  assert (ld (relink B b m1) (v + nb + 8) = h) as Hh.
  { destruct (head_not_link _ _ 8 (Hap b Hb)) as [_ ?]; [auto|].
    destruct (head_not_link _ _ 8 (Hap B Hbb)) as [? _]; [auto|].
    unfold relink. rewrite !ld_insert_ne by done. unfold m1, off_size. apply ld_insert_eq. }
  pose proof (truthy_lor (size_ s (v + nb)) PREV_INUSE ltac:(done)) as Hset.
  destruct (negb (av =? main_arena (st_gl s))); mexec;
    rewrite Hper; change (truthy 0) with false; mexec;
    (eexists; split; [reflexivity|]); cbn [upd_mem st_mem]; fold m1; fold (relink B b m1).
  - split.
    + apply bin_list_head; [|auto|done]. intros y Hy. destruct Hl as (_ & _ & Hs). apply Hs; set_solver.
    + unfold prev_inuse, size_, word. cbn [upd_mem st_mem]. fold m1. fold (relink B b m1). unfold off_size.
      rewrite ld_insert_ne by lia. by rewrite Hh.
  - split; [done|]. unfold prev_inuse, size_, word. cbn [upd_mem st_mem]. fold m1. fold (relink B b m1).
    unfold off_size. by rewrite Hh.
Qed.

(** ** Freeing between two chunks in use *)

(** The chunk [p] of [size] bytes, between two chunks in use and not next to
    [top], that [_int_free] accepts on the consolidating path; [l] is the
    unsorted list. *)
Record plain_chunk (s : state) (av p size : Z) (l : list Z) : Prop := {
  pc_align : p mod 16 = 0;
  pc_pos : 0 < p /\ p + size + 16 < 18446744073709551616;
  pc_size : chunksize s p = size /\ size mod 16 = 0 /\ 32 <= size < FASTBIN_CONSOLIDATION_THRESHOLD;
  pc_slow : get_max_fast s < size;
  pc_heap : chunk_is_mmapped s p = false;
  pc_check : int_free_check s av p size = None;
  pc_prev : prev_inuse s p = true;
  pc_top : p + size <> top s av;
  pc_next : inuse_bit_at_offset s (p + size) (chunksize s (p + size)) = true;
  pc_list : bin_list (st_mem s) (unsorted_chunks av) l;
  pc_new : p ∉ unsorted_chunks av :: l;
  pc_spaced : spaced (p :: unsorted_chunks av :: l);
  pc_apart : forall x, x ∈ p :: unsorted_chunks av :: l -> apart (p + size) x;
  pc_perturb : perturb_byte (st_gl s) = 0
}.

(** The memory after [p] went to the front of the unsorted list. *)
Definition unsorted_front (s : state) (av p size : Z) : memory :=
  let u := unsorted_chunks av in
  let fwd := ld (st_mem s) (u + off_fd) in
  let m := <[p + size + off_size := size_ s (p + size) &w !w PREV_INUSE]> (st_mem s) in
  let m := <[p + off_bk := u]> (<[p + off_fd := fwd]> m) in
  let m := if in_smallbin_range size then m
           else <[p + off_bk_nextsize := 0]> (<[p + off_fd_nextsize := 0]> m) in
  <[p + size + off_prev_size := size]>
    (<[p + off_size := size |w PREV_INUSE]>
      (<[fwd + off_bk := p]> (<[u + off_fd := p]> m))).

Lemma plain_fwd s av p size l :
  plain_chunk s av p size l ->
  let u := unsorted_chunks av in
  ld (st_mem s) (u + off_fd) = hd u l /\ ld (st_mem s) (hd u l + off_bk) = u.
Proof.
  intros Hp. destruct (pc_list _ _ _ _ _ Hp) as (Hc & _). destruct l as [|y l]; [exact Hc|]. by destruct Hc.
Qed.

Lemma int_free_consolidate_plain s av p size l :
  plain_chunk s av p size l ->
  int_free_consolidate av p size s = Ok (inl size) (with_mem (unsorted_front s av p size) s).
Proof.
  intros Hp. pose proof (plain_fwd _ _ _ _ _ Hp) as [Hf Hb]. destruct Hp.
  set (u := unsorted_chunks av) in *.
  unfold int_free_consolidate, chunk_at_offset, clear_inuse_bit_at_offset, unsorted_front. mexec.
  rewrite (u64_small (p + size)) by lia. rewrite pc_prev0. cbn [negb]. mexec.
  rewrite (proj2 (Z.eqb_neq _ _) pc_top0). cbn [negb]. rewrite pc_next0. cbn [negb]. mexec.
  rewrite Z.add_0_r, (u64_small (p + size)) by lia.
  unfold fd, bk, word. cbn [upd_mem st_mem]. fold u.
  assert (forall x, x ∈ u :: l -> p + size + off_size <> x + off_fd /\ p + size + off_size <> x + off_bk) as Hne.
  { intros x Hx. destruct (head_not_link (p + size) x 8) as [? ?]; [apply pc_apart0; set_solver|auto|].
    unfold off_size. lia. }
  rewrite (ld_insert_ne _ _ (u + off_fd)) by (apply Hne; set_solver). rewrite Hf.
  rewrite (ld_insert_ne _ _ (hd u l + off_bk)) by (apply Hne, hd_elem). rewrite Hb.
  fold u. rewrite Z.eqb_refl. cbn [negb]. mexec. unfold u.
  destruct (in_smallbin_range size); cbn [negb]; mexec; reflexivity.
Qed.

(** Distances between [p], the chunk after it, the header and the first entry. *)
Lemma plain_dist s av p size l :
  plain_chunk s av p size l ->
  let u := unsorted_chunks av in
  (forall x, x ∈ u :: l -> 32 <= Z.abs (p - x))
  /\ (forall x, x ∈ u :: l -> p + size = x \/ 32 <= Z.abs (p + size - x))
  /\ (forall x y, x ∈ u :: l -> y ∈ u :: l -> x = y \/ 32 <= Z.abs (x - y)).
Proof.
  intros [] u. split; [|split].
  - intros x Hx. destruct (pc_spaced0 p x) as [->|]; [set_solver|set_solver|done|done].
  - intros x Hx. apply pc_apart0. set_solver.
  - intros x y Hx Hy. apply pc_spaced0; set_solver.
Qed.

(** Reads of the new memory: the stores of the links and headers come last to
    first, and the two cells of the size list are only written in large chunks. *)
Lemma unsorted_front_ld s av p size l a :
  plain_chunk s av p size l -> size < 1024 \/ a <> p + 32 /\ a <> p + 40 ->
  let u := unsorted_chunks av in
  let F := hd u l in
  ld (unsorted_front s av p size) a =
  ld (<[p + size := size]> (<[p + 8 := size |w PREV_INUSE]> (<[F + 24 := p]> (<[u + 16 := p]>
       (<[p + 24 := u]> (<[p + 16 := F]>
          (<[p + size + 8 := size_ s (p + size) &w !w PREV_INUSE]> (st_mem s)))))))) a.
Proof.
  intros Hp Ha u F. pose proof (plain_fwd _ _ _ _ _ Hp) as [Hf _]. cbn zeta in Hf.
  unfold unsorted_front. rewrite Hf. fold u F.
  unfold off_size, off_prev_size, off_fd, off_bk, off_fd_nextsize, off_bk_nextsize. rewrite Z.add_0_r.
  set (m := <[p + 24 := u]> _).
  assert (ld (if in_smallbin_range size then m else <[p + 40 := 0]> (<[p + 32 := 0]> m)) a = ld m a) as E.
  { destruct (in_smallbin_range size) eqn:Esm; [done|].
    assert (~ size < 1024) by (rewrite <- in_smallbin_range_spec; by rewrite Esm).
    by rewrite !ld_insert_ne by lia. }
  rewrite !ld_insert. repeat case_decide; done.
Qed.

Lemma unsorted_front_list s av p size l :
  plain_chunk s av p size l ->
  bin_list (unsorted_front s av p size) (unsorted_chunks av) (p :: l).
Proof.
  intros Hp. pose proof (fun a => unsorted_front_ld _ _ _ _ _ a Hp) as Hld.
  destruct (plain_dist _ _ _ _ _ Hp) as (Dp & Dn & Dx). destruct Hp.
  set (u := unsorted_chunks av) in *. set (F := hd u l) in *. cbn zeta in Hld.
  assert (F ∈ u :: l) as HF by apply hd_elem. assert (u ∈ u :: l) as Hu by set_solver.
  pose proof (Dp u Hu). pose proof (Dp F HF). pose proof (Dn u Hu). pose proof (Dn F HF).
  pose proof (Dx u F Hu HF).
  apply (bin_list_insert (st_mem s)); try done; unfold linked, off_fd, off_bk.
  - split; rewrite Hld by lia; mem_simp; done.
  - fold F. split; rewrite Hld by lia; mem_simp; done.
  - clear H H0 H1 H2 H3. intros a Ha. assert (a ∈ u :: l) as Ha' by set_solver.
    pose proof (Dp a Ha'). pose proof (Dn a Ha'). pose proof (Dx a F Ha' HF). pose proof (Dx a u Ha' Hu).
    assert (a <> u) by (destruct pc_list0 as (_ & Hn & _); apply list.NoDup_cons in Hn; set_solver).
    rewrite Hld by lia. by rewrite !ld_insert_ne by lia.
  - clear H H0 H1 H2 H3. intros a Ha Hne. pose proof (Dp a Ha). pose proof (Dn a Ha). pose proof (Dx a u Ha Hu).
    fold F in Hne. rewrite Hld by lia. by rewrite !ld_insert_ne by lia.
Qed.

Lemma unsorted_front_headers s av p size l :
  plain_chunk s av p size l ->
  let s' := with_mem (unsorted_front s av p size) s in
  chunksize s' p = size /\ prev_size s' (p + size) = size /\ prev_inuse s' (p + size) = false.
Proof.
  intros Hp. cbn zeta. pose proof (fun a => unsorted_front_ld _ _ _ _ _ a Hp) as Hld.
  destruct (plain_dist _ _ _ _ _ Hp) as (Dp & Dn & _). destruct Hp. cbn zeta in Hld.
  set (u := unsorted_chunks av) in *. set (F := hd u l) in *.
  assert (F ∈ u :: l) as HF by apply hd_elem. assert (u ∈ u :: l) as Hu by set_solver.
  pose proof (Dp u Hu). pose proof (Dp F HF). pose proof (Dn u Hu). pose proof (Dn F HF).
  destruct pc_size0 as (Hsz & Hsz16 & Hsz32). clear Hsz. unfold FASTBIN_CONSOLIDATION_THRESHOLD in Hsz32.
  unfold chunksize, prev_inuse, prev_size, size_, word, off_size, off_prev_size.
  cbn [with_mem upd_mem st_mem]. rewrite Z.add_0_r. split; [|split]; rewrite Hld by lia.
  - rewrite ld_insert_ne, ld_insert_eq by lia. unfold PREV_INUSE. rewrite lor_16 by lia.
    change SIZE_BITS with 7. rewrite land_not7 by lia. zlia.
  - apply ld_insert_eq.
  - rewrite !ld_insert_ne by lia. rewrite ld_insert_eq. unfold truthy.
    rewrite <- Z.land_assoc. change (!w PREV_INUSE &w PREV_INUSE) with 0. by rewrite Z.land_0_r.
Qed.

(** The guards of [_int_free] on the way to the consolidating path. *)
Lemma int_free_slow_path fuel (s s1 : state) av p size total :
  p mod 16 = 0 -> 0 < p -> p + size <= 18446744073709551616 ->
  chunksize s p = size -> size mod 16 = 0 -> 32 <= size -> get_max_fast s < size ->
  chunk_is_mmapped s p = false -> int_free_check s av p size = None ->
  perturb_byte (st_gl s) = 0 ->
  int_free_consolidate av p size s = Ok (inl total) s1 ->
  _int_free fuel av p true s = int_free_trim fuel av total s1.
Proof.
  intros Hal Hp Hend Hsz H16 H32 Hmf Hheap Hck Hper Hrun.
  unfold _int_free. mexec. rewrite Hsz, MINSIZE_32. unfold misaligned_chunk, aligned_OK, truthy.
  change (MALLOC_ALIGNMENT =? 2 * SIZE_SZ) with true. cbv iota. change MALLOC_ALIGN_MASK with 15.
  rewrite !land_15, Hal, H16, u64_neg by lia.
  rewrite (proj2 (Z.ltb_ge _ p)), (proj2 (Z.ltb_ge size 32)), (proj2 (Z.leb_gt size _)) by lia.
  rewrite Hheap. cbn [negb orb]. change (0 =? 0) with true. cbn [negb orb]. mexec. rewrite Hck.
  unfold free_perturb. mexec. rewrite Hper. change (truthy 0) with false. mexec. rewrite Hrun. mexec.
  by destruct (int_free_trim fuel av total s1) as [[] ?|? ?|?|?|].
Qed.

(** Freeing a chunk between two chunks in use puts it at the front of the
    unsorted list: its header and footer carry its size, the header that
    follows says it is free, the older entries keep their order, and no lock,
    trim or report happens. *)
Theorem int_free_to_unsorted (fuel : nat) (s : state) (av p size : Z) (l : list Z) :
  plain_chunk s av p size l ->
  exists s', _int_free fuel av p true s = Ok tt s'
    /\ bin_list (st_mem s') (unsorted_chunks av) (p :: l)
    /\ chunksize s' p = size /\ prev_size s' (p + size) = size
    /\ prev_inuse s' (p + size) = false.
Proof.
  intros Hp. pose proof (unsorted_front_list _ _ _ _ _ Hp). pose proof (unsorted_front_headers _ _ _ _ _ Hp).
  exists (with_mem (unsorted_front s av p size) s). split; [|done].
  pose proof (int_free_consolidate_plain _ _ _ _ _ Hp) as Hrun. destruct Hp.
  destruct pc_size0 as (Hsz & Hsz16 & Hsz32). unfold FASTBIN_CONSOLIDATION_THRESHOLD in *.
  rewrite int_free_slow_path with (11 := Hrun) by (done || lia).
  unfold int_free_trim, FASTBIN_CONSOLIDATION_THRESHOLD.
  by rewrite (proj2 (Z.leb_gt 65536 size)) by lia.
Qed.

(** ** Exact fit *)

(** What the exit of an exact fit leaves: [p] is off the list and the header
    after it says it is in use, whether or not the arena bit of [p] is set. *)
Lemma exact_fit_mem m b l p nb w :
  32 <= nb -> bin_list m b (l ++ [p]) ->
  (forall x, x ∈ b :: l ++ [p] -> apart (p + nb) x) ->
  let m1 := relink (List.last (b :: l) b) b m in
  let m2 := <[p + nb + off_size := ld m1 (p + nb + off_size) |w PREV_INUSE]> m1 in
  let ok m' := bin_list m' b l /\ truthy (ld m' (p + nb + off_size) &w PREV_INUSE) = true in
  ok m2 /\ ok (<[p + off_size := w]> m2).
Proof.
  intros Hnb Hl Hap m1 m2 ok.
  assert (bin_list m1 b l) as H1.
  { pose proof (bin_list_remove _ _ _ _ _ Hl) as H. by rewrite app_nil_r in H. }
  assert (bin_list m2 b l) as H2.
  { apply bin_list_head; [|by right|done]. intros y Hy. apply Hap. set_solver. }
  assert (ok m2) as Hok.
  { split; [done|]. unfold m2. rewrite ld_insert_eq. by apply truthy_lor. }
  split; [done|]. destruct Hl as (_ & _ & Hs). split.
  - apply bin_list_head; [|by right|done]. intros y Hy. apply Hs; set_solver.
  - rewrite ld_insert_ne by (unfold off_size; lia). apply Hok.
Qed.

(** The turn of the unsorted loop that finds an exact fit at the end of the list. *)
Lemma unsorted_step_exact fuel (s : state) av nb bytes p l :
  good_size nb -> bin_list (st_mem s) (unsorted_chunks av) (l ++ [p]) ->
  chunksize s p = nb -> 16 < size_ s p <= system_mem s av ->
  0 < p -> p + nb + 32 < 18446744073709551616 ->
  (forall x, x ∈ unsorted_chunks av :: l ++ [p] -> apart (p + nb) x) ->
  perturb_byte (st_gl s) = 0 ->
  exists s', unsorted_step fuel av p nb bytes s = Ok (Some (chunk2mem p)) s'
    /\ bin_list (st_mem s') (unsorted_chunks av) l /\ prev_inuse s' (p + nb) = true.
Proof.
  set (u := unsorted_chunks av). intros [_ Hnb] Hl Hsz Hsys Hp Hend Hap Hper.
  pose proof (bin_list_neighbours _ _ _ _ _ Hl) as (HB & _ & _ & _).
  pose proof (fun w => exact_fit_mem _ _ _ _ nb w ltac:(lia) Hl Hap) as Hfit.
  set (B := List.last (u :: l) u) in *.
  unfold unsorted_step. mexec. unfold bk, word. rewrite HB. fold u.
  change (2 * SIZE_SZ) with 16.
  rewrite (proj2 (Z.leb_gt _ _)), (proj2 (Z.ltb_ge _ _)) by lia. cbn [orb]. mexec.
  rewrite Hsz, MINSIZE_32, (u64_small (nb + 32)) by lia.
  rewrite (proj2 (Z.ltb_ge (nb + 32) nb)), andb_false_r by lia. mexec. rewrite Z.eqb_refl.
  unfold set_inuse_bit_at_offset, alloc_perturb. mexec. rewrite u64_small by lia.
  destruct (negb (av =? main_arena (st_gl s))); mexec;
    rewrite Hper; change (truthy 0) with false; mexec; (eexists; split; [reflexivity|]);
    [apply Hfit|apply (Hfit 0)].
Qed.

(** An exact fit at the end of the unsorted list is handed out at once.
    When the oldest chunk of the unsorted list has exactly the padded size,
    and neither a fastbin, nor the small bin of that size, nor a pending
    consolidation comes first, [_int_malloc] returns that chunk, takes it off
    the list, and marks it in use. *)
Theorem int_malloc_exact_fit (fuel : nat) (s : state) (av nb bytes p : Z) (l : list Z) :
  checked_request2size bytes = Some nb -> good_size nb -> av <> 0 ->
  get_max_fast s < nb ->
  (if in_smallbin_range nb then last s (bin_at av (smallbin_index nb)) = bin_at av (smallbin_index nb)
   else have_fastchunks s av = false) ->
  bin_list (st_mem s) (unsorted_chunks av) (l ++ [p]) ->
  chunksize s p = nb -> 16 < size_ s p <= system_mem s av ->
  0 < p -> p + nb + 32 < 18446744073709551616 ->
  (forall x, x ∈ unsorted_chunks av :: l ++ [p] -> apart (p + nb) x) ->
  perturb_byte (st_gl s) = 0 ->
  exists s', _int_malloc fuel av bytes s = Ok (chunk2mem p) s'
    /\ bin_list (st_mem s') (unsorted_chunks av) l /\ prev_inuse s' (p + nb) = true.
Proof.
  intros Hreq Hnb Hav Hmf Hbin Hl Hsz Hsys Hp Hend Hap Hper.
  destruct (unsorted_step_exact fuel s av nb bytes p l) as (s' & Hrun & Hs'); try done.
  exists s'. split; [|done]. unfold _int_malloc.
  rewrite Hreq, (proj2 (Z.eqb_neq av 0) Hav). unfold int_malloc_fast, int_malloc_small. mexec.
  rewrite (proj2 (Z.leb_gt _ _)) by lia.
  pose proof (bin_list_neighbours _ _ _ _ _ Hl) as (_ & _ & _ & Hlast). simpl hd in Hlast.
  assert (p <> unsorted_chunks av) as Hpu
    by (destruct Hl as (_ & Hn & _); apply list.NoDup_cons in Hn; set_solver).
  assert (int_malloc_loop fuel 3 av nb bytes s = Ok (chunk2mem p) s') as Hloop.
  { cbn [int_malloc_loop].
    replace (Z.to_nat MAX_ITERS) with (S (Z.to_nat 9999)) by (unfold MAX_ITERS; lia).
    cbn [unsorted_loop]. mexec. unfold bk at 1, word.
    rewrite Hlast, (proj2 (Z.eqb_neq _ _) Hpu). unfold bk, word. rewrite Hlast, Hrun. reflexivity. }
  destruct (in_smallbin_range nb); rewrite Hbin; [rewrite Z.eqb_refl|]; exact Hloop.
Qed.

(** ** Coalescing *)

(** The chunk [p] of the main arena lies between a free chunk [q], which is on
    the list [l1 ++ q :: l2] of the bin [b], and the top chunk; the free
    routine accepts it on the consolidating path and no fast chunks are
    pending. *)
Record free_before_top (s : state) (av p q size b : Z) (l1 l2 : list Z) : Prop := {
  ft_main : av = main_arena (st_gl s);
  ft_align : p mod 16 = 0 /\ prev_size s p mod 16 = 0 /\ chunksize s (top s av) mod 16 = 0;
  ft_size : chunksize s p = size /\ size mod 16 = 0 /\ 32 <= size /\ get_max_fast s < size;
  ft_prev : prev_inuse s p = false /\ p = q + prev_size s p /\ 32 <= prev_size s p /\ 0 < q;
  ft_top : top s av = p + size;
  ft_end : 0 <= chunksize s (top s av) /\ top s av + chunksize s (top s av) < 18446744073709551616;
  ft_heap : chunk_is_mmapped s p = false;
  ft_check : int_free_check s av p size = None;
  ft_list : bin_list (st_mem s) b (l1 ++ q :: l2);
  ft_small : size_ s q < MIN_LARGE_SIZE \/ fd_nextsize s q = 0;
  ft_arena : forall x o, x ∈ b :: l1 ++ q :: l2 -> o = off_size \/ o = off_fd \/ o = off_bk ->
    x + o <> av + off_top /\ x + o <> av + off_flags;
  ft_fast : have_fastchunks s av = false;
  ft_perturb : perturb_byte (st_gl s) = 0
}.

(** The memory after the merge. *)
Definition merged_top (s : state) (av p q size b : Z) (l1 l2 : list Z) : memory :=
  let total := prev_size s p + size + chunksize s (top s av) in
  <[av + off_top := q]> (<[q + off_size := total |w PREV_INUSE]>
    (relink (List.last (b :: l1) b) (hd b l2) (st_mem s))).

(** The unlink does not touch the fields of the arena. *)
Lemma relink_arena s av p q size b l1 l2 :
  free_before_top s av p q size b l1 l2 ->
  let m1 := relink (List.last (b :: l1) b) (hd b l2) (st_mem s) in
  ld m1 (av + off_top) = ld (st_mem s) (av + off_top)
  /\ ld m1 (av + off_flags) = ld (st_mem s) (av + off_flags).
Proof.
  intros [] m1. set (B := List.last (b :: l1) b) in *. set (F := hd b l2) in *.
  assert (B ∈ b :: l1 ++ q :: l2) as HB by (pose proof (last_elem b l1 b); set_solver).
  assert (F ∈ b :: l1 ++ q :: l2) as HF by (pose proof (hd_elem b l2); set_solver).
  destruct (ft_arena0 B off_fd HB ltac:(auto)), (ft_arena0 F off_bk HF ltac:(auto)).
  unfold m1, relink. by rewrite !ld_insert_ne by done.
Qed.

Lemma merged_top_spec s av p q size b l1 l2 :
  free_before_top s av p q size b l1 l2 ->
  let s' := with_mem (merged_top s av p q size b l1 l2) s in
  top s' av = q /\ chunksize s' q = prev_size s p + size + chunksize s (top s av)
  /\ prev_inuse s' q = true /\ bin_list (st_mem s') b (l1 ++ l2) /\ have_fastchunks s' av = false.
Proof.
  intros Hft s'. pose proof (relink_arena _ _ _ _ _ _ _ _ Hft) as [_ Hfl]. destruct Hft.
  assert (q ∈ b :: l1 ++ q :: l2) as Hq by set_solver.
  destruct (ft_arena0 q off_size Hq ltac:(auto)) as [Hqt Hqf].
  destruct ft_align0 as (_ & Hps16 & Htop16), ft_size0 as (_ & H16 & H32 & _), ft_prev0 as (_ & Hqp & Hps & Hq0).
  subst s'. unfold merged_top, top, chunksize, prev_inuse, have_fastchunks, flags, size_, word in *.
  cbn [with_mem upd_mem st_mem]. set (m1 := relink _ _ _) in *.
  set (T := ld (st_mem s) (ld (st_mem s) (av + off_top) + off_size) &w !w SIZE_BITS) in *.
  set (total := prev_size s p + size + T).
  assert (total mod 16 = 0) as Ht16 by (unfold total; zlia).
  split; [apply ld_insert_eq|]. rewrite ld_insert_ne, ld_insert_eq by done.
  unfold PREV_INUSE. rewrite lor_16 by (done || lia).
  split; [|split; [|split]].
  - change SIZE_BITS with 7. rewrite land_not7 by (unfold total; lia). zlia.
  - unfold truthy. rewrite land_1. apply negb_true_iff, Z.eqb_neq. zlia.
  - pose proof (bin_list_remove _ _ _ _ _ ft_list0) as Hl. fold m1 in Hl.
    apply (bin_list_head _ _ _ q off_size (total + 1)) in Hl; [|intros y Hy|by right].
    + revert Hl. apply bin_list_frame; intros a Ha; apply ld_insert_ne, not_eq_sym;
        apply ft_arena0; auto; set_solver.
    + destruct ft_list0 as (_ & _ & Hs). apply Hs; set_solver.
  - rewrite !ld_insert_ne, Hfl by (unfold off_flags, off_top in *; lia). done.
Qed.

Lemma int_free_consolidate_top s av p q size b l1 l2 :
  free_before_top s av p q size b l1 l2 ->
  int_free_consolidate av p size s
  = Ok (inl (prev_size s p + size + chunksize s (top s av)))
       (with_mem (merged_top s av p q size b l1 l2) s).
Proof.
  intros Hft. pose proof (relink_arena _ _ _ _ _ _ _ _ Hft) as [Htop _].
  destruct Hft, ft_prev0 as (Hpi & Hq & Hps & Hq0), ft_size0 as (Hsz & _ & H32 & _).
  pose proof (unlink_run s av b l1 q l2 ft_list0 ft_small0) as Hun.
  unfold int_free_consolidate, chunk_at_offset. mexec. rewrite Hpi. cbn [negb].
  replace (p + - prev_size s p) with q by lia. rewrite (u64_small q), (u64_small (p + size)) by lia.
  unfold merged_top. set (m1 := relink _ _ _) in *. rewrite Hun. mexec.
  assert (top (with_mem m1 s) av = p + size) as -> by (by rewrite <- ft_top0).
  rewrite Z.eqb_refl, ft_top0. cbn [negb]. mexec.
  rewrite ft_top0 in ft_end0. rewrite (u64_small (size + _)), u64_small by lia.
  by replace (size + prev_size s p) with (prev_size s p + size) by lia.
Qed.

(** Freeing coalesces on both sides.  A chunk between a free chunk and the
    top chunk becomes, with both, the new top chunk: the free neighbour leaves
    its bin, whose other chunks keep their order, the new top starts where the
    free neighbour started and has the three sizes together. *)
Theorem int_free_merges_into_top (fuel : nat) (s : state) (av p q size b : Z) (l1 l2 : list Z) :
  free_before_top s av p q size b l1 l2 ->
  exists s', _int_free fuel av p true s = Ok tt s'
    /\ top s' av = q
    /\ chunksize s' q = prev_size s p + size + chunksize s (top s av)
    /\ prev_inuse s' q = true
    /\ bin_list (st_mem s') b (l1 ++ l2).
Proof.
  intros Hft. pose proof (int_free_consolidate_top _ _ _ _ _ _ _ _ Hft) as Hrun.
  exists (with_mem (merged_top s av p q size b l1 l2) s).
  destruct (merged_top_spec _ _ _ _ _ _ _ _ Hft) as (Htop & Hsize & Hinuse & Hlist & Hfast).
  split; [|done]. destruct Hft. destruct ft_size0 as (Hsz & H16 & H32 & Hmf), ft_align0 as (Hal & _).
  destruct ft_prev0 as (_ & Hq & Hps & Hq0).
  rewrite int_free_slow_path with (11 := Hrun) by (done || lia).
  unfold int_free_trim. mexec.
  destruct (FASTBIN_CONSOLIDATION_THRESHOLD <=? _); mexec; [|reflexivity].
  rewrite Hfast. mexec. rewrite <- ft_main0, Z.eqb_refl. mexec.
  destruct (trim_threshold _ <=? _); mexec; [by rewrite systrim_keeps|reflexivity].
Qed.

End Small.

(** ** Examples *)

Lemma int_malloc_small_takes_oldest_witness :
  exists s', int_malloc_small 1 4096 64 56 (state_of two_chunks 4096) = Ok (Some (chunk2mem 16640)) s'
    /\ bin_list (st_mem s') (bin_at 4096 4) [16384].
Proof.
  destruct (int_malloc_small_takes_oldest 1 (state_of two_chunks 4096) 4096 64 56 16640 [16384])
    as (s' & H & Hl & _); [split; [reflexivity|lia]|reflexivity|apply two_chunks_list|lia|lia| |reflexivity|by exists s'].
  intros x Hx. change (bin_at 4096 (smallbin_index 64)) with 4272 in Hx. set_unfold. unfold apart. lia.
Defined.

(** An arena at 4096: a chunk of 256 bytes at 16384, then one in use of 64
    bytes, then [top] at 16704; [fd_] and [bk_] are the links of the unsorted
    list's header and [more] the other cells. *)
Definition row (fd_ bk_ : Z) (more : list (Z * Z)) : @state bump_source :=
  let u := unsorted_chunks 4096 in
  state_of (list_to_map ([(16384 + 8, 257); (16640 + 8, 65); (16704 + 8, 65537);
    (4096 + off_top, 16704); (4096 + off_system_mem, 1048576);
    (u + 16, fd_); (u + 24, bk_)] ++ more)) 4096.

Lemma int_free_to_unsorted_witness :
  let u := unsorted_chunks 4096 in
  exists s', _int_free 1 4096 16384 true (row u u []) = Ok tt s'
    /\ bin_list (st_mem s') u [16384].
Proof.
  intros u. destruct (int_free_to_unsorted 1 (row u u []) 4096 16384 256 []) as (s' & H & Hl & _); [|by exists s'].
  split; try reflexivity; try (split; reflexivity).
  - split; [reflexivity|]. split; [reflexivity|]. split; [vm_compute; discriminate|reflexivity].
  - vm_compute; discriminate.
  - split; [split; reflexivity|]. split; [apply list.NoDup_cons; split; [set_solver|constructor]|].
    intros x y Hx Hy. set_unfold. unfold apart. lia.
  - change (unsorted_chunks 4096) with 4224. set_unfold. lia.
  - intros x y Hx Hy. change (unsorted_chunks 4096) with 4224 in *. set_unfold. unfold apart. lia.
  - intros x Hx. change (unsorted_chunks 4096) with 4224 in *. set_unfold. unfold apart. lia.
Defined.

(** An arena at 4096 without fast chunks: a free chunk of 96 bytes at 16384,
    alone in its bin, a chunk in use of 256 bytes at 16480, and [top] at 16736. *)
Definition before_top : @state bump_source :=
  let b := bin_at 4096 6 in
  state_of (list_to_map [(16384 + 8, 97); (16480, 96); (16480 + 8, 256); (16736 + 8, 65537);
    (4096 + off_top, 16736); (4096 + off_system_mem, 1048576); (4096 + off_flags, FASTCHUNKS_BIT);
    (b + 16, 16384); (b + 24, 16384); (16384 + 16, b); (16384 + 24, b)]) 4096.

Lemma int_free_merges_into_top_witness :
  exists s', _int_free 1 4096 16480 true before_top = Ok tt s'
    /\ top s' 4096 = 16384 /\ chunksize s' 16384 = 65888.
Proof.
  destruct (int_free_merges_into_top 1 before_top 4096 16480 16384 256 (bin_at 4096 6) [] [])
    as (s' & H & H1 & H2 & _); [|by exists s'].
  change (bin_at 4096 6) with 4304. split; try reflexivity; try (left; reflexivity).
  - repeat split; reflexivity.
  - repeat split; try reflexivity; vm_compute; discriminate.
  - repeat split; try reflexivity; vm_compute; discriminate.
  - repeat split; try reflexivity; vm_compute; discriminate.
  - split; [repeat split; reflexivity|]. split; [apply (bool_decide_unpack _); vm_compute; exact I|].
    intros x y Hx Hy. set_unfold. unfold apart. lia.
  - intros x o Hx Ho. set_unfold. unfold off_top, off_flags, off_size, off_fd, off_bk in *. lia.
Defined.

Lemma int_malloc_exact_fit_witness :
  let u := unsorted_chunks 4096 in
  let b := bin_at 4096 16 in
  exists s', _int_malloc 1 4096 248 (row 16384 16384 [(16384 + 16, u); (16384 + 24, u); (b + 24, b)])
             = Ok (chunk2mem 16384) s'
    /\ bin_list (st_mem s') u [].
Proof.
  intros u b.
  destruct (int_malloc_exact_fit 1 (row 16384 16384 [(16384 + 16, u); (16384 + 24, u); (b + 24, b)])
              4096 256 248 16384 []) as (s' & H & Hl & _);
    [reflexivity|split; [reflexivity|lia]|lia|reflexivity|reflexivity| |reflexivity
    |split; [reflexivity|vm_compute; discriminate]|lia|lia| |reflexivity|by exists s'].
  - split; [repeat split; reflexivity|]. change (unsorted_chunks 4096) with 4224. split.
    + apply list.NoDup_cons. split; [set_solver|]. apply list.NoDup_cons. split; [set_solver|constructor].
    + intros x y Hx Hy. set_unfold. unfold apart. lia.
  - intros x Hx. change (unsorted_chunks 4096) with 4224 in *. set_unfold. unfold apart. lia.
Defined.
