(* ===== verification/HeapSpec.v ===== *)
(** * The heap of an arena as a row of blocks

    An abstract heap is a list of blocks, each with a size and a mark, and the
    size of the top chunk.  [seg] says that the headers and footers of
    [src/libipc/malloc/malloc.c] describe such a list.  The abstract operations
    are allocation and freeing with coalescing. *)

From S2P Require Import Prelude MallocState MallocCore MallocInt SizeFacts ListFacts Rings LargeBin Bins.

(** ** Abstract heaps *)

Record block := mkBlock { bsize : Z; bused : bool }.

Fixpoint total (l : list block) : Z :=
  match l with
  | [] => 0
  | b :: l => bsize b + total l
  end.

(** A free block next to the one that is freed is taken off the row. *)
Definition take_free_last (l : list block) : list block * Z :=
  match reverse l with
  | b :: r => if bused b then (l, 0) else (reverse r, bsize b)
  | [] => (l, 0)
  end.

Definition take_free_head (l : list block) : list block * Z :=
  match l with
  | b :: r => if bused b then (l, 0) else (r, bsize b)
  | [] => (l, 0)
  end.

(** Free the block of size [sz] between [pre] and [post]: it grows by its free
    neighbours, and becomes a part of the top chunk when nothing follows. *)
Definition abs_free (pre : list block) (sz : Z) (post : list block) (T : Z) : list block * Z :=
  let '(pre0, psz) := take_free_last pre in
  let '(post0, nsz) := take_free_head post in
  match post with
  | [] => (pre0, psz + sz + T)
  | _ => (pre0 ++ mkBlock (psz + sz + nsz) false :: post0, T)
  end.

Definition abs_malloc_top (nb : Z) (l : list block) (T : Z) : list block * Z :=
  (l ++ [mkBlock nb true], T - nb).

(** Sizes are chunk sizes, and no two free blocks are neighbours; [prev] is
    the mark of the block before the row. *)
Fixpoint row_ok (prev : bool) (l : list block) : Prop :=
  match l with
  | [] => prev = true
  | b :: l => bsize b mod 16 = 0 /\ 32 <= bsize b /\ (bused b = false -> prev = true) /\ row_ok (bused b) l
  end.

Lemma total_app l1 l2 : total (l1 ++ l2) = total l1 + total l2.
Proof. induction l1 as [|b l1 IH]; simpl; [done|]. rewrite IH. lia. Qed.

Lemma take_free_last_snoc l b : take_free_last (l ++ [b]) = if bused b then (l ++ [b], 0) else (l, bsize b).
Proof. unfold take_free_last. rewrite reverse_snoc. by rewrite reverse_involutive. Qed.

Lemma take_free_total l :
  total (take_free_last l).1 + (take_free_last l).2 = total l
  /\ total (take_free_head l).1 + (take_free_head l).2 = total l.
Proof.
  split.
  - destruct l as [|b l _] using rev_ind; [done|]. rewrite take_free_last_snoc.
    destruct (bused b); simpl; [lia|]. rewrite total_app. simpl. lia.
  - destruct l as [|b l]; [done|]. simpl. destruct (bused b); simpl; lia.
Qed.

(** Freeing neither loses nor invents memory. *)
Lemma abs_free_total pre sz post T :
  let r := abs_free pre sz post T in total r.1 + r.2 = total pre + sz + total post + T.
Proof.
  unfold abs_free. destruct (take_free_total pre) as [Hp _], (take_free_total post) as [_ Hn].
  destruct (take_free_last pre) as [pre0 psz], (take_free_head post) as [post0 nsz]. cbn [fst snd] in *.
  destruct post as [|b post]; cbn [fst snd]; [simpl in *; lia|]. rewrite total_app. cbn [total bsize] in *. lia.
Qed.

(** ** Rows in memory *)

Section Rows.
Implicit Types (m : memory) (a : Z) (l : list block).

(** The row [l] from address [a] on; [prev] and [prev'] are the marks before
    it and of its last block. *)
Fixpoint seg m a (prev : bool) l (prev' : bool) : Prop :=
  match l with
  | [] => prev' = prev
  | b :: l =>
      ld m (a + 8) = bsize b + Z.b2z prev /\ bsize b mod 16 = 0 /\ 32 <= bsize b
      /\ (bused b = false -> prev = true /\ ld m (a + bsize b) = bsize b)
      /\ seg m (a + bsize b) (bused b) l prev'
  end.

Fixpoint starts a l : list Z :=
  match l with
  | [] => []
  | b :: l => a :: starts (a + bsize b) l
  end.

(** The addresses of the free blocks. *)
Fixpoint frees a l : list Z :=
  match l with
  | [] => []
  | b :: l => (if bused b then [] else [a]) ++ frees (a + bsize b) l
  end.

(** The addresses of the large blocks. *)
Fixpoint bigs a l : list Z :=
  match l with
  | [] => []
  | b :: l => (if 1024 <=? bsize b then [a] else []) ++ bigs (a + bsize b) l
  end.

Definition sized l : Prop := Forall (fun b => bsize b mod 16 = 0 /\ 32 <= bsize b) l.

Lemma seg_app m a prev l1 l2 prev' :
  seg m a prev (l1 ++ l2) prev' <-> exists p, seg m a prev l1 p /\ seg m (a + total l1) p l2 prev'.
Proof.
  revert a prev. induction l1 as [|b l1 IH]; intros a prev; cbn [app seg total].
  - rewrite Z.add_0_r. split; [intros H; by exists prev|]. by intros (p & -> & H).
  - setoid_rewrite IH. rewrite Z.add_assoc. naive_solver.
Qed.

Lemma starts_app a l1 l2 : starts a (l1 ++ l2) = starts a l1 ++ starts (a + total l1) l2.
Proof.
  revert a. induction l1 as [|b l1 IH]; intros a; simpl; [by rewrite Z.add_0_r|]. rewrite IH. by rewrite Z.add_assoc.
Qed.

Lemma frees_app a l1 l2 : frees a (l1 ++ l2) = frees a l1 ++ frees (a + total l1) l2.
Proof.
  revert a. induction l1 as [|b l1 IH]; intros a; simpl; [by rewrite Z.add_0_r|].
  rewrite IH, app_assoc. by rewrite Z.add_assoc.
Qed.

Lemma frees_starts a l x : x ∈ frees a l -> x ∈ starts a l.
Proof.
  revert a. induction l as [|b l IH]; intros a; simpl; [done|]. rewrite elem_of_app. intros [H|H].
  - destruct (bused b); [by apply not_elem_of_nil in H|]. apply list_elem_of_singleton in H as ->. left.
  - right. by apply IH.
Qed.

Lemma seg_sized m a prev l prev' : seg m a prev l prev' -> sized l.
Proof.
  revert a prev. induction l as [|b l IH]; intros a prev; [constructor|]. intros (_ & ? & ? & _ & H).
  constructor; [done|]. by eapply IH.
Qed.

Lemma total_nonneg l : sized l -> 0 <= total l /\ total l mod 16 = 0.
Proof. induction 1 as [|b l [Hm Hs] _ IH]; simpl; [done|]. split; [lia|]. zlia. Qed.

Lemma starts_range a l x : sized l -> x ∈ starts a l -> a <= x /\ x + 32 <= a + total l /\ (x - a) mod 16 = 0.
Proof.
  intros Hs. revert a. induction Hs as [|b l [Hm Hb] Hl IH]; intros a; simpl; [by intros ?%not_elem_of_nil|].
  pose proof (total_nonneg l Hl) as [Ht _].
  intros [->|Hx]%elem_of_cons; [split; [lia|]; split; [lia|by rewrite Z.sub_diag]|]. destruct (IH _ Hx) as (H1 & H2 & H3). split; [lia|]. split; [lia|]. zlia.
Qed.

Lemma starts_apart a l x y : sized l -> x ∈ starts a l -> y ∈ starts a l -> apart x y.
Proof.
  intros Hs. revert a. induction Hs as [|b l [Hm Hb] Hl IH]; intros a; simpl; [by intros ?%not_elem_of_nil|].
  unfold apart in *. intros [->|Hx]%elem_of_cons [->|Hy]%elem_of_cons.
  - by left.
  - right. apply (starts_range _ _ _ Hl) in Hy. lia.
  - right. apply (starts_range _ _ _ Hl) in Hx. lia.
  - by apply (IH (a + bsize b)).
Qed.

Lemma bigs_app a l1 l2 : bigs a (l1 ++ l2) = bigs a l1 ++ bigs (a + total l1) l2.
Proof.
  revert a. induction l1 as [|b l1 IH]; intros a; simpl; [by rewrite Z.add_0_r|].
  rewrite IH, app_assoc. by rewrite Z.add_assoc.
Qed.

Lemma bigs_starts a l x : x ∈ bigs a l -> x ∈ starts a l.
Proof.
  revert a. induction l as [|b l IH]; intros a; simpl; [done|]. rewrite elem_of_app. intros [H|H].
  - destruct (1024 <=? bsize b); [|by apply not_elem_of_nil in H]. apply list_elem_of_singleton in H as ->. left.
  - right. by apply IH.
Qed.

(** A large block reaches over 1024 bytes of the row, in which no other block
    starts. *)
Lemma bigs_range a l x : sized l -> x ∈ bigs a l ->
  a <= x /\ x + 1024 <= a + total l /\ forall y, y ∈ starts a l -> y = x \/ y + 32 <= x \/ x + 1024 <= y.
Proof.
  intros Hs. revert a. induction Hs as [|b l [Hm Hb] Hl IH]; intros a; simpl; [by intros ?%not_elem_of_nil|].
  pose proof (total_nonneg l Hl) as [Ht _]. intros [Hx|Hx]%elem_of_app.
  - destruct (Z.leb_spec 1024 (bsize b)) as [Hbig|]; [|by apply not_elem_of_nil in Hx]. apply list_elem_of_singleton in Hx as ->.
    split_and!; [lia|lia|]. intros y [->|Hy]%elem_of_cons; [by left|]. apply (starts_range _ _ _ Hl) in Hy. lia.
  - destruct (IH _ Hx) as (H1 & H2 & H3). split_and!; [lia|lia|]. intros y [->|Hy]%elem_of_cons; [lia|auto].
Qed.

(** The header of a free block. *)
Lemma seg_free m a prev l prev' x :
  seg m a prev l prev' -> x ∈ frees a l ->
  exists z, ld m (x + 8) = z + 1 /\ z mod 16 = 0 /\ 32 <= z /\ x + z <= a + total l /\ a <= x /\ (1024 <= z -> x ∈ bigs a l).
Proof.
  intros Hseg. pose proof (seg_sized _ _ _ _ _ Hseg) as Hs. revert a prev Hseg. induction Hs as [|b l [Hm Hb] Hl IH]; intros a prev; simpl; [by intros _ ?%not_elem_of_nil|].
  pose proof (total_nonneg l Hl) as [Ht _]. intros (H1 & _ & _ & H4 & H5) [Hx|Hx]%elem_of_app.
  - destruct (bused b) eqn:Eb; [by apply not_elem_of_nil in Hx|]. apply list_elem_of_singleton in Hx as ->.
    destruct (H4 eq_refl) as [-> _]. exists (bsize b). split_and!; try done; try lia. intros Hbig.
    rewrite (proj2 (Z.leb_le _ _) Hbig). left.
  - destruct (IH _ _ H5 Hx) as (z & ? & ? & ? & ? & ? & Hbig). exists z. split_and!; try done; try lia. intros Hz.
    apply elem_of_app. right. auto.
Qed.

Lemma frees_split a l x : x ∈ frees a l -> exists pre z post, l = pre ++ mkBlock z false :: post /\ x = a + total pre.
Proof.
  revert a. induction l as [|[z u] l IH]; intros a; cbn; [by intros ?%elem_of_nil|]. intros [Hx|Hx]%elem_of_app.
  - destruct u; [by apply elem_of_nil in Hx|]. apply list_elem_of_singleton in Hx as ->. exists [], z, l. cbn. split; [done|lia].
  - destruct (IH _ Hx) as (pre & z' & post & -> & ->). exists (mkBlock z u :: pre), z', post. cbn. split; [done|lia].
Qed.

(** ** The blocks in use *)

Fixpoint useds (a : Z) l : list (Z * Z) :=
  match l with
  | [] => []
  | b :: l => (if bused b then [(a, bsize b)] else []) ++ useds (a + bsize b) l
  end.

Lemma useds_app a l1 l2 : useds a (l1 ++ l2) = useds a l1 ++ useds (a + total l1) l2.
Proof.
  revert a. induction l1 as [|b l1 IH]; intros a; cbn [app useds total]; [by rewrite Z.add_0_r|]. rewrite IH, <- app_assoc. do 3 f_equal. lia.
Qed.

Lemma useds_split a l q z : (q, z) ∈ useds a l -> exists pre post, l = pre ++ mkBlock z true :: post /\ q = a + total pre.
Proof.
  revert a. induction l as [|b l IH]; intros a; cbn [useds]; [by intros ?%elem_of_nil|]. rewrite elem_of_app. intros [H|H].
  - destruct b as [bz bu]. cbn in H. destruct bu; [|by apply elem_of_nil in H]. apply list_elem_of_singleton in H as [= -> ->].
    exists [], l. split; [done|cbn; lia].
  - destruct (IH _ H) as (pre & post & -> & ->). exists (b :: pre), post. split; [done|cbn [total]; lia].
Qed.

Lemma split_total pre b post : sized (pre ++ b :: post) -> 0 <= total pre /\ 0 <= total post /\ total (pre ++ b :: post) = total pre + bsize b + total post.
Proof.
  intros Hs. unfold sized in Hs. rewrite list.Forall_app, list.Forall_cons in Hs. destruct Hs as (H1 & _ & H2).
  rewrite total_app. cbn [total]. pose proof (total_nonneg _ H1). pose proof (total_nonneg _ H2). lia.
Qed.

Lemma useds_range a l q z : sized l -> (q, z) ∈ useds a l -> a <= q /\ q + z <= a + total l /\ 32 <= z.
Proof.
  intros Hs (pre & post & -> & ->)%useds_split. destruct (split_total _ _ _ Hs) as (? & ? & ->). cbn [bsize].
  unfold sized in Hs. rewrite list.Forall_app, list.Forall_cons in Hs. destruct Hs as (_ & [_ H32] & _). cbn in H32. lia.
Qed.

(** The memory of a block in use: from behind its header up to and with the
    [prev_size] field of the next chunk. *)
Definition data_cell (a : Z) l (c : Z) : Prop := exists q z, (q, z) ∈ useds a l /\ q + 16 <= c <= q + z.

Definition keeps_data (a : Z) l m m' : Prop := forall c, data_cell a l c -> ld m' c = ld m c.

Lemma data_app a l1 l2 c : data_cell a (l1 ++ l2) c <-> data_cell a l1 c \/ data_cell (a + total l1) l2 c.
Proof. unfold data_cell. rewrite useds_app. setoid_rewrite elem_of_app. naive_solver. Qed.

Lemma data_cons a b l c : data_cell a (b :: l) c <-> (bused b = true /\ a + 16 <= c <= a + bsize b) \/ data_cell (a + bsize b) l c.
Proof.
  unfold data_cell. cbn [useds]. setoid_rewrite elem_of_app. destruct (bused b).
  - setoid_rewrite list_elem_of_singleton. naive_solver.
  - setoid_rewrite elem_of_nil. naive_solver.
Qed.

Lemma data_range a l c : sized l -> data_cell a l c -> a + 16 <= c <= a + total l.
Proof. intros Hs (q & z & Hq & Hc). apply (useds_range _ _ _ _ Hs) in Hq. lia. Qed.

(** It is apart from the free blocks. *)
Lemma data_gap a pre b post c :
  sized (pre ++ b :: post) -> bused b = false -> data_cell a (pre ++ b :: post) c ->
  (c <= a + total pre \/ a + total pre + bsize b + 16 <= c) /\ (data_cell a pre c \/ data_cell (a + total pre + bsize b) post c).
Proof.
  intros Hs Hb. rewrite data_app, data_cons, Hb. unfold sized in Hs. rewrite list.Forall_app, list.Forall_cons in Hs. destruct Hs as (H1 & _ & H2).
  intros [Hc|[[? _]|Hc]]; [|done|]; (split; [|by auto]).
  - apply data_range in Hc; [lia|done].
  - apply data_range in Hc; [lia|done].
Qed.

Lemma data_free a l c x : sized l -> data_cell a l c -> x ∈ frees a l -> c <= x \/ x + 48 <= c.
Proof.
  intros Hs Hc (pre & z & post & -> & ->)%frees_split. destruct (data_gap a pre (mkBlock z false) post c Hs eq_refl Hc) as [Hd _].
  unfold sized in Hs. rewrite list.Forall_app, list.Forall_cons in Hs. destruct Hs as (_ & [_ H32] & _). cbn in *. lia.
Qed.

(** A row only depends on its headers and on the footers inside it. *)
Lemma seg_frame m m' a prev l prev' :
  (forall x, x ∈ starts a l -> ld m' (x + 8) = ld m (x + 8)) ->
  (forall x, x ∈ starts a l -> x <> a -> ld m' x = ld m x) ->
  (prev' = false -> ld m' (a + total l) = ld m (a + total l)) ->
  seg m a prev l prev' -> seg m' a prev l prev'.
Proof.
  revert a prev. induction l as [|b l IH]; intros a prev Hh Hf He; [done|]. intros (H1 & H2 & H3 & H4 & H5).
  pose proof (seg_sized _ _ _ _ _ H5) as Hs. cbn [total starts] in *. split_and!; [|done|done| |].
  - rewrite Hh by left. done.
  - intros Hb. destruct (H4 Hb) as [-> Hft]. split; [done|]. rewrite <- Hft at 2. destruct l as [|c l].
    + cbn [seg total] in *. rewrite Z.add_0_r in He. apply He. congruence.
    + apply Hf; [right; left|lia].
  - apply IH; [intros; apply Hh; by right| |rewrite Z.add_assoc in He; done|done].
    intros x Hx Hne. apply Hf; [by right|]. apply (starts_range _ _ _ Hs) in Hx. lia.
Qed.

(** Stores into the memory of a block in use are no concern of the row. *)
Lemma seg_store m a prev l prev' c v : seg m a prev l prev' -> data_cell a l c -> seg (<[c := v]> m) a prev l prev'.
Proof.
  intros Hseg. pose proof (seg_sized _ _ _ _ _ Hseg) as Hs. revert a prev Hseg. induction Hs as [|b l [Hm Hb] Hl IH]; intros a prev Hseg Hc; [done|].
  pose proof (total_nonneg l Hl) as [Ht _]. destruct Hseg as (H1 & _ & _ & H4 & H5). apply data_cons in Hc as [[Hu Hc]|Hc].
  - split_and!; [by rewrite ld_insert_ne by lia|done|done|intros E; congruence|]. generalize H5. apply seg_frame.
    + intros x Hx. apply (starts_range _ _ _ Hl) in Hx. apply ld_insert_ne. lia.
    + intros x Hx Hne. apply (starts_range _ _ _ Hl) in Hx. apply ld_insert_ne. lia.
    + intros E. destruct l as [|d l]; [cbn in H5; congruence|]. apply ld_insert_ne. inversion Hl as [|? ? [_ Hd] Hl']; subst. pose proof (total_nonneg l Hl'). cbn [total]. lia.
  - pose proof (data_range _ _ _ Hl Hc). split_and!; [by rewrite ld_insert_ne by lia|done|done| |by apply IH].
    intros E. destruct (H4 E) as [-> Hft]. split; [done|]. rewrite ld_insert_ne by lia. done.
Qed.

(** The first block of a row loses the mark of its predecessor. *)
Lemma seg_unmark m a b l prev' :
  bused b = true -> seg m a true (b :: l) prev' -> seg (<[a + 8 := bsize b]> m) a false (b :: l) prev'.
Proof.
  intros Hb Hseg. pose proof (seg_sized _ _ _ _ _ Hseg) as Hs. inversion Hs as [|? ? [_ Hb32] Hl]; subst.
  destruct Hseg as (H1 & H2 & H3 & _ & H5). split_and!; [|done|done|by rewrite Hb|].
  - rewrite ld_insert_eq. simpl. lia.
  - revert H5. pose proof (total_nonneg l Hl) as [Ht _].
    apply seg_frame; [intros x Hx|intros x Hx _|intros _]; apply ld_insert_ne;
      try apply (starts_range _ _ _ Hl) in Hx; lia.
Qed.

(** Two neighbouring rows agree on the mark between them. *)
Lemma seg_row m a prev l : seg m a prev l true -> row_ok prev l.
Proof.
  revert a prev. induction l as [|b l IH]; intros a prev; [by intros <-|]. intros (_ & ? & ? & H4 & H5).
  split_and!; [done|done|intros Hb; by apply H4|by eapply IH].
Qed.

End Rows.
