(* ===== verification/HeapProps.v ===== *)
(** * Freeing and splitting refine the abstract heap

    [_int_free] and the top path of [_int_malloc] ([src/libipc/malloc/malloc.c])
    on any heap of the main arena whose chunks are described by [heap_ok]. *)

From S2P Require Import Prelude MallocState MallocCore MallocInt SizeFacts ListFacts Rings LargeBin Bins BinProps InitProps FreeProps HeapSpec.

Section Heap.
Context `{PS : PageSource}.

(** No fast chunks are pending. *)
Definition no_fast (s : state) (av : Z) : Prop :=
  have_fastchunks s av = false /\ forall k, 0 <= k < NFASTBINS -> fastbin s av k = 0.

(** The chunks of the main arena [av] from [b0] on are the row [l], then the
    top chunk of [T] bytes; bin [i] holds the chunks [L i], which are the free
    ones. *)
Record heap_ok (s : state) (av b0 : Z) (l : list block) (T : Z) (L : Z -> list Z) : Prop := {
  hk_main : av = main_arena (st_gl s) /\ 0 < av;
  hk_perturb : perturb_byte (st_gl s) = 0;
  hk_fast : no_fast s av;
  hk_base : b0 mod 16 = 0 /\ 0 < b0 /\ b0 + total l + T + 64 < 18446744073709551616;
  hk_sep : b0 + total l + T + 64 <= av \/ av + 2304 <= b0;
  hk_sys : total l + T <= system_mem s av;
  hk_row : seg (st_mem s) b0 true l true;
  hk_top : top s av = b0 + total l /\ ld (st_mem s) (b0 + total l + 8) = T + 1 /\ T mod 16 = 0 /\ 32 <= T;
  hk_bins : bins_ok av (starts b0 l) (bigs b0 l) L (st_mem s);
  hk_free : forall x, x ∈ frees b0 l <-> exists i, valid_bin i /\ x ∈ L i
}.

(** The fields of the arena that are no links of bins. *)
Definition field (o : Z) : Prop := 0 <= o < 144 \/ 2176 <= o < 2304.

Lemma no_fast_frame s m' av :
  (forall o, field o -> o <> off_top -> ld m' (av + o) = ld (st_mem s) (av + o)) -> no_fast s av -> no_fast (with_mem m' s) av.
Proof.
  intros H [H1 H2]. unfold no_fast, have_fastchunks, flags, fastbin, word, fastbin_at in *. cbn [with_mem upd_mem st_mem] in *. split.
  - rewrite H by (unfold field, off_flags, off_top; lia). done.
  - intros k Hk. rewrite NFASTBINS_10 in *. rewrite <- Z.add_assoc. rewrite H by (unfold field, off_fastbinsY, off_top; lia). rewrite Z.add_assoc. auto.
Qed.

(** ** Headers *)

Lemma header_reads (s : state) x sz (pv : bool) :
  ld (st_mem s) (x + 8) = sz + Z.b2z pv -> sz mod 16 = 0 -> 0 <= sz < 18446744073709551600 ->
  size_ s x = sz + Z.b2z pv /\ chunksize s x = sz /\ prev_inuse s x = pv /\ chunk_is_mmapped s x = false.
Proof.
  intros H Hm Hr. unfold chunksize, prev_inuse, chunk_is_mmapped, size_, word, off_size. rewrite H.
  assert (0 <= Z.b2z pv <= 1) by (destruct pv; simpl; lia).
  change SIZE_BITS with 7. rewrite land_not7 by lia. unfold truthy, PREV_INUSE, IS_MMAPPED. rewrite land_1, land_2.
  split; [done|]. split; [zlia|]. split.
  - destruct pv; simpl; [apply negb_true_iff, Z.eqb_neq; zlia|apply negb_false_iff, Z.eqb_eq; zlia].
  - apply negb_false_iff, Z.eqb_eq. zlia.
Qed.

Lemma inuse_bit_reads (s : state) x sz (pv : bool) a o :
  ld (st_mem s) (x + 8) = sz + Z.b2z pv -> sz mod 16 = 0 -> 0 <= sz < 18446744073709551600 -> x = a + o -> 0 <= a + o < 18446744073709551616 ->
  inuse_bit_at_offset s a o = pv.
Proof.
  intros H Hm Hr -> Hx. destruct (header_reads s _ _ _ H Hm Hr) as (_ & _ & Hp & _).
  unfold inuse_bit_at_offset, prev_inuse, chunk_at_offset in *. by rewrite u64_small.
Qed.

(** ** The chunk addresses *)

Lemma rows_geom av b0 l T :
  sized l -> 32 <= T -> 0 < b0 -> 0 < av -> b0 + total l + T + 64 <= av \/ av + 2304 <= b0 -> heap_geom av (starts b0 l) (bigs b0 l).
Proof.
  intros Hs HT Hb0 Hav Hsep. split; [done|intros x y; by apply starts_apart|..].
  - intros x Hx. apply (starts_range _ _ _ Hs) in Hx. lia.
  - intros x Hx. destruct (bigs_range _ _ _ Hs Hx) as (? & ? & ?). split_and!; [by apply bigs_starts|lia|done].
Qed.

(** Headers, footers and the fields of the arena are no links. *)
Lemma nonlink_chunk av b0 l T x o :
  sized l -> 32 <= T -> b0 + total l + T + 64 <= av \/ av + 2304 <= b0 ->
  x ∈ starts b0 l \/ x = b0 + total l -> o = 0 \/ o = 8 -> nonlink av (starts b0 l) (bigs b0 l) (x + o).
Proof.
  intros Hs HT Hsep Hx Ho. pose proof (total_nonneg l Hs) as [Ht _].
  assert (b0 <= x <= b0 + total l) by (destruct Hx as [Hx| ->]; [apply (starts_range _ _ _ Hs) in Hx|]; lia).
  split; [|split].
  - intros i Hi. rewrite bin_at_eq. unfold valid_bin, NBINS in Hi. lia.
  - intros y Hy. destruct Hx as [Hx| ->].
    + destruct (starts_apart _ _ _ _ Hs Hx Hy); lia.
    + apply (starts_range _ _ _ Hs) in Hy. lia.
  - intros y Hy. destruct (bigs_range _ _ _ Hs Hy) as (? & ? & Hd). destruct Hx as [Hx| ->]; [|lia]. destruct (Hd x Hx); lia.
Qed.

Lemma nonlink_arena av b0 l T o :
  sized l -> 32 <= T -> b0 + total l + T + 64 <= av \/ av + 2304 <= b0 -> field o -> nonlink av (starts b0 l) (bigs b0 l) (av + o).
Proof.
  intros Hs HT Hsep Ho. unfold field in Ho. split; [|split].
  - intros i Hi. rewrite bin_at_eq. unfold valid_bin, NBINS in Hi. lia.
  - intros y Hy. apply (starts_range _ _ _ Hs) in Hy. lia.
  - intros y Hy. destruct (bigs_range _ _ _ Hs Hy) as (? & ? & _). lia.
Qed.

(** The cells that the bins depend on lie in the row and in the arena behind
    [top]. *)
Lemma cell_below av b0 l L c :
  sized l -> (forall i x, valid_bin i -> x ∈ L i -> x ∈ starts b0 l) -> bin_cell av (bigs b0 l) L c ->
  b0 <= c < b0 + total l \/ av + 144 <= c < av + 2304.
Proof.
  intros Hs Hin [i o Hi Ho|i x o Hi Hx Ho|i x o Hi Hx Hbg Ho|k Hk].
  - right. rewrite bin_at_eq. unfold valid_bin, NBINS in Hi. lia.
  - left. pose proof (starts_range _ _ _ Hs (Hin i x Hi Hx)). lia.
  - left. destruct (bigs_range _ _ _ Hs Hbg) as (? & ? & _). lia.
  - right. rewrite binmap_at_eq. change BINMAPSIZE with 4 in Hk. lia.
Qed.

(** What the routines on the bins of free blocks write is not in the memory of
    blocks in use. *)
Lemma data_outside av b0 l T i ll c :
  sized l -> 32 <= T -> b0 + total l + T + 64 <= av \/ av + 2304 <= b0 -> valid_bin i ->
  (forall y, y ∈ ll -> y ∈ frees b0 l) -> data_cell b0 l c -> outside av i ll c /\ not_map av c.
Proof.
  intros Hs HT Hsep Hi Hll Hc. pose proof (data_range _ _ _ Hs Hc) as Hr. unfold valid_bin, NBINS in Hi. split; [split; [|split]|].
  - rewrite bin_at_eq. lia.
  - intros y Hy. destruct (data_free _ _ _ _ Hs Hc (Hll y Hy)); lia.
  - intros _ y Hy. destruct (data_free _ _ _ _ Hs Hc (Hll y Hy)); lia.
  - intros k Hk. rewrite binmap_at_eq. change BINMAPSIZE with 4 in Hk. lia.
Qed.

(** ** A heap with a gap

    Between the rows [pre] and [post] lie [tot] bytes that belong to no chunk
    of a bin: the states of [_int_free] before it places the chunk.  [pv] is
    the mark that the first chunk of [post] has for its predecessor. *)
Record gap_ok (pv : bool) (s : state) (av b0 : Z) (pre : list block) (tot : Z) (post : list block) (T : Z) : Prop := {
  ga_main : av = main_arena (st_gl s) /\ 0 < av;
  ga_perturb : perturb_byte (st_gl s) = 0;
  ga_fast : no_fast s av;
  ga_tot : tot mod 16 = 0 /\ 32 <= tot;
  ga_base : b0 mod 16 = 0 /\ 0 < b0 /\ b0 + total pre + tot + total post + T + 64 < 18446744073709551616;
  ga_sep : b0 + total pre + tot + total post + T + 64 <= av \/ av + 2304 <= b0;
  ga_sys : total pre + tot + total post + T <= system_mem s av;
  ga_pre : seg (st_mem s) b0 true pre true;
  ga_post : seg (st_mem s) (b0 + total pre + tot) pv post true;
  ga_top : top s av = b0 + total pre + tot + total post
    /\ ld (st_mem s) (b0 + total pre + tot + total post + 8) = T + 1 /\ T mod 16 = 0 /\ 32 <= T
}.

(** The bins hold the free chunks of the two rows. *)
Definition gap_bins (m : memory) (av b0 : Z) (pre : list block) (tot : Z) (post : list block) (L : Z -> list Z) : Prop :=
  bins_ok av (starts b0 pre ++ starts (b0 + total pre + tot) post) (bigs b0 pre ++ bigs (b0 + total pre + tot) post) L m
  /\ forall x, x ∈ frees b0 pre ++ frees (b0 + total pre + tot) post <-> exists i, valid_bin i /\ x ∈ L i.

Definition filled (pre : list block) (tot : Z) (post : list block) : list block := pre ++ mkBlock tot false :: post.

(** The bins of the two rows are bins of the filled row. *)
Lemma gap_bins_filled m av b0 pre tot post L :
  gap_bins m av b0 pre tot post L -> bins_ok av (starts b0 (filled pre tot post)) (bigs b0 (filled pre tot post)) L m.
Proof.
  intros [Hb _]. generalize Hb. apply bins_within. intros j y Hj Hy. apply (bo_in _ _ _ _ _ Hb j) in Hy; [|done].
  unfold filled. rewrite starts_app, bigs_app. cbn [starts bigs bsize]. rewrite !elem_of_app, elem_of_cons. rewrite elem_of_app in Hy. tauto.
Qed.

Section Place.
Context (pv : bool) (s : state) (av b0 tot T : Z) (pre post : list block) (L : Z -> list Z).
Hypothesis Hgap : gap_ok pv s av b0 pre tot post T.
Hypothesis Hgb : gap_bins (st_mem s) av b0 pre tot post L.

Let q := b0 + total pre.
Let n := q + tot.
Let u := bin_at av 1.
Let F := hd u (L 1).

(** The memory after the chunk went to the front of the unsorted list. *)
Definition placed : memory :=
  let m := <[q + 24 := u]> (<[q + 16 := F]> (st_mem s)) in
  let m := if in_smallbin_range tot then m else <[q + 40 := 0]> (<[q + 32 := 0]> m) in
  <[n := tot]> (<[q + 8 := tot + 1]> (<[F + 24 := q]> (<[u + 16 := q]> m))).

Lemma gap_sized : sized pre /\ sized post.
Proof using Hgap. destruct Hgap. split; by eapply seg_sized. Qed.

(** Where the chunks of the two rows are. *)
Lemma gap_where x :
  x ∈ starts b0 pre ++ starts n post ->
  (x <= q - 32 \/ n <= x) /\ (x + 64 <= av \/ av + 2304 <= x).
Proof using Hgap.
  clear L F Hgb.
  destruct gap_sized as [Hs1 Hs2]. destruct Hgap. destruct ga_tot0, ga_top0 as (_ & _ & _ & HT).
  pose proof (total_nonneg _ Hs1) as [? _]. pose proof (total_nonneg _ Hs2) as [? _].
  intros [Hx|Hx]%elem_of_app; [apply (starts_range _ _ _ Hs1) in Hx|apply (starts_range _ _ _ Hs2) in Hx]; unfold q, n in *; lia.
Qed.

Lemma filled_starts : starts b0 (filled pre tot post) = starts b0 pre ++ q :: starts n post.
Proof using Type. clear L F Hgap Hgb. unfold filled. rewrite starts_app. done. Qed.

Lemma filled_bigs : bigs b0 (filled pre tot post) = bigs b0 pre ++ (if 1024 <=? tot then [q] else []) ++ bigs n post.
Proof using Type. clear L F Hgap Hgb. unfold filled. rewrite bigs_app. done. Qed.

Lemma filled_total : total (filled pre tot post) = total pre + tot + total post.
Proof using Type. clear -pre post tot. unfold filled. rewrite total_app. simpl. lia. Qed.

Lemma filled_sized : sized (filled pre tot post).
Proof using Hgap. destruct gap_sized as [? ?], Hgap. apply Forall_app. split; [done|]. by constructor. Qed.

Lemma gap_geom : heap_geom av (starts b0 (filled pre tot post)) (bigs b0 (filled pre tot post)).
Proof using Hgap.
  clear L F Hgb.
  pose proof filled_sized. destruct Hgap. apply (rows_geom _ _ _ T); [done|apply ga_top0|apply ga_base0|apply ga_main0|]. rewrite filled_total. lia.
Qed.

(** [F] is the header of the list or a chunk of the two rows. *)
Lemma gap_front : F = u \/ F ∈ starts b0 pre ++ starts n post.
Proof using All.
  unfold F. destruct (L 1) as [|x l] eqn:E; [by left|right]. simpl.
  apply (bo_in _ _ _ _ _ (proj1 Hgb) 1); [done|]. rewrite E. left.
Qed.

Lemma u_eq : u = av + 128.
Proof. unfold u. rewrite bin_at_eq. lia. Qed.

(** A cell that none of the stores hits. *)
Lemma placed_frame c :
  c <> n -> c <> q + 8 -> c <> F + 24 -> c <> u + 16 -> c <> q + 24 -> c <> q + 16 ->
  tot < 1024 \/ c <> q + 32 /\ c <> q + 40 -> ld placed c = ld (st_mem s) c.
Proof.
  intros. unfold placed. rewrite !ld_insert_ne by done.
  destruct (in_smallbin_range tot) eqn:E; [by rewrite !ld_insert_ne by done|].
  assert (~ tot < 1024) by (rewrite <- in_smallbin_range_spec; by rewrite E).
  by rewrite !ld_insert_ne by lia.
Qed.

(** The cells of the chunks of the two rows, apart from links. *)
Lemma placed_chunk x o :
  x ∈ starts b0 pre ++ starts n post -> o = 8 \/ o = 0 /\ x <> n -> ld placed (x + o) = ld (st_mem s) (x + o).
Proof using All.
  intros Hx Ho. destruct (gap_where x Hx) as [Hw Ha]. pose proof u_eq. assert (32 <= tot) by apply Hgap.
  assert (F = u \/ apart x F) as HF.
  { destruct gap_front as [->|HF]; [by left|right]. apply (hg_apart _ _ _ gap_geom); rewrite filled_starts; set_solver. }
  unfold apart in HF. unfold n in *. destruct (in_smallbin_range tot) eqn:E.
  - assert (tot < 1024) by (by apply in_smallbin_range_spec). apply placed_frame; unfold n; lia.
  - assert (~ tot < 1024) by (rewrite <- in_smallbin_range_spec; by rewrite E). apply placed_frame; unfold n; lia.
Qed.

(** The fields of large chunks of the two rows. *)
Lemma placed_sizes x o :
  x ∈ bigs b0 pre ++ bigs n post -> o = 32 \/ o = 40 -> ld placed (x + o) = ld (st_mem s) (x + o).
Proof using All.
  intros Hx Ho. pose proof u_eq. assert (32 <= tot) by apply Hgap. pose proof gap_geom as Hg.
  assert (x ∈ bigs b0 (filled pre tot post)) as Hx'.
  { rewrite filled_bigs. rewrite !elem_of_app in *. tauto. }
  destruct (hg_big _ _ _ Hg x Hx') as (_ & Ha & Hd).
  assert (x ∈ starts b0 pre ++ starts n post) as Hst by (rewrite elem_of_app in *; destruct Hx as [?|?]; [left|right]; by apply bigs_starts).
  destruct (gap_where x Hst) as [Hw _].
  assert (F = u \/ F = x \/ F + 32 <= x \/ x + 1024 <= F) as HF.
  { destruct gap_front as [->|HF]; [by left|right]. apply Hd. rewrite filled_starts. rewrite elem_of_app in *. rewrite elem_of_cons. tauto. }
  assert (q = x \/ q + 32 <= x \/ x + 1024 <= q) as Hq by (apply Hd; rewrite filled_starts, elem_of_app, elem_of_cons; tauto).
  assert (n <= x \/ x + 1024 <= n) as Hn by (unfold n in *; lia).
  assert (tot < 1024 \/ 1024 <= tot) as Hts by lia. unfold n in *. apply placed_frame; unfold n; lia.
Qed.

(** The cells of the arena outside the bins. *)
Lemma placed_arena o : field o -> ld placed (av + o) = ld (st_mem s) (av + o).
Proof using All.
  intros Ho. unfold field in Ho. pose proof u_eq.
  destruct gap_sized as [Hs1 Hs2]. pose proof (total_nonneg _ Hs1) as [? _]. pose proof (total_nonneg _ Hs2) as [? _].
  assert (F = u \/ F + 64 <= av \/ av + 2304 <= F) as HF.
  { destruct gap_front as [?|HF]; [by left|right]. by apply gap_where. }
  destruct Hgap. destruct ga_tot0, ga_top0 as (_ & _ & _ & HT). apply placed_frame; unfold n, q in *; lia.
Qed.

Lemma gap_region : n + 64 <= av \/ av + 2304 <= q.
Proof using Hgap.
  clear L F Hgb.
  destruct gap_sized as [Hs1 Hs2]. pose proof (total_nonneg _ Hs1) as [? _]. pose proof (total_nonneg _ Hs2) as [? _].
  destruct Hgap. destruct ga_tot0, ga_top0 as (_ & _ & _ & HT). unfold n, q. lia.
Qed.

(** The new chunk is linked between the header and the former first entry. *)
Lemma placed_links : linked placed u q /\ linked placed q F.
Proof using All.
  pose proof u_eq. assert (32 <= tot) as Htot by apply Hgap.
  pose proof gap_region as Hq.
  assert (F = u \/ (F <= q - 32 \/ n <= F) /\ (F + 64 <= av \/ av + 2304 <= F)) as HF.
  { destruct gap_front as [?|HF]; [by left|right]. by apply gap_where. }
  unfold linked, off_fd, off_bk, placed, n in *. destruct (in_smallbin_range tot) eqn:E; split; split; try (mem_simp; done).
Qed.

Lemma placed_nextsize : tot < 1024 \/ ld placed (q + 32) = 0.
Proof using All.
  pose proof u_eq. destruct (in_smallbin_range tot) eqn:E; [left; by apply in_smallbin_range_spec|right].
  assert (~ tot < 1024) by (rewrite <- in_smallbin_range_spec; by rewrite E).
  pose proof gap_region as Hq.
  assert (F = u \/ (F <= q - 32 \/ n <= F) /\ (F + 64 <= av \/ av + 2304 <= F)) as HF.
  { destruct gap_front as [?|HF]; [by left|right]. by apply gap_where. }
  unfold placed, n in *. rewrite E. mem_simp. done.
Qed.

(** Where the nodes of the bins are. *)
Lemma gap_node i x :
  valid_bin i -> x ∈ bin_at av i :: L i ->
  (x = bin_at av i \/ x <= q - 32 \/ n <= x) /\ (x = u \/ 16 <= Z.abs (x - u)) /\ (x = F \/ 16 <= Z.abs (x - F)).
Proof using All.
  intros Hi Hx. pose proof gap_geom as Hg. pose proof u_eq.
  pose proof (gap_bins_filled _ _ _ _ _ _ _ Hgb) as Hb.
  assert (x = bin_at av i \/ (x <= q - 32 \/ n <= x) /\ (x + 64 <= av \/ av + 2304 <= x)) as Hpos.
  { apply elem_of_cons in Hx as [->|Hx]; [by left|right]. apply gap_where.
    by apply (bo_in _ _ _ _ _ (proj1 Hgb) i) in Hx. }
  split; [naive_solver|]. split.
  - destruct Hpos as [->|[_ Ha]]; [unfold u; rewrite !bin_at_eq; lia|lia].
  - destruct (decide (i = 1)) as [->|Hi1].
    + destruct (bo_list _ _ _ _ _ Hb 1 Hi) as (_ & _ & Hs). destruct (Hs x F Hx (hd_elem _ _)); [by left|right; lia].
    + right. apply (bins_disjoint _ _ _ _ _ i 1 _ _ Hg Hb); [done|done|done|done|apply hd_elem].
Qed.

(** The other links stay. *)
Lemma placed_node i x :
  valid_bin i -> x ∈ bin_at av i :: L i ->
  (x <> u -> ld placed (x + 16) = ld (st_mem s) (x + 16)) /\ (x <> F -> ld placed (x + 24) = ld (st_mem s) (x + 24)).
Proof using All.
  intros Hi Hx. destruct (gap_node i x Hi Hx) as (Hpos & Hu & HF). pose proof gap_region as Hr.
  assert (32 <= tot) as Htot by apply Hgap. rewrite bin_at_eq in Hpos. unfold valid_bin, NBINS in Hi.
  assert (tot < 1024 \/ 1024 <= tot) by lia. unfold n in *.
  split; intros Hne; apply placed_frame; unfold n; lia.
Qed.

Lemma placed_head : head placed q = tot + 1.
Proof using Hgap.
  clear Hgb. unfold head, placed, off_size, n. assert (32 <= tot) by apply Hgap. rewrite ld_insert_ne, ld_insert_eq by lia. done.
Qed.

Lemma placed_bins : bins_ok av (starts b0 (filled pre tot post)) (bigs b0 (filled pre tot post)) (push_unsorted q L) placed.
Proof using All.
  pose proof gap_geom as Hg. destruct placed_links as [H1 H2]. destruct gap_sized as [Hs1 Hs2].
  pose proof (total_nonneg _ Hs1) as [? _]. pose proof (total_nonneg _ Hs2) as [? _].
  assert (q ∈ starts b0 (filled pre tot post)) as Hq by (rewrite filled_starts; set_solver).
  assert (forall i x, valid_bin i -> x ∈ L i -> x ∈ starts b0 pre ++ starts n post) as Hin
    by (intros i x Hi Hx; by apply (bo_in _ _ _ _ _ (proj1 Hgb) i) in Hx).
  pose proof Hgap as []. destruct ga_tot0 as [Hm Ht32].
  apply (bins_push av _ _ L (st_mem s)); try done.
  - by apply gap_bins_filled.
  - intros i Hi Hx%Hin; [|done]. apply gap_where in Hx. unfold n in Hx. lia.
  - unfold free_head. rewrite placed_head. unfold q in *. split; [zlia|lia].
  - rewrite placed_head. intros H1k. assert (1024 <= tot) as H1k' by zlia. split.
    + rewrite filled_bigs, (proj2 (Z.leb_le _ _) H1k'). set_solver.
    + destruct placed_nextsize as [?|?]; [lia|done].
  - intros i x Hi Hx. by apply (placed_node i).
  - intros i x Hi Hx. by apply (placed_node i).
  - intros i x o Hi Hx [->|[Ho Hbig]]; [apply placed_chunk; [by apply (Hin i)|by left]|].
    apply placed_sizes; [|done]. by apply (bo_big _ _ _ _ _ (proj1 Hgb) i).
  - intros k Hk. rewrite binmap_at_eq, <- Z.add_assoc. apply placed_arena. change BINMAPSIZE with 4 in Hk. unfold field. lia.
Qed.

Lemma placed_row : pv = false -> seg placed b0 true (filled pre tot post) true.
Proof using All.
  intros Hpv. destruct gap_sized as [Hs1 Hs2]. pose proof (total_nonneg _ Hs1) as [? _]. pose proof gap_region as Hr.
  pose proof u_eq. assert (tot mod 16 = 0 /\ 32 <= tot) as [Hm Htot] by apply Hgap.
  assert (F = u \/ (F <= q - 32 \/ n <= F) /\ (F + 64 <= av \/ av + 2304 <= F)) as HF.
  { destruct gap_front as [?|HF]; [by left|right]. by apply gap_where. }
  apply seg_app. exists true. split.
  - generalize (ga_pre _ _ _ _ _ _ _ _ Hgap). apply seg_frame; [| |done].
    + intros x Hx. apply placed_chunk; [set_solver|auto].
    + intros x Hx _. rewrite <- (Z.add_0_r x). apply placed_chunk; [set_solver|]. right. split; [done|].
      apply (starts_range _ _ _ Hs1) in Hx. unfold n, q. lia.
  - cbn [seg bsize bused]. fold q n. split_and!; [|done|done| |].
    + unfold placed, n. rewrite ld_insert_ne, ld_insert_eq by lia. done.
    + intros _. split; [done|]. apply ld_insert_eq.
    + generalize (ga_post _ _ _ _ _ _ _ _ Hgap). rewrite Hpv. fold q n. apply seg_frame; [| |done].
      * intros x Hx. apply placed_chunk; [set_solver|auto].
      * intros x Hx Hne. rewrite <- (Z.add_0_r x). apply placed_chunk; [set_solver|auto].
Qed.

Lemma filled_frees x : x ∈ frees b0 (filled pre tot post) <-> x = q \/ x ∈ frees b0 pre ++ frees n post.
Proof using Type. clear L F Hgap Hgb. unfold filled. rewrite frees_app. cbn [frees bused bsize app]. fold q n. set_solver. Qed.

(** The stores leave the memory of blocks in use alone. *)
Lemma placed_data : keeps_data b0 (filled pre tot post) (st_mem s) placed.
Proof using All.
  intros c Hc. pose proof filled_sized as Hs. pose proof u_eq. destruct (data_gap _ _ _ _ _ Hs eq_refl Hc) as [Hd _]. fold q in Hd. cbn [bsize] in Hd.
  pose proof (data_range _ _ _ Hs Hc) as Hr. rewrite filled_total in Hr. destruct gap_sized as [Hs1 Hs2].
  pose proof (total_nonneg _ Hs1) as [? _]. pose proof (total_nonneg _ Hs2) as [? _].
  assert (F = u \/ c <= F \/ F + 48 <= c) as HF.
  { unfold F. destruct (L 1) as [|x l] eqn:E; [by left|right]. cbn [hd]. apply (data_free b0 (filled pre tot post)); [done|done|].
    apply filled_frees. right. apply (proj2 Hgb). exists 1. split; [done|rewrite E; left]. }
  destruct Hgap. destruct ga_tot0, ga_top0 as (_ & _ & _ & HT). assert (tot < 1024 \/ 1024 <= tot) by lia. apply placed_frame; unfold n, q in *; lia.
Qed.

Lemma placed_ok : pv = false -> heap_ok (with_mem placed s) av b0 (filled pre tot post) T (push_unsorted q L).
Proof using All.
  intros Hpv. destruct gap_sized as [Hs1 Hs2]. pose proof (total_nonneg _ Hs1) as [? _]. pose proof (total_nonneg _ Hs2) as [? _].
  pose proof placed_bins as Hbins. pose proof (placed_row Hpv) as Hrow. pose proof gap_region as Hr.
  assert (32 <= tot) as Htot by apply Hgap. pose proof u_eq.
  assert (F = u \/ (F <= q - 32 \/ n <= F) /\ (F + 64 <= av \/ av + 2304 <= F)) as HF.
  { destruct gap_front as [?|HF]; [by left|right]. by apply gap_where. }
  pose proof placed_arena as Har.
  assert (ld placed (n + total post + 8) = ld (st_mem s) (n + total post + 8)) as Htop.
  { destruct (decide (post = [])) as [E|E]; [exfalso; assert (false = true); [|done]; pose proof (ga_post _ _ _ _ _ _ _ _ Hgap) as Hp; rewrite E, Hpv in Hp; done|].
    assert (F = u \/ F + 32 <= n + total post) as HF2.
    { destruct gap_front as [?|[HF2|HF2]%elem_of_app]; [by left|right..];
        [apply (starts_range _ _ _ Hs1) in HF2|apply (starts_range _ _ _ Hs2) in HF2]; unfold n, q in *; lia. }
    assert (32 <= total post).
    { destruct post as [|b post']; [done|]. inversion Hs2 as [|? ? [_ ?] Ht]; subst. pose proof (total_nonneg _ Ht). simpl. lia. }
    destruct Hgap. destruct ga_top0 as (_ & _ & _ & HT). apply placed_frame; unfold n, q in *; lia. }
  destruct Hgap. split; unfold system_mem, top, word in *; cbn [with_mem upd_mem st_mem st_gl] in *;
    rewrite ?filled_total, ?Har by (unfold field, off_system_mem, off_top; lia); try done.
  - apply (no_fast_frame s); [|done]. intros o Ho _. by apply Har.
  - split_and!; try apply ga_base0. lia.
  - lia.
  - replace (b0 + (total pre + tot + total post)) with (n + total post) by (unfold n, q; lia). rewrite Htop. exact ga_top0.
  - intros x. rewrite filled_frees. unfold n, q. rewrite (proj2 Hgb). fold q. unfold push_unsorted. split.
    + intros [->|(i & Hi & Hx)]; [exists 1; split; [done|left]|]. exists i. split; [done|].
      destruct (Z.eqb_spec i 1) as [->|]; [by right|done].
    + intros (i & Hi & Hx). destruct (Z.eqb_spec i 1) as [->|]; [|right; by exists i].
      apply elem_of_cons in Hx as [->|Hx]; [by left|right; by exists 1].
Qed.

End Place.

(** ** Opening a gap *)

Lemma take_free_last_seg m a l pv l0 z :
  seg m a true l pv -> take_free_last l = (l0, z) ->
  (pv = true /\ l0 = l /\ z = 0) \/ (pv = false /\ l = l0 ++ [mkBlock z false]).
Proof.
  destruct l as [|b l _] using rev_ind; [intros [= ->] [= <- <-]; by left|]. rewrite take_free_last_snoc.
  intros (p & _ & _ & _ & _ & Hb & E)%seg_app. cbn [seg] in E. subst pv.
  destruct b as [bz []]; simpl; intros [= <- <-]; [by left|by right].
Qed.

(** The cells that a gap depends on, apart from the links. *)
Definition keeps (s : state) (m' : memory) (av b0 : Z) (pre : list block) (tot : Z) (post : list block) : Prop :=
  (forall x o, x ∈ starts b0 pre ++ starts (b0 + total pre + tot) post -> o = 0 \/ o = 8 ->
    ld m' (x + o) = ld (st_mem s) (x + o))
  /\ ld m' (b0 + total pre + tot + total post + 8) = ld (st_mem s) (b0 + total pre + tot + total post + 8)
  /\ (forall o, field o -> ld m' (av + o) = ld (st_mem s) (av + o)).

Lemma gap_keep pv s m' av b0 pre tot post T :
  gap_ok pv s av b0 pre tot post T -> keeps s m' av b0 pre tot post ->
  gap_ok pv (with_mem m' s) av b0 pre tot post T.
Proof.
  intros [] (Hc & Ht & Ha).
  split; unfold system_mem, top, word in *; cbn [with_mem upd_mem st_mem st_gl] in *;
    rewrite ?Ht, ?Ha by (unfold field, off_system_mem, off_top; lia); try done.
  - apply (no_fast_frame s); auto.
  - revert ga_pre0. apply seg_frame; [intros x Hx; apply Hc; [set_solver|auto]| |done].
    intros x Hx _. rewrite <- (Z.add_0_r x). apply Hc; [set_solver|auto].
  - revert ga_post0. apply seg_frame; [intros x Hx; apply Hc; [set_solver|auto]| |done].
    intros x Hx _. rewrite <- (Z.add_0_r x). apply Hc; [set_solver|auto].
Qed.

(** The row with the freed chunk seen as a gap, with its free predecessor. *)
Lemma heap_gap s av b0 pre sz post T L pre0 psz :
  heap_ok s av b0 (pre ++ mkBlock sz true :: post) T L -> take_free_last pre = (pre0, psz) ->
  gap_ok true s av b0 pre0 (psz + sz) post T.
Proof.
  intros [] Ht. pose proof (take_free_total pre) as [Htot _]. rewrite Ht in Htot. cbn [fst snd] in Htot.
  rewrite total_app in *. cbn [total bsize] in *. apply seg_app in hk_row0 as (pv & Hpre & _ & Hm & H32 & _ & Hpost). cbn [bsize bused] in *.
  assert (psz mod 16 = 0 /\ 0 <= psz /\ seg (st_mem s) b0 true pre0 true) as (Hpm & Hp0 & Hseg).
  { destruct (take_free_last_seg _ _ _ _ _ _ Hpre Ht) as [(-> & -> & ->)|(-> & ->)]; [done|].
    apply seg_app in Hpre as (p1 & H1 & _ & H2 & H3 & H4 & _). cbn [bsize bused] in *. destruct (H4 eq_refl) as [-> _]. split_and!; [done|lia|done]. }
  assert (b0 + total pre0 + (psz + sz) = b0 + total pre + sz) as En by lia.
  split; rewrite ?En; try done.
  - split; [zlia|lia].
  - destruct hk_base0 as (? & ? & ?). split_and!; [done|done|lia].
  - lia.
  - lia.
  - destruct hk_top0 as (H1 & H2 & H3 & H4).
    replace (b0 + total pre + sz + total post) with (b0 + (total pre + (sz + total post))) by lia. done.
Qed.

(** A free chunk after the gap joins it. *)
Lemma gap_join s av b0 pre tot z post T :
  gap_ok true s av b0 pre tot (mkBlock z false :: post) T -> gap_ok false s av b0 pre (tot + z) post T.
Proof.
  intros []. cbn [seg total bsize bused starts frees app] in *. destruct ga_post0 as (_ & Hm & H32 & _ & Hpost).
  assert (b0 + total pre + (tot + z) = b0 + total pre + tot + z) as En by lia.
  split; rewrite ?En, <- ?Z.add_assoc; rewrite <- ?Z.add_assoc in *; try done.
  split; [zlia|lia].
Qed.

(** ** Taking a chunk out of its bin *)

Lemma keeps_unlinked s m' av b0 l T pre tot post :
  sized l -> 32 <= T -> b0 + total l + T + 64 <= av \/ av + 2304 <= b0 ->
  (forall x, x ∈ starts b0 pre ++ starts (b0 + total pre + tot) post -> x ∈ starts b0 l) ->
  total pre + tot + total post = total l ->
  (forall c, nonlink av (starts b0 l) (bigs b0 l) c -> ld m' c = ld (st_mem s) c) -> keeps s m' av b0 pre tot post.
Proof.
  intros Hs HT Hsep Hin Htot Hc. split_and!.
  - intros x o Hx Ho. apply Hc, (nonlink_chunk _ _ _ T); auto.
  - replace (b0 + total pre + tot + total post) with (b0 + total l) by lia. apply Hc, (nonlink_chunk _ _ _ T); auto.
  - intros o Ho. by apply Hc, (nonlink_arena _ _ _ T).
Qed.

Lemma bigs_gap b0 pre b post y :
  y <> b0 + total pre -> y ∈ bigs b0 (pre ++ b :: post) -> y ∈ bigs b0 pre ++ bigs (b0 + total pre + bsize b) post.
Proof.
  intros Hne. rewrite bigs_app. cbn [bigs]. rewrite !elem_of_app. destruct (1024 <=? bsize b); [|rewrite elem_of_nil; tauto].
  rewrite list_elem_of_singleton. tauto.
Qed.

Lemma frees_gap b0 pre n post y : sized pre -> sized post -> b0 + total pre < n -> y ∈ frees b0 pre ++ frees n post -> y <> b0 + total pre.
Proof.
  intros Hs1 Hs2 Hn [Hy%frees_starts|Hy%frees_starts]%elem_of_app;
    [apply (starts_range _ _ _ Hs1) in Hy|apply (starts_range _ _ _ Hs2) in Hy]; lia.
Qed.

Lemma gap_bins_unlinked m' av b0 G Bg (fr : list Z) L pre tot post x :
  bins_ok av G Bg (without x L) m' ->
  (forall y, y ∈ fr <-> exists i, valid_bin i /\ y ∈ L i) ->
  (forall y, y ∈ frees b0 pre ++ frees (b0 + total pre + tot) post <-> y ∈ fr /\ y <> x) ->
  (forall y, y ∈ frees b0 pre ++ frees (b0 + total pre + tot) post -> y ∈ Bg -> y ∈ bigs b0 pre ++ bigs (b0 + total pre + tot) post) ->
  gap_bins m' av b0 pre tot post (without x L).
Proof.
  intros Hb Hfr Hsub Hbig.
  assert (forall y, y ∈ frees b0 pre ++ frees (b0 + total pre + tot) post
            <-> exists i, valid_bin i /\ y ∈ without x L i) as Hiff.
  { intros y. unfold without. rewrite Hsub, Hfr. setoid_rewrite list_elem_of_filter. naive_solver. }
  split; [|done]. revert Hb. apply bins_within. intros i y Hi Hy.
  assert (y ∈ frees b0 pre ++ frees (b0 + total pre + tot) post) as Hin by (apply Hiff; by exists i). split.
  - apply elem_of_app. apply elem_of_app in Hin as [?|?]; [left|right]; by apply frees_starts.
  - by apply Hbig.
Qed.

(** ** The three parts of [int_free_consolidate] *)

Definition back_part (av : Z) (s : state) (p size : Z) : M (Z * Z) :=
  if negb (prev_inuse s p) then
    let prevsize := prev_size s p in
    let size := size +w prevsize in
    let p := chunk_at_offset p (- prevsize) in
    unlink av p ;;; ret (p, size)
  else ret (p, size).

Definition next_part (av : Z) (s : state) (nextchunk nextsize size : Z) : M Z :=
  if negb (inuse_bit_at_offset s nextchunk nextsize) then
    unlink av nextchunk ;;; ret (size +w nextsize)
  else clear_inuse_bit_at_offset nextchunk 0 ;;; ret size.

Definition place_part (av p size : Z) : M (Z + Z) :=
  s <- get ;;
  let bck := unsorted_chunks av in
  let fwd := fd s bck in
  if negb (bk s fwd =? bck) then ret (inr p)
  else
    set_fd p fwd ;;;
    set_bk p bck ;;;
    when_ (negb (in_smallbin_range size))
      (set_fd_nextsize p 0 ;;; set_bk_nextsize p 0) ;;;
    set_fd bck p ;;;
    set_bk fwd p ;;;
    set_head p (size |w PREV_INUSE) ;;;
    set_foot p size ;;;
    ret (inl size).

Lemma consolidate_parts av p size (s : state) :
  int_free_consolidate av p size s =
  bind (back_part av s p size) (fun '(q, sz) =>
    s1 <- get ;;
    let n := chunk_at_offset p size in
    if negb (n =? top s1 av) then
      sz <- next_part av s1 n (chunksize s n) sz ;; place_part av q sz
    else
      let sz := sz +w chunksize s n in
      set_head q (sz |w PREV_INUSE) ;;; set_top av q ;;; ret (inl sz)) s.
Proof. reflexivity. Qed.

(** The first part joins a free predecessor. *)
Lemma back_run s av b0 pre sz post T L pre0 psz :
  heap_ok s av b0 (pre ++ mkBlock sz true :: post) T L -> take_free_last pre = (pre0, psz) ->
  exists m1 L1, back_part av s (b0 + total pre) sz s = Ok (b0 + total pre0, psz + sz) (with_mem m1 s)
    /\ gap_ok true (with_mem m1 s) av b0 pre0 (psz + sz) post T /\ gap_bins m1 av b0 pre0 (psz + sz) post L1
    /\ keeps_data b0 (filled pre0 (psz + sz) post) (st_mem s) m1.
Proof.
  intros Hok Ht. pose proof (heap_gap _ _ _ _ _ _ _ _ _ _ Hok Ht) as Hgap. pose proof Hok as [].
  pose proof (seg_sized _ _ _ _ _ hk_row0) as Hs. pose proof hk_row0 as Hrow.
  apply seg_app in Hrow as (pv & Hpre & Hh & Hm & H32 & _ & Hpost). cbn [bsize bused] in *.
  rewrite total_app in hk_base0, hk_sep0. cbn [total bsize] in hk_base0, hk_sep0.
  assert (sized pre /\ sized post) as [Hs1 Hs2] by (split; by eapply seg_sized).
  pose proof (total_nonneg _ Hs1) as [Ht1 _]. pose proof (total_nonneg _ Hs2) as [Ht2 _]. destruct hk_top0 as (_ & _ & HTm & HT).
  destruct (header_reads s _ sz pv Hh Hm ltac:(lia)) as (_ & _ & Hpi & _).
  unfold back_part. rewrite Hpi. destruct (take_free_last_seg _ _ _ _ _ _ Hpre Ht) as [(-> & -> & ->)|(-> & ->)]; cbn [negb].
  - exists (st_mem s), L. rewrite with_mem_id. split; [done|]. split; [done|]. rewrite Z.add_0_l in *.
    assert (forall y, y ∈ frees b0 pre ++ frees (b0 + total pre + sz) post <-> exists i, valid_bin i /\ y ∈ L i) as Hfr.
    { intros y. rewrite <- hk_free0, frees_app. done. }
    split; [|done]. split; [|done]. revert hk_bins0. apply bins_within. intros i y Hi Hy.
    assert (y ∈ frees b0 pre ++ frees (b0 + total pre + sz) post) as Hin by (apply Hfr; by exists i). split.
    + apply elem_of_app. apply elem_of_app in Hin as [?|?]; [left|right]; by apply frees_starts.
    + apply (bigs_gap b0 pre (mkBlock sz true)). apply (frees_gap _ _ (b0 + total pre + sz) post); [done|done|lia|done].
  - rewrite total_app in *. cbn [total bsize] in *. set (q := b0 + total pre0) in *.
    apply seg_app in Hpre as (p1 & Hpre0 & _ & Hqm & Hq32 & Hqf & _). cbn [bsize bused] in *. destruct (Hqf eq_refl) as [-> Hft].
    pose proof (seg_sized _ _ _ _ _ Hpre0) as Hs0. pose proof (total_nonneg _ Hs0) as [Ht0 _].
    assert (prev_size s (b0 + (total pre0 + (psz + 0))) = psz) as ->.
    { unfold prev_size, word, off_prev_size. rewrite <- Hft. f_equal. unfold q. lia. }
    unfold chunk_at_offset. replace (b0 + (total pre0 + (psz + 0)) + - psz) with q by (unfold q; lia).
    rewrite (u64_small q), (u64_small (sz + psz)) by (unfold q; lia).
    assert (q ∈ frees b0 ((pre0 ++ [mkBlock psz false]) ++ mkBlock sz true :: post)) as Hq.
    { rewrite !frees_app. cbn [frees bused]. fold q. set_solver. }
    apply hk_free0 in Hq as (i & Hi & HqL).
    set (row := (pre0 ++ [mkBlock psz false]) ++ mkBlock sz true :: post) in *.
    assert (heap_geom av (starts b0 row) (bigs b0 row)) as Hg.
    { apply (rows_geom _ _ _ T); [done|done|lia|apply hk_main0|]. unfold row. rewrite !total_app. cbn [total bsize]. lia. }
    destruct (bins_unlink av _ _ s L i q Hg hk_bins0 Hi HqL) as (m1 & Hrun & Hb1 & Ho & Hc). exists m1, (without q L). mexec. rewrite Hrun. replace (sz + psz) with (psz + sz) by lia. split; [done|].
    assert (q + (psz + sz) = b0 + total (pre0 ++ [mkBlock psz false]) + sz) as En by (rewrite total_app; cbn [total bsize]; unfold q; lia).
    split_and!.
    + apply gap_keep; [done|]. eapply keeps_unlinked with (T := T); [exact Hs|done| | | |done].
      * unfold row. rewrite !total_app. cbn [total bsize]. lia.
      * intros x. fold q. unfold row. rewrite En, !starts_app. cbn [starts]. set_solver.
      * unfold row. rewrite !total_app. cbn [total bsize]. lia.
    + eapply gap_bins_unlinked; [done|exact hk_free0| |]; fold q; rewrite En.
      2:{ intros y Hy Hyr. assert (y <> q) as Hyq by (apply (frees_gap _ _ (q + (psz + sz)) post); [done|done|lia|by rewrite En]).
          assert (y <> b0 + total (pre0 ++ [mkBlock psz false])) as Hyp.
          { rewrite total_app. cbn [total bsize]. apply elem_of_app in Hy as [Hy%frees_starts|Hy%frees_starts];
              [apply (starts_range _ _ _ Hs0) in Hy|apply (starts_range _ _ _ Hs2) in Hy]; rewrite ?total_app in Hy; cbn [total bsize] in Hy; lia. }
          apply (bigs_gap _ _ _ _ _ Hyp) in Hyr. cbn [bsize] in Hyr. apply elem_of_app in Hyr as [Hyr|Hyr]; apply elem_of_app; [left|by right].
          apply (bigs_gap _ _ _ _ _ Hyq) in Hyr. cbn [bigs] in Hyr. by rewrite app_nil_r in Hyr. }
      unfold row. rewrite !frees_app. cbn [frees bused bsize app]. intros y. rewrite total_app. fold q. cbn [total bsize].
      assert ((q ∉ frees b0 pre0) /\ q ∉ frees (b0 + (total pre0 + (psz + 0)) + sz) post).
      { split; intros Hx%frees_starts; [apply (starts_range _ _ _ Hs0) in Hx|apply (starts_range _ _ _ Hs2) in Hx]; unfold q in Hx; lia. }
      set_solver.
    + intros c Hd. apply Ho, (data_outside av b0 row T); try done.
      * unfold row. rewrite !total_app. cbn [total bsize]. lia.
      * intros y Hy. apply hk_free0. by exists i.
      * unfold filled in Hd. rewrite data_app, data_cons in Hd. cbn [bused bsize] in Hd. fold q in Hd. rewrite En in Hd.
        unfold row. rewrite data_app. destruct Hd as [Hd|[[? _]|Hd]]; [left; rewrite data_app; by left|done|]. right. apply data_cons. by right.
Qed.

(** The second part, when a free chunk follows: it joins the gap. *)
Lemma next_run_free s av b0 pre tot z post T L :
  gap_ok true s av b0 pre tot (mkBlock z false :: post) T -> gap_bins (st_mem s) av b0 pre tot (mkBlock z false :: post) L ->
  exists m2 L2, next_part av s (b0 + total pre + tot) z tot s = Ok (tot + z) (with_mem m2 s)
    /\ gap_ok false (with_mem m2 s) av b0 pre (tot + z) post T /\ gap_bins m2 av b0 pre (tot + z) post L2
    /\ keeps_data b0 (filled pre (tot + z) post) (st_mem s) m2.
Proof.
  intros Hgap [Hb Hfree]. pose proof (gap_geom _ _ _ _ _ _ _ _ Hgap) as Hg. pose proof (filled_sized _ _ _ _ _ _ _ _ Hgap) as Hs.
  pose proof (gap_join _ _ _ _ _ _ _ _ Hgap) as Hgap'. set (n := b0 + total pre + tot) in *.
  destruct (gap_sized _ _ _ _ _ _ _ _ Hgap') as [Hs1 Hs2]. pose proof (total_nonneg _ Hs1) as [? _]. pose proof (total_nonneg _ Hs2) as [? _].
  pose proof Hgap as []. cbn [seg total bsize bused] in *. destruct ga_post0 as (Hh & Hm & H32 & Hf & Hpost).
  destruct ga_top0 as (Htop & Htoph & HTm & HT), ga_tot0 as [Htm Ht32].
  assert (inuse_bit_at_offset s n z = false) as Hbit.
  { destruct post as [|[z2 u2] post].
    - cbn [seg] in Hpost. done.
    - cbn [seg bsize bused total] in *. destruct Hpost as (Hh2 & Hm2 & H322 & _).
      inversion Hs2 as [|? ? _ Hs3]; subst. pose proof (total_nonneg _ Hs3) as [? _].
      apply (inuse_bit_reads s (n + z) z2); try done; unfold n; lia. }
  unfold next_part. rewrite Hbit. cbn [negb].
  assert (n ∈ frees b0 pre ++ frees n (mkBlock z false :: post)) as Hn by (cbn [frees bused]; set_solver).
  apply Hfree in Hn as (i & Hi & HnL).
  pose proof (gap_bins_filled _ _ _ _ _ _ _ (conj Hb Hfree)) as Hb'.
  destruct (bins_unlink av _ _ s L i n Hg Hb' Hi HnL) as (m2 & Hrun & Hb2 & Ho & Hc).
  exists m2, (without n L). mexec. rewrite Hrun, u64_small by (unfold n in *; lia). split; [done|].
  assert (b0 + total pre + (tot + z) = n + z) as En by (unfold n; lia). split_and!.
  - apply gap_keep; [done|]. eapply keeps_unlinked with (T := T); [exact Hs|done| | | |done].
    + rewrite filled_total. cbn [total bsize]. lia.
    + intros x. rewrite En, filled_starts. fold n. cbn [starts bsize]. set_solver.
    + rewrite filled_total. cbn [total bsize]. lia.
  - eapply gap_bins_unlinked; [done|exact Hfree| |]; rewrite En.
    2:{ intros y Hy Hyr. assert (y <> b0 + total pre) as Hyq by (apply (frees_gap _ _ (n + z) post); (done || unfold n; lia)).
        assert (y <> n) as Hyn by (apply elem_of_app in Hy as [Hy%frees_starts|Hy%frees_starts];
          [apply (starts_range _ _ _ Hs1) in Hy|apply (starts_range _ _ _ Hs2) in Hy]; unfold n in *; lia).
        apply (bigs_gap _ _ _ _ _ Hyq) in Hyr. cbn [bsize bigs] in Hyr. fold n in Hyr. rewrite !elem_of_app in Hyr. rewrite elem_of_app.
        destruct (1024 <=? z); [rewrite list_elem_of_singleton in Hyr|rewrite elem_of_nil in Hyr]; tauto. }
    cbn [frees bused bsize app]. intros y.
    assert ((n ∉ frees b0 pre) /\ n ∉ frees (n + z) post).
    { split; intros Hx%frees_starts; [apply (starts_range _ _ _ Hs1) in Hx|apply (starts_range _ _ _ Hs2) in Hx]; unfold n in Hx; lia. }
    set_solver.
  - intros c Hd. apply Ho, (data_outside av b0 (filled pre tot (mkBlock z false :: post)) T); try done.
    + rewrite filled_total. cbn [total bsize]. lia.
    + intros y Hy. apply filled_frees. right. apply Hfree. by exists i.
    + unfold filled in *. rewrite data_app, data_cons in Hd. cbn [bused bsize] in Hd. rewrite En in Hd. rewrite data_app, !data_cons. cbn [bused bsize]. fold n.
      destruct Hd as [Hd|[[? _]|Hd]]; [by left|done|]. right. right. by right.
Qed.

(** The header of a chunk in use that follows is no concern of the bins. *)
Lemma gap_bins_header pv s av b0 pre tot z post T L v :
  gap_ok pv s av b0 pre tot (mkBlock z true :: post) T -> gap_bins (st_mem s) av b0 pre tot (mkBlock z true :: post) L ->
  gap_bins (<[b0 + total pre + tot + 8 := v]> (st_mem s)) av b0 pre tot (mkBlock z true :: post) L.
Proof.
  intros Hgap [Hb Hfree]. destruct (gap_sized _ _ _ _ _ _ _ _ Hgap) as [Hs1 Hs2]. inversion Hs2 as [|? ? [_ Hz] Hs3]; subst.
  pose proof (total_nonneg _ Hs1) as [? _]. pose proof (total_nonneg _ Hs3) as [? _]. cbn [bsize] in Hz.
  destruct Hgap. cbn [total bsize] in *. destruct ga_top0 as (_ & _ & _ & HT), ga_tot0 as [_ Ht32]. set (n := b0 + total pre + tot) in *.
  split; [|done]. generalize Hb. apply bins_frame. fold n. intros c Hcell. apply ld_insert_ne. intros <-.
  assert (forall i x, valid_bin i -> x ∈ L i -> x + 32 <= n \/ n + z <= x) as Hx'.
  { intros i x Hi Hx. assert (x ∈ frees b0 pre ++ frees n (mkBlock z true :: post)) as Hf by (apply Hfree; by exists i).
    cbn [frees bused bsize app] in Hf. apply elem_of_app in Hf as [Hf%frees_starts|Hf%frees_starts];
      [apply (starts_range _ _ _ Hs1) in Hf|apply (starts_range _ _ _ Hs3) in Hf]; unfold n in *; lia. }
  inversion Hcell as [i o Hi Ho Ec|i x o Hi Hx Ho Ec|i x o Hi Hx Hbg Ho Ec|k Hk Ec].
  - rewrite bin_at_eq in Ec. unfold valid_bin, NBINS in Hi. unfold n in *. lia.
  - pose proof (Hx' i x Hi Hx). lia.
  - pose proof (Hx' i x Hi Hx) as [Hlt|]; [|lia]. assert (x ∈ bigs b0 pre) as Hbp.
    { cbn [bigs bsize] in Hbg. apply elem_of_app in Hbg as [?|[Hbg|Hbg]%elem_of_app]; [done|..]; exfalso.
      - destruct (1024 <=? z); [apply list_elem_of_singleton in Hbg; lia|by apply elem_of_nil in Hbg].
      - apply bigs_starts, (starts_range _ _ _ Hs3) in Hbg. lia. }
    destruct (bigs_range _ _ _ Hs1 Hbp) as (_ & ? & _). unfold n in *. lia.
  - rewrite binmap_at_eq in Ec. change BINMAPSIZE with 4 in Hk. unfold n in *. lia.
Qed.

(** The second part, when a chunk in use follows: its mark is cleared. *)
Lemma next_run_used s av b0 pre tot z post T L :
  gap_ok true s av b0 pre tot (mkBlock z true :: post) T -> gap_bins (st_mem s) av b0 pre tot (mkBlock z true :: post) L ->
  let m2 := <[b0 + total pre + tot + 8 := z]> (st_mem s) in
  next_part av s (b0 + total pre + tot) z tot s = Ok tot (with_mem m2 s)
    /\ gap_ok false (with_mem m2 s) av b0 pre tot (mkBlock z true :: post) T
    /\ gap_bins m2 av b0 pre tot (mkBlock z true :: post) L
    /\ keeps_data b0 (filled pre tot (mkBlock z true :: post)) (st_mem s) m2.
Proof.
  intros Hgap [Hb Hfree] m2. set (n := b0 + total pre + tot) in *.
  destruct (gap_sized _ _ _ _ _ _ _ _ Hgap) as [Hs1 Hs2]. inversion Hs2 as [|? ? _ Hs3]; subst.
  pose proof (total_nonneg _ Hs1) as [? _]. pose proof (total_nonneg _ Hs3) as [? _].
  pose proof (gap_where _ _ _ _ _ _ _ _ Hgap) as Hw. fold n in Hw.
  pose proof Hgap as []. pose proof ga_post0 as Hpost. cbn [seg total bsize bused] in *. destruct ga_post0 as (Hh & Hm & H32 & _ & Hpost').
  destruct ga_top0 as (Htop & Htoph & HTm & HT), ga_tot0 as [Htm Ht32]. fold n in Hh, Hpost, Hpost', Htop, Htoph.
  assert (forall c, c <> n + 8 -> ld m2 c = ld (st_mem s) c) as Hc by (intros c Hc; by apply ld_insert_ne).
  split_and!.
  - assert (inuse_bit_at_offset s n z = true) as Hbit.
    { destruct post as [|[z2 u2] post].
      - cbn [total] in *. rewrite Z.add_0_r in *. apply (inuse_bit_reads s (n + z) T true); try done; unfold n in *; lia.
      - cbn [seg bsize bused total] in *. destruct Hpost' as (Hh2 & Hm2 & H322 & _).
        inversion Hs3 as [|? ? _ Hs4]; subst. pose proof (total_nonneg _ Hs4) as [? _].
        apply (inuse_bit_reads s (n + z) z2); try done; unfold n in *; lia. }
    unfold next_part. rewrite Hbit. cbn [negb]. unfold clear_inuse_bit_at_offset. mexec.
    rewrite Z.add_0_r, u64_small by (unfold n in *; lia).
    destruct (header_reads s n z true Hh Hm ltac:(unfold n in *; lia)) as (-> & _). unfold m2, off_size.
    unfold PREV_INUSE. rewrite land_u64_r by (simpl; unfold n in *; lia).
    rewrite (land_mask_down 1) by lia. simpl Z.b2z. change (2 ^ 1) with 2. replace (z + 1 - (z + 1) mod 2) with z by zlia. done.
  - split; unfold system_mem, top, word in *; cbn [with_mem upd_mem st_mem st_gl total bsize] in *; fold n;
      rewrite ?Hc by (unfold off_system_mem, off_top, n in *; lia); try done.
    + apply (no_fast_frame s); [|done]. intros o Ho _. apply Hc. unfold field, n in *. lia.
    + revert ga_pre0. apply seg_frame; [intros x Hx|intros x Hx _|done]; apply Hc; apply (starts_range _ _ _ Hs1) in Hx; unfold n; lia.
    + exact (seg_unmark (st_mem s) n (mkBlock z true) post true eq_refl Hpost).
  - by apply (gap_bins_header true s av b0 pre tot z post T).
  - intros c Hd. apply Hc. pose proof (filled_sized _ _ _ _ _ _ _ _ Hgap) as Hs. destruct (data_gap _ _ _ _ _ Hs eq_refl Hd) as [Hd' _].
    cbn [bsize] in Hd'. unfold n. lia.
Qed.

(** The last part puts the chunk on the unsorted list. *)
Lemma place_run pv s av b0 pre tot post T L :
  gap_ok pv s av b0 pre tot post T -> gap_bins (st_mem s) av b0 pre tot post L ->
  place_part av (b0 + total pre) tot s = Ok (inl tot) (with_mem (placed s av b0 tot pre L) s).
Proof.
  intros Hgap [Hb _]. destruct (gap_sized _ _ _ _ _ _ _ _ Hgap) as [Hs1 Hs2].
  pose proof (total_nonneg _ Hs1) as [? _]. pose proof (total_nonneg _ Hs2) as [? _].
  destruct Hgap. destruct ga_tot0 as [Hm H32], ga_top0 as (_ & _ & _ & HT).
  assert (valid_bin 1) as V1 by done. destruct (bo_list _ _ _ _ _ Hb 1 V1) as (Hc & _).
  set (u := bin_at av 1) in *.
  assert (ld (st_mem s) (u + 16) = hd u (L 1) /\ ld (st_mem s) (hd u (L 1) + 24) = u) as [Hf Hk].
  { destruct (L 1) as [|y l]; [exact Hc|]. by destruct Hc as [[? ?] _]. }
  unfold place_part. mexec. unfold fd, bk, word, unsorted_chunks, off_fd, off_bk. fold u. rewrite Hf, Hk, Z.eqb_refl. cbn [negb].
  unfold placed, off_size, off_prev_size, off_fd_nextsize, off_bk_nextsize, PREV_INUSE. fold u. mexec. rewrite Z.add_0_r, u64_small by lia.
  rewrite lor_16 by (done || lia). destruct (in_smallbin_range tot); cbn [negb]; mexec; reflexivity.
Qed.

(** A gap at the end becomes the top chunk. *)
Lemma gap_top s av b0 pre tot T L :
  gap_ok true s av b0 pre tot [] T -> gap_bins (st_mem s) av b0 pre tot [] L ->
  let q := b0 + total pre in
  let m' := <[av + off_top := q]> (<[q + 8 := tot + T + 1]> (st_mem s)) in
  heap_ok (with_mem m' s) av b0 pre (tot + T) L /\ keeps_data b0 pre (st_mem s) m'.
Proof.
  intros Hgap [Hb Hfree] q m'. destruct (gap_sized _ _ _ _ _ _ _ _ Hgap) as [Hs1 _]. pose proof (total_nonneg _ Hs1) as [? _].
  destruct Hgap. cbn [total starts frees] in *. rewrite app_nil_r in *. destruct ga_tot0 as [Hm H32], ga_top0 as (_ & _ & HTm & HT).
  assert (forall c, c <> av + 128 -> c <> q + 8 -> ld m' c = ld (st_mem s) c) as Hc.
  { intros c H1 H2. unfold m', off_top. by rewrite !ld_insert_ne by lia. }
  split; [|intros c Hd; apply (data_range _ _ _ Hs1) in Hd; apply Hc; unfold q in *; lia].
  unfold q in *. split; unfold system_mem, top, word in *; cbn [with_mem upd_mem st_mem st_gl] in *;
    rewrite ?(Hc (av + off_system_mem)) by (unfold off_system_mem; lia); try done.
  - apply (no_fast_frame s); [|done]. intros o Ho Hne. apply Hc; unfold field, off_top in *; lia.
  - destruct ga_base0 as (? & ? & ?). split_and!; [done|done|lia].
  - lia.
  - lia.
  - revert ga_pre0. apply seg_frame; [intros x Hx|intros x Hx _|done]; apply Hc; apply (starts_range _ _ _ Hs1) in Hx; lia.
  - split_and!; [apply ld_insert_eq| |zlia|lia]. unfold m', off_top. rewrite ld_insert_ne, ld_insert_eq by lia. done.
  - cbn [bigs] in Hb. rewrite app_nil_r in Hb. generalize Hb. apply bins_frame. intros c Hcell.
    pose proof (cell_below av b0 pre L c Hs1 (fun i x Hi Hx => bo_in _ _ _ _ _ Hb i x Hi Hx) Hcell). apply Hc; lia.
Qed.

(** The chunk after the block that is freed, or the top chunk. *)
Definition next_size (post : list block) (T : Z) : Z := match post with [] => T | b :: _ => bsize b end.

Lemma freed_reads s av b0 pre sz post T L :
  heap_ok s av b0 (pre ++ mkBlock sz true :: post) T L ->
  let p := b0 + total pre in
  p mod 16 = 0 /\ 0 < p /\ chunk_at_offset p sz = p + sz /\ sz mod 16 = 0 /\ 32 <= sz
  /\ p + sz + total post + T + 64 < 18446744073709551616 /\ 0 <= total post
  /\ chunksize s p = sz /\ chunk_is_mmapped s p = false
  /\ chunksize s (p + sz) = next_size post T /\ size_ s (p + sz) = next_size post T + 1 /\ prev_inuse s (p + sz) = true
  /\ 32 <= next_size post T <= total post + T /\ top s av = p + sz + total post.
Proof.
  intros [] p. rewrite total_app in *. cbn [total bsize] in *. apply seg_app in hk_row0 as (pv & Hpre & Hh & Hm & H32 & _ & Hpost). cbn [bsize bused] in *.
  assert (sized pre /\ sized post) as [Hs1 Hs2] by (split; by eapply seg_sized).
  pose proof (total_nonneg _ Hs1) as [Ht1 Ht1m]. pose proof (total_nonneg _ Hs2) as [Ht2 _]. destruct hk_top0 as (Htop & Htoph & HTm & HT).
  fold p in Hh, Hpost. destruct (header_reads s p sz pv Hh Hm ltac:(lia)) as (_ & Hc & _ & Hmm).
  assert (ld (st_mem s) (p + sz + 8) = next_size post T + Z.b2z true /\ next_size post T mod 16 = 0
          /\ 32 <= next_size post T <= total post + T) as (Hn & Hnm & Hnr).
  { destruct post as [|b post]; cbn [next_size total] in *.
    - replace (p + sz + 8) with (b0 + (total pre + (sz + 0)) + 8) by (unfold p; lia). rewrite Htoph. simpl. split_and!; try done; lia.
    - destruct Hpost as (? & ? & ? & _). inversion Hs2 as [|? ? _ Hs3]; subst. pose proof (total_nonneg _ Hs3) as [? _]. split_and!; try done; lia. }
  destruct (header_reads s (p + sz) _ true Hn Hnm ltac:(lia)) as (Hsz & Hcn & Hpi & _).
  unfold chunk_at_offset. rewrite u64_small by (unfold p; lia). split_and!; try done; unfold p; try lia. zlia.
Qed.

(** [int_free_consolidate] runs through all its parts. *)
Lemma consolidate_refines s av b0 pre sz post T L :
  heap_ok s av b0 (pre ++ mkBlock sz true :: post) T L ->
  exists size m' L', int_free_consolidate av (b0 + total pre) sz s = Ok (inl size) (with_mem m' s)
    /\ let r := abs_free pre sz post T in heap_ok (with_mem m' s) av b0 r.1 r.2 L' /\ keeps_data b0 r.1 (st_mem s) m'.
Proof.
  intros Hok. rewrite consolidate_parts. unfold abs_free. destruct (take_free_last pre) as [pre0 psz] eqn:Ht.
  destruct (back_run _ _ _ _ _ _ _ _ _ _ Hok Ht) as (m1 & L1 & Hrun & Hgap & Hgb & Hk1). set (s1 := with_mem m1 s) in *.
  rewrite (bind_Ok _ _ _ _ _ Hrun). mexec. fold s1.
  pose proof (take_free_total pre) as [Htot _]. rewrite Ht in Htot. cbn [fst snd] in Htot.
  set (n := b0 + total pre0 + (psz + sz)) in *.
  destruct (gap_sized _ _ _ _ _ _ _ _ Hgap) as [Hs1 Hs2]. pose proof (total_nonneg _ Hs1) as [? _]. pose proof (total_nonneg _ Hs2) as [Hp2 _].
  pose proof Hgap as []. fold n in ga_post0, ga_top0. destruct ga_top0 as (Htop & Htoph & HTm & HT), ga_tot0 as [Htm Ht32].
  destruct (freed_reads _ _ _ _ _ _ _ _ Hok) as (_ & _ & Ec & _ & _ & Hend & _ & _ & _ & Hnsz & _).
  assert (b0 + total pre + sz = n) as En by (unfold n; lia). rewrite En in Ec, Hnsz. rewrite Ec, Htop, Hnsz.
  destruct post as [|[z [|]] post]; cbn [total bsize next_size take_free_head bused] in *.
  - rewrite (proj2 (Z.eqb_eq n (n + 0))) by lia. cbn [negb]. mexec. unfold PREV_INUSE, off_size.
    rewrite (u64_small (psz + sz + T)) by (unfold n in *; lia). rewrite lor_16; [|lia|zlia].
    do 3 eexists. split; [reflexivity|]. cbn [fst snd]. destruct (gap_top _ _ _ _ _ _ _ Hgap Hgb) as [Hok' Hk2].
    split; [exact Hok'|]. intros c Hd. etrans; [exact (Hk2 c Hd)|]. apply (Hk1 c). unfold filled. rewrite data_app. by left.
  - rewrite (proj2 (Z.eqb_neq n (n + (z + total post)))).
    2:{ inversion Hs2 as [|? ? [_ Hz] Hs3]; subst. cbn [bsize] in Hz. pose proof (total_nonneg _ Hs3) as [? _]. lia. }
    cbn [negb]. destruct (next_run_used _ _ _ _ _ _ _ _ _ Hgap Hgb) as (Hr2 & Hgap2 & Hgb2 & Hk2). fold n in Hr2, Hgap2, Hgb2, Hk2. rewrite Hr2.
    rewrite (place_run _ _ _ _ _ _ _ _ _ Hgap2 Hgb2). do 3 eexists. split; [reflexivity|]. cbn [fst snd].
    rewrite Z.add_0_r. split; [exact (placed_ok _ _ _ _ _ _ _ _ _ Hgap2 Hgb2 eq_refl)|].
    intros c Hd. etrans; [exact (placed_data _ _ _ _ _ _ _ _ _ Hgap2 Hgb2 c Hd)|]. etrans; [exact (Hk2 c Hd)|exact (Hk1 c Hd)].
  - rewrite (proj2 (Z.eqb_neq n (n + (z + total post)))).
    2:{ inversion Hs2 as [|? ? [_ Hz] Hs3]; subst. cbn [bsize] in Hz. pose proof (total_nonneg _ Hs3) as [? _]. lia. }
    cbn [negb]. destruct (next_run_free _ _ _ _ _ _ _ _ _ Hgap Hgb) as (m2 & L2 & Hr2 & Hgap2 & Hgb2 & Hk2). fold n in Hr2. rewrite Hr2.
    rewrite (place_run _ _ _ _ _ _ _ _ _ Hgap2 Hgb2). do 3 eexists. split; [reflexivity|]. cbn [fst snd].
    split; [exact (placed_ok _ _ _ _ _ _ _ _ _ Hgap2 Hgb2 eq_refl)|].
    intros c Hd. etrans; [exact (placed_data _ _ _ _ _ _ _ _ _ Hgap2 Hgb2 c Hd)|]. etrans; [exact (Hk2 c Hd)|]. apply (Hk1 c).
    unfold filled in *. rewrite data_app, data_cons in Hd. cbn [bused bsize] in Hd. rewrite Z.add_assoc in Hd. rewrite data_app, !data_cons. cbn [bused bsize].
    destruct Hd as [Hd|[[? _]|Hd]]; [by left|done|]. right. right. by right.
Qed.

Lemma freed_check s av b0 pre sz post T L :
  heap_ok s av b0 (pre ++ mkBlock sz true :: post) T L -> int_free_check s av (b0 + total pre) sz = None.
Proof.
  intros Hok. destruct (freed_reads _ _ _ _ _ _ _ _ Hok) as (_ & Hp & Ec & _ & H32 & Hend & Hp0 & _ & _ & Hcn & Hsn & Hpi & Hnr & Htop).
  pose proof (hk_sys _ _ _ _ _ _ Hok) as Hsys. rewrite total_app in Hsys. cbn [total bsize] in Hsys.
  pose proof (hk_row _ _ _ _ _ _ Hok) as Hrow. apply seg_app in Hrow as (pv & Hs1%seg_sized%total_nonneg & _). destruct Hs1 as [Hs1 _].
  assert (chunksize s (top s av) = T) as Htc.
  { destruct (hk_top _ _ _ _ _ _ Hok) as (-> & Hh & HTm & HT). apply (header_reads s _ T true); [done|done|lia]. }
  destruct (hk_top _ _ _ _ _ _ Hok) as (_ & _ & _ & HT).
  unfold int_free_check, bad_next_size. rewrite Ec, Hpi, Hcn, Hsn, Htc, Htop. change (2 * SIZE_SZ) with 16. cbn [negb].
  rewrite (proj2 (Z.eqb_neq _ _)) by lia. rewrite u64_small, (proj2 (Z.leb_gt (_ + T) _)), andb_false_r by lia.
  rewrite (proj2 (Z.leb_gt (_ + 1) 16)), (proj2 (Z.leb_gt (system_mem s av) _)) by lia. done.
Qed.

(** Without pending fast chunks nothing is trimmed in the main arena. *)
Lemma int_free_trim_main (s : state) fuel av size :
  av = main_arena (st_gl s) -> have_fastchunks s av = false -> int_free_trim fuel av size s = Ok tt s.
Proof.
  intros -> Hf. unfold int_free_trim. mexec. destruct (_ <=? _); mexec; [|done]. rewrite Hf. mexec. rewrite Z.eqb_refl.
  mexec. destruct (_ <=? _); mexec; [by rewrite systrim_keeps|done].
Qed.

Lemma int_free_heap (fuel : nat) s av b0 pre sz post T L :
  heap_ok s av b0 (pre ++ mkBlock sz true :: post) T L -> get_max_fast s < sz ->
  exists s' L', _int_free fuel av (b0 + total pre) true s = Ok tt s'
    /\ heap_ok s' av b0 (abs_free pre sz post T).1 (abs_free pre sz post T).2 L' /\ st_gl s' = st_gl s
    /\ keeps_data b0 (abs_free pre sz post T).1 (st_mem s) (st_mem s').
Proof.
  intros Hok Hmf. destruct (consolidate_refines _ _ _ _ _ _ _ _ Hok) as (size & m' & L' & Hrun & Hok' & Hkd).
  pose proof (freed_check _ _ _ _ _ _ _ _ Hok) as Hck.
  destruct (freed_reads _ _ _ _ _ _ _ _ Hok) as (Hal & Hp & _ & Hm & H32 & Hend & Hp0 & Hsz & Hmm & _).
  exists (with_mem m' s), L'. split; [|by split_and!]. destruct (hk_top _ _ _ _ _ _ Hok) as (_ & _ & _ & HT).
  rewrite int_free_slow_path with (11 := Hrun) by (done || lia || apply Hok).
  apply int_free_trim_main; apply Hok'.
Qed.

(** C9: freeing refines the abstract heap.  In any heap of the main arena, a
    chunk in use that is not of fastbin size can be freed: [_int_free] reports
    nothing, and the new state is the abstract heap in which the block has
    been joined with its free neighbours on both sides, or with the top chunk;
    the joined neighbours left their bins, the new chunk is on the unsorted
    list, no two free blocks are neighbours, no memory is lost, and nothing is
    written into the memory of the blocks that stay in use. *)
Theorem int_free_refines (fuel : nat) (s : state) (av b0 : Z) (pre : list block) (sz : Z) (post : list block)
    (T : Z) (L : Z -> list Z) :
  heap_ok s av b0 (pre ++ mkBlock sz true :: post) T L -> get_max_fast s < sz ->
  let r := abs_free pre sz post T in
  exists s' L', _int_free fuel av (b0 + total pre) true s = Ok tt s'
    /\ heap_ok s' av b0 r.1 r.2 L' /\ row_ok true r.1 /\ keeps_data b0 r.1 (st_mem s) (st_mem s')
    /\ total r.1 + r.2 = total (pre ++ mkBlock sz true :: post) + T.
Proof.
  intros Hok Hmf r. destruct (int_free_heap fuel _ _ _ _ _ _ _ _ Hok Hmf) as (s' & L' & Hrun & Hok' & _ & Hkd).
  exists s', L'. split; [done|]. split; [exact Hok'|]. split; [by eapply seg_row, (hk_row _ _ _ _ _ _ Hok')|]. split; [done|].
  rewrite total_app. cbn [total bsize]. unfold r. rewrite abs_free_total. lia.
Qed.

(** ** Allocation from the top *)

(** The memory after [nb] bytes were split off the top chunk. *)
Definition top_split (s : state) (av nb : Z) : memory :=
  let t := top s av in
  <[t + nb + 8 := chunksize s t - nb + 1]> (<[t + 8 := nb + 1]> (<[av + off_top := t + nb]> (st_mem s))).

Lemma top_split_run s av b0 l T L nb bytes :
  heap_ok s av b0 l T L -> good_size nb -> nb + 32 <= T ->
  int_malloc_top av nb bytes s = Ok (Some (chunk2mem (b0 + total l))) (with_mem (top_split s av nb) s).
Proof.
  intros [] [Hm Hr] Hfit. destruct hk_top0 as (Htop & Hh & HTm & HT).
  pose proof (total_nonneg l (seg_sized _ _ _ _ _ hk_row0)) as [Ht _].
  destruct (header_reads s _ T true Hh HTm ltac:(lia)) as (_ & Hc & _ & _).
  unfold int_malloc_top, top_split, alloc_perturb, chunk_at_offset, arena_flag. mexec.
  rewrite <- (proj1 hk_main0), Z.eqb_refl, MINSIZE_32, Htop, Hc. cbn [negb].
  rewrite (u64_small (nb + 32)), (proj2 (Z.leb_le (nb + 32) T)) by lia. mexec. rewrite hk_perturb0.
  rewrite (u64_small (T - nb)), (u64_small (b0 + total l + nb)) by lia. unfold PREV_INUSE. rewrite Z.lor_0_r.
  rewrite (lor_16 nb 1), (lor_16 (T - nb) 1) by (lia || zlia). change (truthy 0) with false. mexec. reflexivity.
Qed.

Lemma top_split_ok s av b0 l T L nb :
  heap_ok s av b0 l T L -> good_size nb -> nb + 32 <= T ->
  let r := abs_malloc_top nb l T in heap_ok (with_mem (top_split s av nb) s) av b0 r.1 r.2 L.
Proof.
  intros [] [Hm Hr] Hfit. cbn [abs_malloc_top fst snd]. destruct hk_top0 as (Htop & Hh & HTm & HT).
  pose proof (seg_sized _ _ _ _ _ hk_row0) as Hs. pose proof (total_nonneg l Hs) as [Ht _].
  destruct (header_reads s _ T true Hh HTm ltac:(lia)) as (_ & Hc & _ & _).
  unfold top_split. rewrite Htop, Hc. set (t := b0 + total l) in *.
  set (m' := <[t + nb + 8 := T - nb + 1]> (<[t + 8 := nb + 1]> (<[av + off_top := t + nb]> (st_mem s)))).
  assert (forall c, c <> av + 128 -> c <> t + 8 -> c <> t + nb + 8 -> ld m' c = ld (st_mem s) c) as Hk.
  { intros c H1 H2 H3. unfold m', off_top. by rewrite !ld_insert_ne by lia. }
  assert (forall x, x ∈ frees b0 (l ++ [mkBlock nb true]) <-> x ∈ frees b0 l) as Hfr.
  { intros x. rewrite frees_app. cbn [frees bused app]. by rewrite app_nil_r. }
  split; unfold system_mem, top, word in *; cbn [with_mem upd_mem st_mem st_gl] in *;
    rewrite ?total_app; cbn [total bsize]; rewrite ?(Hk (av + off_system_mem)) by (unfold off_system_mem, t; lia); try done.
  - apply (no_fast_frame s); [|done]. intros o Ho Hne. apply Hk; unfold field, off_top, t in *; lia.
  - split_and!; [apply hk_base0|apply hk_base0|lia].
  - lia.
  - lia.
  - apply seg_app. exists true. split.
    + revert hk_row0. apply seg_frame; [intros x Hx|intros x Hx _|done]; apply Hk; apply (starts_range _ _ _ Hs) in Hx; unfold t; lia.
    + cbn [seg bsize bused]. fold t. split_and!; try done; [|lia]. unfold m', off_top. rewrite ld_insert_ne, ld_insert_eq by lia. done.
  - replace (b0 + (total l + (nb + 0))) with (t + nb) by (unfold t; lia). unfold m', off_top.
    split_and!; [|apply ld_insert_eq|zlia|lia]. rewrite !ld_insert_ne by (unfold t in *; lia). apply ld_insert_eq.
  - apply (bins_within _ (starts b0 l) (bigs b0 l)).
    { intros i x Hi Hx. rewrite starts_app, bigs_app, !elem_of_app. split; [left; by apply (bo_in _ _ _ _ _ hk_bins0 i)|tauto]. }
    generalize hk_bins0. apply bins_frame. intros c Hcell.
    pose proof (cell_below av b0 l L c Hs (fun i x Hi Hx => bo_in _ _ _ _ _ hk_bins0 i x Hi Hx) Hcell). apply Hk; unfold t in *; lia.
  - intros x. rewrite Hfr. apply hk_free0.
Qed.

(** The row of a heap ends with a block in use. *)
Lemma row_end l nb T : row_ok true l -> abs_free l nb [] T = (l, nb + T).
Proof.
  intros Hr. unfold abs_free. destruct l as [|b l _] using rev_ind; [done|]. rewrite take_free_last_snoc.
  assert (bused b = true) as ->; [|done].
  assert (forall pv, row_ok pv (l ++ [b]) -> bused b = true) as Hl; [|by apply (Hl true)].
  clear Hr. induction l as [|c l IH]; intros pv Hr; simpl in Hr; [naive_solver|]. destruct Hr as (_ & _ & _ & Hr). by apply (IH _ Hr).
Qed.

(** Allocating from the top chunk refines the abstract heap, and freeing
    undoes it.  A request that fits gets the block at the old top; the rest of
    the heap, its bins included, stays as it was; freeing the block again, if
    it is not of fastbin size, restores the abstract heap with the same top. *)
Theorem malloc_top_free_roundtrip (fuel : nat) (s : state) (av b0 : Z) (l : list block) (T nb bytes : Z) (L : Z -> list Z) :
  heap_ok s av b0 l T L -> good_size nb -> nb + 32 <= T ->
  exists s1, int_malloc_top av nb bytes s = Ok (Some (chunk2mem (b0 + total l))) s1
    /\ heap_ok s1 av b0 (abs_malloc_top nb l T).1 (abs_malloc_top nb l T).2 L
    /\ (get_max_fast s < nb ->
        exists s2 L2, _int_free fuel av (b0 + total l) true s1 = Ok tt s2 /\ heap_ok s2 av b0 l T L2).
Proof.
  intros Hok Hnb Hfit. eexists. split; [by eapply top_split_run|]. pose proof (top_split_ok _ _ _ _ _ _ _ Hok Hnb Hfit) as Hok1.
  split; [exact Hok1|]. intros Hmf.
  assert (get_max_fast (with_mem (top_split s av nb) s) < nb) as Hmf1 by done.
  destruct (int_free_heap fuel _ _ _ _ _ _ _ _ Hok1 Hmf1) as (s2 & L2 & Hrun & Hok2 & _).
  exists s2, L2. split; [done|]. rewrite row_end in Hok2 by (eapply seg_row, (hk_row _ _ _ _ _ _ Hok)). cbn [abs_malloc_top fst snd] in Hok2.
  by replace (nb + (T - nb)) with T in Hok2 by lia.
Qed.

End Heap.

(** ** Examples *)

(** The main arena at 4096 with all bins empty but the unsorted list, which
    holds a free chunk of 96 bytes at 16640; it lies between a chunk in use of
    256 bytes at 16384 and one of 1024 bytes, before a top chunk of 64 KB. *)
Definition empty_headers : list (Z * Z) :=
  flat_map (fun i => [(bin_at 4096 i + 16, bin_at 4096 i); (bin_at 4096 i + 24, bin_at 4096 i)]) (seqZ 2 126).

Definition small_heap : @state bump_source :=
  let u := bin_at 4096 1 in
  state_of (list_to_map ([(16384 + 8, 257); (16640 + 8, 97); (16736, 96); (16736 + 8, 1024); (17760 + 8, 65537);
    (4096 + off_top, 17760); (4096 + off_system_mem, 1048576); (4096 + off_flags, FASTCHUNKS_BIT);
    (u + 16, 16640); (u + 24, 16640); (16640 + 16, u); (16640 + 24, u)] ++ empty_headers)) 4096.

Definition small_bins (i : Z) : list Z := if i =? 1 then [16640] else [].

Definition header_empty (i : Z) : bool :=
  (ld (st_mem small_heap) (bin_at 4096 i + 16) =? bin_at 4096 i) && (ld (st_mem small_heap) (bin_at 4096 i + 24) =? bin_at 4096 i).

Lemma headers_empty i : 1 < i < NBINS -> header_empty i = true.
Proof.
  intros Hi. assert (forallb header_empty (seqZ 2 126) = true) as H by (vm_compute; reflexivity).
  rewrite forallb_forall in H. apply H. apply list_elem_of_In, elem_of_seqZ. unfold NBINS in Hi. lia.
Qed.

Lemma small_bins_in i x : x ∈ small_bins i -> i = 1 /\ x = 16640.
Proof. unfold small_bins. destruct (Z.eqb_spec i 1) as [->|]; [by intros ->%list_elem_of_singleton|by intros ?%elem_of_nil]. Qed.

Lemma small_bins_ok : bins_ok 4096 [16384; 16640; 16736] [16736] small_bins (st_mem small_heap).
Proof.
  split.
  - intros i Hi. unfold small_bins. destruct (Z.eqb_spec i 1) as [->|Hi1].
    + split; [repeat split; vm_compute; reflexivity|]. split; [by vm_compute; apply (bool_decide_unpack _)|].
      intros x y Hx Hy. change (bin_at 4096 1) with 4224 in *. set_unfold. unfold apart. lia.
    + unfold valid_bin in Hi. pose proof (headers_empty i ltac:(lia)) as He. unfold header_empty in He. bool_hyps.
      split; [done|]. split; [apply NoDup_singleton|]. intros x y Hx%list_elem_of_singleton Hy%list_elem_of_singleton. left. congruence.
  - intros i x _ [_ ->]%small_bins_in. in_auto.
  - intros i j x _ _ [-> _]%small_bins_in [-> _]%small_bins_in. done.
  - intros i x _ [_ ->]%small_bins_in. split; [reflexivity|]. split; [vm_compute; discriminate|reflexivity].
  - intros i x _ [_ ->]%small_bins_in H. by vm_compute in H.
  - intros i x Hi [-> _]%small_bins_in. lia.
  - intros i x _ [_ ->]%small_bins_in H. by vm_compute in H.
  - intros i Hi. unfold small_bins. rewrite (proj2 (Z.eqb_neq i 1)) by (unfold large_index in Hi; lia). apply size_list_nil.
  - intros i Hi Hne. unfold small_bins in Hne. by rewrite (proj2 (Z.eqb_neq i 1)) in Hne by lia.
  - intros k Hk. change BINMAPSIZE with 4 in Hk. assert (k = 0 \/ k = 1 \/ k = 2 \/ k = 3) as [->|[->|[->| ->]]] by lia;
      (split; [vm_compute; discriminate|reflexivity]).
Qed.

Lemma small_heap_ok :
  heap_ok small_heap 4096 16384 ([] ++ mkBlock 256 true :: [mkBlock 96 false; mkBlock 1024 true]) 65536 small_bins.
Proof.
  split; try reflexivity.
  - split; reflexivity.
  - split; [reflexivity|]. intros k Hk. rewrite NFASTBINS_10 in Hk.
    assert (k = 0 \/ k = 1 \/ k = 2 \/ k = 3 \/ k = 4 \/ k = 5 \/ k = 6 \/ k = 7 \/ k = 8 \/ k = 9) as Hk' by lia. naive_solver.
  - repeat split; reflexivity.
  - right. vm_compute. discriminate.
  - vm_compute. discriminate.
  - repeat split; try reflexivity; try (vm_compute; discriminate); try (intros; discriminate).
  - repeat split; try reflexivity. vm_compute. discriminate.
  - exact small_bins_ok.
  - intros x. unfold small_bins. cbn [app frees bused bsize]. split.
    + intros ->%list_elem_of_singleton. exists 1. split; [done|]. apply list_elem_of_singleton. reflexivity.
    + intros (i & _ & [_ ->]%small_bins_in). apply list_elem_of_singleton. reflexivity.
Qed.

Lemma int_free_refines_witness :
  exists s' L', _int_free 1 4096 16384 true small_heap = Ok tt s'
    /\ heap_ok s' 4096 16384 [mkBlock 352 false; mkBlock 1024 true] 65536 L'.
Proof.
  destruct (int_free_refines 1 small_heap 4096 16384 [] 256 [mkBlock 96 false; mkBlock 1024 true] 65536 small_bins)
    as (s' & L' & H1 & H2 & _); [exact small_heap_ok|reflexivity|]. exists s', L'. split; [exact H1|exact H2].
Defined.

Lemma malloc_top_free_roundtrip_witness :
  exists s1, int_malloc_top 4096 512 500 small_heap = Ok (Some (chunk2mem 17760)) s1
    /\ heap_ok s1 4096 16384 [mkBlock 256 true; mkBlock 96 false; mkBlock 1024 true; mkBlock 512 true] 65024 small_bins
    /\ exists s2 L2, _int_free 1 4096 17760 true s1 = Ok tt s2
       /\ heap_ok s2 4096 16384 [mkBlock 256 true; mkBlock 96 false; mkBlock 1024 true] 65536 L2.
Proof.
  destruct (malloc_top_free_roundtrip 1 small_heap 4096 16384 ([] ++ mkBlock 256 true :: [mkBlock 96 false; mkBlock 1024 true])
              65536 512 500 small_bins) as (s1 & H1 & H2 & H3); [exact small_heap_ok|split; [reflexivity|lia]|lia|].
  exists s1. split; [exact H1|]. split; [exact H2|]. apply H3. reflexivity.
Defined.
