(* ===== verification/MallocProps.v ===== *)
(** * Allocation refines the abstract heap

    [_int_malloc] ([src/libipc/malloc/malloc.c]) on any heap of the main arena
    that [heap_ok] describes: from the small bins, the unsorted list, the large
    bins, the bins found by the binmap, and the top chunk. *)

From Stdlib Require Import Sorted.
From S2P Require Import Prelude MallocState MallocCore MallocInt SizeFacts ListFacts Rings LargeBin Bins BinProps InitProps FreeProps HeapSpec HeapProps.

(** ** Abstract allocation *)

(** A request of [nb] bytes gets the block at offset [off]: a whole free block,
    the front of one, or the front of the top chunk; [c] is the size of the free
    block it comes from. *)
Inductive abs_malloc (nb : Z) (l : list block) (T : Z) : option Z -> Z -> list block -> Z -> Prop :=
| am_whole pre z post :
    l = pre ++ mkBlock z false :: post -> nb <= z < nb + 32 ->
    abs_malloc nb l T (Some z) (total pre) (pre ++ mkBlock z true :: post) T
| am_split pre z post :
    l = pre ++ mkBlock z false :: post -> nb + 32 <= z ->
    abs_malloc nb l T (Some z) (total pre) (pre ++ mkBlock nb true :: mkBlock (z - nb) false :: post) T
| am_top : abs_malloc nb l T None (total l) (abs_malloc_top nb l T).1 (abs_malloc_top nb l T).2.

(** No smaller free block would do; the top chunk is the last resort. *)
Definition best_fit (nb : Z) (l : list block) (c : option Z) : Prop :=
  forall b, b ∈ l -> bused b = false -> nb <= bsize b -> exists z, c = Some z /\ z <= bsize b.

Section Malloc.
Context `{PS : PageSource}.
Implicit Types (s : state) (l pre post : list block) (L : Z -> list Z).

(** ** Heaps that differ in their bins *)

Lemma heap_rebin s m' av b0 l T L L' :
  heap_ok s av b0 l T L -> bins_ok av (starts b0 l) (bigs b0 l) L' m' ->
  (forall c, nonlink av (starts b0 l) (bigs b0 l) c -> not_map av c -> ld m' c = ld (st_mem s) c) ->
  (forall x, (exists i, valid_bin i /\ x ∈ L' i) <-> exists i, valid_bin i /\ x ∈ L i) ->
  heap_ok (with_mem m' s) av b0 l T L'.
Proof.
  intros [] Hb Hc Hfr. pose proof (seg_sized _ _ _ _ _ hk_row) as Hs. destruct hk_top as (Htop & Hh & HTm & HT). destruct hk_main as [Hm Hav], hk_base as (Hb1 & Hb2 & Hb3).
  pose proof (rows_geom av b0 l T Hs HT Hb2 Hav hk_sep) as Hg. pose proof (total_nonneg _ Hs) as [Ht _].
  assert (forall o, field o -> o < 2176 \/ 2192 <= o -> ld m' (av + o) = ld (st_mem s) (av + o)) as Ha.
  { intros o Ho Ho'. apply Hc; [by apply (nonlink_arena _ _ _ T)|]. intros k Hk. rewrite binmap_at_eq. change BINMAPSIZE with 4 in Hk. lia. }
  assert (forall x o, x ∈ starts b0 l \/ x = b0 + total l -> o = 0 \/ o = 8 -> ld m' (x + o) = ld (st_mem s) (x + o)) as Hk.
  { intros x o Hx Ho. apply Hc; [by apply (nonlink_chunk _ _ _ T)|]. intros k Hk. rewrite binmap_at_eq. change BINMAPSIZE with 4 in Hk.
    assert (b0 <= x <= b0 + total l) by (destruct Hx as [Hx| ->]; [apply (starts_range _ _ _ Hs) in Hx|]; lia). lia. }
  split; unfold system_mem, top, word in *; cbn [with_mem upd_mem st_mem st_gl] in *; rewrite ?Ha by (unfold field, off_system_mem, off_top; lia); try done.
  - unfold no_fast, have_fastchunks, flags, fastbin, word, fastbin_at in *. cbn [with_mem upd_mem st_mem] in *.
    rewrite Ha by (unfold field, off_flags; lia). split; [apply hk_fast|]. intros k Hk'. rewrite NFASTBINS_10 in Hk'. rewrite <- Z.add_assoc.
    rewrite Ha by (unfold field, off_fastbinsY; lia). rewrite Z.add_assoc. apply hk_fast. by rewrite NFASTBINS_10.
  - revert hk_row. apply seg_frame; [intros x Hx; apply Hk; auto| |done]. intros x Hx _. rewrite <- (Z.add_0_r x). apply Hk; auto.
  - rewrite Hk by auto. done.
  - intros x. rewrite Hfr. apply hk_free.
Qed.

(** Only [last_remainder] is of no concern. *)
Lemma heap_ok_ext s m m' av b0 l T L :
  (forall c, c <> av + off_last_remainder -> ld m' c = ld m c) -> heap_ok (with_mem m s) av b0 l T L -> heap_ok (with_mem m' s) av b0 l T L.
Proof.
  intros Hc Hok. pose proof Hok as []. cbn [with_mem upd_mem st_mem] in *. pose proof (seg_sized _ _ _ _ _ hk_row) as Hs.
  pose proof (total_nonneg _ Hs) as [Ht _]. destruct hk_top as (Htop & Hh & HTm & HT).
  assert (forall o, field o -> o <> off_last_remainder -> ld m' (av + o) = ld m (av + o)) as Ha by (intros o _ Ho; apply Hc; lia).
  split; unfold system_mem, top, word in *; cbn [with_mem upd_mem st_mem st_gl] in *;
    rewrite ?Ha by (unfold field, off_system_mem, off_top, off_last_remainder; lia); try done.
  - unfold no_fast, have_fastchunks, flags, fastbin, word, fastbin_at in *. cbn [with_mem upd_mem st_mem] in *.
    rewrite Ha by (unfold field, off_flags, off_last_remainder; lia). split; [apply hk_fast|]. intros k Hk'. rewrite NFASTBINS_10 in Hk'. rewrite <- Z.add_assoc.
    rewrite Ha by (unfold field, off_fastbinsY, off_last_remainder; lia). rewrite Z.add_assoc. apply hk_fast. by rewrite NFASTBINS_10.
  - unfold off_last_remainder in Hc. revert hk_row. apply seg_frame; [intros x Hx|intros x Hx _|done]; apply Hc; apply (starts_range _ _ _ Hs) in Hx; lia.
  - unfold off_last_remainder in Hc. rewrite Hc by lia. done.
  - generalize hk_bins. apply bins_frame. intros c Hcell. unfold off_last_remainder in Hc.
    pose proof (cell_below av b0 l L c Hs (fun i x Hi Hx => bo_in _ _ _ _ _ hk_bins i x Hi Hx) Hcell). apply Hc. lia.
Qed.

(** ** Opening and closing a gap *)

(** The facts about a heap that most steps need. *)
Lemma heap_facts s av b0 l T L :
  heap_ok s av b0 l T L ->
  sized l /\ heap_geom av (starts b0 l) (bigs b0 l) /\ 0 <= total l /\ 32 <= T /\ 0 < b0 /\ 0 < av
  /\ b0 + total l + T + 64 < 18446744073709551616 /\ (b0 + total l + T + 64 <= av \/ av + 2304 <= b0).
Proof.
  intros []. pose proof (seg_sized _ _ _ _ _ hk_row) as Hs. destruct hk_top as (_ & _ & _ & HT). destruct hk_main as [_ Hav], hk_base as (_ & Hb2 & Hb3).
  split_and!; try done; [by apply (rows_geom av b0 l T)|apply (total_nonneg _ Hs)].
Qed.

(** What follows a block is another one or the top chunk. *)
Lemma next_start b0 pre z u post : b0 + total pre + z ∈ starts b0 (pre ++ mkBlock z u :: post) \/ b0 + total pre + z = b0 + total (pre ++ mkBlock z u :: post).
Proof.
  rewrite starts_app, total_app. cbn [starts total bsize]. destruct post as [|b post]; [right; cbn; lia|left]. cbn [starts]. in_auto.
Qed.

(** A free block that left its bin is a gap. *)
Lemma open_gap s m1 av b0 pre z post T L :
  let l := pre ++ mkBlock z false :: post in
  let x := b0 + total pre in
  heap_ok s av b0 l T L -> bins_ok av (starts b0 l) (bigs b0 l) (without x L) m1 ->
  (forall c, nonlink av (starts b0 l) (bigs b0 l) c -> ld m1 c = ld (st_mem s) c) ->
  gap_ok false (with_mem m1 s) av b0 pre z post T /\ gap_bins m1 av b0 pre z post (without x L) /\ head m1 x = z + 1
  /\ head (st_mem s) x = z + 1.
Proof.
  intros l x Hok Hb Hc. destruct (heap_facts _ _ _ _ _ _ Hok) as (Hs & Hg & Ht & HT & Hb0 & Hav & Hend & Hsep). pose proof Hok as [].
  assert (total l = total pre + z + total post) as Htot by (unfold l; rewrite total_app; cbn [total bsize]; lia).
  unfold l in hk_row. apply seg_app in hk_row as (pv & Hpre & Hhx & Hzm & Hz32 & Hfx & Hpost). cbn [bsize bused] in *. destruct (Hfx eq_refl) as [-> Hft]. clear Hfx.
  fold x in Hhx, Hft, Hpost. assert (sized pre /\ sized post) as [Hs1 Hs2] by (split; by eapply seg_sized).
  assert (gap_ok false s av b0 pre z post T) as Hgap.
  { split; try done; fold x; rewrite ?Htot in *; try done; try lia.
    - replace (x + z + total post) with (b0 + (total pre + z + total post)) by (unfold x; lia). done. }
  split_and!.
  - apply gap_keep; [done|]. eapply keeps_unlinked with (T := T); [exact Hs|done|done| | |done].
    + intros y. unfold l. rewrite starts_app. cbn [starts bsize]. rewrite !elem_of_app, elem_of_cons. tauto.
    + lia.
  - eapply gap_bins_unlinked; [exact Hb|exact hk_free| |].
    + intros y. fold x. unfold l. rewrite frees_app. cbn [frees bused bsize]. rewrite !elem_of_app, list_elem_of_singleton. fold x.
      assert (y ∈ frees b0 pre \/ y ∈ frees (x + z) post -> y <> x) as Hne.
      { intros Hy. apply (frees_gap b0 pre (x + z) post); [done|done|unfold x; lia|by rewrite elem_of_app]. }
      naive_solver.
    + intros y Hy. apply (bigs_gap b0 pre (mkBlock z false)). fold x. apply (frees_gap b0 pre (x + z) post); (done || unfold x; lia).
  - unfold head, off_size. rewrite Hc; [exact Hhx|]. apply (nonlink_chunk _ _ _ T); auto. left. unfold l. rewrite starts_app. cbn [starts]. fold x. in_auto.
  - exact Hhx.
Qed.

(** The header after a gap. *)
Lemma after_gap s av b0 pre z post T :
  gap_ok false s av b0 pre z post T ->
  exists b rest, post = b :: rest /\ bused b = true /\ ld (st_mem s) (b0 + total pre + z + 8) = bsize b /\ bsize b mod 16 = 0 /\ 32 <= bsize b.
Proof.
  intros []. destruct post as [|b rest]; [done|]. destruct ga_post as (Hh & Hm & H32 & Hf & _). exists b, rest.
  split_and!; try done; [|cbn in Hh; lia]. destruct (bused b); [done|]. by destruct (Hf eq_refl).
Qed.

(** The gap becomes a block in use when the header after it says so. *)
Lemma close_used s av b0 pre z post T L :
  gap_ok false s av b0 pre z post T -> gap_bins (st_mem s) av b0 pre z post L -> head (st_mem s) (b0 + total pre) = z + 1 ->
  let n := b0 + total pre + z in
  heap_ok (with_mem (<[n + 8 := ld (st_mem s) (n + 8) |w PREV_INUSE]> (st_mem s)) s) av b0 (pre ++ mkBlock z true :: post) T L.
Proof.
  intros Hgap Hgb Hhd n. destruct (after_gap _ _ _ _ _ _ _ Hgap) as (b & rest & -> & Hu & Hn & Hnm & Hn32). fold n in Hn.
  destruct (gap_sized _ _ _ _ _ _ _ _ Hgap) as [Hs1 Hs2]. pose proof (total_nonneg _ Hs1) as [Ht1 _]. pose proof (total_nonneg _ Hs2) as [Ht2 _].
  assert (b = mkBlock (bsize b) true) as Eb by (destruct b as [bz bu]; cbn in *; by subst).
  assert (gap_bins (<[n + 8 := bsize b + 1]> (st_mem s)) av b0 pre z (b :: rest) L) as Hgb'.
  { rewrite Eb in Hgap, Hgb |- *. exact (gap_bins_header false s av b0 pre z (bsize b) rest T L _ Hgap Hgb). }
  destruct Hgap. destruct ga_tot as [Hzm Hz32], ga_top as (Htop & Htoph & HTm & HT). fold n in ga_post.
  rewrite Hn. unfold PREV_INUSE. rewrite lor_16 by (done || lia). set (m' := <[n + 8 := bsize b + 1]> (st_mem s)).
  assert (forall c, c <> n + 8 -> ld m' c = ld (st_mem s) c) as Hk by (intros c Hc; by apply ld_insert_ne).
  assert (total (pre ++ mkBlock z true :: b :: rest) = total pre + z + total (b :: rest)) as Etot by (rewrite total_app; cbn [total bsize]; lia).
  assert (starts b0 (pre ++ mkBlock z true :: b :: rest) = starts b0 (filled pre z (b :: rest))) as Est by (unfold filled; by rewrite !starts_app).
  assert (bigs b0 (pre ++ mkBlock z true :: b :: rest) = bigs b0 (filled pre z (b :: rest))) as Ebg by (unfold filled; by rewrite !bigs_app).
  inversion Hs2 as [|? ? [_ Hb32] Hs3]; subst. pose proof (total_nonneg _ Hs3) as [Ht3 _]. cbn [total] in Ht2, ga_base, ga_sep, ga_sys, Htop, Htoph.
  split; unfold system_mem, top, word in *; cbn [with_mem upd_mem st_mem st_gl] in *; rewrite ?Etot; cbn [total];
    rewrite ?Hk by (unfold off_system_mem, off_top, n in *; lia); try done.
  - apply (no_fast_frame s); [|done]. intros o Ho _. apply Hk. unfold field, n in *. lia.
  - destruct ga_base as (? & ? & ?). split_and!; [done|done|lia].
  - lia.
  - apply seg_app. exists true. split.
    + revert ga_pre. apply seg_frame; [intros x Hx|intros x Hx _|done]; apply Hk; apply (starts_range _ _ _ Hs1) in Hx; unfold n; lia.
    + destruct ga_post as (_ & Hp2 & Hp3 & _ & Hp5). cbn [seg bsize bused]. fold n. split_and!; try done.
      * unfold head, off_size in Hhd. rewrite Hk by (unfold n; lia). exact Hhd.
      * apply ld_insert_eq.
      * by rewrite Hu.
      * revert Hp5. apply seg_frame; [intros x Hx|intros x Hx _|done]; apply Hk; apply (starts_range _ _ _ Hs3) in Hx; lia.
  - replace (b0 + (total pre + z + (bsize b + total rest))) with (n + (bsize b + total rest)) by (unfold n; lia).
    done.
  - rewrite Est, Ebg. apply gap_bins_filled. exact Hgb'.
  - intros x. rewrite <- (proj2 Hgb x), frees_app. cbn [frees bused bsize app]. done.
Qed.

(** Where the cells of the bins are when there is a gap. *)
Lemma gap_cell pv s av b0 pre z post T L c :
  gap_ok pv s av b0 pre z post T -> gap_bins (st_mem s) av b0 pre z post L ->
  bin_cell av (bigs b0 pre ++ bigs (b0 + total pre + z) post) L c ->
  b0 <= c < b0 + total pre \/ b0 + total pre + z + 8 <= c < b0 + total pre + z + total post \/ av + 144 <= c < av + 2304.
Proof.
  intros Hgap [Hb Hfree] Hcell. destruct (gap_sized _ _ _ _ _ _ _ _ Hgap) as [Hs1 Hs2].
  pose proof (total_nonneg _ Hs1) as [? _]. pose proof (total_nonneg _ Hs2) as [? _]. assert (32 <= z) by apply Hgap.
  assert (forall i x, valid_bin i -> x ∈ L i -> b0 <= x /\ x + 32 <= b0 + total pre \/ b0 + total pre + z <= x /\ x + 32 <= b0 + total pre + z + total post) as Hx.
  { intros i x Hi Hx. apply (bo_in _ _ _ _ _ Hb i) in Hx; [|done]. apply elem_of_app in Hx as [Hx|Hx];
      [apply (starts_range _ _ _ Hs1) in Hx|apply (starts_range _ _ _ Hs2) in Hx]; lia. }
  destruct Hcell as [i o Hi Ho|i x o Hi Hxi Ho|i x o Hi Hxi Hbg Ho|k Hk].
  - right; right. rewrite bin_at_eq. unfold valid_bin, NBINS in Hi. lia.
  - pose proof (Hx i x Hi Hxi). lia.
  - apply elem_of_app in Hbg as [Hbg|Hbg]; [destruct (bigs_range _ _ _ Hs1 Hbg) as (? & ? & _)|destruct (bigs_range _ _ _ Hs2 Hbg) as (? & ? & _)]; lia.
  - right; right. rewrite binmap_at_eq. change BINMAPSIZE with 4 in Hk. lia.
Qed.

(** The front of a gap becomes a block in use; the rest is a smaller gap. *)
Lemma gap_shrink s av b0 pre z post T L nb :
  gap_ok false s av b0 pre z post T -> gap_bins (st_mem s) av b0 pre z post L -> nb mod 16 = 0 -> 32 <= nb -> nb + 32 <= z ->
  let m1 := <[b0 + total pre + 8 := nb + 1]> (st_mem s) in
  gap_ok false (with_mem m1 s) av b0 (pre ++ [mkBlock nb true]) (z - nb) post T
  /\ gap_bins m1 av b0 (pre ++ [mkBlock nb true]) (z - nb) post L.
Proof.
  intros Hgap Hgb Hnm Hn32 Hfit m1. destruct (gap_sized _ _ _ _ _ _ _ _ Hgap) as [Hs1 Hs2].
  pose proof (fun c => gap_cell _ _ _ _ _ _ _ _ _ c Hgap Hgb) as Hcell.
  pose proof (total_nonneg _ Hs1) as [? _]. pose proof (total_nonneg _ Hs2) as [? _].
  set (q := b0 + total pre) in *. assert (total (pre ++ [mkBlock nb true]) = total pre + nb) as Et by (rewrite total_app; cbn [total bsize]; lia).
  assert (b0 + (total pre + nb) + (z - nb) = q + z) as En by (unfold q; lia).
  assert (forall c, c <> q + 8 -> ld m1 c = ld (st_mem s) c) as Hk by (intros c Hc; by apply ld_insert_ne).
  destruct Hgap. destruct ga_tot as [Hzm Hz32], ga_top as (Htop & Htoph & HTm & HT). split.
  - split; unfold system_mem, top, word in *; cbn [with_mem upd_mem st_mem st_gl] in *; rewrite ?Et, ?En;
      rewrite ?Hk by (unfold off_system_mem, off_top, q in *; lia); try done.
    + apply (no_fast_frame s); [|done]. intros o Ho _. apply Hk. unfold field, q in *. lia.
    + split; [zlia|lia].
    + lia.
    + apply seg_app. exists true. split.
      * revert ga_pre. apply seg_frame; [intros x Hx|intros x Hx _|done]; apply Hk; apply (starts_range _ _ _ Hs1) in Hx; unfold q; lia.
      * cbn [seg bsize bused]. split_and!; try done. apply ld_insert_eq.
    + revert ga_post. apply seg_frame; [intros x Hx|intros x Hx _|done]; apply Hk; apply (starts_range _ _ _ Hs2) in Hx; unfold q in *; lia.
  - destruct Hgb as [Hb Hfree]. unfold gap_bins. rewrite Et, En, frees_app, bigs_app, starts_app. cbn [frees bused app starts]. rewrite app_nil_r. split; [|done].
    apply (bins_within _ (starts b0 pre ++ starts (q + z) post) (bigs b0 pre ++ bigs (q + z) post)).
    { intros i x Hi Hx. apply (bo_in _ _ _ _ _ Hb i) in Hx; [|done]. rewrite !elem_of_app in *. tauto. }
    generalize Hb. apply bins_frame. intros c Hc. apply Hk. pose proof (Hcell c Hc). unfold q in *. lia.
Qed.

(** The row after [nb] bytes of a gap of [z] bytes were handed out. *)
Definition used_row (nb z : Z) (pre post : list block) : list block :=
  if z <? nb + 32 then pre ++ mkBlock z true :: post else pre ++ mkBlock nb true :: mkBlock (z - nb) false :: post.

(** The stores that split a gap and put the rest on the unsorted list, in any
    order and with or without [last_remainder]. *)
Lemma close_split s av b0 pre z post T L nb m' :
  gap_ok false s av b0 pre z post T -> gap_bins (st_mem s) av b0 pre z post L -> good_size nb -> nb + 32 <= z ->
  let q := b0 + total pre in
  let s1 := with_mem (<[q + 8 := nb + 1]> (st_mem s)) s in
  (forall c, c <> av + off_last_remainder -> ld m' c = ld (placed s1 av b0 (z - nb) (pre ++ [mkBlock nb true]) L) c) ->
  heap_ok (with_mem m' s) av b0 (used_row nb z pre post) T (push_unsorted (q + nb) L).
Proof.
  intros Hgap Hgb [Hnm Hnr] Hfit q s1 Hm. destruct (gap_shrink _ _ _ _ _ _ _ _ nb Hgap Hgb Hnm ltac:(lia) Hfit) as [Hgap1 Hgb1].
  pose proof (placed_ok _ _ _ _ _ _ _ _ _ Hgap1 Hgb1 eq_refl) as Hok. fold q s1 in Hok.
  assert (used_row nb z pre post = filled (pre ++ [mkBlock nb true]) (z - nb) post) as ->.
  { unfold used_row, filled. rewrite (proj2 (Z.ltb_ge _ _)) by lia. by rewrite <- app_assoc. }
  replace (q + nb) with (b0 + total (pre ++ [mkBlock nb true])) by (rewrite total_app; cbn [total bsize]; unfold q; lia).
  apply (heap_ok_ext s _ m') in Hok; done.
Qed.

(** The first entry of the unsorted list. *)
Lemma unsorted_front s av G Bg L : bins_ok av G Bg L (st_mem s) ->
  let u := bin_at av 1 in ld (st_mem s) (u + off_fd) = hd u (L 1) /\ ld (st_mem s) (hd u (L 1) + off_bk) = u.
Proof.
  intros Hb u. destruct (bo_list _ _ _ _ _ Hb 1 ltac:(done)) as (Hc & _). fold u in Hc. destruct (L 1) as [|y l]; [exact Hc|]. by destruct Hc as [[? ?] _].
Qed.

(** The memory of blocks in use is apart from the gap, from the arena and from
    the first entry of the unsorted list. *)
Lemma gap_data s av b0 pre z post T L c :
  gap_ok false s av b0 pre z post T -> gap_bins (st_mem s) av b0 pre z post L -> data_cell b0 (pre ++ mkBlock z false :: post) c ->
  let q := b0 + total pre in let F := hd (bin_at av 1) (L 1) in
  (c <= q \/ q + z + 16 <= c) /\ (c + 64 <= av \/ av + 2304 <= c) /\ (F = bin_at av 1 \/ c <= F \/ F + 48 <= c).
Proof.
  intros Hgap Hgb Hd q F. pose proof (filled_sized _ _ _ _ _ _ _ _ Hgap) as Hs. destruct (data_gap _ _ _ _ _ Hs eq_refl Hd) as [Hc _]. split; [exact Hc|].
  pose proof (data_range _ _ _ Hs Hd) as Hr. rewrite filled_total in Hr. split; [destruct Hgap; destruct ga_top as (_ & _ & _ & HT); lia|].
  unfold F. destruct (L 1) as [|x l] eqn:E; [by left|right]. cbn [hd]. apply (data_free _ _ _ _ Hs Hd). apply filled_frees. right.
  apply (proj2 Hgb). exists 1. split; [done|rewrite E; left].
Qed.

Lemma take_chunk_run s av b0 pre z post T L nb bytes adv err :
  gap_ok false s av b0 pre z post T -> gap_bins (st_mem s) av b0 pre z post L -> head (st_mem s) (b0 + total pre) = z + 1 ->
  good_size nb -> nb <= z ->
  exists m' L', take_chunk av (b0 + total pre) z nb bytes adv err s = Ok (chunk2mem (b0 + total pre)) (with_mem m' s)
    /\ heap_ok (with_mem m' s) av b0 (used_row nb z pre post) T L' /\ keeps_data b0 (pre ++ mkBlock z false :: post) (st_mem s) m'.
Proof.
  intros Hgap Hgb Hhd Hnb Hle. destruct (gap_sized _ _ _ _ _ _ _ _ Hgap) as [Hs1 Hs2].
  pose proof (total_nonneg _ Hs1) as [Ht1 _]. pose proof (total_nonneg _ Hs2) as [Ht2 _].
  pose proof Hgap as []. destruct ga_tot as [Hzm Hz32], ga_top as (_ & _ & HTm & HT), Hnb as [Hnm Hnr], ga_main as [Hmain Hav], ga_base as (Hb1 & Hb2 & Hb3).
  set (q := b0 + total pre) in *. unfold take_chunk. rewrite (u64_small (z - nb)), MINSIZE_32 by lia.
  destruct (Z.ltb_spec (z - nb) 32) as [Hlt|Hge].
  - unfold set_inuse_bit_at_offset, alloc_perturb. mexec. rewrite (u64_small (q + z)) by (unfold q; lia). rewrite <- Hmain, Z.eqb_refl. cbn [negb]. mexec.
    rewrite ga_perturb. change (truthy 0) with false. mexec. eexists. exists L. split; [reflexivity|].
    split; [unfold used_row; rewrite (proj2 (Z.ltb_lt _ _)) by lia; exact (close_used _ _ _ _ _ _ _ _ Hgap Hgb Hhd)|].
    intros c Hd. apply (gap_data _ _ _ _ _ _ _ _ _ Hgap Hgb) in Hd as (Hd & _). fold q in Hd. unfold off_size. apply ld_insert_ne. lia.
  - destruct (unsorted_front _ _ _ _ _ (proj1 Hgb)) as [Hf Hbk]. mexec. unfold unsorted_chunks. set (u := bin_at av 1) in *.
    unfold fd, bk, word. rewrite Hf, Hbk, Z.eqb_refl. cbn [negb]. unfold chunk_at_offset. rewrite (u64_small (q + nb)) by (unfold q; lia).
    unfold alloc_perturb, arena_flag.
    assert (u = av + 128) as Eu by (unfold u; rewrite bin_at_eq; lia).
    assert (hd u (L 1) = u \/ (hd u (L 1) <= q - 32 \/ q + z <= hd u (L 1)) /\ (hd u (L 1) + 64 <= av \/ av + 2304 <= hd u (L 1))) as HF.
    { destruct (gap_front _ _ _ _ _ _ _ _ _ Hgap Hgb) as [?|HF]; [by left|right]. apply (gap_where _ _ _ _ _ _ _ _ Hgap). exact HF. }
    pose proof (gap_region _ _ _ _ _ _ _ _ Hgap) as Hreg. fold q in Hreg.
    exists (<[q + nb + (z - nb) := z - nb]> (<[q + nb + 8 := z - nb + 1]> (<[q + 8 := nb + 1]>
      (let m := <[hd u (L 1) + 24 := q + nb]> (<[u + 16 := q + nb]> (<[q + nb + 16 := hd u (L 1)]> (<[q + nb + 24 := u]> (st_mem s)))) in
       let m := if adv then <[av + off_last_remainder := q + nb]> m else m in
       if in_smallbin_range (z - nb) then m else <[q + nb + 40 := 0]> (<[q + nb + 32 := 0]> m))))), (push_unsorted (q + nb) L).
    split; [|split].
    + unfold off_prev_size, off_size, off_fd, off_bk, off_fd_nextsize, off_bk_nextsize.
      destruct adv, (in_smallbin_range (z - nb)); cbn [negb]; mexec; rewrite <- Hmain, Z.eqb_refl, ga_perturb; change (truthy 0) with false;
        unfold PREV_INUSE; rewrite Z.lor_0_r, (lor_16 nb 1), (lor_16 (z - nb) 1), Z.add_0_r, u64_small by (lia || zlia || unfold q in *; lia); reflexivity.
    + apply (close_split s av b0 pre z post T L nb); [done|done|done|lia|].
      intros c Hc. unfold placed. rewrite total_app. cbn [total bsize st_mem with_mem upd_mem].
      replace (b0 + (total pre + (nb + 0))) with (q + nb) by (unfold q; lia). fold u q. cbv zeta. unfold off_last_remainder in *.
      destruct adv, (in_smallbin_range (z - nb)); rewrite !ld_insert; repeat case_decide; try done; exfalso; unfold q in *; lia.
    + intros c Hd. apply (gap_data _ _ _ _ _ _ _ _ _ Hgap Hgb) in Hd as (Hd & Ha & HF'). fold q u in Hd, HF'. cbv zeta. unfold off_last_remainder.
      destruct (in_smallbin_range (z - nb)) eqn:Esm; [|assert (~ z - nb < 1024) by (rewrite <- in_smallbin_range_spec; by rewrite Esm)];
        destruct adv; rewrite !ld_insert_ne by lia; done.
Qed.

(** ** The chunks of the bins as blocks of the row *)

Lemma bin_block s av b0 l T L i x :
  heap_ok s av b0 l T L -> valid_bin i -> x ∈ L i ->
  exists pre z post, l = pre ++ mkBlock z false :: post /\ x = b0 + total pre /\ head (st_mem s) x = z + 1 /\ chunksize s x = z
    /\ z mod 16 = 0 /\ 32 <= z /\ z + 64 < 18446744073709551616 /\ z + 32 <= system_mem s av /\ (2 <= i -> bin_index z = i).
Proof.
  intros Hok Hi Hx. destruct (heap_facts _ _ _ _ _ _ Hok) as (Hs & _ & Ht & HT & Hb0 & _ & Hend & _). pose proof Hok as [].
  assert (x ∈ frees b0 l) as Hf by (apply hk_free; by exists i). destruct (frees_split _ _ _ Hf) as (pre & z & post & -> & ->).
  exists pre, z, post. rewrite total_app in *. cbn [total bsize] in *.
  apply seg_app in hk_row as (pv & Hpre & Hh & Hm & H32 & Hfr & Hpost). cbn [bsize bused] in *. destruct (Hfr eq_refl) as [-> _].
  assert (sized pre /\ sized post) as [Hs1 Hs2] by (split; by eapply seg_sized).
  pose proof (total_nonneg _ Hs1) as [? _]. pose proof (total_nonneg _ Hs2) as [? _].
  destruct (header_reads s _ z true Hh Hm ltac:(lia)) as (_ & Hc & _).
  split_and!; try done; try lia. intros H2. pose proof (bo_index _ _ _ _ _ hk_bins i _ ltac:(unfold valid_bin in Hi; lia) Hx) as Hidx.
  unfold head, off_size in Hidx. rewrite Hh in Hidx. rewrite <- Hidx. f_equal. cbn. lia.
Qed.

(** Every free block is in a bin. *)
Lemma block_bin s av b0 l T L b :
  heap_ok s av b0 l T L -> b ∈ l -> bused b = false ->
  exists i x, valid_bin i /\ x ∈ L i /\ head (st_mem s) x = bsize b + 1 /\ 32 <= bsize b /\ bsize b mod 16 = 0 /\ (2 <= i -> bin_index (bsize b) = i).
Proof.
  intros Hok (pre & post & ->)%list_elem_of_split Hu. destruct b as [z u]. cbn in Hu. subst u. cbn [bsize].
  assert (b0 + total pre ∈ frees b0 (pre ++ mkBlock z false :: post)) as Hf by (rewrite frees_app; cbn [frees bused]; in_auto).
  apply (hk_free _ _ _ _ _ _ Hok) in Hf as (i & Hi & Hx). exists i, (b0 + total pre).
  pose proof (hk_row _ _ _ _ _ _ Hok) as Hrow. apply seg_app in Hrow as (pv & Hpre & Hh & Hm & H32 & Hfr & _). cbn [bsize bused] in *. destruct (Hfr eq_refl) as [-> _].
  split_and!; try done. intros H2. pose proof (bo_index _ _ _ _ _ (hk_bins _ _ _ _ _ _ Hok) i _ ltac:(unfold valid_bin in Hi; lia) Hx) as Hidx.
  unfold head, off_size in Hidx. rewrite Hh in Hidx. rewrite <- Hidx. f_equal. cbn. lia.
Qed.

(** A bin has at most as many chunks as the row has blocks. *)
Lemma bin_length s av b0 l T L i : heap_ok s av b0 l T L -> valid_bin i -> (length (L i) <= length l)%nat.
Proof.
  intros Hok Hi. pose proof (hk_bins _ _ _ _ _ _ Hok) as Hb. destruct (bo_list _ _ _ _ _ Hb i Hi) as (_ & [_ Hn]%list.NoDup_cons & _).
  assert (length (starts b0 l) = length l) as <- by (clear; revert b0; induction l as [|b l IH]; intros b0; cbn; [done|by rewrite IH]).
  apply submseteq_length, NoDup_submseteq; [done|]. intros x Hx. by apply (bo_in _ _ _ _ _ Hb i).
Qed.

(** ** Results *)

(** [p] is what the request of [nb] bytes gets, and the state after it is the
    heap after the abstract allocation; the globals and the memory of the blocks
    in use do not change. *)
Definition served (s s' : state) (av b0 : Z) (l : list block) (T nb : Z) (c : option Z) (p : Z) : Prop :=
  st_gl s' = st_gl s /\ keeps_data b0 l (st_mem s) (st_mem s') /\ exists off l' T' L', p = chunk2mem (b0 + off) /\ abs_malloc nb l T c off l' T' /\ heap_ok s' av b0 l' T' L'.

Lemma used_served s s' av b0 pre z post T nb L' :
  st_gl s' = st_gl s -> nb <= z ->
  heap_ok s' av b0 (used_row nb z pre post) T L' /\ keeps_data b0 (pre ++ mkBlock z false :: post) (st_mem s) (st_mem s') ->
  served s s' av b0 (pre ++ mkBlock z false :: post) T nb (Some z) (chunk2mem (b0 + total pre)).
Proof.
  intros Hgl Hz [Hok Hk]. split; [done|]. split; [done|]. exists (total pre), (used_row nb z pre post), T, L'. split; [done|]. split; [|done].
  unfold used_row. destruct (Z.ltb_spec z (nb + 32)); constructor; (done || lia).
Qed.

Lemma keeps_trans b0 l (m m1 m2 : memory) : keeps_data b0 l m m1 -> keeps_data b0 l m1 m2 -> keeps_data b0 l m m2.
Proof. intros H1 H2 c Hc. rewrite (H2 c Hc). by apply H1. Qed.

(** Steps that serve nothing yet may come before. *)
Lemma served_from s s0 s' av b0 l T nb c p :
  st_gl s = st_gl s0 -> keeps_data b0 l (st_mem s0) (st_mem s) -> served s s' av b0 l T nb c p -> served s0 s' av b0 l T nb c p.
Proof. intros E Hk (Hgl & Hk' & H). split; [congruence|]. split; [by apply (keeps_trans _ _ _ (st_mem s))|done]. Qed.

(** ** Handing out a whole chunk *)

Lemma used_row_whole z pre post : used_row z z pre post = pre ++ mkBlock z true :: post.
Proof. unfold used_row. by rewrite (proj2 (Z.ltb_lt _ _)) by lia. Qed.

(** What the routines on one bin write is not in the memory of blocks in use. *)
Lemma heap_outside s av b0 l T L i ll c :
  heap_ok s av b0 l T L -> valid_bin i -> (forall y, y ∈ ll -> y ∈ L i) -> data_cell b0 l c -> outside av i ll c /\ not_map av c.
Proof.
  intros Hok Hi Hll Hc. destruct (heap_facts _ _ _ _ _ _ Hok) as (Hs & _ & _ & HT & _ & _ & _ & Hsep).
  apply (data_outside av b0 l T); try done. intros y Hy. apply (hk_free _ _ _ _ _ _ Hok). exists i. auto.
Qed.

(** The last chunk of the unsorted list or of a small bin leaves its bin and
    is marked in use, whatever the order of the stores. *)
Lemma use_last s (m' : memory) av b0 pre z post T L i (l0 : list Z) :
  let x := b0 + total pre in
  let b := bin_at av i in
  heap_ok s av b0 (pre ++ mkBlock z false :: post) T L -> 1 <= i < 64 -> L i = l0 ++ [x] ->
  (forall c, ld m' c = ld (<[x + z + 8 := ld (st_mem s) (x + z + 8) |w PREV_INUSE]> (relink (List.last (b :: l0) b) b (st_mem s))) c) ->
  heap_ok (with_mem m' s) av b0 (used_row z z pre post) T (without x L) /\ keeps_data b0 (pre ++ mkBlock z false :: post) (st_mem s) m'.
Proof.
  intros x b Hok Hi El Hm. destruct (heap_facts _ _ _ _ _ _ Hok) as (Hs & Hg & Ht & HT & _ & _ & _ & Hsep).
  destruct (bins_take_last av _ _ L (st_mem s) i l0 x Hg (hk_bins _ _ _ _ _ _ Hok) Hi El) as (_ & _ & _ & _ & Hb & Ho & Hc). fold b in Hb, Ho, Hc.
  set (m1 := relink (List.last (b :: l0) b) b (st_mem s)) in *.
  assert (forall c, nonlink av (starts b0 (pre ++ mkBlock z false :: post)) (bigs b0 (pre ++ mkBlock z false :: post)) c -> ld m1 c = ld (st_mem s) c) as Hc1.
  { intros c Hn. destruct (Hc c Hn). unfold m1, relink. by rewrite !ld_insert_ne. }
  destruct (open_gap s m1 av b0 pre z post T L Hok Hb Hc1) as (Hgap & Hgb & Hh & _). fold x in Hgb.
  pose proof (close_used _ _ _ _ _ _ _ _ Hgap Hgb Hh) as Hok'. cbn [st_mem with_mem upd_mem] in Hok'. fold x in Hok'. rewrite used_row_whole.
  destruct (after_gap _ _ _ _ _ _ _ Hgap) as (bl & rest & Epost & _). cbn [total bsize] in *.
  assert (ld m1 (x + z + 8) = ld (st_mem s) (x + z + 8)) as En.
  { apply Hc1, (nonlink_chunk _ _ _ T); auto. left. rewrite starts_app. cbn [starts bsize]. rewrite Epost. cbn [starts]. unfold x. in_auto. }
  split; [rewrite En, with_mem_with_mem in Hok'; revert Hok'; apply heap_ok_ext; intros c _; apply Hm|].
  intros c Hd. rewrite Hm. destruct (data_gap _ _ _ _ _ Hs eq_refl Hd) as [Hq _]. fold x in Hq. cbn [bsize] in Hq. assert (32 <= z) by apply Hgap. rewrite ld_insert_ne by lia.
  destruct (Ho c); [|unfold m1, relink; by rewrite !ld_insert_ne]. apply (heap_outside s av b0 (pre ++ mkBlock z false :: post) T L); [done|unfold valid_bin, NBINS; lia|done|done].
Qed.

(** ** The small bin of the request *)

Lemma int_malloc_small_heap fuel s av b0 l T L nb bytes :
  heap_ok s av b0 l T L -> good_size nb ->
  (int_malloc_small fuel av nb bytes s = Ok None s /\ (nb < 1024 -> L (bin_index nb) = []))
  \/ exists p m', int_malloc_small fuel av nb bytes s = Ok (Some p) (with_mem m' s) /\ served s (with_mem m' s) av b0 l T nb (Some nb) p.
Proof.
  intros Hok [Hnm Hnr]. pose proof Hok as []. destruct hk_main as [Hmain Hav], hk_fast as [Hfast _]. unfold int_malloc_small. mexec.
  destruct (in_smallbin_range nb) eqn:Esm; cycle 1.
  { left. rewrite Hfast. mexec. split; [done|]. intros Hlt. apply in_smallbin_range_spec in Hlt. congruence. }
  pose proof Esm as Hlt%in_smallbin_range_spec. assert (smallbin_index nb = bin_index nb) as Ei by (unfold bin_index; by rewrite Esm).
  assert (2 <= bin_index nb < 64) as Hi.
  { pose proof (bin_index_bounds nb ltac:(lia)). pose proof (large_size nb ltac:(lia)). lia. }
  assert (valid_bin (bin_index nb)) as Vi by (unfold valid_bin, NBINS; lia). rewrite Ei. set (i := bin_index nb) in *.
  destruct (heap_facts _ _ _ _ _ _ Hok) as (Hs & Hg & Ht & HT & Hb0 & _ & Hend & Hsep).
  destruct (L i) as [|x l0 _] eqn:El using rev_ind.
  { left. unfold last, bk, word. destruct (bo_list _ _ _ _ _ hk_bins i Vi) as (Hc & _). rewrite El in Hc. destruct Hc as [_ ->]. rewrite Z.eqb_refl. done. }
  right. destruct (bins_take_last av _ _ L (st_mem s) i l0 x Hg hk_bins ltac:(lia) El) as (H1 & H2 & H3 & Hxb & _ & _ & Hc).
  destruct (bin_block _ _ _ _ _ _ i x Hok Vi) as (pre & z & post & El' & Ex & Hh & _ & Hzm & Hz32 & Hzr & _ & Hidx); [rewrite El; in_auto|].
  assert (z = nb) as ->.
  { specialize (Hidx ltac:(lia)). destruct (bin_index_regular nb z) as [_ Hreg]; try (rewrite ?MINSIZE_32; change MALLOC_ALIGNMENT with 16; (done || lia)).
    symmetry. apply Hreg; [done|]. unfold i in Hidx. congruence. }
  unfold last, bk, fd, word. rewrite H1, H2, H3, (proj2 (Z.eqb_neq _ _) Hxb), Z.eqb_refl.
  assert (0 < x /\ x + nb < 18446744073709551616) as [Hx0 Hxn].
  { subst l. destruct (split_total _ _ _ Hs) as (? & ? & ?). cbn [bsize] in *. lia. }
  rewrite (proj2 (Z.eqb_neq x 0)) by lia. cbn [negb]. unfold set_inuse_bit_at_offset, alloc_perturb. mexec. rewrite u64_small by lia.
  rewrite <- Hmain, Z.eqb_refl. cbn [negb]. mexec. rewrite hk_perturb. change (truthy 0) with false. mexec.
  exists (chunk2mem x). eexists. split; [reflexivity|]. clear H1 H2 H3. subst l x. apply (used_served _ _ _ _ _ _ _ _ _ (without (b0 + total pre) L)); [done|lia|].
  apply (use_last s _ av b0 pre nb post T L i l0 Hok ltac:(lia) El). intros c. unfold relink, size_, word, off_size.
  destruct (Hc (b0 + total pre + nb + 8)) as [N1 N2].
  { apply (nonlink_chunk _ _ _ T); auto. by apply next_start. }
  cbn [st_mem upd_mem]. unfold off_fd, off_bk in *. rewrite !ld_insert. repeat case_decide; congruence.
Qed.

(** ** One turn of the loop over the unsorted list *)

Section Step.
Context (s : state) (av b0 : Z) (l : list block) (T : Z) (L : Z -> list Z) (l0 : list Z) (x nb bytes : Z).
Hypothesis Hok : heap_ok s av b0 l T L.
Hypothesis El : L 1 = l0 ++ [x].
Hypothesis Hnb : good_size nb.
Hypothesis Hnb32 : nb + 32 < 18446744073709551616.

Let u := bin_at av 1.
Let B := List.last (u :: l0) u.
Let m := st_mem s.
Let m1 := relink B u m.

(** What the turn reads. *)
Lemma step_reads :
  ld m (u + off_bk) = x /\ ld m (x + off_bk) = B /\ x <> u
  /\ bins_ok av (starts b0 l) (bigs b0 l) (without x L) m1
  /\ (forall c, nonlink av (starts b0 l) (bigs b0 l) c -> ld m1 c = ld m c)
  /\ (x ∈ bigs b0 l -> ld m1 (x + off_fd_nextsize) = ld m (x + off_fd_nextsize)) /\ keeps_data b0 l m m1.
Proof using Hok El.
  clear Hnb Hnb32. destruct (heap_facts _ _ _ _ _ _ Hok) as (Hs & Hg & _). pose proof (hk_bins _ _ _ _ _ _ Hok) as Hb.
  destruct (bins_take_last av _ _ L m 1 l0 x Hg Hb ltac:(lia) El) as (H1 & H2 & _ & H4 & H5 & H6 & H7). split_and!; try done.
  - intros c Hc. destruct (H7 c Hc). unfold m1, relink. by rewrite !ld_insert_ne.
  - intros Hx. destruct (H6 (x + off_fd_nextsize)); [|unfold m1, relink; by rewrite !ld_insert_ne].
    apply (outside_sizes av (starts b0 l) (bigs b0 l) L 1 (L 1)); try done; [|unfold large_index; lia|by left].
    intros y Hy. by apply (bin_chunks av _ _ L m).
  - intros c Hd. destruct (H6 c); [|unfold m1, relink; by rewrite !ld_insert_ne]. by apply (heap_outside s av b0 l T L).
Qed.

(** The exit of an exact fit. *)
Lemma step_exact pre post :
  l = pre ++ mkBlock nb false :: post -> x = b0 + total pre ->
  exists m', (set_inuse_bit_at_offset x nb ;;;
    s <- get ;; when_ (negb (av =? main_arena (st_gl s))) (set_size x (size_ s x |w NON_MAIN_ARENA)) ;;;
    alloc_perturb (chunk2mem x) bytes ;;; ret (Some (chunk2mem x))) (with_mem m1 s) = Ok (Some (chunk2mem x)) (with_mem m' s)
    /\ served s (with_mem m' s) av b0 l T nb (Some nb) (chunk2mem x).
Proof using All.
  intros Erow Ex. destruct (heap_facts _ _ _ _ _ _ Hok) as (Hs & _ & Ht & HT & Hb0 & _ & Hend & Hsep). destruct Hnb as [_ Hnr].
  destruct step_reads as (_ & _ & _ & _ & Hc & _). pose proof Hok as []. destruct hk_main as [Hmain _].
  pose proof Hs as Hs'. rewrite Erow in Hs'. destruct (split_total _ _ _ Hs') as (? & ? & Htot). cbn [bsize] in Htot. rewrite <- Erow in Htot.
  unfold set_inuse_bit_at_offset, alloc_perturb. mexec. rewrite u64_small by lia. rewrite <- Hmain, Z.eqb_refl. cbn [negb]. mexec. rewrite hk_perturb.
  change (truthy 0) with false. mexec. eexists. split; [reflexivity|]. pose proof Hok as Hok'. rewrite Erow in Hok'. rewrite Ex, Erow.
  apply (used_served _ _ _ _ _ _ _ _ _ (without x L)); [done|lia|]. rewrite Ex. rewrite Ex in El.
  apply (use_last s _ av b0 pre nb post T L 1 l0 Hok' ltac:(lia) El). intros c. fold u B. fold m. change (st_mem (with_mem m1 s)) with m1.
  unfold size_, word. cbn [st_mem with_mem upd_mem]. fold m1. unfold off_size. f_equal. f_equal. f_equal.
  rewrite Hc; [done|]. apply (nonlink_chunk _ _ _ T); auto. rewrite Erow. by apply next_start.
Qed.

(** The exception to best fit: the last remainder is split where it is. *)
Lemma step_remainder pre z post :
  l = pre ++ mkBlock z false :: post -> x = b0 + total pre -> l0 = [] -> nb + 32 <= z ->
  exists m', split_last_remainder av x z nb bytes s = Ok (chunk2mem x) (with_mem m' s)
    /\ served s (with_mem m' s) av b0 l T nb (Some z) (chunk2mem x).
Proof using All.
  intros Erow Ex E0 Hfit. destruct (heap_facts _ _ _ _ _ _ Hok) as (Hs & Hg & Ht & HT & Hb0 & Hav & Hend & Hsep). pose proof Hnb as [Hnm Hnr].
  destruct step_reads as (_ & _ & _ & Hb1 & Hc & _). pose proof Hok as []. destruct hk_main as [Hmain _].
  pose proof Hs as Hs'. rewrite Erow in Hs'. destruct (split_total _ _ _ Hs') as (? & ? & Htot). cbn [bsize] in Htot. rewrite <- Erow in Htot.
  assert (z mod 16 = 0) as Hzm by (unfold sized in Hs'; rewrite list.Forall_app, list.Forall_cons in Hs'; apply Hs').
  pose proof Hok as Hok'. rewrite Erow in Hok', Hb1, Hc. rewrite Ex in Hb1.
  destruct (open_gap s m1 av b0 pre z post T L Hok' Hb1 Hc) as (Hgap & Hgb & _).
  assert (without (b0 + total pre) L 1 = []) as EL1.
  { unfold without. rewrite El, E0, Ex. cbn [app]. rewrite filter_cons_False by naive_solver. done. }
  assert (u = av + 128) as Eu by (unfold u; rewrite bin_at_eq; lia). assert (B = u) as EB by (unfold B; by rewrite E0).
  unfold split_last_remainder, unsorted_chunks, alloc_perturb, arena_flag, chunk_at_offset. fold u.
  rewrite (u64_small (z - nb)), (u64_small (x + nb)) by lia. mexec.
  exists (<[x + nb + (z - nb) := z - nb]> (<[x + nb + 8 := z - nb + 1]> (<[x + 8 := nb + 1]>
      (let k := <[x + nb + 24 := u]> (<[x + nb + 16 := u]> (<[av + off_last_remainder := x + nb]> (<[u + 24 := x + nb]> (<[u + 16 := x + nb]> m)))) in
       if in_smallbin_range (z - nb) then k else <[x + nb + 40 := 0]> (<[x + nb + 32 := 0]> k))))). split.
  - unfold off_prev_size, off_size, off_fd, off_bk, off_fd_nextsize, off_bk_nextsize. destruct (in_smallbin_range (z - nb)); cbn [negb]; mexec;
      rewrite <- Hmain, Z.eqb_refl, hk_perturb; change (truthy 0) with false; unfold PREV_INUSE;
      rewrite Z.lor_0_r, (lor_16 nb 1), (lor_16 (z - nb) 1), Z.add_0_r, u64_small by (lia || zlia); reflexivity.
  - rewrite Erow, Ex. apply (used_served _ _ _ _ _ _ _ _ _ (push_unsorted (b0 + total pre + nb) (without (b0 + total pre) L))); [done|lia|].
    split.
    2:{ intros c Hd. destruct (data_gap _ _ _ _ _ Hs' eq_refl Hd) as [Hq _]. cbn [bsize] in Hq. pose proof (data_range _ _ _ Hs' Hd) as Hr. rewrite <- Ex in *.
        cbn [st_mem with_mem upd_mem]. unfold off_last_remainder. rewrite Erow in Hend, Hsep. destruct (in_smallbin_range (z - nb)) eqn:Esm; cbv zeta;
          [|assert (~ z - nb < 1024) by (rewrite <- in_smallbin_range_spec; by rewrite Esm)]; by rewrite !ld_insert_ne by lia. }
    eapply (close_split (with_mem m1 s) av b0 pre z post T _ nb); [exact Hgap|exact Hgb|done|done|].
    intros c Hne. unfold placed. rewrite EL1, total_app. cbn [total bsize st_mem with_mem upd_mem hd].
    replace (b0 + (total pre + (nb + 0))) with (b0 + total pre + nb) by lia. fold u. unfold m1, relink, off_fd, off_bk, off_last_remainder in *. rewrite EB.
    rewrite <- Ex in *. cbv zeta. destruct (in_smallbin_range (z - nb)); rewrite !ld_insert; repeat case_decide; try done; exfalso; lia.
Qed.

(** The chunk goes into its bin. *)
Lemma step_place fuel pre z post :
  l = pre ++ mkBlock z false :: post -> x = b0 + total pre -> (length l < fuel)%nat ->
  exists m' L', place_in_bin fuel av x z (with_mem m1 s) = Ok tt (with_mem m' s)
    /\ heap_ok (with_mem m' s) av b0 l T L' /\ L' 1 = l0 /\ (forall i, 2 <= i < NBINS -> i <> bin_index z -> L' i = L i)
    /\ ld m' (av + off_last_remainder) = ld m (av + off_last_remainder) /\ keeps_data b0 l m m'.
Proof using Hok El.
  intros Erow Ex Hfu. destruct (heap_facts _ _ _ _ _ _ Hok) as (Hs & Hg & Ht & HT & Hb0 & Hav & Hend & Hsep).
  destruct step_reads as (_ & _ & _ & Hb1 & Hc & Hc2 & Hk1). pose proof Hok as [].
  destruct (bin_block s av b0 l T L 1 x Hok ltac:(done)) as (pre' & z' & post' & E' & Ex' & Hh & _ & Hzm & Hz32 & Hzr & _); [rewrite El; in_auto|].
  assert (z' = z) as ->.
  { assert (head (st_mem s) x = z + 1) as Hz; [|lia]. rewrite Erow in hk_row. apply seg_app in hk_row as (pv & _ & Hhx & _ & _ & Hf & _). cbn [bsize bused] in *.
    destruct (Hf eq_refl) as [-> _]. unfold head, off_size. rewrite Ex, Hhx. cbn. lia. }
  assert (x ∈ starts b0 l) as HxG by (apply (bo_in _ _ _ _ _ hk_bins 1); [done|rewrite El; in_auto]).
  assert (head m1 x = z + 1) as Hh1 by (unfold head, off_size in *; rewrite Hc; [exact Hh|]; apply (nonlink_chunk _ _ _ T); auto).
  assert (forall j, valid_bin j -> x ∉ without x L j) as Hnew by (intros j _; unfold without; rewrite list_elem_of_filter; naive_solver).
  pose proof (bin_index_bounds z ltac:(lia)) as Hidx. assert (valid_bin (bin_index z)) as Vi by (unfold valid_bin, NBINS; lia).
  destruct (bins_place av _ _ (with_mem m1 s) (without x L) x z Hg Hb1 HxG Hnew) with (fuel := fuel) as (l1 & l2 & m' & E12 & Hrun & Hb2 & Ho & Hc').
  { split; [exact Hh1|]. split; [done|lia]. }
  { intros H1k. assert (x ∈ bigs b0 l) as Hbg by (apply (bo_big _ _ _ _ _ hk_bins 1); [done|rewrite El; in_auto|lia]).
    split; [done|]. cbn [st_mem with_mem upd_mem]. rewrite Hc2 by done. apply (bo_plain _ _ _ _ _ hk_bins 1); [lia|rewrite El; in_auto|lia]. }
  { pose proof (bin_length _ _ _ _ _ _ _ Hok Vi). unfold without. pose proof (length_filter (fun y => y <> x) (L (bin_index z))). lia. }
  exists m', (upd_bin (bin_index z) (l1 ++ x :: l2) (without x L)). split; [exact Hrun|].
  assert (forall j, valid_bin j -> j <> 1 -> without x L j = L j) as Hwo.
  { intros j Hj Hj1. apply filter_notin. intros Hx. apply Hj1, (bo_one _ _ _ _ _ hk_bins j 1 x); [done|done|done|rewrite El; in_auto]. }
  split_and!.
  - apply (heap_rebin s m' av b0 l T L); [done|done| |].
    + intros c Hn Hnm. rewrite Hc' by done. cbn [st_mem with_mem upd_mem]. by apply Hc.
    + intros y. split.
      * intros (i & Hi & Hy). unfold upd_bin in Hy. destruct (Z.eqb_spec i (bin_index z)) as [->|].
        -- apply elem_of_app in Hy. rewrite elem_of_cons in Hy. destruct (decide (y = x)) as [->|Hyx]; [exists 1; split; [done|rewrite El; in_auto]|].
           exists (bin_index z). split; [done|]. rewrite <- (Hwo (bin_index z)) by (done || lia). rewrite E12, elem_of_app. tauto.
        -- apply list_elem_of_filter in Hy as [_ Hy]. by exists i.
      * intros (i & Hi & Hy). destruct (decide (y = x)) as [->|Hyx].
        -- exists (bin_index z). split; [done|]. unfold upd_bin. rewrite Z.eqb_refl. in_auto.
        -- exists i. split; [done|]. assert (y ∈ without x L i) as Hy' by (by apply list_elem_of_filter). unfold upd_bin.
           destruct (Z.eqb_spec i (bin_index z)) as [->|]; [|done]. rewrite E12 in Hy'. apply elem_of_app in Hy'. in_auto. tauto.
  - unfold upd_bin. rewrite (proj2 (Z.eqb_neq 1 _)) by lia. unfold without. rewrite El, filter_split; [apply app_nil_r|].
    destruct (bo_list _ _ _ _ _ hk_bins 1 ltac:(done)) as (_ & Hn & _). rewrite El in Hn. by apply list.NoDup_cons in Hn as [_ Hn].
  - intros i Hi Hne. unfold upd_bin. rewrite (proj2 (Z.eqb_neq _ _) Hne). apply Hwo; [unfold valid_bin; lia|lia].
  - assert (field off_last_remainder) as Hfl by (unfold field, off_last_remainder; lia).
    pose proof (nonlink_arena av b0 l T _ Hs HT Hsep Hfl) as Hn. rewrite Hc'; [by apply Hc|done|].
    intros k Hk. rewrite binmap_at_eq. change BINMAPSIZE with 4 in Hk. unfold off_last_remainder. lia.
  - intros c Hd. rewrite <- (Hk1 c Hd). apply Ho; apply (data_outside av b0 l T (bin_index z) (x :: without x L (bin_index z))); try done;
      (intros y [->|Hy]%elem_of_cons; apply hk_free; [exists 1; split; [done|rewrite El; in_auto]|]; apply list_elem_of_filter in Hy as [_ Hy]; by exists (bin_index z)).
Qed.

(** The turn hands out the chunk or sorts it into its bin. *)
Lemma unsorted_step_heap fuel :
  (length l < fuel)%nat ->
  (exists p m' z, unsorted_step fuel av x nb bytes s = Ok (Some p) (with_mem m' s)
     /\ served s (with_mem m' s) av b0 l T nb (Some z) p /\ (z = nb \/ nb < 1024 /\ p = chunk2mem (last_remainder s av)))
  \/ exists m' L', unsorted_step fuel av x nb bytes s = Ok None (with_mem m' s)
     /\ heap_ok (with_mem m' s) av b0 l T L' /\ L' 1 = l0 /\ last_remainder (with_mem m' s) av = last_remainder s av
     /\ (nb < 1024 -> L (bin_index nb) = [] -> L' (bin_index nb) = []) /\ keeps_data b0 l m m'.
Proof using All.
  intros Hfu. destruct (bin_block s av b0 l T L 1 x Hok ltac:(done)) as (pre & z & post & Erow & Ex & Hh & Hcs & Hzm & Hz32 & Hzr & Hsys & _); [rewrite El; in_auto|].
  destruct step_reads as (_ & HxB & Hxu & Hb1 & Hc & _). pose proof Hnb as [Hnm Hnr].
  assert (chunksize (with_mem m1 s) x = z) as Hcs1.
  { destruct (heap_facts _ _ _ _ _ _ Hok) as (Hs & _ & Ht & HT & _ & _ & _ & Hsep).
    rewrite <- Hcs. unfold chunksize, size_, word. cbn [st_mem with_mem upd_mem]. rewrite Hc; [done|].
    apply (nonlink_chunk _ _ _ T); auto. left. apply (bo_in _ _ _ _ _ (hk_bins _ _ _ _ _ _ Hok) 1); [done|rewrite El; in_auto]. }
  unfold unsorted_step. mexec. unfold bk, word, unsorted_chunks. fold u m. rewrite HxB.
  assert (size_ s x = z + 1) as -> by exact Hh. change (2 * SIZE_SZ) with 16.
  rewrite (proj2 (Z.leb_gt (z + 1) 16)), (proj2 (Z.ltb_ge (system_mem s av) (z + 1))) by lia. cbn [orb]. mexec. rewrite Hcs, MINSIZE_32, (u64_small (nb + 32)) by lia.
  destruct (in_smallbin_range nb && (B =? u) && (x =? last_remainder s av) && (nb + 32 <? z)) eqn:Econd.
  - left. bool_hyps. assert (l0 = []) as E0.
    { destruct l0 as [|y l1 _] eqn:E using rev_ind; [done|]. exfalso. unfold B in *. rewrite app_comm_cons, last_last in *.
      destruct (bo_list _ _ _ _ _ (hk_bins _ _ _ _ _ _ Hok) 1 ltac:(done)) as (_ & [Hn _]%list.NoDup_cons & _). apply Hn. rewrite El. fold u. subst. in_auto. }
    destruct (step_remainder pre z post Erow Ex E0 ltac:(lia)) as (m' & Hrun & Hserved). exists (chunk2mem x), m', z. rewrite Hrun. split_and!; [done|done|].
    right. split; [by apply in_smallbin_range_spec|]. congruence.
  - change (upd_mem _ (upd_mem _ s)) with (with_mem m1 s). destruct (Z.eqb_spec z nb) as [->|Hne].
    + left. destruct (step_exact pre post Erow Ex) as (m' & Hrun & Hserved). exists (chunk2mem x), m', nb. split_and!; [|done|by left].
      exact Hrun.
    + right. destruct (step_place fuel pre z post Erow Ex Hfu) as (m' & L' & Hrun & Hok' & H1 & H2 & H3 & Hkd). exists m', L'. rewrite Hrun. split_and!; try done.
      * intros Hlt H0. rewrite H2; [done|pose proof (bin_index_bounds nb ltac:(lia)); unfold NBINS; lia|]. intros E.
        destruct (bin_index_regular nb z) as [_ Hreg]; try (rewrite ?MINSIZE_32; change MALLOC_ALIGNMENT with 16; (done || lia)).
        apply Hne. symmetry. apply Hreg; [by apply in_smallbin_range_spec|done].
Qed.

End Step.

(** ** The loop over the unsorted list *)

(** The bin of a small request stays empty: a chunk of that size would have
    been handed out. *)
Definition own_bin_empty (nb : Z) (L : Z -> list Z) : Prop := nb < 1024 -> L (bin_index nb) = [].

Lemma unsorted_loop_heap fuel iters av b0 l T nb bytes :
  good_size nb -> nb + 32 < 18446744073709551616 -> (length l < fuel)%nat ->
  forall s L, heap_ok s av b0 l T L -> own_bin_empty nb L ->
  (exists p s' z, unsorted_loop fuel iters av nb bytes s = Ok (Some p) s'
     /\ served s s' av b0 l T nb (Some z) p /\ (z = nb \/ nb < 1024 /\ p = chunk2mem (last_remainder s av)))
  \/ exists s' L', unsorted_loop fuel iters av nb bytes s = Ok None s' /\ heap_ok s' av b0 l T L' /\ own_bin_empty nb L' /\ st_gl s' = st_gl s
     /\ keeps_data b0 l (st_mem s) (st_mem s')
     /\ ((length (L 1%Z) <= iters)%nat -> L' 1 = []).
Proof.
  intros Hnb Hnb32 Hfu. induction iters as [|k IH]; intros s L Hok Hown; cbn [unsorted_loop].
  - right. exists s, L. split_and!; try done. intros Hlen. apply nil_length_inv. lia.
  - mexec. destruct (L 1) as [|x l0 _] eqn:El using rev_ind.
    + right. exists s, L. assert (bk s (unsorted_chunks av) = unsorted_chunks av) as ->.
      { destruct (bo_list _ _ _ _ _ (hk_bins _ _ _ _ _ _ Hok) 1 ltac:(done)) as (Hc & _). rewrite El in Hc. apply Hc. }
      rewrite Z.eqb_refl. split_and!; done.
    + destruct (step_reads s av b0 l T L l0 x Hok El) as (Hx & _ & Hxu & _).
      assert (bk s (unsorted_chunks av) = x) as -> by exact Hx. rewrite (proj2 (Z.eqb_neq x (unsorted_chunks av)) Hxu).
      destruct (unsorted_step_heap s av b0 l T L l0 x nb bytes Hok El Hnb Hnb32 fuel Hfu) as [(p & m' & z & Hrun & Hs & Hz)|(m' & L' & Hrun & Hok' & E1 & Elr & Hown' & Hkd)].
      * left. exists p, (with_mem m' s), z. rewrite Hrun. done.
      * rewrite Hrun. destruct (IH _ _ Hok') as [(p & s' & z & Hr & Hs & Hz)|(s' & L2 & Hr & Hok2 & Hown2 & Hgl & Hk2 & Hlen)].
        -- intros Hlt. apply Hown'; auto.
        -- left. exists p, s', z. rewrite Elr in Hz. split_and!; [done|by apply (served_from (with_mem m' s))|done].
        -- right. exists s', L2. split_and!; try done; [by apply (keeps_trans b0 l _ m')|]. rewrite length_app, <- E1. cbn. intros Hl. apply Hlen. lia.
Qed.

(** ** A chunk found in a bin *)

(** [unlink] and [take_chunk] on any chunk of a bin that is large enough. *)
Lemma unlink_take s av b0 l T L i x nb bytes adv err :
  heap_ok s av b0 l T L -> valid_bin i -> x ∈ L i -> good_size nb -> nb <= chunksize s x ->
  exists p s', (unlink av x ;;; p <- take_chunk av x (chunksize s x) nb bytes adv err ;; ret (Some p)) s = Ok (Some p) s'
    /\ served s s' av b0 l T nb (Some (chunksize s x)) p.
Proof.
  intros Hok Hi Hx Hnb Hle. destruct (heap_facts _ _ _ _ _ _ Hok) as (_ & Hg & _).
  destruct (bin_block _ _ _ _ _ _ _ _ Hok Hi Hx) as (pre & z & post & -> & -> & _ & Hcs & _). rewrite Hcs in *.
  destruct (bins_unlink av _ _ s L i _ Hg (hk_bins _ _ _ _ _ _ Hok) Hi Hx) as (m1 & Hrun & Hb & Ho & Hc).
  destruct (open_gap s m1 av b0 pre z post T L Hok Hb Hc) as (Hgap & Hgb & Hh & _).
  destruct (take_chunk_run (with_mem m1 s) av b0 pre z post T _ nb bytes adv err Hgap Hgb Hh Hnb Hle) as (m' & L' & Hrun' & Hok' & Hk').
  exists (chunk2mem (b0 + total pre)), (with_mem m' s). rewrite with_mem_with_mem in Hrun', Hok'. split; [|apply (used_served _ _ _ _ _ _ _ _ _ L'); [done|done|split; [done|]]].
  - mexec. rewrite Hrun, Hrun'. done.
  - apply (keeps_trans _ _ _ m1); [|exact Hk']. intros c Hd. by apply Ho, (heap_outside s av b0 (pre ++ mkBlock z false :: post) T L i).
Qed.

(** ** The large bin of the request *)

Lemma large_heads_last s b h t :
  large_bin (st_mem s) b (h :: t) ->
  exists g f, heads (head (st_mem s)) 0 (h :: t) = g ++ [f] /\ ld (st_mem s) (h + off_bk_nextsize) = f /\ h ∈ g ++ [f].
Proof.
  intros Hlb. pose proof (lb_sizes _ _ _ Hlb) as Hs. pose proof (heads_first (head (st_mem s)) h t (sl_pos _ _ Hs h ltac:(left))) as E.
  pose proof (sl_ring _ _ Hs) as Hr. rewrite E in Hr. destruct (ring_neighbours (st_mem s) [] h _ Hr) as (_ & [_ Hp] & _). unfold rprev in Hp. rewrite app_nil_r in Hp.
  set (hs := heads (head (st_mem s)) (head (st_mem s) h) t) in *. rewrite E. destruct hs as [|f hs' _] using rev_ind.
  - exists [], h. split_and!; [done|done|left].
  - exists (h :: hs'), f. rewrite app_comm_cons, last_last in Hp. split_and!; [done|done|in_auto].
Qed.

Lemma int_malloc_large_heap fuel s av b0 l T L nb bytes :
  heap_ok s av b0 l T L -> good_size nb -> (length l < fuel)%nat ->
  (exists p s' z, int_malloc_large fuel av nb bytes (request_index nb) s = Ok (Some p) s' /\ served s s' av b0 l T nb (Some z) p
     /\ nb <= z /\ bin_index z = bin_index nb /\ forall y, y ∈ L (bin_index nb) -> nb < head (st_mem s) y -> z < head (st_mem s) y)
  \/ (int_malloc_large fuel av nb bytes (request_index nb) s = Ok None s
     /\ (1024 <= nb -> forall y, y ∈ L (bin_index nb) -> head (st_mem s) y <= nb)).
Proof.
  intros Hok Hnb Hfu. pose proof Hnb as [Hnm Hnr]. unfold int_malloc_large. change (request_index nb) with (bin_index nb).
  destruct (in_smallbin_range nb) eqn:Esm; [right; split; [done|]; apply in_smallbin_range_spec in Esm; lia|].
  assert (1024 <= nb) as H1k by (apply Z.nlt_ge; rewrite <- in_smallbin_range_spec, Esm; done).
  pose proof (bin_index_bounds nb ltac:(lia)) as Hib. assert (large_index (bin_index nb)) as Hlg.
  { pose proof (large_size nb ltac:(lia)). unfold large_index, NBINS. lia. }
  pose proof (large_valid _ Hlg) as Vi. set (i := bin_index nb) in *. destruct (heap_facts _ _ _ _ _ _ Hok) as (_ & Hg & _).
  pose proof (hk_bins _ _ _ _ _ _ Hok) as Hb. pose proof (large_bin_at av _ _ L _ i Hg Hb Hlg ltac:(lia)) as Hlb. set (b := bin_at av i) in *.
  assert (forall y, y ∈ L i -> chunksize s y = head (st_mem s) y - 1 /\ head (st_mem s) y < 18446744073709551616) as Hcs.
  { intros y Hy. destruct (bo_head _ _ _ _ _ Hb i y Vi Hy) as [Hm Hr]. split; [|lia]. apply chunksize_head; [lia|done]. }
  mexec. unfold first, fd, size_, word.
  destruct (L i) as [|h t] eqn:El.
  { right. destruct (lb_list _ _ _ Hlb) as ([-> _] & _). rewrite Z.eqb_refl. split; [done|]. intros _ y Hy. by apply elem_of_nil in Hy. }
  destruct (lb_list _ _ _ Hlb) as ([[-> _] _] & Hnd & _). assert (h <> b) as Hhb by (apply list.NoDup_cons in Hnd as [Hn _]; intros ->; apply Hn; left).
  rewrite (proj2 (Z.eqb_neq h b) Hhb). cbn [negb andb]. fold (head (st_mem s) h).
  pose proof (sl_sorted _ _ (lb_sizes _ _ _ Hlb)) as Hso.
  destruct (Z.leb_spec nb (head (st_mem s) h)) as [Hle|Hgt]; cycle 1.
  { right. split; [done|]. intros _ y Hy. apply StronglySorted_inv in Hso as [_ Hall]. rewrite list.Forall_forall in Hall.
    apply elem_of_cons in Hy as [->|Hy]; [lia|]. pose proof (Hall y Hy). lia. }
  left. destruct (large_heads_last s b h t Hlb) as (g & f0 & Eh & Ebk & Hh). unfold bk_nextsize, word. rewrite Ebk.
  destruct (lb_head _ _ _ Hlb h ltac:(left)) as [_ Hm1].
  destruct (large_search_run fuel s b (h :: t) nb g f0 [] Hlb) as (g1 & f & g2 & Ef & Hg2 & Hlt & Hrun); try done.
  { intros y Hy. by apply Hcs. }
  { intros y Hy. by apply elem_of_nil in Hy. }
  { exists h. split; [done|]. zlia. }
  { pose proof (bin_length _ _ _ _ _ _ i Hok Vi) as Hlen. rewrite El in Hlen. apply (f_equal length) in Eh. rewrite length_app in Eh. cbn in Eh.
    pose proof (length_heads (head (st_mem s)) 0 (h :: t)). cbn in *. lia. }
  rewrite Hrun. set (lc := h :: t) in *. destruct (heads_inv _ _ _ _ _ _ Ef) as (l1 & l2 & E12 & Eg1 & Eg2 & _).
  assert (f ∈ lc) as Hfl by (rewrite E12; in_auto). destruct (Hcs f Hfl) as [Hcf _].
  assert (exists P, P ∈ lc /\ head (st_mem s) P = head (st_mem s) f
    /\ (if negb (f =? last s b) && (ld (st_mem s) (f + off_size) =? ld (st_mem s) (ld (st_mem s) (f + off_fd) + off_size)) then ld (st_mem s) (f + off_fd) else f) = P)
    as (P & HP & EP & ->).
  { pose proof (lb_list _ _ _ Hlb) as Hl. rewrite E12 in Hl. pose proof (bin_list_neighbours _ _ _ _ _ Hl) as (_ & Hff & _ & _). rewrite Hff.
    destruct l2 as [|y l2].
    - exists f. split_and!; [done|done|]. destruct Hl as (Hc & _). apply chain_snoc in Hc as [_ [_ Hbk]]. unfold last, bk, word. rewrite Hbk, Z.eqb_refl. done.
    - cbn [hd]. destruct (Z.eqb_spec (ld (st_mem s) (f + off_size)) (ld (st_mem s) (y + off_size))) as [E|];
        [|exists f; rewrite andb_false_r; done].
      destruct (negb (f =? last s b)); cbn [andb]; [exists y|by exists f]. split_and!; [rewrite E12; in_auto|done|done]. }
  destruct (Hcs P HP) as [HcP _]. rewrite EP, <- Hcf in HcP.
  destruct (unlink_take s av b0 _ T L i P nb bytes false "malloc(): corrupted unsorted chunks" Hok Vi) as (p & s' & Hr & Hs'); [by rewrite El|done|lia|].
  rewrite HcP in Hr, Hs'. exists p, s', (chunksize s f). split_and!; [exact Hr|done|lia| |].
  - destruct (bin_block _ _ _ _ _ _ i f Hok Vi) as (_ & z & _ & _ & _ & _ & -> & _ & _ & _ & _ & Hz); [by rewrite El|]. unfold large_index in Hlg. apply Hz. lia.
  - intros y Hy Hny. rewrite Hcf. pose proof Hso as Hso'. rewrite E12 in Hy, Hso'. apply sorted_app in Hso' as (_ & Hs2 & H12).
    apply elem_of_app in Hy as [Hy|Hy]; [pose proof (H12 y f Hy ltac:(left)); lia|]. apply elem_of_cons in Hy as [->|Hy]; [lia|].
    apply StronglySorted_inv in Hs2 as [Hs2 Hall]. rewrite list.Forall_forall in Hall. pose proof (Hall y Hy).
    destruct (decide (head (st_mem s) y = head (st_mem s) f)) as [->|Hne]; [lia|]. exfalso.
    destruct (heads_cover (head (st_mem s)) (head (st_mem s) f) l2 y) as (w & Hw & Ew); [done|done|done|intros w Hw; left; by apply Hall|lia|].
    rewrite <- Eg2 in Hw. pose proof (Hg2 w Hw). lia.
Qed.

End Malloc.
