(* ===== verification/MallocScan.v ===== *)
(** * The search by binmap, and allocation as a whole

    The last stages of [_int_malloc] ([src/libipc/malloc/malloc.c]): the scan
    for the next bin that is not empty, which also repairs the binmap, and the
    top chunk.  The theorem puts all stages together: on any heap of the main
    arena [_int_malloc] does one step of the abstract allocation. *)

From Stdlib Require Import Sorted.
From S2P Require Import Prelude MallocState MallocCore MallocInt SizeFacts ListFacts Rings LargeBin Bins BinProps InitProps FastProps FreeProps HeapSpec HeapProps MallocProps.

(** ** Bits of a word of the binmap *)

Lemma land_bit map n : 0 <= n -> (2 ^ n &w map) = if Z.testbit map n then 2 ^ n else 0.
Proof.
  intros Hn. apply Z.bits_inj'. intros d Hd. rewrite Z.land_spec, Z.pow2_bits_eqb by done. destruct (Z.eqb_spec n d) as [->|Hne].
  - destruct (Z.testbit map d); [by rewrite Z.pow2_bits_true|by rewrite Z.bits_0].
  - destruct (Z.testbit map n); [by rewrite Z.pow2_bits_false|by rewrite Z.bits_0].
Qed.

Lemma above_bits map n d : 0 <= map < 2 ^ n -> n <= d -> Z.testbit map d = false.
Proof.
  intros Hm Hd. destruct (Z.eq_dec map 0) as [->|]; [apply Z.bits_0|]. apply Z.bits_above_log2; [lia|].
  apply Z.log2_lt_pow2; [lia|]. assert (0 <= n) by (destruct (Z_lt_ge_dec n 0); [rewrite Z.pow_neg_r in Hm by done; lia|lia]).
  pose proof (Z.pow_le_mono_r 2 n d). lia.
Qed.

(** A word from [2 ^ n] on without bit [n] is at least [2 ^ (n + 1)]. *)
Lemma next_bit map n : 0 <= n -> 2 ^ n <= map -> Z.testbit map n = false -> 2 ^ (n + 1) <= map.
Proof.
  intros Hn Hle Hb. apply Z.nlt_ge. intros Hlt. assert (0 < 2 ^ n) by (by apply Z.pow_pos_nonneg).
  assert (Z.log2 map = n) as E by (apply Z.log2_unique; rewrite <- ?Z.add_1_r; lia).
  pose proof (Z.bit_log2 map ltac:(lia)) as Hl. rewrite E in Hl. congruence.
Qed.

Lemma clear_bit map n : 0 <= map < 4294967296 -> 0 <= n ->
  let map' := map &w u32 (Z.lnot (2 ^ n)) in
  0 <= map' < 4294967296 /\ forall d, 0 <= d -> Z.testbit map' d = Z.testbit map d && negb (n =? d).
Proof.
  intros Hm Hn map'. assert (forall d, 0 <= d -> Z.testbit map' d = Z.testbit map d && negb (n =? d)) as Hb.
  { intros d Hd. unfold map'. rewrite Z.land_spec. change (u32 (Z.lnot (2 ^ n))) with (Z.lnot (2 ^ n) mod 2 ^ 32). destruct (Z_lt_ge_dec d 32) as [Hlt|Hge].
    - rewrite Z.mod_pow2_bits_low, Z.lnot_spec, Z.pow2_bits_eqb by lia. done.
    - rewrite (above_bits map 32 d) by (done || lia). done. }
  split; [|done]. assert (map' = map' mod 2 ^ 32) as ->; [|by apply Z.mod_pos_bound].
  apply Z.bits_inj'. intros d Hd. destruct (Z_lt_ge_dec d 32); [by rewrite Z.mod_pow2_bits_low|].
  rewrite Z.mod_pow2_bits_high, Hb, (above_bits map 32 d) by (done || lia). done.
Qed.

Lemma shift_bit n : 0 <= n < 32 -> u32 (Z.shiftl (2 ^ n) 1) = if n =? 31 then 0 else 2 ^ (n + 1).
Proof.
  intros Hn. rewrite Z.shiftl_mul_pow2 by lia. replace (2 ^ n * 2 ^ 1) with (2 ^ (n + 1)) by (rewrite Z.pow_add_r by lia; done).
  destruct (Z.eqb_spec n 31) as [->|]; [reflexivity|]. apply u32_small. split; [apply Z.pow_nonneg; lia|].
  change 4294967296 with (2 ^ 32). apply Z.pow_lt_mono_r; lia.
Qed.

Lemma marked_bit av m k d : 0 <= k < BINMAPSIZE -> 0 <= d < 32 -> marked av m (32 * k + d) <-> Z.testbit (ld m (binmap_at av k)) d = true.
Proof.
  intros Hk Hd. change BINMAPSIZE with 4 in Hk. unfold marked. rewrite idx2bit_eq by (unfold NBINS; lia).
  replace (idx2block (32 * k + d)) with k by (unfold idx2block; change BINMAPSHIFT with 5; rewrite Z.shiftr_div_pow2 by lia; change (2 ^ 5) with 32; zlia).
  replace ((32 * k + d) mod 32) with d by zlia. rewrite Z.land_comm, land_bit by lia.
  assert (0 < 2 ^ d) by (apply Z.pow_pos_nonneg; lia). destruct (Z.testbit _ d); split; (done || lia).
Qed.

(** Clearing the bit of an empty bin. *)
Lemma bins_unmark av G Bg L m k d v :
  heap_geom av G Bg -> bins_ok av G Bg L m -> 0 <= k < BINMAPSIZE -> 0 <= d < 32 -> 2 <= 32 * k + d -> L (32 * k + d) = [] ->
  0 <= v < 4294967296 -> (forall e, 0 <= e < 32 -> e <> d -> Z.testbit v e = Z.testbit (ld m (binmap_at av k)) e) ->
  bins_ok av G Bg L (<[binmap_at av k := v]> m).
Proof.
  intros Hg Hb Hk Hd Hi Hnil Hv He. pose proof Hk as Hk4. change BINMAPSIZE with 4 in Hk4. set (i := 32 * k + d) in *. set (m' := <[binmap_at av k := v]> m).
  assert (valid_bin i) as Vi by (unfold valid_bin, NBINS, i; lia).
  assert (forall c, not_map av c -> ld m' c = ld m c) as Hc by (intros c Hc; apply ld_insert_ne; intros E; by apply (Hc k)).
  assert (forall k', 0 <= k' < BINMAPSIZE -> ld m' (binmap_at av k') = if decide (k' = k) then v else ld m (binmap_at av k')) as Hmap.
  { intros k' Hk'. unfold m'. rewrite ld_insert, !binmap_at_eq. repeat case_decide; (done || lia). }
  apply (bins_ext _ _ _ (upd_bin i [] L)).
  { intros j _. unfold upd_bin. destruct (Z.eqb_spec j i) as [->|]; done. }
  apply (bins_change _ _ _ L m); try done.
  - generalize (bo_list _ _ _ _ _ Hb i Vi). rewrite Hnil. apply bin_list_frame; intros a ->%list_elem_of_singleton; apply Hc, header_not_map; (done || unfold off_fd, off_bk; lia).
  - intros _. apply size_list_nil.
  - intros x Hx. by apply elem_of_nil in Hx.
  - intros j Hj Hji. unfold NBINS in Hj. assert (0 <= j / 32 < BINMAPSIZE /\ 0 <= j mod 32 < 32) as [Hq Hr] by (change BINMAPSIZE with 4; zlia).
    assert (j = 32 * (j / 32) + j mod 32) as Ej by zlia. rewrite Ej, !marked_bit by done. rewrite Hmap by done. case_decide as E; [|done].
    rewrite He by (done || intros Ed; apply Hji; unfold i; lia). by rewrite E.
  - intros k' Hk'. rewrite Hmap by done. case_decide; [done|by apply (bo_map _ _ _ _ _ Hb)].
  - intros j x o Hj _ [->|Hx]%elem_of_cons Ho; apply Hc; [apply header_not_map; [done|lia]|].
    apply (chunk_not_map _ G Bg); [done|by apply (bo_in _ _ _ _ _ Hb j)|lia].
  - intros j x o Hj _ Hx Ho. apply Hc, (chunk_not_map _ G Bg); [done|by apply (bo_in _ _ _ _ _ Hb j)|lia].
Qed.

Section Scan.
Context `{PS : PageSource}.
Implicit Types (s : state) (l : list block) (L : Z -> list Z).

(** [advance_bin] stops at the first set bit, and there is one. *)
Lemma advance_run fuel s b n map :
  0 <= n < 32 -> 2 ^ n <= map < 4294967296 -> 32 - n < Z.of_nat fuel ->
  exists c, n <= c < 32 /\ Z.testbit map c = true /\ (forall d, n <= d < c -> Z.testbit map d = false)
    /\ advance_bin fuel b (2 ^ n) map s = Ok (b + 16 * (c - n), 2 ^ c) s.
Proof.
  revert b n. induction fuel as [|k IH]; intros b n Hn Hm Hf; [lia|]. cbn [advance_bin]. rewrite land_bit by lia.
  assert (0 < 2 ^ n) by (apply Z.pow_pos_nonneg; lia). destruct (Z.testbit map n) eqn:Eb.
  - exists n. rewrite (proj2 (Z.eqb_neq (2 ^ n) 0)) by lia. split_and!; [lia|lia|done|lia|]. rewrite Z.sub_diag, Z.mul_0_r, Z.add_0_r. done.
  - cbn [Z.eqb]. pose proof (next_bit map n ltac:(lia) ltac:(lia) Eb) as Hm'. rewrite shift_bit by done.
    assert (n <> 31) as Hn31 by (intros ->; change (2 ^ (31 + 1)) with 4294967296 in Hm'; lia). rewrite (proj2 (Z.eqb_neq n 31)) by done.
    assert (0 < 2 ^ (n + 1)) by (apply Z.pow_pos_nonneg; lia). unfold assert_. rewrite (proj2 (Z.eqb_neq (2 ^ (n + 1)) 0)) by lia. cbn [negb]. mexec.
    destruct (IH (next_bin b) (n + 1) ltac:(lia) ltac:(lia) ltac:(lia)) as (c & Hc & Hb & Hlow & Hrun). exists c. split_and!; [lia|lia|done| |].
    + intros d Hd. destruct (decide (d = n)) as [->|]; [done|apply Hlow; lia].
    + rewrite Hrun. unfold next_bin. change (Z.shiftl 8 1) with 16. f_equal. f_equal. lia.
Qed.

(** [next_block] goes to the next word that is not zero. *)
Lemma next_block_run fuel s av k : BINMAPSIZE <= k + 1 + Z.of_nat fuel ->
  match next_block fuel s av k with
  | None => forall j, k < j < BINMAPSIZE -> binmap s av j = 0
  | Some (j, map) => k < j < BINMAPSIZE /\ map = binmap s av j /\ map <> 0 /\ forall i, k < i < j -> binmap s av i = 0
  end.
Proof.
  revert k. induction fuel as [|f IH]; intros k Hf; cbn [next_block]; [lia|].
  destruct (Z.leb_spec BINMAPSIZE (k + 1)); [lia|]. destruct (Z.eqb_spec (binmap s av (k + 1)) 0) as [E|]; [|split_and!; (done || lia)].
  specialize (IH (k + 1) ltac:(lia)). destruct (next_block f s av (k + 1)) as [[j map]|].
  - destruct IH as (Hj & -> & Hne & H0). split_and!; [lia|lia|done|done|]. intros i Hi. destruct (decide (i = k + 1)) as [->|]; [done|apply H0; lia].
  - intros j Hj. destruct (decide (j = k + 1)) as [->|]; [done|apply IH; lia].
Qed.

(** The last chunk of a bin is a smallest one. *)
Lemma last_of_bin s av b0 l T L i (l0 : list Z) x :
  heap_ok s av b0 l T L -> 2 <= i < NBINS -> L i = l0 ++ [x] ->
  last s (bin_at av i) = x /\ x <> bin_at av i /\ forall y, y ∈ L i -> head (st_mem s) x <= head (st_mem s) y.
Proof.
  intros Hok Hi El. assert (valid_bin i) as Vi by (unfold valid_bin; lia). pose proof (hk_bins _ _ _ _ _ _ Hok) as Hb.
  destruct (bo_list _ _ _ _ _ Hb i Vi) as (Hc & Hn & _). rewrite El in Hc, Hn. apply chain_snoc in Hc as [_ [_ Hbk]].
  split; [exact Hbk|]. split; [intros ->; apply list.NoDup_cons in Hn as [Hn _]; apply Hn; in_auto|]. intros y Hy.
  destruct (Z_lt_ge_dec i 64) as [Hsm|Hlg].
  - destruct (bin_block _ _ _ _ _ _ i x Hok Vi) as (_ & z & _ & _ & _ & -> & _ & Hzm & Hz & _ & _ & Hzi); [rewrite El; in_auto|].
    destruct (bin_block _ _ _ _ _ _ i y Hok Vi Hy) as (_ & w & _ & _ & _ & -> & _ & Hwm & Hw & _ & _ & Hwi).
    specialize (Hzi ltac:(lia)). specialize (Hwi ltac:(lia)). pose proof (large_size z ltac:(lia)).
    destruct (bin_index_regular z w) as [_ Hreg]; try (rewrite ?MINSIZE_32; change MALLOC_ALIGNMENT with 16; (done || lia)).
    rewrite Hreg; [lia|apply in_smallbin_range_spec; lia|congruence].
  - destruct (bo_sizes _ _ _ _ _ Hb i ltac:(unfold large_index; lia)) as [_ Hs _ _ _]. rewrite El in Hs, Hy.
    apply elem_of_app in Hy as [Hy| ->%list_elem_of_singleton]; [|done]. apply sorted_app in Hs as (_ & _ & Hs). apply Hs; [done|left].
Qed.

(** No bin above the bin of the request and below [i] has a chunk. *)
Definition empty_below (nb : Z) L (i : Z) : Prop := forall j, bin_index nb < j < i -> L j = [].

(** Bins without a bit are empty. *)
Lemma unmarked_empty s av b0 l T L k d :
  heap_ok s av b0 l T L -> 0 <= k < BINMAPSIZE -> 0 <= d < 32 -> 2 <= 32 * k + d -> Z.testbit (binmap s av k) d = false -> L (32 * k + d) = [].
Proof.
  intros Hok Hk Hd H2 Hbit. destruct (L (32 * k + d)) as [|x l0] eqn:El; [done|]. exfalso. pose proof Hk as Hk4. change BINMAPSIZE with 4 in Hk4.
  pose proof (bo_marked _ _ _ _ _ (hk_bins _ _ _ _ _ _ Hok) (32 * k + d) ltac:(unfold NBINS; lia)) as Hm. rewrite El in Hm.
  specialize (Hm ltac:(done)). apply marked_bit in Hm; [|done|done]. unfold binmap, word in Hbit. congruence.
Qed.

Lemma empty_bits s av b0 l T L nb k n n' :
  heap_ok s av b0 l T L -> 0 <= k < BINMAPSIZE -> 0 <= n <= n' -> n' <= 32 -> 2 <= bin_index nb -> empty_below nb L (32 * k + n) ->
  (forall d, n <= d < n' -> Z.testbit (binmap s av k) d = false) -> empty_below nb L (32 * k + n').
Proof.
  intros Hok Hk Hn Hn' H2 He Hd j Hj. destruct (Z_lt_ge_dec j (32 * k + n)) as [Hlt|Hge]; [apply He; lia|].
  replace j with (32 * k + (j - 32 * k)) by lia. apply (unmarked_empty s av b0 l T); try lia; [done|]. apply Hd. lia.
Qed.

(** The words between two blocks are zero. *)
Lemma empty_blocks s av b0 l T L nb k k' :
  heap_ok s av b0 l T L -> 0 <= k < k' -> k' <= BINMAPSIZE -> 2 <= bin_index nb -> empty_below nb L (32 * k + 32) ->
  (forall i, k < i < k' -> binmap s av i = 0) -> empty_below nb L (32 * k').
Proof.
  intros Hok Hk Hk' H2 He H0 j Hj. destruct (Z_lt_ge_dec j (32 * k + 32)) as [Hlt|Hge]; [apply He; lia|].
  replace j with (32 * (j / 32) + j mod 32) by zlia. assert (k < j / 32 < k') as Hq by zlia. apply (unmarked_empty s av b0 l T); try (lia || zlia); [done|].
  rewrite H0 by done. apply Z.bits_0.
Qed.

(** The bit of position [n] in a word; it is shifted out after the last one. *)
Definition bit_at (n : Z) : Z := if n =? 32 then 0 else 2 ^ n.

(** The block where the scan goes on: this one, or the next one with a bit. *)
Lemma scan_start s av b0 l T L nb k n :
  heap_ok s av b0 l T L -> 0 <= k < BINMAPSIZE -> 0 <= n <= 32 -> 2 <= bin_index nb -> empty_below nb L (32 * k + n) ->
  let map := binmap s av k in
  match (if (map <? bit_at n) || (bit_at n =? 0) then
           match next_block (Z.to_nat BINMAPSIZE) s av k with
           | None => None
           | Some (block, map) => Some (bin_at av (Z.shiftl block BINMAPSHIFT), block, map, 1)
           end
         else Some (bin_at av (32 * k + n), k, map, bit_at n)) with
  | None => empty_below nb L NBINS
  | Some (bin, block, map, bit) => exists n', bin = bin_at av (32 * block + n') /\ map = binmap s av block /\ bit = 2 ^ n'
      /\ 0 <= block < BINMAPSIZE /\ 0 <= n' < 32 /\ 2 ^ n' <= map < 4294967296 /\ 32 * k + n <= 32 * block + n' /\ empty_below nb L (32 * block + n')
  end.
Proof.
  intros Hok Hk Hn H2 He map. subst map. pose proof (bo_map _ _ _ _ _ (hk_bins _ _ _ _ _ _ Hok)) as Hmap.
  assert (forall j, 0 <= j < BINMAPSIZE -> 0 <= binmap s av j < 4294967296) as Hr by exact Hmap.
  destruct ((binmap s av k <? bit_at n) || (bit_at n =? 0)) eqn:Econd.
  - assert (empty_below nb L (32 * k + 32)) as He32.
    { unfold bit_at in Econd. destruct (Z.eqb_spec n 32) as [->|Hne]; [done|].
      apply (empty_bits s av b0 l T L nb k n 32 Hok); try (done || lia). intros d Hd. apply (above_bits _ n); [|lia].
      pose proof (Hr k Hk). assert (0 < 2 ^ n) by (apply Z.pow_pos_nonneg; lia). bool_hyps; lia. }
    pose proof (next_block_run (Z.to_nat BINMAPSIZE) s av k ltac:(change BINMAPSIZE with 4; lia)) as Hnb.
    destruct (next_block _ s av k) as [[j map']|].
    + destruct Hnb as (Hj & -> & Hne & H0). pose proof (Hr j ltac:(lia)). exists 0. rewrite Z.add_0_r.
      split_and!; try (done || lia); [rewrite Z.shiftl_mul_pow2 by done; f_equal; change (2 ^ BINMAPSHIFT) with 32; lia|].
      apply (empty_blocks s av b0 l T L nb k j); (done || lia).
    + change NBINS with (32 * BINMAPSIZE). apply (empty_blocks s av b0 l T L nb k BINMAPSIZE); (done || lia).
  - exists n. unfold bit_at in *. destruct (Z.eqb_spec n 32); [by rewrite orb_true_r in Econd|]. pose proof (Hr k Hk).
    apply orb_false_iff in Econd as [E1%Z.ltb_ge _]. split_and!; (done || lia).
Qed.

(** The scan repairs the binmap where a bin turns out empty. *)
Lemma heap_unmark s av b0 l T L k d :
  heap_ok s av b0 l T L -> 0 <= k < BINMAPSIZE -> 0 <= d < 32 -> 2 <= 32 * k + d -> L (32 * k + d) = [] ->
  let m' := <[binmap_at av k := binmap s av k &w u32 (Z.lnot (2 ^ d))]> (st_mem s) in
  heap_ok (with_mem m' s) av b0 l T L /\ keeps_data b0 l (st_mem s) m' /\ forall i x, valid_bin i -> x ∈ L i -> head m' x = head (st_mem s) x.
Proof.
  intros Hok Hk Hd H2 Hnil m'. destruct (heap_facts _ _ _ _ _ _ Hok) as (_ & Hg & _). pose proof (hk_bins _ _ _ _ _ _ Hok) as Hb.
  destruct (clear_bit (binmap s av k) d) as [Hv He]; [by apply (bo_map _ _ _ _ _ Hb)|lia|].
  assert (forall c, not_map av c -> ld m' c = ld (st_mem s) c) as Hc by (intros c Hc; apply ld_insert_ne; intros E; by apply (Hc k)). split_and!.
  - apply (heap_rebin s m' av b0 l T L L Hok); [|by intros; apply Hc|done]. apply (bins_unmark _ _ _ _ _ k d); try done.
    intros e He' Hne. rewrite He by lia. rewrite (proj2 (Z.eqb_neq d e)) by done. apply andb_true_r.
  - intros c Hcd. apply Hc, (heap_outside s av b0 l T L 1 []); [done|done|intros y Hy; by apply elem_of_nil in Hy|done].
  - intros i x Hi Hx. apply Hc, (chunk_not_map _ _ _ Hg); [by apply (bo_in _ _ _ _ _ Hb i)|unfold off_size; lia].
Qed.

Lemma served_size s s' av b0 l T L nb z p : heap_ok s av b0 l T L -> served s s' av b0 l T nb (Some z) p -> 32 <= z.
Proof.
  intros Hok (_ & _ & off & l' & T' & L' & _ & Ham & _). destruct (heap_facts _ _ _ _ _ _ Hok) as (Hs & _). unfold sized in Hs. rewrite list.Forall_forall in Hs.
  inversion Ham; subst; destruct (Hs (mkBlock z false)); (done || in_auto).
Qed.

(** The scan serves the request from the first bin that is not empty, with a
    smallest chunk of it, or finds all bins empty; the lists stay as they are. *)
Lemma scan_bins_heap av b0 l T L nb bytes :
  good_size nb -> forall fuel s k n, heap_ok s av b0 l T L -> 0 <= k < BINMAPSIZE -> 0 <= n <= 32 -> bin_index nb < 32 * k + n ->
  empty_below nb L (32 * k + n) -> NBINS - (32 * k + n) < Z.of_nat fuel ->
  (exists p s' z, scan_bins fuel av nb bytes (bin_at av (32 * k + n)) k (binmap s av k) (bit_at n) s = Ok (Some p) s'
     /\ served s s' av b0 l T nb (Some z) p /\ bin_index nb < bin_index z /\ empty_below nb L (bin_index z)
     /\ forall y, y ∈ L (bin_index z) -> z < head (st_mem s) y)
  \/ exists s', scan_bins fuel av nb bytes (bin_at av (32 * k + n)) k (binmap s av k) (bit_at n) s = Ok None s'
     /\ heap_ok s' av b0 l T L /\ empty_below nb L NBINS /\ st_gl s' = st_gl s
     /\ keeps_data b0 l (st_mem s) (st_mem s').
Proof.
  intros Hnb. pose proof Hnb as [_ Hnr]. pose proof (bin_index_bounds nb ltac:(lia)) as Hib. induction fuel as [|f IH]; intros s k n Hok Hk Hn Hlt He Hf;
    [change BINMAPSIZE with 4 in Hk; unfold NBINS in Hf; lia|].
  pose proof (scan_start s av b0 l T L nb k n Hok Hk Hn ltac:(lia) He) as Hst. cbn [scan_bins]. mexec. cbv zeta in Hst |- *.
  destruct (if (binmap s av k <? bit_at n) || (bit_at n =? 0) then _ else _) as [[[[bin block] map] bit]|]; [|right; by exists s].
  destruct Hst as (n' & -> & -> & -> & Hk' & Hn' & Hmap & Hpos & He').
  assert (NBINS - (32 * block + n') < Z.of_nat (S f) /\ bin_index nb < 32 * block + n') as [Hf' Hlt'] by lia. clear k n Hk Hn Hlt He Hf Hpos.
  destruct (advance_run 33 s (bin_at av (32 * block + n')) n' (binmap s av block) Hn' Hmap ltac:(lia)) as (c & Hc & Hbit & Hlow & ->).
  replace (bin_at av (32 * block + n') + 16 * (c - n')) with (bin_at av (32 * block + c)) by (rewrite !bin_at_eq; lia).
  assert (empty_below nb L (32 * block + c)) as Hc0 by (apply (empty_bits s av b0 l T L nb block n' c Hok); (done || lia)).
  pose proof Hk' as Hk4. change BINMAPSIZE with 4 in Hk4. assert (2 <= 32 * block + c < NBINS) as Hi by (unfold NBINS; lia).
  assert (valid_bin (32 * block + c)) as Vi by (unfold valid_bin; lia). destruct (L (32 * block + c)) as [|x l0 _] eqn:El using rev_ind.
  - assert (last s (bin_at av (32 * block + c)) = bin_at av (32 * block + c)) as ->.
    { destruct (bo_list _ _ _ _ _ (hk_bins _ _ _ _ _ _ Hok) _ Vi) as (Hch & _). rewrite El in Hch. apply Hch. }
    rewrite Z.eqb_refl. unfold set_binmap. mexec. destruct (heap_unmark s av b0 l T L block c Hok Hk' ltac:(lia) ltac:(lia) El) as (Hok' & Hkd & Hh).
    set (m' := <[_ := _]> _) in *. assert (binmap (with_mem m' s) av block = binmap s av block &w u32 (Z.lnot (2 ^ c))) as Em by apply ld_insert_eq.
    assert (u32 (Z.shiftl (2 ^ c) 1) = bit_at (c + 1)) as ->.
    { rewrite shift_bit by lia. unfold bit_at. destruct (Z.eqb_spec c 31) as [->|]; [done|]. by rewrite (proj2 (Z.eqb_neq (c + 1) 32)) by lia. }
    replace (next_bin (bin_at av (32 * block + c))) with (bin_at av (32 * block + (c + 1))) by (unfold next_bin; rewrite !bin_at_eq; change (Z.shiftl 8 1) with 16; lia).
    change (upd_mem _ s) with (with_mem m' s). rewrite <- Em.
    destruct (IH (with_mem m' s) block (c + 1) Hok' Hk' ltac:(lia) ltac:(lia)) as [(p & s' & z & Hr & Hs & Hz & Hze & Hmin)|(s' & Hr & Hs & HeN & Hgl & Hk2)]; [|lia| |].
    + intros j Hj. destruct (decide (j = 32 * block + c)) as [->|]; [done|apply Hc0; lia].
    + left. exists p, s', z. split_and!; try done; [by apply (served_from (with_mem m' s))|]. intros y Hy. rewrite <- (Hh (bin_index z) y); [by apply Hmin| |done].
      pose proof (bin_index_bounds z (served_size _ _ _ _ _ _ _ _ _ _ Hok' Hs)). unfold valid_bin, NBINS. lia.
    + right. exists s'. split_and!; try done. by apply (keeps_trans b0 l _ m').
  - destruct (last_of_bin s av b0 l T L _ l0 x Hok Hi El) as (-> & Hxb & Hmin). rewrite (proj2 (Z.eqb_neq _ _) Hxb).
    destruct (bin_block _ _ _ _ _ _ _ x Hok Vi) as (_ & z & _ & _ & _ & Hhz & Hcz & _ & Hz & _ & _ & Hzi); [rewrite El; in_auto|]. specialize (Hzi ltac:(lia)).
    assert (nb <= z) as Hle by (apply Z.nlt_ge; intros Hzn; pose proof (bin_index_mono_aux z nb ltac:(lia)); lia).
    destruct (unlink_take s av b0 l T L _ x nb bytes (in_smallbin_range nb) "malloc(): corrupted unsorted chunks 2" Hok Vi) as (p & s' & Hrun & Hs');
      [rewrite El; in_auto|done|lia|].
    left. exists p, s', z. rewrite Hcz in Hrun, Hs'. split_and!.
    + unfold assert_. rewrite Hcz, (proj2 (Z.leb_le nb z)) by done. exact Hrun.
    + done.
    + lia.
    + by rewrite Hzi.
    + rewrite Hzi. intros y Hy. pose proof (Hmin y Hy). lia.
Qed.

(** ** All stages *)

Lemma request_good bytes nb : 0 <= bytes -> checked_request2size bytes = Some nb -> good_size nb /\ nb + 32 < 18446744073709551616.
Proof.
  intros H0 H. apply checked_request2size_some in H as [H ->]; [|done]. rewrite request2size_eq by lia. unfold good_size.
  split; [split|]; zlia.
Qed.

(** No chunk of the fast bins is in the way. *)
Lemma int_malloc_fast_none s av nb bytes : no_fast s av -> 32 <= nb -> get_max_fast s <= 160 -> int_malloc_fast av nb bytes s = Ok None s.
Proof.
  intros [_ Hf] Hnb Hmax. unfold int_malloc_fast. mexec. destruct (Z.leb_spec nb (get_max_fast s)) as [Hle|]; [|done].
  rewrite Hf; [done|]. rewrite fastbin_index_eq, NFASTBINS_10 by lia. zlia.
Qed.

(** A chunk that every fitting chunk of the bins is at least as large as is a
    best fit. *)
Lemma best_of_bins s av b0 l T L nb c :
  heap_ok s av b0 l T L -> L 1 = [] -> 32 <= nb ->
  (forall i x, bin_index nb <= i < NBINS -> x ∈ L i -> bin_index (head (st_mem s) x - 1) = i -> nb < head (st_mem s) x ->
    exists z, c = Some z /\ z < head (st_mem s) x) ->
  best_fit nb l c.
Proof.
  intros Hok H1 Hnb Hc b Hb Hu Hle. destruct (block_bin _ _ _ _ _ _ b Hok Hb Hu) as (i & x & Hi & Hx & Hh & H32 & _ & Hidx).
  assert (2 <= i) as H2. { unfold valid_bin in Hi. destruct (decide (i = 1)) as [->|]; [|lia]. rewrite H1 in Hx. by apply elem_of_nil in Hx. }
  specialize (Hidx H2). unfold valid_bin in Hi. pose proof (bin_index_mono_aux nb (bsize b) ltac:(lia)).
  destruct (Hc i x ltac:(lia) Hx) as (z & -> & Hz); [rewrite Hh; replace (bsize b + 1 - 1) with (bsize b) by lia; done|lia|]. exists z. split; [done|lia].
Qed.

(** A chunk of a lower bin is smaller. *)
Lemma lower_bin x y : 0 <= y -> bin_index x < bin_index y -> x < y.
Proof. intros Hy H. apply Z.nle_gt. intros Hle. pose proof (bin_index_mono_aux y x ltac:(lia)). lia. Qed.

Lemma top_split_data s av b0 l T L nb : heap_ok s av b0 l T L -> 0 <= nb -> keeps_data b0 l (st_mem s) (top_split s av nb).
Proof.
  intros Hok Hnb c Hd. destruct (heap_facts _ _ _ _ _ _ Hok) as (Hs & _ & _ & HT & _ & _ & _ & Hsep). pose proof (data_range _ _ _ Hs Hd).
  destruct (hk_top _ _ _ _ _ _ Hok) as (Htop & _). unfold top_split, off_top. rewrite Htop. by rewrite !ld_insert_ne by lia.
Qed.

(** What a turn of the outer loop may rely on: the top chunk is large enough,
    or there is a free block and the unsorted list is not too long to find it. *)
Definition room (nb : Z) (l : list block) (T : Z) L : Prop :=
  nb + 32 <= T \/ Z.of_nat (length (L 1)) <= MAX_ITERS /\ exists b, b ∈ l /\ bused b = false /\ nb <= bsize b.

(** The stages after the unsorted list. *)
Lemma bins_serve fuel s av b0 l T L nb bytes :
  heap_ok s av b0 l T L -> good_size nb -> (length l < fuel)%nat -> NBINS < Z.of_nat fuel -> own_bin_empty nb L ->
  (exists p s' z, int_malloc_large fuel av nb bytes (request_index nb) s = Ok (Some p) s' /\ served s s' av b0 l T nb (Some z) p
     /\ (L 1 = [] -> best_fit nb l (Some z)))
  \/ int_malloc_large fuel av nb bytes (request_index nb) s = Ok None s /\ let idx := request_index nb + 1 in
     let scan := scan_bins fuel av nb bytes (bin_at av idx) (idx2block idx) (binmap s av (idx2block idx)) (idx2bit idx) s in
     ((exists p s' z, scan = Ok (Some p) s' /\ served s s' av b0 l T nb (Some z) p /\ (L 1 = [] -> best_fit nb l (Some z)))
      \/ exists s', scan = Ok None s' /\ heap_ok s' av b0 l T L /\ st_gl s' = st_gl s /\ keeps_data b0 l (st_mem s) (st_mem s') /\ (L 1 = [] -> best_fit nb l None)).
Proof.
  intros Hok Hnb Hfu Hfs Hown. pose proof Hnb as [Hnm Hnr]. pose proof (bin_index_bounds nb ltac:(lia)) as Hib.
  destruct (int_malloc_large_heap fuel s av b0 l T L nb bytes Hok Hnb Hfu) as [(p & s' & z & Hrun & Hs & Hz & Hzi & Hmin)|[Hrun Hnone]].
  - left. exists p, s', z. split_and!; [done|done|]. intros H1. apply (best_of_bins s av b0 l T L); [done|done|lia|].
    intros i x Hi Hx Hxi Hlt. exists z. split; [done|]. destruct (decide (i = bin_index nb)) as [->|Hne]; [by apply Hmin|].
    pose proof (lower_bin z (head (st_mem s) x - 1) ltac:(lia) ltac:(lia)). lia.
  - right. split; [done|]. cbv zeta. change (request_index nb) with (bin_index nb). set (i := bin_index nb + 1).
    assert (forall x, x ∈ L (bin_index nb) -> head (st_mem s) x <= nb) as Hself.
    { destruct (Z_lt_ge_dec nb 1024) as [Hlt|Hge]; [|apply Hnone; lia]. rewrite (Hown Hlt). intros x Hx. by apply elem_of_nil in Hx. }
    assert (idx2block i = i / 32) as -> by (unfold idx2block; rewrite Z.shiftr_div_pow2 by done; done).
    rewrite idx2bit_eq by (unfold i, NBINS; lia). assert (0 <= i / 32 < BINMAPSIZE /\ 0 <= i mod 32 < 32) as [Hq Hr] by (change BINMAPSIZE with 4; zlia).
    assert (i = 32 * (i / 32) + i mod 32) as Ei by zlia. assert (2 ^ (i mod 32) = bit_at (i mod 32)) as -> by (unfold bit_at; by rewrite (proj2 (Z.eqb_neq _ 32)) by lia).
    replace (bin_at av i) with (bin_at av (32 * (i / 32) + i mod 32)) by (by rewrite <- Ei).
    destruct (scan_bins_heap av b0 l T L nb bytes Hnb fuel s (i / 32) (i mod 32) Hok Hq ltac:(lia)) as [(p & s' & z & Hscan & Hs & Hz & Hze & Hmin)|(s' & Hscan & Hok' & He & Hgl & Hkd)].
    + lia.
    + intros j Hj. lia.
    + lia.
    + left. exists p, s', z. split_and!; [done|done|]. intros H1. apply (best_of_bins s av b0 l T L); [done|done|lia|].
      intros j x Hj Hx Hxi Hlt. exists z. split; [done|]. destruct (decide (j = bin_index nb)) as [->|Hne]; [pose proof (Hself x Hx); lia|].
      destruct (Z_lt_ge_dec j (bin_index z)) as [Hjz|Hge]; [rewrite Hze in Hx by lia; by apply elem_of_nil in Hx|].
      destruct (decide (j = bin_index z)) as [->|]; [by apply Hmin|]. pose proof (lower_bin z (head (st_mem s) x - 1) ltac:(lia) ltac:(lia)). lia.
    + right. exists s'. split_and!; [done|done|done|done|]. intros H1. apply (best_of_bins s av b0 l T L); [done|done|lia|].
      intros j x Hj Hx Hxi Hlt. exfalso. destruct (decide (j = bin_index nb)) as [->|Hne]; [pose proof (Hself x Hx); lia|].
      rewrite He in Hx by lia. by apply elem_of_nil in Hx.
Qed.

Lemma int_malloc_loop_heap fuel turns s av b0 l T L nb bytes :
  heap_ok s av b0 l T L -> good_size nb -> nb + 32 < 18446744073709551616 -> (length l < fuel)%nat -> NBINS < Z.of_nat fuel ->
  own_bin_empty nb L -> room nb l T L ->
  exists p s' c, int_malloc_loop fuel (S turns) av nb bytes s = Ok p s' /\ served s s' av b0 l T nb c p
    /\ (Z.of_nat (length (L 1)) <= MAX_ITERS -> best_fit nb l c \/ nb < 1024 /\ p = chunk2mem (last_remainder s av)).
Proof.
  intros Hok Hnb Hnb32 Hfu Hfs Hown Hroom. cbn [int_malloc_loop]. unfold bind at 1.
  destruct (unsorted_loop_heap fuel (Z.to_nat MAX_ITERS) av b0 l T nb bytes Hnb Hnb32 Hfu s L Hok Hown)
    as [(p & s1 & z & -> & Hs & Hz)|(s1 & L1 & -> & Hok1 & Hown1 & Hgl1 & Hk1 & Hnil)].
  { exists p, s1, (Some z). split_and!; [done|done|]. intros _. destruct Hz as [->|Hz]; [left|by right]. intros b _ _ Hle. exists nb. done. }
  assert (Z.of_nat (length (L 1)) <= MAX_ITERS -> L1 1 = []) as Hnil' by (intros; apply Hnil; lia). unfold bind at 1.
  destruct (bins_serve fuel s1 av b0 l T L1 nb bytes Hok1 Hnb Hfu Hfs Hown1) as [(p & s' & z & -> & Hs & Hbest)|[-> Hscan]].
  { exists p, s', (Some z). split_and!; [done|by apply (served_from s1)|]. intros Hlen. left. auto. }
  mexec. cbv zeta in Hscan. destruct Hscan as [(p & s' & z & -> & Hs & Hbest)|(s2 & -> & Hok2 & Hgl2 & Hk2 & Hbest)].
  { exists p, s', (Some z). split_and!; [done|by apply (served_from s1)|]. intros Hlen. left. auto. }
  assert (nb + 32 <= T) as HT.
  { destruct Hroom as [?|(Hlen & b & Hb & Hu & Hle)]; [done|]. destruct (Hbest (Hnil' Hlen) b Hb Hu Hle) as (z & Hz & _). done. }
  rewrite (top_split_run s2 av b0 l T L1 nb bytes Hok2 Hnb HT). pose proof (top_split_ok _ _ _ _ _ _ _ Hok2 Hnb HT) as Hok3.
  exists (chunk2mem (b0 + total l)), (with_mem (top_split s2 av nb) s2), None. split_and!; [done| |intros Hlen; left; auto].
  split; [by rewrite <- Hgl1, <- Hgl2|]. split; [apply (keeps_trans _ _ _ (st_mem s1)), (keeps_trans _ _ _ (st_mem s2)); [done|done|apply (top_split_data s2 av b0 l T L1); [done|destruct Hnb; lia]]|].
  exists (total l), (abs_malloc_top nb l T).1, (abs_malloc_top nb l T).2, L1. split_and!; [done|constructor|done].
Qed.

Lemma int_malloc_heap fuel s av b0 l T L bytes nb :
  heap_ok s av b0 l T L -> 0 <= bytes -> checked_request2size bytes = Some nb -> get_max_fast s <= MAX_FAST_SIZE ->
  room nb l T L -> (length l < fuel)%nat -> NBINS < Z.of_nat fuel ->
  exists p s' c, _int_malloc fuel av bytes s = Ok p s' /\ served s s' av b0 l T nb c p
    /\ (Z.of_nat (length (L 1)) <= MAX_ITERS -> best_fit nb l c \/ nb < 1024 /\ p = chunk2mem (last_remainder s av)).
Proof.
  intros Hok H0 Hreq Hmax Hroom Hfu Hfs. destruct (request_good _ _ H0 Hreq) as [Hnb Hnb32]. pose proof Hnb as [_ Hnr].
  destruct (hk_main _ _ _ _ _ _ Hok) as [_ Hav]. unfold _int_malloc. rewrite Hreq, (proj2 (Z.eqb_neq av 0)) by lia. unfold bind at 1.
  rewrite int_malloc_fast_none by (apply Hok || exact Hmax || lia). unfold bind at 1.
  destruct (int_malloc_small_heap fuel s av b0 l T L nb bytes Hok Hnb) as [[-> Hown]|(p & m' & -> & Hs)].
  - by apply (int_malloc_loop_heap fuel 2 s av b0 l T L).
  - exists p, (with_mem m' s), (Some nb). split_and!; [done|done|]. intros _. left. intros b _ _ Hle. by exists nb.
Qed.

(** C2: allocation refines the abstract heap.  On any heap of the main arena
    (a row of blocks, free ones in the unsorted list, the small bins and the
    sorted large bins with their lists of sizes, then the top chunk) on which
    the request can be served, [_int_malloc] returns the memory of one block:
    a whole free block less than 32 bytes larger than the request, the front
    of a larger free block whose rest becomes a free block, or the front of
    the top chunk; every other block and every structure of the heap is as
    the abstract allocation says, and nothing is written into the memory of a
    block in use.  If the unsorted list has at most
    [MAX_ITERS] chunks, no smaller free block would have done and the top
    chunk is the last resort, but for the small requests that are split off
    the last remainder. *)
Theorem int_malloc_refines fuel s av b0 l T L bytes nb :
  heap_ok s av b0 l T L -> 0 <= bytes -> checked_request2size bytes = Some nb -> get_max_fast s <= MAX_FAST_SIZE ->
  room nb l T L -> (length l < fuel)%nat -> NBINS < Z.of_nat fuel ->
  exists s' c off l' T' L', _int_malloc fuel av bytes s = Ok (chunk2mem (b0 + off)) s'
    /\ abs_malloc nb l T c off l' T' /\ heap_ok s' av b0 l' T' L' /\ keeps_data b0 l (st_mem s) (st_mem s')
    /\ (Z.of_nat (length (L 1)) <= MAX_ITERS -> best_fit nb l c \/ nb < 1024 /\ chunk2mem (b0 + off) = chunk2mem (last_remainder s av)).
Proof.
  intros Hok H0 Hreq Hmax Hroom Hfu Hfs.
  destruct (int_malloc_heap fuel s av b0 l T L bytes nb) as (p & s' & c & Hrun & (_ & Hkd & off & l' & T' & L' & -> & Ham & Hok') & Hbest); try done.
  by exists s', c, off, l', T', L'.
Qed.

(** ** Allocation and freeing *)

(** The neighbours of a free block are in use. *)
Lemma row_neighbours pv pre z post :
  row_ok pv (pre ++ mkBlock z false :: post) -> take_free_last pre = (pre, 0) /\ take_free_head post = (post, 0) /\ post <> [].
Proof.
  revert pv. induction pre as [|b pre IH]; intros pv Hr; cbn [app row_ok] in Hr.
  - destruct Hr as (_ & _ & _ & Hr). split; [done|]. destruct post as [|b post]; [done|]. destruct Hr as (_ & _ & Hu & _). cbn. destruct (bused b); [done|]. by specialize (Hu eq_refl).
  - destruct Hr as (_ & _ & _ & Hr). destruct (IH _ Hr) as (Hp & Hn & Hne). split; [|done]. destruct pre as [|c pre _] using rev_ind.
    + destruct Hr as (_ & _ & Hu & _). specialize (Hu eq_refl). unfold take_free_last. cbn. by rewrite Hu.
    + rewrite app_comm_cons, take_free_last_snoc. rewrite take_free_last_snoc in Hp. destruct (bused c); [done|]. exfalso. apply (f_equal (length ∘ fst)) in Hp.
      cbn in Hp. rewrite length_app in Hp. cbn in Hp. lia.
Qed.

(** Freeing undoes every allocation. *)
Lemma abs_malloc_free nb l T c off l' T' :
  row_ok true l -> abs_malloc nb l T c off l' T' ->
  exists pre z post, l' = pre ++ mkBlock z true :: post /\ off = total pre /\ nb <= z /\ abs_free pre z post T' = (l, T).
Proof.
  intros Hr [pre z post -> Hz|pre z post -> Hz|].
  - destruct (row_neighbours _ _ _ _ Hr) as (Hp & Hn & Hne). exists pre, z, post. split_and!; [done|done|lia|]. unfold abs_free. rewrite Hp, Hn.
    destruct post; [done|]. by rewrite Z.add_0_r.
  - destruct (row_neighbours _ _ _ _ Hr) as (Hp & _). exists pre, nb, (mkBlock (z - nb) false :: post). split_and!; [done|done|lia|].
    unfold abs_free. rewrite Hp. cbn [take_free_head bused bsize]. by replace (0 + nb + (z - nb)) with z by lia.
  - exists l, nb, []. split_and!; [done|done|lia|]. rewrite row_end by done. cbn [abs_malloc_top snd]. f_equal. lia.
Qed.

(** C10: freeing undoes an allocation.  On any heap on which the request can be
    served, the chunk that [_int_malloc] hands out can be freed if it is not of
    fastbin size, and [_int_free] restores the abstract heap: the same row of
    blocks in use and free, and the same top chunk, wherever the chunk came
    from; the memory of the blocks in use is as it was. *)
Theorem malloc_free_roundtrip fuel s av b0 l T L bytes nb :
  heap_ok s av b0 l T L -> 0 <= bytes -> checked_request2size bytes = Some nb -> get_max_fast s <= MAX_FAST_SIZE -> get_max_fast s < nb ->
  room nb l T L -> (length l < fuel)%nat -> NBINS < Z.of_nat fuel ->
  exists s1 q, _int_malloc fuel av bytes s = Ok (chunk2mem q) s1
    /\ exists s2 L2, _int_free fuel av q true s1 = Ok tt s2 /\ heap_ok s2 av b0 l T L2 /\ keeps_data b0 l (st_mem s) (st_mem s2).
Proof.
  intros Hok H0 Hreq Hmax Hslow Hroom Hfu Hfs. destruct (int_malloc_heap fuel s av b0 l T L bytes nb) as (p & s1 & c & Hrun & (Hgl & Hk1 & off & l' & T' & L' & -> & Ham & Hok1) & _); try done.
  exists s1, (b0 + off). split; [done|]. destruct (abs_malloc_free nb l T c off l' T') as (pre & z & post & -> & -> & Hz & Hfree); [by eapply seg_row, (hk_row _ _ _ _ _ _ Hok)|done|].
  destruct (int_free_heap fuel _ _ _ _ _ _ _ _ Hok1) as (s2 & L2 & Hrun2 & Hok2 & _ & Hk2); [unfold get_max_fast in *; rewrite Hgl; lia|].
  rewrite Hfree in Hok2, Hk2. exists s2, L2. split_and!; [done|done|]. by apply (keeps_trans _ _ _ (st_mem s1)).
Qed.

End Scan.

(** A request of 40 bytes splits the free chunk of 96 bytes. *)
Lemma int_malloc_refines_witness :
  exists s' L', _int_malloc 129 4096 40 small_heap = Ok (chunk2mem 16640) s'
    /\ heap_ok s' 4096 16384 [mkBlock 256 true; mkBlock 48 true; mkBlock 48 false; mkBlock 1024 true] 65536 L'.
Proof.
  destruct (int_malloc_refines 129 small_heap 4096 16384 ([] ++ mkBlock 256 true :: [mkBlock 96 false; mkBlock 1024 true]) 65536 small_bins 40 48)
    as (s' & c & off & l' & T' & L' & Hrun & Ham & Hok & _ & Hbest); [exact small_heap_ok|lia|reflexivity|vm_compute; discriminate|left; lia|cbn; lia|unfold NBINS; lia|].
  assert (last_remainder small_heap 4096 = 0) as E0 by (vm_compute; reflexivity). rewrite E0 in Hbest. specialize (Hbest ltac:(vm_compute; discriminate)).
  assert (off = 256 /\ l' = [mkBlock 256 true; mkBlock 48 true; mkBlock 48 false; mkBlock 1024 true] /\ T' = 65536) as (-> & -> & ->);
    [|exists s', L'; split; [exact Hrun|exact Hok]].
  clear Hrun Hok E0. destruct Hbest as [Hb|[_ Hlr]].
  - destruct (Hb (mkBlock 96 false)) as (z & -> & _); [in_auto|done|cbn; lia|].
    inversion Ham as [pre z' post E Hz|pre z' post E Hz|]; subst; destruct pre as [|? [|? [|? [|? ?]]]]; simplify_eq/=; [lia|done].
  - exfalso. inversion Ham as [pre z' post E Hz|pre z' post E Hz|]; subst; [destruct pre as [|? [|? [|? [|? ?]]]]; simplify_eq/=..|]; try lia; by vm_compute in Hlr.
Defined.

(** A chunk of 512 bytes is split off the top chunk and comes back. *)
Lemma malloc_free_roundtrip_witness :
  exists s1 q s2 L2, _int_malloc 129 4096 500 small_heap = Ok (chunk2mem q) s1 /\ _int_free 129 4096 q true s1 = Ok tt s2
    /\ heap_ok s2 4096 16384 [mkBlock 256 true; mkBlock 96 false; mkBlock 1024 true] 65536 L2.
Proof.
  destruct (malloc_free_roundtrip 129 small_heap 4096 16384 ([] ++ mkBlock 256 true :: [mkBlock 96 false; mkBlock 1024 true]) 65536 small_bins 500 512)
    as (s1 & q & H1 & s2 & L2 & H2 & H3 & _); [exact small_heap_ok|lia|reflexivity|vm_compute; discriminate|reflexivity|left; lia|cbn; lia|unfold NBINS; lia|].
  exists s1, q, s2, L2. split; [exact H1|]. split; [exact H2|exact H3].
Defined.
