(* ===== verification/HeapClient.v ===== *)
(** * Clients of the allocator

    Any sequence of calls of [_int_malloc] and [_int_free] on a heap of the
    main arena ([src/libipc/malloc/malloc.c]), by a client that frees only what
    it got: all calls succeed as long as the top chunk could serve every
    request, and the memory a client holds at the end is its own. *)

From S2P Require Import Prelude MallocState MallocCore MallocInt SizeFacts ListFacts Rings LargeBin Bins BinProps InitProps FastProps FreeProps HeapSpec HeapProps MallocProps MallocScan.

(** ** Clients *)

(** A block held: its address, the size that was asked for, and the words the
    client has stored in it, by offset. *)
Record held := mkHeld { h_ptr : Z; h_size : Z; h_data : gmap Z Z }.

Inductive client_op :=
| Malloc (bytes : Z)
| Free (n : nat)                 (* the [n]-th of the blocks held *)
| Store (n : nat) (off v : Z).   (* a word inside that block *)

(** A client stores whole words inside what it asked for. *)
Definition in_block (h : held) (off : Z) : bool := (0 <=? off) && (off + 8 <=? h_size h) && (off mod 8 =? 0).

Section Client.
Context `{PS : PageSource}.
Implicit Types (s : state) (l pre post : list block) (L : Z -> list Z) (live : list held).

Fixpoint run_ops (fuel : nat) (av : Z) (ops : list client_op) live : M (list held) :=
  match ops with
  | [] => ret live
  | Malloc bytes :: ops =>
      p <- _int_malloc fuel av bytes ;;
      run_ops fuel av ops (mkHeld p bytes ∅ :: live)
  | Free n :: ops =>
      match live !! n with
      | Some h =>
          _int_free fuel av (mem2chunk (h_ptr h)) true ;;;
          run_ops fuel av ops (delete n live)
      | None => run_ops fuel av ops live
      end
  | Store n off v :: ops =>
      match live !! n with
      | Some h =>
          if in_block h off then
            st (h_ptr h + off) v ;;;
            run_ops fuel av ops (<[n := mkHeld (h_ptr h) (h_size h) (<[off := v]> (h_data h))]> live)
          else run_ops fuel av ops live
      | None => run_ops fuel av ops live
      end
  end.

(** The bytes of the top chunk that a sequence needs at most. *)
Fixpoint demand (ops : list client_op) : Z :=
  match ops with
  | [] => 32
  | Malloc bytes :: ops => request2size bytes + demand ops
  | _ :: ops => demand ops
  end.

(** Every request passes the range check and is above the fastbins. *)
Definition plain_requests (mf : Z) (ops : list client_op) : Prop :=
  forall bytes, Malloc bytes ∈ ops -> 0 <= bytes /\ REQUEST_OUT_OF_RANGE bytes = false /\ mf < request2size bytes.

Lemma demand_32 mf ops : plain_requests mf ops -> 32 <= demand ops.
Proof.
  induction ops as [|o ops IH]; intros H; cbn [demand]; [done|]. assert (32 <= demand ops) as Hd by (apply IH; intros b Hb; apply H; by right).
  destruct o as [b|i|i off v]; [|done|done]. destruct (H b ltac:(left)) as (H0 & Hr & _).
  destruct (request_good b (request2size b)) as [[_ ?] _]; [done|unfold checked_request2size; by rewrite Hr|lia].
Qed.

(** ** The blocks in use *)

(** Blocks in use do not overlap. *)
Lemma useds_apart a l : sized l -> ForallOrdPairs (fun x y => x.1 + x.2 <= y.1) (useds a l).
Proof.
  revert a. induction l as [|b l IH]; intros a Hs; cbn [useds]; [constructor|]. inversion Hs as [|? ? [_ H32] Hs']; subst.
  destruct (bused b); [|by apply IH]. cbn [app]. constructor; [|by apply IH]. rewrite list.Forall_forall. intros [q z] Hq. apply useds_range in Hq; [|done]. cbn. lia.
Qed.

Lemma useds_nodup a l : sized l -> NoDup (useds a l).
Proof.
  intros Hs. revert a. induction l as [|b l IH]; intros a; cbn [useds]; [constructor|]. inversion Hs as [|? ? [_ H32] Hs']; subst.
  destruct (bused b); [|by apply IH]. cbn [app]. constructor; [|by apply IH]. intros Hin. apply useds_range in Hin; [|done]. lia.
Qed.

(** An allocation adds one block in use. *)
Lemma abs_malloc_useds b0 nb l T c off l' T' :
  sized l -> 32 <= nb -> abs_malloc nb l T c off l' T' ->
  exists z, nb <= z /\ useds b0 l' ≡ₚ (b0 + off, z) :: useds b0 l /\ T - nb <= T' /\ total l' + T' = total l + T /\ (length l' <= S (length l))%nat.
Proof.
  intros Hs Hnb [pre z post -> Hz|pre z post -> Hz|].
  - exists z. rewrite !useds_app, !total_app, !length_app. cbn [useds total bsize bused app length]. split_and!; try lia. by rewrite Permutation_middle.
  - exists nb. rewrite !useds_app, !total_app, !length_app. cbn [useds total bsize bused app length].
    replace (b0 + total pre + nb + (z - nb)) with (b0 + total pre + z) by lia. split_and!; try lia. by rewrite Permutation_middle.
  - exists nb. cbn [abs_malloc_top fst snd]. rewrite !useds_app, !total_app, !length_app. cbn [useds total bsize bused app length].
    split_and!; try lia. symmetry. apply Permutation_cons_append.
Qed.

(** Freeing removes it. *)
Lemma take_free_useds a l :
  useds a (take_free_last l).1 = useds a l /\ useds (a + (take_free_head l).2) (take_free_head l).1 = useds a l
  /\ (length (take_free_last l).1 <= length l)%nat /\ (length (take_free_head l).1 <= length l)%nat.
Proof.
  split_and!.
  - destruct l as [|b l _] using rev_ind; [done|]. rewrite take_free_last_snoc. destruct (bused b) eqn:E; [done|]. cbn. rewrite useds_app. cbn [useds]. rewrite E. by rewrite app_nil_r.
  - destruct l as [|b l]; cbn; [done|]. destruct (bused b) eqn:E; cbn; [rewrite E; cbn; by rewrite Z.add_0_r|done].
  - destruct l as [|b l _] using rev_ind; [done|]. rewrite take_free_last_snoc. destruct (bused b); cbn; [done|]. rewrite length_app. lia.
  - destruct l as [|b l]; cbn; [done|]. destruct (bused b); cbn; lia.
Qed.

Lemma abs_free_useds b0 pre z post T :
  let r := abs_free pre z post T in
  0 <= T -> 0 <= z -> sized pre -> useds b0 (pre ++ mkBlock z true :: post) ≡ₚ (b0 + total pre, z) :: useds b0 r.1 /\ T <= r.2 /\ (length r.1 <= S (length pre + length post))%nat.
Proof.
  intros r HT Hz Hs. unfold r, abs_free. destruct (take_free_useds b0 pre) as (Hp & _ & Hl1 & _), (take_free_useds (b0 + total pre + z) post) as (_ & Hn & _ & Hl2).
  destruct (take_free_total pre) as [Hpt _]. pose proof (total_nonneg _ Hs).
  rewrite useds_app. cbn [useds bused bsize app].
  destruct (take_free_last pre) as [pre0 psz] eqn:Ep, (take_free_head post) as [post0 nsz] eqn:En. cbn [fst snd] in *.
  assert (0 <= psz) as Hpz.
  { revert Ep. destruct pre as [|b pre _] using rev_ind; [by intros [= <- <-]|]. rewrite take_free_last_snoc. destruct (bused b); intros [= <- <-]; [done|].
    unfold sized in Hs. rewrite list.Forall_app, list.Forall_singleton in Hs. lia. }
  destruct post as [|b post]; cbn [fst snd].
  - split_and!; [cbn [useds]; rewrite Hp; symmetry; apply Permutation_cons_append|lia|cbn in *; lia].
  - rewrite useds_app. cbn [useds bused bsize app]. replace (b0 + total pre0 + (psz + z + nsz)) with (b0 + total pre + z + nsz) by lia.
    rewrite Hn, Hp. split_and!; [symmetry; apply Permutation_middle|lia|rewrite length_app; cbn in *; lia].
Qed.

(** The blocks that stay in use, and their memory. *)
Lemma abs_free_rest b0 pre z post T :
  0 <= T -> 0 <= z -> sized pre -> useds b0 (abs_free pre z post T).1 ≡ₚ useds b0 pre ++ useds (b0 + total pre + z) post.
Proof.
  intros HT Hz Hs. destruct (abs_free_useds b0 pre z post T HT Hz Hs) as (Hu & _). apply (Permutation_cons_inv (a := (b0 + total pre, z))). rewrite <- Hu.
  rewrite useds_app. cbn [useds bused bsize app]. symmetry. apply Permutation_middle.
Qed.

Lemma abs_free_data b0 pre z post T c :
  0 <= T -> 0 <= z -> sized pre -> data_cell b0 (abs_free pre z post T).1 c <-> data_cell b0 pre c \/ data_cell (b0 + total pre + z) post c.
Proof.
  intros HT Hz Hs. unfold data_cell. setoid_rewrite (abs_free_rest b0 pre z post T HT Hz Hs). setoid_rewrite elem_of_app. naive_solver.
Qed.

(** ** Stores into held memory *)

Lemma heap_store s av b0 l T L c v :
  heap_ok s av b0 l T L -> data_cell b0 l c -> heap_ok (with_mem (<[c := v]> (st_mem s)) s) av b0 l T L.
Proof.
  intros Hok Hd. destruct (heap_facts _ _ _ _ _ _ Hok) as (Hs & _ & Ht & HT & _ & _ & _ & Hsep). pose proof (data_range _ _ _ Hs Hd) as Hr. destruct Hok.
  assert (forall o, field o -> ld (<[c := v]> (st_mem s)) (av + o) = ld (st_mem s) (av + o)) as Ha by (intros o Ho; apply ld_insert_ne; unfold field in Ho; lia).
  split; unfold system_mem, top, word in *; cbn [with_mem upd_mem st_mem st_gl] in *; rewrite ?Ha by (unfold field, off_system_mem, off_top; lia); try done.
  - apply (no_fast_frame s); auto.
  - by apply seg_store.
  - by rewrite ld_insert_ne by lia.
  - generalize hk_bins. apply bins_frame. intros d Hcell. apply ld_insert_ne. intros <-.
    assert (forall i x, valid_bin i -> x ∈ L i -> c <= x \/ x + 48 <= c) as Hx by (intros i x Hi Hx; apply (data_free b0 l); [done|done|apply hk_free; by exists i]).
    inversion Hcell as [i o Hi Ho Ec|i x o Hi Hxi Ho Ec|i x o Hi Hxi _ Ho Ec|k Hk Ec].
    + rewrite bin_at_eq in Ec. unfold valid_bin, NBINS in Hi. lia.
    + pose proof (Hx i x Hi Hxi). lia.
    + pose proof (Hx i x Hi Hxi). lia.
    + rewrite binmap_at_eq in Ec. change BINMAPSIZE with 4 in Hk. lia.
Qed.

(** ** What a client holds *)

(** A block held is the memory of a chunk in use that is large enough, and has
    the words that were stored. *)
Record holds (mf : Z) (m : memory) (h : held) (u : Z * Z) : Prop := {
  ho_ptr : h_ptr h = chunk2mem u.1;
  ho_size : h_size h + 8 <= u.2 /\ mf < u.2;
  ho_data : forall off v, h_data h !! off = Some v -> in_block h off = true /\ ld m (h_ptr h + off) = v }.

Lemma held_chunk s av b0 l T L q z : heap_ok s av b0 l T L -> (q, z) ∈ useds b0 l ->
  chunk2mem q = q + 16 /\ mem2chunk (q + 16) = q /\ b0 <= q /\ q + z <= b0 + total l /\ 32 <= z /\ q mod 16 = 0.
Proof.
  intros Hok Hin. destruct (heap_facts _ _ _ _ _ _ Hok) as (Hs & _ & _ & HT & Hb0 & _ & Hend & _). destruct (hk_base _ _ _ _ _ _ Hok) as (Hb16 & _).
  destruct (useds_range _ _ _ _ Hs Hin) as (H1 & H2 & H3). unfold chunk2mem, mem2chunk. change (2 * SIZE_SZ) with 16. rewrite !u64_small by lia.
  split_and!; try lia. destruct (useds_split _ _ _ _ Hin) as (pre & post & -> & ->). unfold sized in Hs. rewrite list.Forall_app in Hs. destruct (total_nonneg pre (proj1 Hs)). zlia.
Qed.

Lemma held_cell s av b0 l T L mf m h u off :
  heap_ok s av b0 l T L -> u ∈ useds b0 l -> holds mf m h u -> in_block h off = true -> u.1 + 16 <= h_ptr h + off <= u.1 + u.2 /\ data_cell b0 l (h_ptr h + off).
Proof.
  intros Hok Hu [Hp [Hz _] _] Hin. destruct u as [q z]. cbn [fst snd] in *. destruct (held_chunk _ _ _ _ _ _ _ _ Hok Hu) as (E & _).
  unfold in_block in Hin. bool_hyps. assert (q + 16 <= h_ptr h + off <= q + z) as Hc by lia. split; [done|]. by exists q, z.
Qed.

Lemma holds_keep s av b0 l T L mf m m' live us :
  heap_ok s av b0 l T L -> (forall u, u ∈ us -> u ∈ useds b0 l) -> keeps_data b0 l m m' -> Forall2 (holds mf m) live us -> Forall2 (holds mf m') live us.
Proof.
  intros Hok Hus Hk H. induction H as [|h u live us Hh H IH]; [constructor|]. constructor; [|apply IH; intros w Hw; apply Hus; by right].
  destruct Hh as [Hp Hz Hd]. split; [done|done|]. intros off v Hv. destruct (Hd off v Hv) as [Hin <-]. split; [done|]. apply Hk.
  apply (held_cell s av b0 l T L mf m h u); [done|apply Hus; left|done|done].
Qed.

(** The cells of the blocks [fs]. *)
Definition cell_of (fs : list (Z * Z)) (c : Z) : Prop := exists q z, (q, z) ∈ fs /\ q + 16 <= c <= q + z.

(** The blocks [fs] belong to others and have their words of [m0]. *)
Record client_ok (gl : globals) (fs : list (Z * Z)) (m0 : memory) (av b0 E : Z) (n : nat) (T : Z) s live : Prop := {
  co_gl : st_gl s = gl;
  co_others : forall c, cell_of fs c -> ld (st_mem s) c = ld m0 c;
  co_heap : exists l T' L us, heap_ok s av b0 l T' L /\ total l + T' = E /\ T <= T' /\ (length l <= n)%nat
    /\ us ++ fs ⊆+ useds b0 l /\ Forall2 (holds (global_max_fast gl) (st_mem s)) live us }.

Lemma client_more n n' gl fs m0 av b0 E T s live : client_ok gl fs m0 av b0 E n T s live -> (n <= n')%nat -> client_ok gl fs m0 av b0 E n' T s live.
Proof. intros [Hgl Hf (l & T' & L & us & ? & ? & ? & ? & ? & ?)] Hn. split; [done|done|]. exists l, T', L, us. split_and!; (done || lia). Qed.

Lemma client_malloc fuel gl fs m0 av b0 E n T s live bytes nb :
  client_ok gl fs m0 av b0 E n T s live -> global_max_fast gl <= MAX_FAST_SIZE ->
  0 <= bytes -> checked_request2size bytes = Some nb -> global_max_fast gl < nb -> nb + 32 <= T -> (n < fuel)%nat -> NBINS < Z.of_nat fuel ->
  exists p s', _int_malloc fuel av bytes s = Ok p s' /\ client_ok gl fs m0 av b0 E (S n) (T - nb) s' (mkHeld p bytes ∅ :: live).
Proof.
  intros [Hgl Hf (l & T' & L & us & Hok & HE & HT & Hn & Hus & Hlive)] Hmf H0 Hreq Hslow Hfit Hfu Hfs. destruct (heap_facts _ _ _ _ _ _ Hok) as (Hs & _).
  destruct (int_malloc_heap fuel s av b0 l T' L bytes nb) as (p & s' & c & Hrun & (Hgl' & Hkd & off & l' & T2 & L' & -> & Ham & Hok') & _); try done;
    [unfold get_max_fast; by rewrite Hgl|left; lia|lia|].
  destruct (request_good _ _ H0 Hreq) as [[_ Hnb] _]. destruct (abs_malloc_useds b0 nb l T' c off l' T2) as (z & Hz & Hperm & HT2 & Htot & Hlen); [done|lia|done|].
  exists (chunk2mem (b0 + off)), s'. split; [done|]. split; [by rewrite Hgl', Hgl| |].
  { intros c' (a & w & Haw & Hc'). rewrite <- Hf by (by exists a, w). apply Hkd. exists a, w. split; [|done]. eapply elem_of_submseteq; [|exact Hus]. in_auto. }
  exists l', T2, L', ((b0 + off, z) :: us). split_and!; [done|lia|lia|lia| |].
  - rewrite Hperm. by apply submseteq_skip.
  - constructor.
    + split; [done| |done]. cbn. apply checked_request2size_some in Hreq as [Hreq ->]; [|done]. rewrite request2size_eq in * by lia. zlia.
    + apply (holds_keep s av b0 l T' L _ (st_mem s)); try done. intros u Hu. eapply elem_of_submseteq; [|exact Hus]. in_auto.
Qed.

Lemma client_free fuel gl fs m0 av b0 E n T s live i h :
  client_ok gl fs m0 av b0 E n T s live -> live !! i = Some h ->
  exists s', _int_free fuel av (mem2chunk (h_ptr h)) true s = Ok tt s' /\ client_ok gl fs m0 av b0 E n T s' (delete i live).
Proof.
  intros [Hgl Hf (l & T' & L & us & Hok & HE & HT & Hn & Hus & Hlive)] Hi. destruct (heap_facts _ _ _ _ _ _ Hok) as (Hs & _ & _ & HT32 & _).
  destruct (Forall2_lookup_l _ _ _ _ _ Hlive Hi) as ([q z] & Hq & [Hp [Hz Hmf] _]). cbn [fst snd] in Hp, Hz, Hmf.
  pose proof (delete_Permutation us i _ Hq) as Hperm. assert ((q, z) ∈ useds b0 l) as Hin.
  { eapply elem_of_submseteq; [|exact Hus]. rewrite Hperm. cbn [app]. left. }
  destruct (held_chunk _ _ _ _ _ _ _ _ Hok Hin) as (Eq & Eq' & _ & _ & Hz32 & _). rewrite Hp, Eq, Eq'. clear Eq Eq' Hp.
  destruct (useds_split _ _ _ _ Hin) as (pre & post & -> & ->).
  destruct (int_free_heap fuel s av b0 pre z post T' L Hok) as (s' & L' & Hrun & Hok' & Hgl' & Hkd); [unfold get_max_fast; by rewrite Hgl|].
  assert (sized pre) as Hs1 by (unfold sized in *; rewrite list.Forall_app in Hs; apply Hs).
  destruct (abs_free_useds b0 pre z post T' ltac:(lia) ltac:(lia) Hs1) as (Hu & HT2 & Hlen). pose proof (abs_free_total pre z post T') as Htot. cbv zeta in Htot.
  assert (delete i us ++ fs ⊆+ useds b0 (abs_free pre z post T').1) as Hsub.
  { rewrite Hu, Hperm in Hus. by apply (submseteq_app_inv_l _ _ [(b0 + total pre, z)]). }
  exists s'. split; [done|]. split; [congruence| |].
  { intros c' (a & w & Haw & Hc'). rewrite <- Hf by (by exists a, w). apply Hkd. exists a, w. split; [|done]. eapply elem_of_submseteq; [|exact Hsub]. in_auto. }
  eexists _, _, L', (delete i us). split; [exact Hok'|].
  rewrite total_app in HE. cbn [total bsize] in HE. rewrite length_app in Hn. cbn [length] in Hn. split_and!; [lia|lia|lia|done|].
  apply (holds_keep s' av b0 _ _ L' _ (st_mem s) _ _ _ Hok'); [|done|by apply Forall2_delete]. intros u Hu'. eapply elem_of_submseteq; [|exact Hsub]. in_auto.
Qed.

(** Two entries of the blocks in use are the same or do not meet. *)
Lemma useds_meet b0 l x y : sized l -> x ∈ useds b0 l -> y ∈ useds b0 l -> x = y \/ x.1 + x.2 <= y.1 \/ y.1 + y.2 <= x.1.
Proof. intros Hs Hx Hy. apply (ForallOrdPairs_In (useds_apart b0 l Hs)); by apply list_elem_of_In. Qed.

Lemma sub_nodup b0 l us fs : sized l -> us ++ fs ⊆+ useds b0 l -> NoDup us /\ (forall u, u ∈ us -> u ∉ fs) /\ forall u, u ∈ us \/ u ∈ fs -> u ∈ useds b0 l.
Proof.
  intros Hs Hus. pose proof (useds_nodup b0 l Hs) as Hnd. pose proof Hus as (k' & Hk')%submseteq_Permutation. rewrite Hk' in Hnd.
  apply list.NoDup_app in Hnd as (Hnd & _). apply list.NoDup_app in Hnd as (H1 & H2 & _). split_and!; [done|done|].
  intros u Hu. eapply elem_of_submseteq; [by apply elem_of_app|done].
Qed.

Lemma client_store gl fs m0 av b0 E n T s live i h off v :
  client_ok gl fs m0 av b0 E n T s live -> live !! i = Some h -> in_block h off = true ->
  client_ok gl fs m0 av b0 E n T (with_mem (<[h_ptr h + off := v]> (st_mem s)) s) (<[i := mkHeld (h_ptr h) (h_size h) (<[off := v]> (h_data h))]> live).
Proof.
  intros [Hgl Hf (l & T' & L & us & Hok & HE & HT & Hn & Hus & Hlive)] Hi Hin. destruct (heap_facts _ _ _ _ _ _ Hok) as (Hs & _).
  destruct (sub_nodup b0 l us fs Hs Hus) as (Hnd & Hdis & Hsub). destruct (Forall2_lookup_l _ _ _ _ _ Hlive Hi) as (u & Hu & Hh).
  assert (forall k w, us !! k = Some w -> w ∈ useds b0 l) as Hget by (intros k w Hw; apply Hsub; left; by eapply list_elem_of_lookup_2).
  destruct (held_cell _ _ _ _ _ _ _ _ _ _ off Hok (Hget i u Hu) Hh Hin) as [Hc Hd]. split; [done| |].
  { intros c' (a & w & Haw & Hc'). rewrite <- Hf by (by exists a, w). apply ld_insert_ne.
    destruct (useds_meet b0 l u (a, w) Hs (Hget i u Hu)) as [E1|Hm]; [by apply Hsub; right| |cbn in Hm; lia].
    destruct (Hdis u); [by eapply list_elem_of_lookup_2|by rewrite E1]. }
  exists l, T', L, us. split_and!; try done; [by apply heap_store|].
  cbn [st_mem with_mem upd_mem]. apply Forall2_same_length_lookup_2; [rewrite length_insert; by eapply Forall2_length|].
  intros j h' w Hj Hw. destruct (decide (j = i)) as [->|Hne].
  - rewrite list_lookup_insert_eq in Hj by (by eapply lookup_lt_Some). injection Hj as <-. assert (w = u) as -> by congruence. destruct Hh as [Hp Hz Hdt].
    split; [done|done|]. cbn [h_data h_ptr]. intros off' v' Hv. destruct (decide (off' = off)) as [->|Hoff].
    + rewrite lookup_insert_eq in Hv. injection Hv as <-. split; [exact Hin|]. apply ld_insert_eq.
    + rewrite lookup_insert_ne in Hv by done. destruct (Hdt off' v' Hv) as [Hin' Hld]. split; [exact Hin'|]. rewrite ld_insert_ne by lia. done.
  - rewrite list_lookup_insert_ne in Hj by done. pose proof (Forall2_lookup_lr _ _ _ _ _ _ Hlive Hj Hw) as Hh'. destruct Hh' as [Hp Hz Hdt].
    split; [done|done|]. intros off' v' Hv. destruct (Hdt off' v' Hv) as [Hin' Hld]. split; [done|].
    destruct (held_cell _ _ _ _ _ _ _ _ _ _ off' Hok (Hget j w Hw) (Build_holds _ _ h' w Hp Hz Hdt) Hin') as [Hc' _].
    rewrite ld_insert_ne; [done|]. destruct (useds_meet b0 l u w Hs (Hget i u Hu) (Hget j w Hw)) as [E1|Hm]; [|lia].
    exfalso. apply Hne. apply (NoDup_lookup us j i w); [done|done|congruence].
Qed.

Lemma run_ops_ok fuel gl fs m0 av b0 E ops :
  global_max_fast gl <= MAX_FAST_SIZE -> NBINS < Z.of_nat fuel -> plain_requests (global_max_fast gl) ops ->
  forall n T s live, client_ok gl fs m0 av b0 E n T s live -> demand ops <= T -> (n + length ops < fuel)%nat ->
  exists live' s', run_ops fuel av ops live s = Ok live' s' /\ client_ok gl fs m0 av b0 E (n + length ops) 32 s' live'.
Proof.
  intros Hmf Hfs. induction ops as [|o ops IH]; intros Hreq n T s live Hok HT Hfu; cbn [run_ops length demand] in *.
  - exists live, s. split; [done|]. destruct Hok as [Hgl Hf (l & T' & L & us & ? & ? & ? & ? & ? & ?)]. split; [done|done|].
    exists l, T', L, us. split_and!; try done; lia.
  - assert (plain_requests (global_max_fast gl) ops) as Hreq' by (intros b Hb; apply Hreq; by right). specialize (IH Hreq').
    replace (n + S (length ops))%nat with (S n + length ops)%nat by lia. destruct o as [bytes|i|i off v].
    + destruct (Hreq bytes ltac:(left)) as (H0 & Hrange & Hslow). pose proof (demand_32 _ _ Hreq') as Hd.
      destruct (client_malloc fuel gl fs m0 av b0 E n T s live bytes (request2size bytes) Hok Hmf H0) as (p & s' & Hrun & Hok');
        [unfold checked_request2size; by rewrite Hrange|done|lia|lia|done|]. mexec. rewrite Hrun.
      apply (IH (S n) (T - request2size bytes)); [done|lia|lia].
    + destruct (live !! i) as [h|] eqn:Ei; [|apply (IH (S n) T); [apply (client_more n); [done|lia]|done|lia]].
      destruct (client_free fuel gl fs m0 av b0 E n T s live i h Hok Ei) as (s' & Hrun & Hok'). mexec. rewrite Hrun.
      apply (IH (S n) T); [apply (client_more n); [done|lia]|done|lia].
    + assert (client_ok gl fs m0 av b0 E (S n) T s live) as Hmore by (apply (client_more n); [done|lia]).
      destruct (live !! i) as [h|] eqn:Ei; [|apply (IH (S n) T); (done || lia)]. destruct (in_block h off) eqn:Eb; [|apply (IH (S n) T); (done || lia)].
      mexec. apply (IH (S n) T); [|done|lia]. by apply client_store.
Qed.

(** What is held is aligned, inside the heap, and meets neither another block
    held nor a block of others; and it has the words that were stored. *)
Definition own_memory (fs : list (Z * Z)) (b0 E : Z) (m : memory) live : Prop :=
  forall i h, live !! i = Some h ->
  h_ptr h mod 16 = 0 /\ b0 + 16 <= h_ptr h /\ h_ptr h + h_size h <= b0 + E
  /\ (forall j k, live !! j = Some k -> i <> j -> h_ptr h + h_size h <= h_ptr k \/ h_ptr k + h_size k <= h_ptr h)
  /\ (forall a z, (a, z) ∈ fs -> h_ptr h + h_size h <= a + 16 \/ a + z + 8 <= h_ptr h)
  /\ forall off v, h_data h !! off = Some v -> ld m (h_ptr h + off) = v.

Lemma client_own gl fs m0 av b0 E n T s live : client_ok gl fs m0 av b0 E n T s live -> own_memory fs b0 E (st_mem s) live.
Proof.
  intros [_ _ (l & T' & L & us & Hok & HE & HT & Hn & Hus & Hlive)] i h Hi. destruct (heap_facts _ _ _ _ _ _ Hok) as (Hs & _ & _ & HT32 & _).
  destruct (sub_nodup b0 l us fs Hs Hus) as (Hnd & Hdis & Hsub).
  assert (forall j k, live !! j = Some k -> exists u, us !! j = Some u /\ u ∈ us /\ u ∈ useds b0 l /\ h_ptr k = u.1 + 16 /\ h_size k + 8 <= u.2
    /\ b0 <= u.1 /\ u.1 + u.2 <= b0 + total l /\ u.1 mod 16 = 0 /\ forall off v, h_data k !! off = Some v -> ld (st_mem s) (h_ptr k + off) = v) as Hget.
  { intros j k Hj. destruct (Forall2_lookup_l _ _ _ _ _ Hlive Hj) as ([a z] & Ha & [Hp [Hz _] Hd]). assert ((a, z) ∈ us) as Hu by (by eapply list_elem_of_lookup_2).
    destruct (held_chunk _ _ _ _ _ _ a z Hok) as (E1 & _ & ? & ? & _ & ?); [by apply Hsub; left|]. exists (a, z). rewrite Hp. cbn [fst snd] in *.
    split_and!; try done; [by apply Hsub; left|]. intros off v Hv. rewrite <- Hp. by apply Hd. }
  destruct (Hget i h Hi) as (u & Hu & Hinu & Hu' & -> & Hz & Ha1 & Ha2 & Ha16 & Hdt). split_and!; [zlia|lia|lia| | |exact Hdt].
  - intros j k Hj Hne. destruct (Hget j k Hj) as (w & Hw & _ & Hw' & -> & Hkz & _). destruct (useds_meet b0 l u w Hs Hu' Hw') as [E1|Hm]; [|lia].
    exfalso. apply Hne. apply (NoDup_lookup us i j u); [done|done|congruence].
  - intros c w Hcw. destruct (useds_meet b0 l u (c, w) Hs Hu') as [E1|Hm]; [by apply Hsub; right| |cbn in Hm; lia]. destruct (Hdis u Hinu). by rewrite E1.
Qed.

(** C1: the memory of a client is its own.  Any sequence of allocations, frees
    and stores of a client that stores only into what it holds runs to its end
    on a heap of the main arena, if every request is above the fastbins and the
    top chunk alone could serve them all: no call fails, aborts or reports
    corruption, and the heap is in order at the end with no memory lost.  The
    blocks held then are 16-byte aligned, lie inside the heap, are pairwise
    disjoint for all the bytes that were asked for, and have exactly the words
    that were stored; the blocks that were in use before are still in use, meet
    none of them and have their contents. *)
Theorem client_memory_own fuel s av b0 l T L ops :
  heap_ok s av b0 l T L -> get_max_fast s <= MAX_FAST_SIZE -> plain_requests (get_max_fast s) ops -> demand ops <= T ->
  (length l + length ops < fuel)%nat -> NBINS < Z.of_nat fuel ->
  exists live s' l' T' L', run_ops fuel av ops [] s = Ok live s' /\ heap_ok s' av b0 l' T' L' /\ total l' + T' = total l + T
    /\ (forall u, u ∈ useds b0 l -> u ∈ useds b0 l') /\ keeps_data b0 l (st_mem s) (st_mem s')
    /\ own_memory (useds b0 l) b0 (total l + T) (st_mem s') live.
Proof.
  intros Hok Hmf Hreq HT Hfu Hfs.
  destruct (run_ops_ok fuel (st_gl s) (useds b0 l) (st_mem s) av b0 (total l + T) ops Hmf Hfs Hreq (length l) T s []) as (live & s' & Hrun & Hc); [|done|done|].
  { split; [done|done|]. exists l, T, L, []. split_and!; try done. }
  pose proof (client_own _ _ _ _ _ _ _ _ _ _ Hc) as Hown. destruct Hc as [_ Hf (l' & T' & L' & us & Hok' & HE & _ & _ & Hus & _)].
  exists live, s', l', T', L'. split_and!; try done. intros u Hu. eapply elem_of_submseteq; [|exact Hus]. apply elem_of_app. by right.
Qed.

End Client.

(** Three requests and two stores; the second block is given back before the
    last request. *)
Lemma client_memory_own_witness :
  exists live s', run_ops 140 4096 [Malloc 200; Store 0 16 7; Malloc 1500; Free 0; Malloc 600; Store 0 592 9] [] small_heap = Ok live s'
    /\ own_memory [(16384, 256); (16736, 1024)] 16384 66912 (st_mem s') live.
Proof.
  destruct (client_memory_own 140 small_heap 4096 16384 ([] ++ mkBlock 256 true :: [mkBlock 96 false; mkBlock 1024 true]) 65536 small_bins
    [Malloc 200; Store 0 16 7; Malloc 1500; Free 0; Malloc 600; Store 0 592 9]) as (live & s' & l' & T' & L' & Hrun & _ & _ & _ & _ & Hown);
    [exact small_heap_ok|vm_compute; discriminate| |vm_compute; discriminate|cbn; lia|unfold NBINS; lia|].
  - intros b Hb. assert (b = 200 \/ b = 1500 \/ b = 600) as [->|[->| ->]] by set_solver; (split; [lia|split; reflexivity]).
  - exists live, s'. split; [exact Hrun|exact Hown].
Defined.
