(* ===== verification/ReallocProps.v ===== *)
(** * Resizing a block

    [_int_shm_realloc] ([src/libipc/malloc/malloc.c]) on any heap of the main
    arena: in place, into the top chunk, into the free chunk that follows, or
    by allocation, copy and free.  Every other block in use stays as it is, and
    the contents move with the block. *)

From S2P Require Import Prelude MallocState MallocCore MallocInt SizeFacts ListFacts Rings LargeBin Bins BinProps InitProps FastProps FreeProps HeapSpec HeapProps MallocProps MallocScan HeapClient.

(** ** Rows of blocks in use *)

Definition all_used (A : list block) : Prop := Forall (fun b => bused b = true) A.

Lemma frees_used a A : all_used A -> frees a A = [].
Proof. intros H. revert a. induction H as [|b A Hb _ IH]; intros a; cbn; [done|]. by rewrite Hb, IH. Qed.

Lemma seg_used_end m a pv A p : all_used A -> A <> [] -> seg m a pv A p -> p = true.
Proof.
  intros HA. revert a pv. induction HA as [|b A Hb HA IH]; intros a pv Hne Hseg; [done|]. destruct Hseg as (_ & _ & _ & _ & Hseg).
  destruct A as [|c A]; [cbn in Hseg; congruence|]. by apply (IH _ _ ltac:(done) Hseg).
Qed.

(** A row is cut in one way at an address. *)
Lemma row_cut l1 r1 l2 r2 : sized (l1 ++ r1) -> l1 ++ r1 = l2 ++ r2 -> total l1 = total l2 -> l1 = l2 /\ r1 = r2.
Proof.
  revert l2. induction l1 as [|b l1 IH]; intros [|c l2] Hs E Ht; cbn [app total] in *.
  - done.
  - rewrite E in Hs. inversion Hs as [|? ? [_ H32] Hs']; subst. unfold sized in *. rewrite list.Forall_app in Hs'. pose proof (total_nonneg l2 (proj1 Hs')). lia.
  - inversion Hs as [|? ? [_ H32] Hs']; subst. unfold sized in *. rewrite list.Forall_app in Hs'. pose proof (total_nonneg l1 (proj1 Hs')). lia.
  - injection E as <- E. inversion Hs as [|? ? _ Hs']; subst. destruct (IH l2 Hs' E ltac:(lia)) as [-> ->]. done.
Qed.

(** ** Copying words *)

Lemma mem_copy_app d a i j m : mem_copy d a (i + j) m = mem_copy (d + 8 * Z.of_nat i) (a + 8 * Z.of_nat i) j (mem_copy d a i m).
Proof.
  revert d a m. induction i as [|i IH]; intros d a m; cbn [mem_copy Nat.add]; [f_equal; lia|]. rewrite IH. f_equal; lia.
Qed.

Lemma mem_copy_frame d a n m c : c < d \/ d + 8 * Z.of_nat n <= c -> ld (mem_copy d a n m) c = ld m c.
Proof.
  revert d a m. induction n as [|n IH]; intros d a m Hc; cbn [mem_copy]; [done|]. rewrite IH by lia. apply ld_insert_ne. lia.
Qed.

Lemma mem_copy_spec d a n m k :
  d + 8 * Z.of_nat n <= a \/ a + 8 * Z.of_nat n <= d -> 0 <= k < Z.of_nat n -> ld (mem_copy d a n m) (d + 8 * k) = ld m (a + 8 * k).
Proof.
  revert d a m k. induction n as [|n IH]; intros d a m k Hd Hk; [lia|]. cbn [mem_copy]. destruct (decide (k = 0)) as [->|Hk0].
  - rewrite mem_copy_frame by lia. replace (d + 8 * 0) with d by lia. rewrite ld_insert_eq. f_equal. lia.
  - replace (d + 8 * k) with (d + 8 + 8 * (k - 1)) by lia. rewrite IH by lia. rewrite ld_insert_ne by lia. f_equal. lia.
Qed.

Section Realloc.
Context `{PS : PageSource}.
Implicit Types (s : state) (l pre post A : list block) (L : Z -> list Z).

(** A region of blocks in use is cut into other blocks in use. *)
Lemma retile s m' av b0 pre A A' post T L :
  let q := b0 + total pre in
  heap_ok s av b0 (pre ++ A ++ post) T L -> all_used A -> all_used A' -> A <> [] -> A' <> [] -> total A' = total A ->
  (forall pv, seg (st_mem s) q pv A true -> seg m' q pv A' true) ->
  (forall c, c < q + 8 \/ q + total A <= c -> ld m' c = ld (st_mem s) c) ->
  heap_ok (with_mem m' s) av b0 (pre ++ A' ++ post) T L.
Proof.
  intros q Hok HA HA' Hne Hne' Ht Hseg Hc. destruct (heap_facts _ _ _ _ _ _ Hok) as (Hs & _ & _ & HT & Hb0 & Hav & Hend & Hsep). destruct Hok.
  pose proof hk_row as Hrow. apply seg_app in Hrow as (p1 & Hpre & Hrest). fold q in Hrest. apply seg_app in Hrest as (p2 & HsA & Hpost).
  assert (p2 = true) as -> by exact (seg_used_end _ _ _ _ _ HA Hne HsA). pose proof (seg_sized _ _ _ _ _ Hpre) as Hs1. pose proof (seg_sized _ _ _ _ _ HsA) as HsA'.
  pose proof (seg_sized _ _ _ _ _ Hpost) as Hs2. pose proof (total_nonneg _ Hs1) as [? _]. pose proof (total_nonneg _ HsA') as [? _]. pose proof (total_nonneg _ Hs2) as [? _].
  assert (32 <= total A) as H32.
  { destruct A as [|b A]; [done|]. inversion HsA' as [|? ? [_ Hb] HA2]; subst. pose proof (total_nonneg _ HA2). cbn. lia. }
  assert (total (pre ++ A' ++ post) = total (pre ++ A ++ post)) as Htot by (rewrite !total_app; lia).
  assert (total (pre ++ A ++ post) = total pre + total A + total post) as Htot' by (rewrite !total_app; lia).
  assert (frees b0 (pre ++ A ++ post) = frees b0 pre ++ frees (q + total A) post) as Hfr by (rewrite !frees_app, (frees_used _ A HA); done).
  assert (frees b0 (pre ++ A' ++ post) = frees b0 pre ++ frees (q + total A) post) as Hfr' by (rewrite !frees_app, (frees_used _ A' HA'), Ht; done).
  assert (forall o, field o -> ld m' (av + o) = ld (st_mem s) (av + o)) as Ha by (intros o Ho; apply Hc; unfold field, q in *; lia).
  split; unfold system_mem, top, word in *; cbn [with_mem upd_mem st_mem st_gl] in *; rewrite ?Htot, ?Ha by (unfold field, off_system_mem, off_top; lia); try done.
  - apply (no_fast_frame s); auto.
  - apply seg_app. exists p1. split; [|apply seg_app; exists true; split; [by apply Hseg|]].
    + revert Hpre. apply seg_frame; [intros x Hx|intros x Hx _|intros _]; apply Hc; try apply (starts_range _ _ _ Hs1) in Hx; unfold q; lia.
    + fold q. rewrite Ht. revert Hpost. apply seg_frame; [intros x Hx|intros x Hx _|done]; apply Hc; apply (starts_range _ _ _ Hs2) in Hx; lia.
  - rewrite Hc by (unfold q; lia). done.
  - assert (forall i x, valid_bin i -> x ∈ L i -> x ∈ frees b0 pre ++ frees (q + total A) post) as Hin.
    { intros i x Hi Hx. rewrite <- Hfr. apply hk_free. by exists i. }
    assert (forall i x, valid_bin i -> x ∈ L i -> x + 32 <= q \/ q + total A <= x) as Hwh.
    { intros i x Hi Hx. pose proof (Hin i x Hi Hx) as [Hf%frees_starts|Hf%frees_starts]%elem_of_app;
        [apply (starts_range _ _ _ Hs1) in Hf|apply (starts_range _ _ _ Hs2) in Hf]; unfold q in *; lia. }
    assert (forall i x, valid_bin i -> x ∈ L i -> x ∈ bigs b0 (pre ++ A ++ post) -> x ∈ bigs b0 pre \/ x ∈ bigs (q + total A) post) as Hbg.
    { intros i x Hi Hx. rewrite !bigs_app, !elem_of_app. fold q. intros [?|[Hx'|?]]; [by left| |by right]. exfalso.
      apply bigs_starts, (starts_range _ _ _ HsA') in Hx'. pose proof (Hwh i x Hi Hx). lia. }
    apply (bins_within _ (starts b0 (pre ++ A ++ post)) (bigs b0 (pre ++ A ++ post))).
    { intros i x Hi Hx. split.
      - apply frees_starts. rewrite Hfr'. by apply (Hin i).
      - intros Hx'. apply (Hbg i x Hi Hx) in Hx'. rewrite !bigs_app, !elem_of_app, Ht. fold q. tauto. }
    generalize hk_bins. apply bins_frame. intros c Hcell. apply Hc. destruct Hcell as [i o Hi Ho|i x o Hi Hx Ho|i x o Hi Hx Hb Ho|k Hk].
    + rewrite bin_at_eq. unfold valid_bin, NBINS in Hi. unfold q in *. lia.
    + pose proof (Hwh i x Hi Hx). lia.
    + destruct (Hbg i x Hi Hx Hb) as [Hb'|Hb']; [destruct (bigs_range _ _ _ Hs1 Hb') as (? & ? & _)|destruct (bigs_range _ _ _ Hs2 Hb') as (? & ? & _)]; unfold q in *; lia.
    + rewrite binmap_at_eq. change BINMAPSIZE with 4 in Hk. unfold q in *. lia.
  - intros x. rewrite Hfr', <- Hfr. apply hk_free.
Qed.

(** ** The end of all cases in place *)

(** [z] bytes at the end of [pre] are in use, [nb] of them are needed. *)
Definition in_place (nb z : Z) (pre post : list block) (T : Z) : list block * Z :=
  if z <? nb + 32 then (pre ++ mkBlock z true :: post, T) else abs_free (pre ++ [mkBlock nb true]) (z - nb) post T.

Definition kept_size (nb z : Z) : Z := if z <? nb + 32 then z else nb.

(** The new size of a header whose flags stay. *)
Lemma head_size b (pv : bool) v : b mod 16 = 0 -> v mod 16 = 0 -> 0 <= v -> (((b + Z.b2z pv) &w SIZE_BITS) |w v) = v + Z.b2z pv.
Proof.
  intros Hb Hv H0. change SIZE_BITS with 7. rewrite land_7, Z.lor_comm. assert (0 <= Z.b2z pv <= 1) by (destruct pv; cbn; lia).
  replace ((b + Z.b2z pv) mod 8) with (Z.b2z pv) by zlia. apply lor_16; (done || lia).
Qed.

Lemma split_run fuel s av b0 pre A post T L nb z :
  let q := b0 + total pre in
  let n := q + z in
  heap_ok (with_mem (<[n + 8 := ld (st_mem s) (n + 8) |w PREV_INUSE]> (st_mem s)) s) av b0 (pre ++ A ++ post) T L ->
  all_used A -> A <> [] -> total A = z -> good_size nb -> nb <= z -> get_max_fast s < 32 ->
  let r := in_place nb z pre post T in
  exists s' L', realloc_split fuel av q z nb s = Ok (chunk2mem q) s' /\ heap_ok s' av b0 r.1 r.2 L' /\ st_gl s' = st_gl s
    /\ keeps_data b0 (pre ++ [mkBlock (kept_size nb z) true]) (st_mem s) (st_mem s') /\ keeps_data n post (st_mem s) (st_mem s').
Proof.
  intros q n. set (mv := <[_ := _]> _). intros Hok HA Hne Ht Hnb Hle Hmf r. pose proof Hnb as [Hnm Hnr].
  destruct (heap_facts _ _ _ _ _ _ Hok) as (Hs & _ & _ & HT & Hb0 & Hav & Hend & Hsep). pose proof (hk_main _ _ _ _ _ _ Hok) as [Hmain _]. cbn [st_gl with_mem upd_mem] in Hmain.
  rewrite !total_app, Ht in Hend, Hsep. unfold sized in Hs. rewrite !list.Forall_app in Hs. destruct Hs as (Hs1 & HsA & Hs2).
  pose proof (total_nonneg _ Hs1) as [? _]. pose proof (total_nonneg _ HsA) as [? HzA]. pose proof (total_nonneg _ Hs2) as [? _]. rewrite Ht in HzA.
  destruct A as [|b A]; [done|]. assert (exists pv, ld (st_mem s) (q + 8) = bsize b + Z.b2z pv /\ bsize b mod 16 = 0) as (pv & Hh & Hbm).
  { pose proof (hk_row _ _ _ _ _ _ Hok) as Hrow. apply seg_app in Hrow as (p1 & _ & Hrow). destruct Hrow as (Hh & Hbm & _). exists p1. split; [|done].
    cbn [st_mem with_mem upd_mem] in Hh. fold q in Hh. unfold mv in Hh. rewrite ld_insert_ne in Hh by (unfold n; lia). exact Hh. }
  unfold realloc_split, assert_. rewrite (proj2 (Z.leb_le nb z)) by done. mexec. rewrite (u64_small (z - nb)), MINSIZE_32 by lia. unfold arena_flag. rewrite <- Hmain, Z.eqb_refl.
  assert (forall A' m', all_used A' -> A' <> [] -> total A' = z -> (forall c, c < q + 8 \/ n <= c -> ld m' c = ld mv c) ->
    seg m' q pv A' true -> heap_ok (with_mem m' s) av b0 (pre ++ A' ++ post) T L) as Htile.
  { intros A' m' HA' Hne' Ht' Hc Hseg. pose proof (retile _ m' av b0 pre (b :: A) A' post T L Hok HA HA' Hne Hne') as Hre. rewrite with_mem_with_mem in Hre. apply Hre; [congruence| |].
    - intros pv' Hs'. assert (pv' = pv) as ->; [|done]. cbn [st_mem with_mem upd_mem] in Hs'. destruct Hs' as (Hh' & _). fold q in Hh'. unfold mv in Hh'.
      rewrite ld_insert_ne in Hh' by (unfold n; lia). rewrite Hh in Hh'. destruct pv, pv'; cbn in Hh'; (done || lia).
    - rewrite Ht. exact Hc. }
  unfold in_place in r. unfold kept_size. destruct (Z.ltb_spec z (nb + 32)) as [Hlt|Hge].
  - rewrite (proj2 (Z.ltb_lt (z - nb) 32)) by lia. unfold set_head_size, set_inuse_bit_at_offset. mexec. rewrite (u64_small (q + z)) by lia. fold n. rewrite Z.lor_0_r.
    set (m2 := <[n + 8 := ld (st_mem s) (n + 8) |w PREV_INUSE]> (<[q + 8 := z + Z.b2z pv]> (st_mem s))).
    assert (forall c, c <> q + 8 -> ld m2 c = ld mv c) as Hc by (intros c Hc; unfold m2, mv; rewrite !ld_insert; repeat case_decide; (done || lia)).
    exists (with_mem m2 s), L. split; [|split; [|split; [done|]]].
    + unfold size_, word, off_size. cbn [st_mem upd_mem]. rewrite (ld_insert_ne _ (q + 8) (n + 8)) by (unfold n; lia). rewrite Hh, head_size by (done || lia). reflexivity.
    + apply (Htile [mkBlock z true]); [by repeat constructor|done|cbn; lia|intros c Hc'; apply Hc; unfold n in *; lia|].
      cbn [seg bsize bused]. split_and!; try done; [|lia]. unfold m2. rewrite ld_insert_ne, ld_insert_eq by (unfold n; lia). done.
    + assert (forall c, c <> q + 8 -> c <> n + 8 -> ld m2 c = ld (st_mem s) c) as Hc2 by (intros c N1 N2; unfold m2; by rewrite !ld_insert_ne).
      cbn [st_mem with_mem upd_mem]. split; intros c Hd.
      * apply data_app in Hd as [Hd|Hd]; [apply (data_range _ _ _ Hs1) in Hd|fold q in Hd; apply data_cons in Hd as [[_ Hd]|Hd]; [cbn in Hd|by destruct Hd as (? & ? & ?%elem_of_nil & _)]];
          apply Hc2; unfold n, q in *; lia.
      * apply (data_range _ _ _ Hs2) in Hd. apply Hc2; unfold n in *; lia.
  - rewrite (proj2 (Z.ltb_ge (z - nb) 32)) by lia. unfold set_head_size, set_inuse_bit_at_offset, chunk_at_offset. mexec.
    rewrite (u64_small (q + nb)), (u64_small (q + nb + (z - nb))) by lia. rewrite Z.lor_0_r. replace (q + nb + (z - nb)) with n by (unfold n; lia).
    set (m2 := <[n + 8 := ld (st_mem s) (n + 8) |w PREV_INUSE]> (<[q + nb + 8 := z - nb + 1]> (<[q + 8 := nb + Z.b2z pv]> (st_mem s)))).
    assert (forall c, c <> q + 8 -> c <> q + nb + 8 -> ld m2 c = ld mv c) as Hc by (intros c N1 N2; unfold m2, mv; rewrite !ld_insert; repeat case_decide; (done || lia)).
    replace (upd_mem _ (upd_mem _ (upd_mem _ s))) with (with_mem m2 s).
    2:{ unfold size_, word, off_size. cbn [st_mem upd_mem]. rewrite !(ld_insert_ne _ _ (n + 8)) by (unfold n; lia). rewrite !Z.lor_0_r, Hh, head_size by (done || lia).
        replace ((z - nb) |w PREV_INUSE) with (z - nb + 1) by (unfold PREV_INUSE; rewrite lor_16 by (lia || zlia); done). reflexivity. }
    assert (heap_ok (with_mem m2 s) av b0 ((pre ++ [mkBlock nb true]) ++ mkBlock (z - nb) true :: post) T L) as Hok2.
    { rewrite <- app_assoc. apply (Htile [mkBlock nb true; mkBlock (z - nb) true]); [by repeat constructor|done|cbn; lia|intros c Hc'; apply Hc; unfold n in *; lia|].
      cbn [seg bsize bused]. split_and!; try done; try lia; [..|zlia]; unfold m2; rewrite ld_insert_ne by (unfold n; lia); [rewrite ld_insert_ne, ld_insert_eq by lia|rewrite ld_insert_eq]; done. }
    destruct (int_free_heap fuel _ av b0 (pre ++ [mkBlock nb true]) (z - nb) post T L Hok2) as (s' & L' & Hrun & Hok' & Hgl & Hk); [change (get_max_fast s < z - nb); lia|].
    assert (b0 + total (pre ++ [mkBlock nb true]) = q + nb) as Eq by (rewrite total_app; cbn; unfold q; lia). rewrite Eq in Hrun. rewrite Hrun.
    assert (forall c, c <> q + 8 -> c <> q + nb + 8 -> c <> n + 8 -> ld m2 c = ld (st_mem s) c) as Hc2 by (intros c N1 N2 N3; unfold m2; by rewrite !ld_insert_ne).
    assert (sized (pre ++ [mkBlock nb true])) as Hs1' by (apply list.Forall_app; split; [done|]; repeat constructor; cbn; (done || lia)).
    pose proof (fun c => abs_free_data b0 (pre ++ [mkBlock nb true]) (z - nb) post T c ltac:(lia) ltac:(lia) Hs1') as Hdat. rewrite Eq in Hdat.
    replace (q + nb + (z - nb)) with n in Hdat by (unfold n; lia).
    exists s', L'. split_and!; try done.
    + intros c Hd. etrans; [apply Hk, Hdat; by left|]. apply data_app in Hd as [Hd|Hd]; [apply (data_range _ _ _ Hs1) in Hd|
        fold q in Hd; apply data_cons in Hd as [[_ Hd]|Hd]; [cbn in Hd|by destruct Hd as (? & ? & ?%elem_of_nil & _)]]; apply Hc2; unfold n, q in *; lia.
    + intros c Hd. etrans; [apply Hk, Hdat; by right|]. apply (data_range _ _ _ Hs2) in Hd. apply Hc2; unfold n in *; lia.
Qed.

(** ** Growing into the top chunk *)

Lemma grow_top s av b0 pre sz T L nb (pv : bool) :
  let q := b0 + total pre in
  heap_ok s av b0 (pre ++ [mkBlock sz true]) T L -> ld (st_mem s) (q + 8) = sz + Z.b2z pv -> good_size nb -> sz <= nb -> nb + 32 <= sz + T ->
  let m' := <[q + nb + 8 := sz + T - nb + 1]> (<[av + off_top := q + nb]> (<[q + 8 := nb + Z.b2z pv]> (st_mem s))) in
  heap_ok (with_mem m' s) av b0 (pre ++ [mkBlock nb true]) (sz + T - nb) L /\ keeps_data b0 (pre ++ [mkBlock sz true]) (st_mem s) m'.
Proof.
  intros q Hok Hhd [Hnm Hnr] Hsz Hfit m'. destruct (heap_facts _ _ _ _ _ _ Hok) as (Hs & _ & _ & HT & Hb0 & Hav & Hend & Hsep). destruct Hok.
  destruct hk_top as (Htop & _ & HTm & _). rewrite total_app in *. cbn [total bsize] in *. pose proof hk_row as Hrow. apply seg_app in Hrow as (pv' & Hpre & Hh & Hszm & Hsz32 & _). cbn [bsize] in *.
  fold q in Hh. assert (pv' = pv) as -> by (rewrite Hhd in Hh; destruct pv, pv'; cbn in Hh; (done || lia)). pose proof (seg_sized _ _ _ _ _ Hpre) as Hs1.
  pose proof (total_nonneg _ Hs1) as [? _].
  assert (forall c, c <> av + 128 -> c <> q + 8 -> c <> q + nb + 8 -> ld m' c = ld (st_mem s) c) as Hc by (intros c N1 N2 N3; unfold m', off_top; by rewrite !ld_insert_ne by lia).
  assert (frees b0 (pre ++ [mkBlock sz true]) = frees b0 pre /\ frees b0 (pre ++ [mkBlock nb true]) = frees b0 pre) as [Hfr Hfr'] by (rewrite !frees_app; cbn; by rewrite app_nil_r).
  split.
  - split; unfold system_mem, top, word in *; cbn [with_mem upd_mem st_mem st_gl] in *; rewrite ?total_app; cbn [total bsize];
      rewrite ?(Hc (av + off_system_mem)) by (unfold off_system_mem, q; lia); try done.
    + apply (no_fast_frame s); [|done]. intros o Ho Hne. apply Hc; unfold field, off_top, q in *; lia.
    + split_and!; [apply hk_base|done|lia].
    + lia.
    + lia.
    + apply seg_app. exists pv. split.
      * revert Hpre. apply seg_frame; [intros x Hx|intros x Hx _|intros _]; apply Hc; try apply (starts_range _ _ _ Hs1) in Hx; unfold q; lia.
      * cbn [seg bsize bused]. fold q. split_and!; try done; [|lia]. unfold m', off_top. rewrite !ld_insert_ne, ld_insert_eq by (unfold q; lia). done.
    + replace (b0 + (total pre + (nb + 0))) with (q + nb) by (unfold q; lia). split_and!; [|unfold m'; apply ld_insert_eq|zlia|lia].
      unfold m'. rewrite ld_insert_ne, ld_insert_eq by (unfold off_top, q in *; lia). done.
    + assert (forall i x, valid_bin i -> x ∈ L i -> x ∈ frees b0 pre) as Hin by (intros i x Hi Hx; rewrite <- Hfr; apply hk_free; by exists i).
      assert (forall i x, valid_bin i -> x ∈ L i -> x ∈ bigs b0 (pre ++ [mkBlock sz true]) -> x ∈ bigs b0 pre) as Hbg.
      { intros i x Hi Hx Hb. rewrite bigs_app in Hb. apply elem_of_app in Hb as [?|Hb]; [done|]. apply bigs_starts, list_elem_of_singleton in Hb.
        pose proof (Hin i x Hi Hx) as Hx'%frees_starts. apply (starts_range _ _ _ Hs1) in Hx'. lia. }
      apply (bins_within _ (starts b0 pre) (bigs b0 pre)); [intros i x Hi Hx; rewrite starts_app, bigs_app; split; [apply elem_of_app; left; by apply frees_starts, (Hin i)|rewrite elem_of_app; tauto]|].
      apply (bins_frame _ _ _ _ (st_mem s)).
      * intros c Hcell. pose proof (cell_below av b0 pre L c Hs1 (fun i x Hi Hx => frees_starts _ _ _ (Hin i x Hi Hx)) Hcell). apply Hc; unfold q in *; lia.
      * revert hk_bins. apply bins_within. intros i x Hi Hx. split; [by apply frees_starts, (Hin i)|by apply (Hbg i)].
    + intros x. rewrite Hfr', <- Hfr. apply hk_free.
  - intros c Hd. apply (data_range _ _ _ Hs) in Hd as Hr. apply data_app in Hd as [Hd|Hd]; [apply (data_range _ _ _ Hs1) in Hd; apply Hc; unfold q in *; rewrite ?total_app in *; cbn [total bsize] in *; lia|].
    fold q in Hd. apply data_cons in Hd as [[_ Hd]|Hd]; [cbn in Hd|by destruct Hd as (? & ? & ?%elem_of_nil & _)]. apply Hc; unfold q in *; lia.
Qed.

(** ** Moving a block *)

(** The copy moves all words, if their number fits into 32 bits. *)
Lemma realloc_copy_run s d a sz :
  sz mod 16 = 0 -> 32 <= sz <= 34359738368 ->
  realloc_copy d a (sz - 8) s = Ok tt (with_mem (mem_copy d a (Z.to_nat (sz / 8 - 1)) (st_mem s)) s).
Proof.
  intros Hm Hr. unfold realloc_copy. change SIZE_SZ with 8. replace ((sz - 8) / 8) with (sz / 8 - 1) by zlia. rewrite u32_small by zlia.
  unfold assert_. rewrite (proj2 (Z.leb_le 3 (sz / 8 - 1))) by zlia. mexec. destruct (Z.ltb_spec 9 (sz / 8 - 1)) as [Hlt|Hge]; [reflexivity|].
  assert (forall m, mem_copy d a 5 m = mem_copy (d + 24) (a + 24) 2 (mem_copy d a 3 m)) as E5 by (intros m; exact (mem_copy_app d a 3 2 m)).
  assert (forall m, mem_copy d a 7 m = mem_copy (d + 40) (a + 40) 2 (mem_copy d a 5 m)) as E7 by (intros m; exact (mem_copy_app d a 5 2 m)).
  assert (forall m, mem_copy d a 9 m = mem_copy (d + 56) (a + 56) 2 (mem_copy d a 7 m)) as E9 by (intros m; exact (mem_copy_app d a 7 2 m)).
  assert (sz / 8 - 1 = 3 \/ sz / 8 - 1 = 5 \/ sz / 8 - 1 = 7 \/ sz / 8 - 1 = 9) as [E|[E|[E|E]]] by zlia; rewrite E.
  - change (4 <? 3) with false. reflexivity.
  - change (4 <? 5) with true. change (6 <? 5) with false. mexec. change (Z.to_nat 5) with 5%nat. rewrite E5. reflexivity.
  - change (4 <? 7) with true. change (6 <? 7) with true. change (8 <? 7) with false. mexec. change (Z.to_nat 7) with 7%nat. rewrite E7, E5. reflexivity.
  - change (4 <? 9) with true. change (6 <? 9) with true. change (8 <? 9) with true. mexec. change (Z.to_nat 9) with 9%nat. rewrite E9, E7, E5. reflexivity.
Qed.

(** The bound is needed: the number of words is kept in an [unsigned int], so
    of a block of [2^32 + n + 1] words, [n] at most 9, only [n] are copied. *)
Lemma realloc_copy_truncates s d a n :
  n ∈ [3; 5; 7; 9] -> realloc_copy d a (8 * (4294967296 + n)) s = Ok tt (with_mem (mem_copy d a (Z.to_nat n) (st_mem s)) s).
Proof.
  intros Hn. set_unfold in Hn. assert (realloc_copy d a (8 * (4294967296 + n)) s = realloc_copy d a (8 * n + 8 - 8) s) as ->
    by (destruct Hn as [-> |[-> |[-> |[-> |[]]]]]; reflexivity).
  rewrite realloc_copy_run by (destruct Hn as [-> |[-> |[-> |[-> |[]]]]]; (done || lia)). do 3 f_equal. zlia.
Qed.

(** Copying into the memory of a block in use. *)
Lemma heap_copy s av b0 l T L q z d a n :
  heap_ok s av b0 l T L -> (q, z) ∈ useds b0 l -> q + 16 <= d -> d + 8 * Z.of_nat n <= q + z + 8 ->
  heap_ok (with_mem (mem_copy d a n (st_mem s)) s) av b0 l T L.
Proof.
  intros Hok Hin. revert s d a Hok. induction n as [|n IH]; intros s d a Hok Hd Hn; cbn [mem_copy]; [by rewrite with_mem_id|].
  assert (data_cell b0 l d) as Hc by (exists q, z; split; [done|lia]). pose proof (heap_store s av b0 l T L d (ld (st_mem s) a) Hok Hc) as Hok'.
  specialize (IH _ (d + 8) (a + 8) Hok' ltac:(lia) ltac:(lia)). rewrite with_mem_with_mem in IH. exact IH.
Qed.

(** ** What resizing means *)

(** The block, or it and what follows it, holds [nb] bytes; behind the last
    block is the top chunk. *)
Definition fits_here (sz nb : Z) (post : list block) : Prop :=
  nb <= sz \/ post = [] \/ exists z rest, post = mkBlock z false :: rest /\ nb <= sz + z.

Record resized (s s' : state) (av b0 : Z) pre (sz : Z) post (T nb p' : Z) : Prop := {
  rz_gl : st_gl s' = st_gl s;
  rz_others : keeps_data b0 pre (st_mem s) (st_mem s') /\ keeps_data (b0 + total pre + sz) post (st_mem s) (st_mem s');
  rz_heap : exists q' z' l' T' L', p' = chunk2mem q' /\ heap_ok s' av b0 l' T' L' /\ nb <= z'
    /\ useds b0 l' ≡ₚ (q', z') :: useds b0 pre ++ useds (b0 + total pre + sz) post
    /\ total l' + T' = total pre + sz + total post + T /\ T - nb <= T' /\ (length l' <= S (S (length pre + length post)))%nat
    /\ (q' = b0 + total pre <-> fits_here sz nb post)
    /\ forall k, 0 <= k -> 16 + 8 * k <= Z.min sz z' -> ld (st_mem s') (q' + 16 + 8 * k) = ld (st_mem s) (b0 + total pre + 16 + 8 * k) }.

(** The rows after a change in place. *)
Lemma in_place_row b0 nb z pre post T :
  sized pre -> 0 <= T -> 32 <= nb <= z -> nb mod 16 = 0 ->
  let r := in_place nb z pre post T in
  useds b0 r.1 ≡ₚ (b0 + total pre, kept_size nb z) :: useds b0 pre ++ useds (b0 + total pre + z) post
  /\ total r.1 + r.2 = total pre + z + total post + T /\ T <= r.2 /\ (length r.1 <= S (S (length pre + length post)))%nat.
Proof.
  intros Hs HT Hnb Hnm. unfold in_place, kept_size. destruct (Z.ltb_spec z (nb + 32)) as [Hlt|Hge]; cbn [fst snd].
  - rewrite useds_app, total_app, length_app. cbn [useds bused bsize app total length]. split_and!; try lia. symmetry. apply Permutation_middle.
  - assert (sized (pre ++ [mkBlock nb true])) as Hs' by (apply list.Forall_app; split; [done|]; repeat constructor; cbn; (done || lia)).
    rewrite (abs_free_rest b0 (pre ++ [mkBlock nb true]) (z - nb) post T) by (done || lia). rewrite abs_free_total.
    destruct (abs_free_useds b0 (pre ++ [mkBlock nb true]) (z - nb) post T HT ltac:(lia) Hs') as (_ & HT2 & Hlen). rewrite length_app in Hlen. cbn [length] in Hlen.
    rewrite useds_app, total_app. cbn [useds bused bsize app total]. replace (b0 + (total pre + (nb + 0)) + (z - nb)) with (b0 + total pre + z) by lia.
    split_and!; try lia. rewrite <- app_assoc. symmetry. apply Permutation_middle.
Qed.

Lemma in_place_resized fuel s s1 av b0 pre A post1 T L nb z sz post :
  let q := b0 + total pre in
  let n := q + z in
  heap_ok (with_mem (<[n + 8 := ld (st_mem s1) (n + 8) |w PREV_INUSE]> (st_mem s1)) s1) av b0 (pre ++ A ++ post1) T L ->
  all_used A -> A <> [] -> total A = z -> good_size nb -> nb <= z -> get_max_fast s1 < 32 -> 0 <= sz <= z ->
  useds (q + sz) post = useds n post1 -> sz + total post = z + total post1 -> (length post1 <= length post)%nat -> fits_here sz nb post ->
  st_gl s1 = st_gl s -> keeps_data b0 (pre ++ [mkBlock sz true]) (st_mem s) (st_mem s1) -> keeps_data n post1 (st_mem s) (st_mem s1) ->
  exists s', realloc_split fuel av q z nb s1 = Ok (chunk2mem q) s' /\ resized s s' av b0 pre sz post T nb (chunk2mem q).
Proof.
  intros q n Hok HA Hne Ht Hnb Hle Hmf Hsz Hu Htot Hlen Hfit Hgl Hk1 Hk2. destruct (heap_facts _ _ _ _ _ _ Hok) as (Hs & _ & _ & HT & _).
  assert (sized pre) as Hs1 by (unfold sized in *; rewrite list.Forall_app in Hs; apply Hs).
  destruct (split_run fuel s1 av b0 pre A post1 T L nb z Hok HA Hne Ht Hnb Hle Hmf) as (s' & L' & Hrun & Hok' & Hgl' & Hk3 & Hk4). destruct Hnb as [Hnm Hnr].
  destruct (in_place_row b0 nb z pre post1 T Hs1 ltac:(lia) ltac:(lia) Hnm) as (Hus & Htot' & HT' & Hlen'). fold q n in Hus.
  exists s'. split; [done|]. split; [congruence| |].
  - split; intros c Hd.
    + etrans; [apply Hk3|apply Hk1]; apply data_app; by left.
    + assert (data_cell n post1 c) as Hd' by (unfold data_cell in *; by rewrite <- Hu). by rewrite (Hk4 c Hd'), (Hk2 c Hd').
  - exists q, (kept_size nb z). eexists _, _, L'. split; [done|]. split; [exact Hok'|]. split_and!; try (done || lia).
    + unfold kept_size. destruct (Z.ltb_spec z (nb + 32)); lia.
    + rewrite Hus. fold q. by rewrite Hu.
    + intros k Hk Hmin. assert (forall w, 16 + 8 * k <= w -> data_cell b0 (pre ++ [mkBlock w true]) (q + 16 + 8 * k)) as Hcell.
      { intros w Hw. apply data_app. right. apply data_cons. left. split; [done|]. cbn [bsize]. fold q. lia. }
      etrans; [apply Hk3|apply Hk1]; apply Hcell; lia.
Qed.

(** ** The cases *)

Lemma next_mod s av b0 pre sz post T L : heap_ok s av b0 (pre ++ mkBlock sz true :: post) T L -> next_size post T mod 16 = 0.
Proof.
  intros Hok. destruct (hk_top _ _ _ _ _ _ Hok) as (_ & _ & HTm & _). destruct (heap_facts _ _ _ _ _ _ Hok) as (Hs & _). destruct post as [|b post]; [done|].
  unfold sized in Hs. rewrite list.Forall_app, !list.Forall_cons in Hs. cbn. apply Hs.
Qed.

(** The block is large enough. *)
Lemma realloc_shrink fuel s av b0 pre sz post T L nb :
  let q := b0 + total pre in
  heap_ok s av b0 (pre ++ mkBlock sz true :: post) T L -> good_size nb -> nb <= sz -> get_max_fast s < 32 ->
  exists s', realloc_split fuel av q sz nb s = Ok (chunk2mem q) s' /\ resized s s' av b0 pre sz post T nb (chunk2mem q).
Proof.
  intros q Hok Hnb Hle Hmf. destruct (freed_reads _ _ _ _ _ _ _ _ Hok) as (_ & _ & _ & _ & H32 & _ & _ & _ & _ & _ & Hsn & _ & Hnr & _). fold q in Hsn.
  pose proof (next_mod _ _ _ _ _ _ _ _ Hok) as Hnm. apply (in_place_resized fuel s s av b0 pre [mkBlock sz true] post T L nb sz sz post); try (done || lia).
  - rewrite <- (with_mem_id s) in Hok at 1. revert Hok. apply heap_ok_ext. intros c _. rewrite ld_insert. case_decide as E; [|done]. rewrite <- E.
    unfold size_, word, off_size in Hsn. fold q. rewrite Hsn. unfold PREV_INUSE. rewrite <- (lor_16 (next_size post T) 1), <- Z.lor_assoc by (done || lia). done.
  - by repeat constructor.
  - cbn. lia.
  - by left.
Qed.

(** A free chunk follows. *)
Lemma realloc_next fuel s av b0 pre sz z post T L nb :
  let q := b0 + total pre in
  heap_ok s av b0 (pre ++ mkBlock sz true :: mkBlock z false :: post) T L -> good_size nb -> nb <= sz + z -> get_max_fast s < 32 ->
  exists s', (unlink av (q + sz) ;;; realloc_split fuel av q (sz + z) nb) s = Ok (chunk2mem q) s'
    /\ resized s s' av b0 pre sz (mkBlock z false :: post) T nb (chunk2mem q).
Proof.
  intros q Hok Hnb Hle Hmf. assert (pre ++ mkBlock sz true :: mkBlock z false :: post = (pre ++ [mkBlock sz true]) ++ mkBlock z false :: post) as Erow by (by rewrite <- app_assoc).
  rewrite Erow in Hok. destruct (heap_facts _ _ _ _ _ _ Hok) as (Hs & Hg & _). set (pre1 := pre ++ [mkBlock sz true]) in *.
  assert (b0 + total pre1 = q + sz) as Eq by (unfold pre1; rewrite total_app; cbn; unfold q; lia).
  assert (q + sz ∈ frees b0 (pre1 ++ mkBlock z false :: post)) as Hf by (rewrite frees_app; cbn [frees bused]; rewrite Eq; in_auto).
  apply (hk_free _ _ _ _ _ _ Hok) in Hf as (i & Hi & Hx).
  destruct (bins_unlink av _ _ s L i _ Hg (hk_bins _ _ _ _ _ _ Hok) Hi Hx) as (m1 & Hrun & Hb & Ho & Hc). rewrite <- Eq in Hb.
  destruct (open_gap s m1 av b0 pre1 z post T L Hok Hb Hc) as (Hgap & Hgb & Hh & _). pose proof (close_used _ _ _ _ _ _ _ _ Hgap Hgb Hh) as Hok1. cbn zeta in Hok1.
  rewrite Eq in Hok1. replace (q + sz + z) with (q + (sz + z)) in Hok1 by lia.
  assert (0 <= sz /\ 0 <= z) as [Hsz Hz].
  { unfold sized, pre1 in Hs. rewrite !list.Forall_app, !list.Forall_cons in Hs. destruct Hs as ((_ & [_ H1] & _) & [_ H2] & _). cbn in *. lia. }
  assert (keeps_data b0 (pre1 ++ mkBlock z false :: post) (st_mem s) m1) as Hk by (intros c Hd; by apply Ho, (heap_outside s av b0 (pre1 ++ mkBlock z false :: post) T L i)).
  destruct (in_place_resized fuel s (with_mem m1 s) av b0 pre [mkBlock sz true; mkBlock z true] post T (without (q + sz) L) nb (sz + z) sz (mkBlock z false :: post))
    as (s' & Hsplit & Hres); try (done || lia).
  - fold q. unfold pre1 in Hok1. rewrite <- app_assoc in Hok1. exact Hok1.
  - by repeat constructor.
  - cbn. lia.
  - cbn [useds bused app bsize]. f_equal. fold q. lia.
  - cbn [total bsize]. lia.
  - cbn. lia.
  - right. right. by exists z, post.
  - intros c Hd. apply Hk. apply data_app. by left.
  - intros c Hd. apply Hk. apply data_app. right. apply data_cons. right. cbn [bsize]. rewrite Eq. replace (q + sz + z) with (q + (sz + z)) by lia. exact Hd.
  - exists s'. split; [|done]. mexec. rewrite Hrun. exact Hsplit.
Qed.

(** The top chunk follows. *)
Lemma realloc_top s av b0 pre sz T L nb :
  let q := b0 + total pre in
  heap_ok s av b0 (pre ++ [mkBlock sz true]) T L -> good_size nb -> sz <= nb -> nb + 32 <= sz + T ->
  exists s', (set_head_size q (nb |w arena_flag s av) ;;; set_top av (chunk_at_offset q nb) ;;;
    set_head (chunk_at_offset q nb) ((sz +w T -w nb) |w PREV_INUSE) ;;; ret (chunk2mem q)) s = Ok (chunk2mem q) s'
    /\ resized s s' av b0 pre sz [] T nb (chunk2mem q).
Proof.
  intros q Hok Hnb Hle Hfit. pose proof Hnb as [Hnm Hnr]. destruct (heap_facts _ _ _ _ _ _ Hok) as (Hs & _ & _ & HT & Hb0 & _ & Hend & _).
  rewrite total_app in Hend. cbn [total bsize] in Hend. destruct (hk_main _ _ _ _ _ _ Hok) as [Hmain _]. destruct (hk_top _ _ _ _ _ _ Hok) as (_ & _ & HTm & _).
  pose proof (hk_row _ _ _ _ _ _ Hok) as Hrow. apply seg_app in Hrow as (pv & Hpre & Hh & Hszm & Hsz32 & _). cbn [bsize] in *. fold q in Hh.
  pose proof (total_nonneg _ (seg_sized _ _ _ _ _ Hpre)) as [? _].
  destruct (grow_top s av b0 pre sz T L nb pv Hok Hh Hnb Hle Hfit) as [Hok' Hk]. fold q in Hok', Hk. set (m' := <[_ := _]> _) in *.
  exists (with_mem m' s). split.
  - unfold set_head_size, chunk_at_offset, arena_flag. mexec. rewrite <- Hmain, Z.eqb_refl, Z.lor_0_r. unfold size_, word, off_size.
    rewrite Hh, head_size by (done || lia). rewrite (u64_small (q + nb)), (u64_small (sz + T)), (u64_small (sz + T - nb)) by (unfold q; lia).
    unfold PREV_INUSE. rewrite lor_16 by (lia || zlia). reflexivity.
  - split; [done|split|].
    + intros c Hd. apply Hk, data_app. by left.
    + intros c (? & ? & Hd%elem_of_nil & _). done.
    + exists q, nb. eexists _, _, L. split; [done|]. split; [exact Hok'|]. rewrite useds_app, total_app, length_app. cbn [useds bused bsize app total length].
      split_and!; try (done || lia).
      * fold q. rewrite app_nil_r. symmetry. apply Permutation_cons_append.
      * split; [right; by left|done].
      * intros k Hk0 Hmin. apply Hk, data_app. right. apply data_cons. left. split; [done|]. cbn [bsize]. fold q. lia.
Qed.

(** The size that is asked of [_int_malloc] is padded to [nb] again. *)
Lemma request_back nb : good_size nb -> nb + 96 < 18446744073709551616 -> checked_request2size (nb - 15) = Some nb.
Proof.
  intros [Hm Hr] Hlt. unfold checked_request2size. pose proof (REQUEST_OUT_OF_RANGE_spec (nb - 15)) as Hspec.
  destruct (REQUEST_OUT_OF_RANGE (nb - 15)); [assert (18446744073709551552 <= nb - 15) by (by apply Hspec); lia|]. rewrite request2size_eq by lia. f_equal. zlia.
Qed.

(** The new chunk is not the one that follows. *)
Lemma move_apart b0 pre sz post T nb c off l' T' :
  sized (pre ++ mkBlock sz true :: post) -> abs_malloc nb (pre ++ mkBlock sz true :: post) T c off l' T' ->
  post <> [] -> (forall z post', post = mkBlock z false :: post' -> sz + z < nb) -> 32 <= sz -> b0 + off <> b0 + total pre + sz.
Proof.
  intros Hs Ham Hne Hfit Hsz E. unfold sized in Hs. pose proof Hs as Hs'. rewrite list.Forall_app, list.Forall_cons in Hs'. destruct Hs' as (_ & _ & Hs2).
  assert (pre ++ mkBlock sz true :: post = (pre ++ [mkBlock sz true]) ++ post) as Erow by (by rewrite <- app_assoc).
  destruct Ham as [pre' z post' El Hz|pre' z post' El Hz|].
  - rewrite Erow in El, Hs. destruct (row_cut _ _ _ _ Hs El) as [_ ->]; [rewrite total_app; cbn; lia|]. specialize (Hfit z post' eq_refl). lia.
  - rewrite Erow in El, Hs. destruct (row_cut _ _ _ _ Hs El) as [_ ->]; [rewrite total_app; cbn; lia|]. specialize (Hfit z post' eq_refl). lia.
  - rewrite total_app in E. cbn [total bsize] in E. destruct post as [|b post]; [done|]. inversion Hs2 as [|? ? [_ H32] Hs3]; subst. pose proof (total_nonneg _ Hs3). cbn [total] in E. lia.
Qed.

Lemma realloc_move fuel s av b0 pre sz post T L nb :
  let q := b0 + total pre in
  heap_ok s av b0 (pre ++ mkBlock sz true :: post) T L -> good_size nb -> sz < nb -> sz <= 34359738368 -> nb + 32 <= T -> get_max_fast s < 32 ->
  (length (pre ++ mkBlock sz true :: post) < fuel)%nat -> NBINS < Z.of_nat fuel ->
  post <> [] -> (forall z post', post = mkBlock z false :: post' -> sz + z < nb) ->
  exists p' s', (newmem <- _int_malloc fuel av (nb -w MALLOC_ALIGN_MASK) ;;
      if newmem =? 0 then ret 0
      else
        s <- get ;;
        let newp := mem2chunk newmem in
        let newsize := chunksize s newp in
        if newp =? q + sz then realloc_split fuel av q (newsize +w sz) nb
        else
          realloc_copy newmem (chunk2mem q) (sz -w SIZE_SZ) ;;;
          _int_free fuel av q true ;;;
          ret (chunk2mem newp)) s = Ok p' s'
    /\ resized s s' av b0 pre sz post T nb p'.
Proof.
  intros q Hok Hnb Hlt Hbig HT Hmf Hfu Hfs Hne Hfit. set (row := pre ++ mkBlock sz true :: post) in *.
  destruct (heap_facts _ _ _ _ _ _ Hok) as (Hs & _ & Htot & _ & Hb0 & _ & Hend & _). destruct (freed_reads _ _ _ _ _ _ _ _ Hok) as (_ & _ & _ & Hszm & H32 & _).
  destruct (split_total _ _ _ Hs) as (Hp0 & Hq0 & Htr). fold row in Htr. cbn [bsize] in Htr.
  assert (useds b0 row = useds b0 pre ++ (q, sz) :: useds (q + sz) post) as Hur by (unfold row; rewrite useds_app; done).
  destruct Hnb as [Hnm Hnr]. change MALLOC_ALIGN_MASK with 15. rewrite (u64_small (nb - 15)) by lia. pose proof (request_back nb ltac:(done) ltac:(lia)) as Hreq.
  destruct (int_malloc_heap fuel s av b0 row T L (nb - 15) nb) as (p & s1 & c & Hrun & (Hgl1 & Hk1 & off & l1 & T1 & L1 & -> & Ham & Hok1) & _);
    [done|lia|done|change MAX_FAST_SIZE with 160; lia|left; lia|done|done|].
  destruct (abs_malloc_useds b0 nb row T c off l1 T1 Hs ltac:(lia) Ham) as (z' & Hz' & Hu1 & HT1 & Htot1 & Hlen1). set (q' := b0 + off) in *.
  pose proof (move_apart b0 pre sz post T nb c off l1 T1 Hs Ham Hne Hfit H32) as Hapart. fold q q' in Hapart.
  assert ((q', z') ∈ useds b0 l1 /\ (q, sz) ∈ useds b0 l1) as [Hin' Hin] by (rewrite Hu1, Hur; split; in_auto).
  destruct (held_chunk _ _ _ _ _ _ _ _ Hok1 Hin') as (E1 & E2 & Hq1 & _ & Hz32 & _). destruct (held_chunk _ _ _ _ _ _ _ _ Hok1 Hin) as (E3 & E4 & _).
  assert (NoDup ((q', z') :: (q, sz) :: useds b0 pre ++ useds (q + sz) post)) as Hnd.
  { destruct (heap_facts _ _ _ _ _ _ Hok1) as (Hs1 & _). pose proof (useds_nodup b0 l1 Hs1) as Hnd. rewrite Hu1, Hur, <- Permutation_middle in Hnd. exact Hnd. }
  set (n := Z.to_nat (sz / 8 - 1)). set (m2 := mem_copy (q' + 16) (q + 16) n (st_mem s1)).
  pose proof (heap_copy s1 av b0 l1 T1 L1 q' z' (q' + 16) (q + 16) n Hok1 Hin' ltac:(lia) ltac:(unfold n; zlia)) as Hok2. fold m2 in Hok2.
  destruct (useds_split _ _ _ _ Hin) as (pre2 & post2 & El & Eq2). destruct (heap_facts _ _ _ _ _ _ Hok1) as (Hs1 & _ & _ & HT32 & _).
  rewrite El in Hok2. destruct (int_free_heap fuel (with_mem m2 s1) av b0 pre2 sz post2 T1 L1 Hok2) as (s3 & L3 & Hrun3 & Hok3 & Hgl3 & Hk3).
  { unfold get_max_fast in *. cbn [st_gl with_mem upd_mem]. rewrite Hgl1. lia. }
  rewrite <- Eq2 in Hrun3. assert (sized pre2) as Hsp2 by (unfold sized in *; rewrite El, list.Forall_app in Hs1; apply Hs1).
  destruct (abs_free_useds b0 pre2 sz post2 T1 ltac:(lia) ltac:(lia) Hsp2) as (Hu2 & HT3 & Hlen3). pose proof (abs_free_total pre2 sz post2 T1) as Htot3. cbv zeta in Htot3.
  rewrite <- El, <- Eq2 in Hu2. set (r := abs_free pre2 sz post2 T1) in *. set (rest := useds b0 pre ++ useds (q + sz) post) in *.
  assert (useds b0 r.1 ≡ₚ (q', z') :: rest) as Hu3.
  { apply (Permutation_cons_inv (a := (q, sz))). rewrite <- Hu2, Hu1, Hur, <- Permutation_middle. apply perm_swap. }
  assert (forall a w, (a, w) ∈ (q', z') :: (q, sz) :: rest -> (a, w) ∈ useds b0 l1) as Hall.
  { intros a w. rewrite Hu1, Hur, <- Permutation_middle. done. }
  apply list.NoDup_cons in Hnd as [Hn1 Hnd]. apply list.NoDup_cons in Hnd as [Hn2 _].
  assert (forall a w, (a, w) ∈ (q, sz) :: rest -> q' + z' <= a \/ a + w <= q') as Hmeet.
  { intros a w Ha. destruct (useds_meet b0 l1 (q', z') (a, w) Hs1 Hin') as [E|Hm]; [apply Hall; by right|by rewrite <- E in Ha|cbn in Hm; lia]. }
  assert (8 * Z.of_nat n = sz - 8) as En by (unfold n; zlia).
  assert (forall a w c, (a, w) ∈ rest -> a + 16 <= c <= a + w -> ld (st_mem s3) c = ld (st_mem s) c) as Hother.
  { intros a w x Ha Hx. rewrite (Hk3 x) by (exists a, w; split; [rewrite Hu3; by right|done]). cbn [st_mem with_mem upd_mem]. unfold m2.
    rewrite mem_copy_frame by (destruct (Hmeet a w ltac:(by right)); lia). apply Hk1. exists a, w. split; [|done]. rewrite Hur, <- Permutation_middle. by right. }
  exists (chunk2mem q'), s3. split.
  - mexec. rewrite Hrun. rewrite E1, E2, E3, (proj2 (Z.eqb_neq (q' + 16) 0)), (proj2 (Z.eqb_neq q' (q + sz))) by (done || lia). change SIZE_SZ with 8.
    rewrite (u64_small (sz - 8)) by lia. rewrite realloc_copy_run by (done || lia). fold n. change (with_mem _ s1) with (with_mem m2 s1). rewrite Hrun3.
    by rewrite E1.
  - split; [by rewrite Hgl3, <- Hgl1|split; (intros x (a & w & Ha & Hx); apply (Hother a w x); [unfold rest; fold q in Ha; apply elem_of_app; tauto|done])|].
    exists q', z', r.1, r.2, L3. split_and!; try (done || lia).
    + rewrite El, total_app in Htot1. cbn [total bsize] in Htot1. fold r in Htot3. lia.
    + rewrite El, length_app in Hlen1. unfold row in Hlen1. rewrite length_app in Hlen1. cbn [length] in Hlen1. fold r in Hlen3. lia.
    + split; [intros E; fold q in E; destruct (Hmeet q sz ltac:(left)); lia|].
      intros [?|[?|(w & after & -> & ?)]]; [lia|done|specialize (Hfit w after eq_refl); lia].
    + intros k Hk Hmin. replace (b0 + total pre + 16 + 8 * k) with (q + 16 + 8 * k) by (unfold q; lia).
      rewrite (Hk3 (q' + 16 + 8 * k)) by (exists q', z'; split; [rewrite Hu3; left|lia]). cbn [st_mem with_mem upd_mem]. unfold m2.
      rewrite mem_copy_spec by (destruct (Hmeet q sz ltac:(left)); lia). apply Hk1. exists q, sz. split; [rewrite Hur; in_auto|lia].
Qed.

(** The mark of the block that follows. *)
Lemma next_inuse s av b0 pre sz b post T L :
  let n := b0 + total pre + sz in
  heap_ok s av b0 (pre ++ mkBlock sz true :: b :: post) T L -> inuse s n = bused b.
Proof.
  intros n Hok. destruct (freed_reads _ _ _ _ _ _ _ _ Hok) as (_ & _ & _ & _ & _ & Hend & _ & _ & _ & Hcn & _). fold n in Hcn. cbn [next_size] in Hcn.
  change (inuse s n) with (inuse_bit_at_offset s n (chunksize s n)). rewrite Hcn. destruct (heap_facts _ _ _ _ _ _ Hok) as (Hs & _ & _ & HT & Hb0 & _).
  unfold sized in Hs. rewrite list.Forall_app, !list.Forall_cons in Hs. destruct Hs as (Hs1 & [_ Hsz] & [_ Hb] & Hs2). cbn [bsize] in Hsz.
  pose proof (total_nonneg _ Hs1) as [? _]. pose proof (total_nonneg _ Hs2) as [? _]. cbn [total] in Hend. fold n in Hend.
  pose proof (hk_row _ _ _ _ _ _ Hok) as Hrow. apply seg_app in Hrow as (pv & _ & _ & _ & _ & _ & Hrow). destruct Hrow as (_ & _ & _ & _ & Hrow). cbn [bsize] in Hrow. fold n in Hrow.
  destruct (hk_top _ _ _ _ _ _ Hok) as (_ & Hth & HTm & _). rewrite total_app in Hth. cbn [total bsize] in Hth. destruct post as [|c post].
  - cbn in Hrow. rewrite <- Hrow. apply (inuse_bit_reads s (n + bsize b) T true); try (done || lia).
    cbn [total] in Hth. replace (b0 + (total pre + (sz + (bsize b + 0)))) with (n + bsize b) in Hth by (unfold n; lia). exact Hth.
  - destruct Hrow as (Hh & Hcm & Hc32 & _). inversion Hs2 as [|? ? _ Hs3]; subst. pose proof (total_nonneg _ Hs3) as [? _]. cbn [total] in Hend.
    apply (inuse_bit_reads s (n + bsize b) (bsize c) (bused b)); (done || lia).
Qed.

(** C5: resizing keeps the contents.  On any heap of the main arena without
    fastbins, when the top chunk could serve the new size, [_int_shm_realloc]
    returns the memory of a block of at least the new size, for blocks up to 32
    GB: the same block exactly when it is large enough or can grow into the top
    chunk or the free chunk that follows, a new one otherwise.  The heap is in order again and no memory is
    lost, the blocks in use are the others and this one, the words of the block
    are the old ones as far as both sizes reach, and nothing is written into
    the memory of another block. *)
Theorem int_realloc_refines fuel s av b0 pre sz post T L nb :
  heap_ok s av b0 (pre ++ mkBlock sz true :: post) T L -> good_size nb -> nb + 32 <= T -> sz <= 34359738368 -> get_max_fast s < MINSIZE ->
  (length (pre ++ mkBlock sz true :: post) < fuel)%nat -> NBINS < Z.of_nat fuel ->
  exists p' s', _int_shm_realloc fuel av (b0 + total pre) sz nb s = Ok p' s' /\ resized s s' av b0 pre sz post T nb p'.
Proof.
  rewrite MINSIZE_32. intros Hok Hnb HT Hbig Hmf Hfu Hfs. pose proof Hnb as [Hnm Hnr]. set (q := b0 + total pre).
  destruct (freed_reads _ _ _ _ _ _ _ _ Hok) as (_ & Hq & Ec & Hszm & H32 & Hend & Hp0 & Hcs & Hmm & Hcn & Hsn & _ & Hns & Htop). fold q in Hq, Ec, Hend, Hcs, Hmm, Hcn, Hsn, Htop.
  pose proof (hk_sys _ _ _ _ _ _ Hok) as Hsys. rewrite total_app in Hsys. cbn [total bsize] in Hsys.
  destruct (heap_facts _ _ _ _ _ _ Hok) as (Hs & _). destruct (split_total _ _ _ Hs) as (Hp1 & _). cbn [bsize] in *.
  assert (sz <= size_ s q) as Hsq.
  { pose proof (hk_row _ _ _ _ _ _ Hok) as Hrow. apply seg_app in Hrow as (pv & _ & Hh & _). cbn [bsize] in Hh. fold q in Hh.
    unfold size_, word, off_size. rewrite Hh. destruct pv; cbn; lia. }
  unfold _int_shm_realloc. mexec. change (2 * SIZE_SZ) with 16. rewrite (proj2 (Z.leb_gt (size_ s q) 16)), (proj2 (Z.leb_gt (system_mem s av) sz)) by lia. cbn [orb].
  unfold assert_. rewrite Hmm, Ec, Hcn, Hsn. cbn [negb]. mexec. rewrite (proj2 (Z.leb_gt (next_size post T + 1) 16)), (proj2 (Z.leb_gt (system_mem s av) (next_size post T))) by lia. cbn [orb].
  destruct (Z.leb_spec nb sz) as [Hle|Hgt].
  { destruct (realloc_shrink fuel s av b0 pre sz post T L nb Hok Hnb Hle Hmf) as (s' & Hrun & Hres). by exists (chunk2mem q), s'. }
  rewrite Htop, MINSIZE_32, (u64_small (nb + 32)), (u64_small (sz + next_size post T)) by lia. destruct post as [|b post].
  { cbn [total next_size] in *. rewrite Z.add_0_r, Z.eqb_refl, (proj2 (Z.leb_le (nb + 32) (sz + T))) by lia. cbn [andb].
    destruct (realloc_top s av b0 pre sz T L nb Hok Hnb ltac:(lia) ltac:(lia)) as (s' & Hrun & Hres). exists (chunk2mem q), s'. split; [|done].
    rewrite (u64_small (sz + T)) in Hrun by lia. exact Hrun. }
  assert (32 <= bsize b /\ 0 <= total post) as [Hb32 Hp2].
  { unfold sized in Hs. rewrite list.Forall_app, !list.Forall_cons in Hs. destruct Hs as (_ & _ & [_ ?] & Hs2). pose proof (total_nonneg _ Hs2). lia. }
  cbn [total] in *. rewrite (proj2 (Z.eqb_neq (q + sz) (q + sz + (bsize b + total post)))) by lia. cbn [andb negb].
  pose proof (next_inuse _ _ _ _ _ _ _ _ _ Hok) as Hinu. fold q in Hinu. rewrite Hinu. cbn [next_size] in *.
  destruct (negb (bused b) && (nb <=? sz + bsize b)) eqn:Econd.
  - bool_hyps. destruct b as [z u]. cbn [bused bsize] in *. assert (u = false) as -> by (by destruct u).
    destruct (realloc_next fuel s av b0 pre sz z post T L nb Hok Hnb ltac:(lia) Hmf) as (s' & Hrun & Hres). exists (chunk2mem q), s'. split; [exact Hrun|done].
  - apply (realloc_move fuel s av b0 pre sz (b :: post) T L nb); try (done || lia). intros z post' [= -> ->]. cbn [bused bsize negb andb] in Econd. apply Z.leb_gt in Econd. lia.
Qed.

End Realloc.

(** ** Example

    The heap of [small_heap] with the fastbins turned off, as by
    [mallopt (M_MXFAST, 0)]: a block of 256 bytes that is resized to 512 does
    not fit before its neighbours and moves. *)

Definition slow_heap : @state bump_source := upd_gl (put_max_fast 16) small_heap.

Lemma slow_heap_ok :
  heap_ok slow_heap 4096 16384 ([] ++ mkBlock 256 true :: [mkBlock 96 false; mkBlock 1024 true]) 65536 small_bins.
Proof. destruct small_heap_ok as []. split; assumption. Qed.

Lemma int_realloc_refines_witness :
  exists p' s', _int_shm_realloc 140 4096 16384 256 512 slow_heap = Ok p' s'
    /\ resized slow_heap s' 4096 16384 [] 256 [mkBlock 96 false; mkBlock 1024 true] 65536 512 p'.
Proof.
  apply (int_realloc_refines 140 slow_heap 4096 16384 [] 256 [mkBlock 96 false; mkBlock 1024 true] 65536 small_bins 512);
    [exact slow_heap_ok|split; [reflexivity|lia]|lia|lia|reflexivity|cbn; lia|unfold NBINS; lia].
Defined.
