(* ===== verification/ArenaProps.v ===== *)
(** * Arenas: fork handlers, the free list, the limit on arenas

    What the handlers around [fork] do to the ring of arenas, the round trip
    of an arena through the free list, and which arenas [arena_get2] and
    [reused_arena] hand out ([src/libipc/malloc/arena.c.h]). *)

From S2P Require Import Prelude MallocState MallocCore MallocInt MallocArena ListFacts BinProps.

(** [mexec] with the fields of the arena variables. *)
Ltac ag_exec :=
  mexec;
  cbn [thread_arena free_list free_list_lock list_lock narenas next_to_use narenas_limit
       put_thread_arena put_free_list put_free_list_lock put_list_lock put_narenas
       put_next_to_use put_narenas_limit st_ag upd_ag upd_mem st_mem negb].

(** ** The ring of arenas *)

Fixpoint ring_from (m : memory) (x : Z) (l : list Z) (main : Z) : Prop :=
  match l with
  | [] => ld m (x + off_next) = main
  | y :: l => ld m (x + off_next) = y /\ ring_from m y l main
  end.

(** Distinct arenas do not overlap. *)
Definition disjoint_arenas (l : list Z) : Prop :=
  forall x y, x ∈ l -> y ∈ l -> x = y \/ sizeof_malloc_state <= Z.abs (x - y).

(** The arenas are [main] and then [l], in the order of [next]. *)
Definition arena_ring (m : memory) (main : Z) (l : list Z) : Prop :=
  ring_from m main l main /\ NoDup (main :: l) /\ disjoint_arenas (main :: l).

(** Stores [v] to the mutexes of [l]. *)
Definition set_mutexes (v : Z) (l : list Z) (m : memory) : memory :=
  fold_left (fun m a => <[a + off_mutex := v]> m) l m.

Lemma set_mutexes_ne v l m a : (forall x, x ∈ l -> a <> x + off_mutex) -> ld (set_mutexes v l m) a = ld m a.
Proof.
  revert m. induction l as [|x l IH]; intros m H; [done|]. simpl.
  rewrite IH by (intros y Hy; apply H; set_solver). apply ld_insert_ne. 
  intros E. apply (H x); [set_solver|done].
Qed.

Lemma set_mutexes_eq v l m x : x ∈ l -> ld (set_mutexes v l m) (x + off_mutex) = v.
Proof.
  revert m. induction l as [|y l IH]; intros m H; [set_solver|]. simpl.
  destruct (decide (x ∈ l)) as [Hx|Hx]; [by apply IH|].
  apply elem_of_cons in H as [->|H]; [|done].
  rewrite set_mutexes_ne; [apply ld_insert_eq|]. intros z Hz E. assert (y = z) by lia. by subst.
Qed.

Lemma ring_from_frame m m' x l main :
  (forall a, a ∈ x :: l -> ld m' (a + off_next) = ld m (a + off_next)) ->
  ring_from m x l main -> ring_from m' x l main.
Proof.
  revert x. induction l as [|y l IH]; intros x Hf; simpl.
  - by rewrite Hf by set_solver.
  - rewrite Hf by set_solver. intros [? ?]. split; [done|]. apply IH; [|done]. set_solver.
Qed.

Lemma mutex_not_field l x y o :
  disjoint_arenas l -> x ∈ l -> y ∈ l -> 0 < o < sizeof_malloc_state -> x + o <> y + off_mutex.
Proof. intros H Hx Hy Ho. specialize (H x y Hx Hy). unfold sizeof_malloc_state, off_mutex in *. lia. Qed.

Section Fork.
Context `{PS : PageSource}.

(** The loop over the ring with an operation that stores [v] to the mutex. *)
Lemma for_each_store (op : Z -> M unit) (v : Z) (ok : Z -> Prop) fuel x l (s : state) :
  (forall a s', ok (ld (st_mem s') (a + off_mutex)) ->
     op a s' = Ok tt (with_mem (<[a + off_mutex := v]> (st_mem s')) s')) ->
  ring_from (st_mem s) x l (main_arena (st_gl s)) -> main_arena (st_gl s) ∉ l ->
  NoDup (x :: l) -> disjoint_arenas (x :: l) ->
  (forall a, a ∈ x :: l -> ok (ld (st_mem s) (a + off_mutex))) -> (length l < fuel)%nat ->
  for_each_arena fuel op x s = Ok tt (with_mem (set_mutexes v (x :: l) (st_mem s)) s).
Proof.
  intros Hop. revert fuel x s. induction l as [|y l IH]; intros fuel x s Hr Hm Hn Hd Hok Hf;
    (destruct fuel as [|fuel]; [simpl in Hf; lia|]); cbn [for_each_arena];
    rewrite (bind_Ok _ _ _ _ _ (Hop x s (Hok x ltac:(set_solver)))); mexec; unfold next, word; mexec;
    rewrite ld_insert_ne by (apply not_eq_sym, (mutex_not_field _ x x off_next Hd); [set_solver|set_solver|done]).
  - simpl in Hr. rewrite Hr, Z.eqb_refl. reflexivity.
  - destruct Hr as [-> Hr]. apply list.NoDup_cons in Hn as [Hx Hn].
    rewrite (proj2 (Z.eqb_neq y _)) by set_solver.
    rewrite IH; [reflexivity|..].
    + cbn [with_mem upd_mem st_mem st_gl]. revert Hr. apply ring_from_frame. intros a Ha. apply ld_insert_ne.
      apply not_eq_sym, (mutex_not_field _ _ _ _ Hd); [set_solver|set_solver|done].
    + cbn [upd_mem st_mem st_gl]. set_solver.
    + done.
    + intros a b Ha Hb. apply Hd; set_solver.
    + intros a Ha. cbn [with_mem upd_mem st_mem]. rewrite ld_insert_ne; [apply Hok; set_solver|].
      intros E. assert (a = x) by lia. by subst.
    + simpl in Hf. lia.
Qed.

(** The state in which [fork] is called: every mutex is free. *)
Definition quiet (s : state) (l : list Z) : Prop :=
  malloc_initialized (st_ag s) = 1 /\ list_lock (st_ag s) = 0
  /\ arena_ring (st_mem s) (main_arena (st_gl s)) l
  /\ forall a, a ∈ main_arena (st_gl s) :: l -> word s (a + off_mutex) = 0.

(** The state between the handlers. *)
Definition locked_state (s : state) (l : list Z) : state :=
  with_mem (set_mutexes 1 (main_arena (st_gl s) :: l) (st_mem s)) (upd_ag (put_list_lock 1) s).

Lemma locked_initialized s l :
  malloc_initialized (st_ag (locked_state s l)) = malloc_initialized (st_ag s).
Proof. cbn. by destruct (st_ag s). Qed.

Lemma lock_parent_run fuel s l :
  quiet s l -> (length l < fuel)%nat ->
  __shm_malloc_fork_lock_parent fuel s = Ok tt (locked_state s l).
Proof.
  intros (Hi & Hll & (Hr & Hn & Hd) & Hz) Hf. unfold __shm_malloc_fork_lock_parent, list_lock_lock. mexec.
  rewrite Hi. change (1 <? 1) with false. mexec. rewrite Hll. change (0 =? 0) with true. mexec.
  rewrite (for_each_store _ 1 (fun v => v = 0) _ _ l); try done.
  - intros a s' Ha. unfold mutex_lock, word. mexec. by rewrite Ha.
  - apply list.NoDup_cons in Hn as [? _]. done.
Qed.

(** The handlers of the parent undo each other.  From a state in which
    no mutex is held, the first handler takes [list_lock] and the mutex of every
    arena of the ring without blocking, and the second one leaves every cell
    and every variable as it was. *)
Theorem fork_parent_roundtrip (fuel : nat) (s : state) (l : list Z) :
  quiet s l -> (length l < fuel)%nat ->
  exists s1 s2, __shm_malloc_fork_lock_parent fuel s = Ok tt s1
    /\ list_lock (st_ag s1) = 1
    /\ (forall a, a ∈ main_arena (st_gl s) :: l -> word s1 (a + off_mutex) = 1)
    /\ __shm_malloc_fork_unlock_parent fuel s1 = Ok tt s2
    /\ st_ag s2 = st_ag s /\ st_gl s2 = st_gl s
    /\ forall a, word s2 a = word s a.
Proof.
  intros Hq Hf. pose proof (lock_parent_run _ _ _ Hq Hf) as Hrun.
  destruct Hq as (Hi & Hll & (Hr & Hn & Hd) & Hz). set (main := main_arena (st_gl s)) in *.
  set (m1 := set_mutexes 1 (main :: l) (st_mem s)).
  exists (locked_state s l), (with_mem (set_mutexes 0 (main :: l) m1) s).
  split; [done|]. split; [cbn; by destruct (st_ag s)|]. split; [intros a Ha; by apply set_mutexes_eq|].
  split.
  - unfold __shm_malloc_fork_unlock_parent. mexec. rewrite locked_initialized, Hi. change (1 <? 1) with false. mexec.
    rewrite (for_each_store mutex_unlock 0 (fun _ => True) fuel _ l (locked_state s l)); try done.
    + unfold list_lock_unlock. mexec. do 2 f_equal. destruct s as [? ? ag ? ? ? ?]. cbn in *.
      destruct ag. unfold locked_state, with_mem, upd_mem, upd_ag, put_list_lock. cbn in *. by rewrite Hll.
    + cbn [locked_state with_mem upd_mem upd_ag st_mem st_gl]. fold main. fold m1. revert Hr.
      apply ring_from_frame. intros a Ha. apply set_mutexes_ne. intros x Hx.
      by apply (mutex_not_field _ _ _ _ Hd).
    + apply list.NoDup_cons in Hn as [? _]. done.
  - split; [done|]. split; [done|]. intros a. unfold word. cbn [with_mem upd_mem st_mem].
    destruct (decide (Exists (fun x => a = x + off_mutex) (main :: l))) as [He|He].
    + apply list.Exists_exists in He as (x & Hx & ->). rewrite set_mutexes_eq by done. symmetry. by apply Hz.
    + assert (forall x, x ∈ main :: l -> a <> x + off_mutex) as Hne.
      { intros x Hx E. apply He, list.Exists_exists. eauto. }
      rewrite set_mutexes_ne by done. by apply set_mutexes_ne.
Qed.

(** What the child inherits.  After the handler of the child, the main
    arena is unlocked, marked corrupt and detached, the thread has no arena
    and the free list is empty; the other arenas of the ring are still locked
    and their flags are those they had, so nothing marks them corrupt. *)
Theorem fork_child_state (fuel : nat) (s : state) (l : list Z) :
  quiet s l -> (length l < fuel)%nat ->
  exists s1 s2, __shm_malloc_fork_lock_parent fuel s = Ok tt s1
    /\ __shm_malloc_fork_unlock_child s1 = Ok tt s2
    /\ thread_arena (st_ag s2) = 0 /\ free_list (st_ag s2) = 0 /\ list_lock (st_ag s2) = 0
    /\ word s2 (main_arena (st_gl s) + off_mutex) = 0
    /\ arena_is_corrupt s2 (main_arena (st_gl s)) = true
    /\ attached_threads s2 (main_arena (st_gl s)) = 0
    /\ forall x, x ∈ l -> word s2 (x + off_mutex) = 1 /\ flags s2 x = flags s x.
Proof.
  intros Hq Hf. pose proof (lock_parent_run _ _ _ Hq Hf) as Hrun.
  destruct Hq as (Hi & Hll & (Hr & Hn & Hd) & Hz). set (main := main_arena (st_gl s)) in *.
  exists (locked_state s l). unfold __shm_malloc_fork_unlock_child. mexec.
  rewrite locked_initialized, Hi. change (1 <? 1) with false.
  unfold free_list_lock_unlock, set_ag, mutex_init, set_arena_corrupt, list_lock_unlock, flags, word. mexec.
  eexists. split; [done|]. split; [reflexivity|].
  change (main_arena (st_gl (locked_state s l))) with main.
  unfold arena_is_corrupt, flags, attached_threads, word. cbn [with_mem locked_state upd_mem upd_ag st_mem st_ag st_gl].
  fold main. set (m1 := set_mutexes 1 (main :: l) (st_mem s)).
  set (g := <[main + off_attached_threads := 0]> _). set (f := ld g _ |w _).
  unfold off_flags, off_attached_threads, off_mutex in *.
  split; [by destruct (st_ag s)|]. split; [by destruct (st_ag s)|]. split; [by destruct (st_ag s)|].
  split; [unfold g; rewrite !ld_insert_ne, ld_insert_eq by lia; done|].
  split; [rewrite ld_insert_eq; by apply truthy_lor|].
  split; [unfold g; rewrite ld_insert_ne, ld_insert_eq by lia; done|].
  intros x Hx. assert (x <> main) as Hne by (apply list.NoDup_cons in Hn; set_solver).
  destruct (Hd x main) as [?|Hxm]; [set_solver|set_solver|done|]. unfold sizeof_malloc_state in Hxm.
  unfold g. rewrite !ld_insert_ne by lia. split; [apply set_mutexes_eq; set_solver|].
  apply set_mutexes_ne. intros y Hy. unfold off_mutex.
  destruct (Hd x y) as [->|H]; [set_solver|done|lia|unfold sizeof_malloc_state in H; lia].
Qed.

End Fork.

(** ** The free list *)

Section FreeList.
Context `{PS : PageSource}.

(** An arena that its last thread leaves is the next one handed out.
    When the thread exits, its arena goes to the front of the free list; the
    next thread gets it from there locked and attached, and the free list is
    what it was. *)
Theorem free_list_roundtrip (s : state) (a : Z) :
  thread_arena (st_ag s) = a -> a <> 0 -> attached_threads s a = 1 ->
  free_list_lock (st_ag s) = 0 -> word s (a + off_mutex) = 0 ->
  exists s1 s2, arena_thread_freeres s = Ok tt s1
    /\ thread_arena (st_ag s1) = 0 /\ free_list (st_ag s1) = a /\ next_free s1 a = free_list (st_ag s)
    /\ get_free_list s1 = Ok a s2
    /\ st_ag s2 = st_ag s /\ attached_threads s2 a = 1 /\ word s2 (a + off_mutex) = 1
    /\ forall c, c <> a + off_mutex -> c <> a + off_next_free -> word s2 c = word s c.
Proof.
  intros Hta Ha Hatt Hfl Hmu. destruct s as [m gl ag hk env os lg].
  destruct ag as [ta fl fll ll na am mi ah nu nl].
  unfold attached_threads, word in *. cbn in Hta, Hfl, Hatt, Hmu. subst ta fll.
  assert ((a =? 0) = false) as Ea by (by apply Z.eqb_neq).
  unfold arena_thread_freeres, get_free_list, set_ag, free_list_lock_lock, free_list_lock_unlock,
    detach_arena, mutex_lock, assert_, truthy, attached_threads, next_free, word.
  eexists. eexists.
  split; [ag_exec; rewrite Ea; ag_exec; change (0 =? 0) with true; ag_exec; rewrite Hatt;
          change (0 <? 1) with true; ag_exec; change (1 -w 1 =? 0) with true; ag_exec; reflexivity|].
  ag_exec. split; [done|]. split; [done|]. split; [apply ld_insert_eq|].
  split.
  - rewrite Ea; ag_exec. change (0 =? 0) with true; ag_exec. rewrite Ea; ag_exec.
    rewrite (ld_insert_ne _ (a + off_next_free) (a + off_attached_threads)), ld_insert_eq
      by (unfold off_next_free, off_attached_threads; lia).
    change (1 -w 1 =? 0) with true. ag_exec.
    rewrite !(ld_insert_ne _ _ (a + off_mutex)) by (unfold off_mutex, off_next_free, off_attached_threads; lia).
    rewrite Hmu. change (0 =? 0) with true. ag_exec. reflexivity.
  - ag_exec. rewrite ld_insert_eq. unfold off_mutex, off_next_free, off_attached_threads in *.
    split; [done|]. split; [rewrite ld_insert_ne, ld_insert_eq by lia; done|]. split; [apply ld_insert_eq|].
    intros c H1 H2. rewrite ld_insert_ne by lia. destruct (Z.eq_dec c (a + 2208)) as [->|].
    + rewrite ld_insert_eq. done.
    + rewrite !ld_insert_ne by lia. done.
Qed.

End FreeList.

(** ** Which arenas are handed out *)

Section Reuse.
Context `{PS : PageSource}.

Lemma reuse_trylock_sound fuel result stop (s s' : state) a :
  reuse_trylock fuel result stop s = Ok (Some a) s' -> arena_is_corrupt s a = false.
Proof.
  revert result. induction fuel as [|k IH]; intros result; [done|]. cbn [reuse_trylock]. mexec.
  destruct (arena_is_corrupt s result) eqn:E; mexec.
  - change (1 =? 0) with false. cbv iota. mexec. case_match; [done|]. apply IH.
  - unfold mutex_trylock. mexec. destruct (word s (result + off_mutex) =? 0); mexec.
    + change (0 =? 0) with true. mexec. by intros [= <- _].
    + change (16 =? 0) with false. cbv iota. mexec. case_match; [done|]. apply IH.
Qed.

Lemma reuse_trylock_same fuel result stop (s s' : state) :
  reuse_trylock fuel result stop s = Ok None s' -> s' = s.
Proof.
  revert result. induction fuel as [|k IH]; intros result; [done|]. cbn [reuse_trylock]. mexec.
  destruct (arena_is_corrupt s result) eqn:E; mexec.
  - change (1 =? 0) with false. cbv iota. mexec. case_match; [by intros [= <-]|]. apply IH.
  - unfold mutex_trylock. mexec. destruct (word s (result + off_mutex) =? 0); mexec.
    + change (0 =? 0) with true. mexec. done.
    + change (16 =? 0) with false. cbv iota. mexec. case_match; [by intros [= <-]|]. apply IH.
Qed.

Lemma reuse_search_sound fuel result begin avoid (s s' : state) a :
  reuse_search fuel result begin avoid s = Ok (Some a) s' ->
  s' = s /\ arena_is_corrupt s a = false /\ a <> avoid.
Proof.
  revert result. induction fuel as [|k IH]; intros result; [done|]. cbn [reuse_search]. mexec.
  destruct (arena_is_corrupt s result || (result =? avoid)) eqn:E; mexec.
  - case_match; [done|]. apply IH.
  - apply orb_false_iff in E as [? ?%Z.eqb_neq]. by intros [= <- <-].
Qed.

Lemma reuse_search_none fuel result begin avoid (s s' : state) :
  reuse_search fuel result begin avoid s = Ok None s' -> s' = s.
Proof.
  revert result. induction fuel as [|k IH]; intros result; [done|]. cbn [reuse_search]. mexec.
  destruct (arena_is_corrupt s result || (result =? avoid)) eqn:E; mexec; [|done].
  case_match; [by intros [= <-]|]. apply IH.
Qed.

Lemma reuse_attach_result fuel result (s s' : state) a :
  reuse_attach fuel result s = Ok a s' -> a = result /\ thread_arena (st_ag s') = result.
Proof.
  unfold reuse_attach, set_ag. mexec. repeat (case_match; try done). intros [= <- <-].
  split; [done|]. cbn. by match goal with |- context [st_ag ?x] => destruct (st_ag x) end.
Qed.

(** [reused_arena] never hands out an arena that was marked corrupt, and
    the thread that gets an arena is attached to that one. *)
Theorem reused_arena_healthy (fuel : nat) (avoid a : Z) (s s' : state) :
  reused_arena fuel avoid s = Ok a s' -> a <> 0 ->
  arena_is_corrupt s a = false /\ thread_arena (st_ag s') = a.
Proof.
  unfold reused_arena. mexec.
  set (s1 := if next_to_use (st_ag s) =? 0 then _ else _).
  assert (exists s0, s1 s = Ok tt s0 /\ forall x, arena_is_corrupt s0 x = arena_is_corrupt s x) as (s0 & -> & Hs0).
  { unfold s1, set_ag. destruct (next_to_use (st_ag s) =? 0); eexists; by split. }
  destruct (reuse_trylock _ _ _ s0) as [[b|] s2|? ?|?|?|] eqn:E1; try done; mexec.
  - apply reuse_trylock_sound in E1. intros [-> ?]%reuse_attach_result _. by rewrite <- Hs0.
  - apply reuse_trylock_same in E1 as ->.
    destruct (reuse_search _ _ _ _ s0) as [[b|] s3|? ?|?|?|] eqn:E2; try done; mexec.
    + apply reuse_search_sound in E2 as (-> & Hb & _).
      destruct (mutex_lock b s0) eqn:E3; try done. intros [-> ?]%reuse_attach_result _. by rewrite <- Hs0.
    + by intros [= <- _].
Qed.

Lemma reuse_trylock_corrupt fuel x l stop (s : state) :
  ring_from (st_mem s) x l stop -> stop ∉ l -> (length l < fuel)%nat ->
  (forall a, a ∈ x :: l -> arena_is_corrupt s a = true) ->
  reuse_trylock fuel x stop s = Ok None s.
Proof.
  revert fuel x. induction l as [|y l IH]; intros [|fuel] x Hr Hs Hf Hc; try (simpl in Hf; lia);
    cbn [reuse_trylock]; mexec; rewrite Hc by set_solver; mexec; change (1 =? 0) with false; mexec;
    unfold next, word; mexec.
  - simpl in Hr. by rewrite Hr, Z.eqb_refl.
  - destruct Hr as [-> Hr]. rewrite (proj2 (Z.eqb_neq y stop)) by set_solver.
    apply IH; [done|set_solver|simpl in Hf; lia|]. intros a Ha. apply Hc. set_solver.
Qed.

Lemma reuse_search_corrupt fuel x l begin avoid (s : state) :
  ring_from (st_mem s) x l begin -> begin ∉ l -> (length l < fuel)%nat ->
  (forall a, a ∈ x :: l -> arena_is_corrupt s a = true) ->
  reuse_search fuel x begin avoid s = Ok None s.
Proof.
  revert fuel x. induction l as [|y l IH]; intros [|fuel] x Hr Hs Hf Hc; try (simpl in Hf; lia);
    cbn [reuse_search]; mexec; rewrite Hc by set_solver; cbn [orb]; mexec; unfold next, word; mexec.
  - simpl in Hr. by rewrite Hr, Z.eqb_refl.
  - destruct Hr as [-> Hr]. rewrite (proj2 (Z.eqb_neq y begin)) by set_solver.
    apply IH; [done|set_solver|simpl in Hf; lia|]. intros a Ha. apply Hc. set_solver.
Qed.

(** When every arena of the ring is corrupt, [reused_arena] gives up after
    one turn: it returns [NULL] and has locked and changed nothing in memory. *)
Theorem reused_arena_gives_up (fuel : nat) (s : state) (l : list Z) :
  arena_ring (st_mem s) (main_arena (st_gl s)) l -> main_arena (st_gl s) <> 0 ->
  next_to_use (st_ag s) = 0 \/ next_to_use (st_ag s) = main_arena (st_gl s) ->
  (forall a, a ∈ main_arena (st_gl s) :: l -> arena_is_corrupt s a = true) ->
  (length l < fuel)%nat ->
  exists s', reused_arena fuel 0 s = Ok 0 s' /\ st_mem s' = st_mem s.
Proof.
  intros (Hr & Hn & _) Hm Hnext Hc Hf. apply list.NoDup_cons in Hn as [Hn _].
  unfold reused_arena. mexec.
  assert (exists s0, (if next_to_use (st_ag s) =? 0 then set_ag (put_next_to_use (main_arena (st_gl s)))
                      else ret tt) s = Ok tt s0 /\ st_mem s0 = st_mem s
                     /\ next_to_use (st_ag s0) = main_arena (st_gl s)) as (s0 & H0 & Hm0 & Hs0).
  { destruct Hnext as [E|E]; rewrite E.
    - exists (upd_ag (put_next_to_use (main_arena (st_gl s))) s). split; [done|]. split; [done|].
      cbn. by destruct (st_ag s).
    - rewrite (proj2 (Z.eqb_neq _ 0)) by done. by exists s. }
  cbv beta delta [ret] in H0. rewrite H0, Hs0.
  rewrite <- Hm0 in Hr. assert (forall a, a ∈ main_arena (st_gl s) :: l -> arena_is_corrupt s0 a = true) as Hc0.
  { intros a Ha. rewrite <- (Hc a Ha). unfold arena_is_corrupt, flags, word. by rewrite Hm0. }
  rewrite (reuse_trylock_corrupt _ _ _ _ _ Hr Hn Hf Hc0). mexec.
  rewrite (proj2 (Z.eqb_neq _ 0)) by done.
  rewrite (reuse_search_corrupt _ _ _ _ _ _ Hr Hn Hf Hc0). by exists s0.
Qed.

(** ** The limit on the number of arenas *)

(** How many arenas there may be; [None] is no limit.  The rules of the
    comment in [arena_get2]: a cached limit, else [arena_max], else no limit
    up to [arena_test] arenas, else what [NARENAS_FROM_NCORES] makes of the
    number of cores. *)
Definition arena_budget (s : state) : option Z :=
  if negb (narenas_limit (st_ag s) =? 0) then Some (narenas_limit (st_ag s))
  else if negb (arena_max (par s) =? 0) then Some (arena_max (par s))
  else if narenas (st_ag s) <=? arena_test (par s) then None
  else Some (NARENAS_FROM_NCORES (if 1 <=? nprocs (st_env s) then nprocs (st_env s) else 2)).

Definition in_budget (n : Z) (b : option Z) : bool :=
  match b with None => true | Some k => n <? k end.

Lemma below_limit n k : 0 < k < 18446744073709551616 -> (n <=? k -w 1) = (n <? k).
Proof. intros H. rewrite u64_small by lia. apply eq_true_iff_eq. rewrite Z.leb_le, Z.ltb_lt. lia. Qed.

(** [arena_get2] makes a new arena exactly when the number of arenas is
    below the budget, although it tests [n <= narenas_limit - 1] with a limit
    of zero standing for "none" and wrapping around.  [narenas] counts the new
    arena, and is put back when it could not be made. *)
Theorem arena_get2_budget (fuel : nat) (size avoid : Z) (s : state) :
  free_list (st_ag s) = 0 -> 0 < narenas (st_ag s) < 18446744073709551615 ->
  0 <= narenas_limit (st_ag s) < 18446744073709551616 ->
  0 <= arena_max (par s) < 18446744073709551616 ->
  let s1 := upd_ag (put_narenas_limit (narenas_limit_of s)) s in
  arena_get2 fuel size avoid s =
  if in_budget (narenas (st_ag s)) (arena_budget s) then
    match _int_new_arena size (upd_ag (put_narenas (narenas (st_ag s) + 1)) s1) with
    | Ok a s2 => Ok a (if a =? 0 then upd_ag (fun g => put_narenas (narenas g -w 1) g) s2 else s2)
    | r => r
    end
  else reused_arena fuel avoid s1.
Proof.
  intros Hfl Hn Hlim Hmax s1. unfold arena_get2, get_free_list. mexec. rewrite Hfl.
  change (0 =? 0) with true. mexec. change (negb (0 =? 0)) with false. mexec. unfold set_ag. mexec. fold s1.
  assert (narenas (put_narenas_limit (narenas_limit_of s) (st_ag s)) = narenas (st_ag s)) as -> by (by destruct (st_ag s)).
  assert (narenas_limit (put_narenas_limit (narenas_limit_of s) (st_ag s)) = narenas_limit_of s) as -> by (by destruct (st_ag s)).
  assert ((narenas (st_ag s) <=? narenas_limit_of s -w 1) = in_budget (narenas (st_ag s)) (arena_budget s)) as ->.
  { unfold narenas_limit_of, arena_budget, in_budget, NARENAS_FROM_NCORES.
    destruct (Z.eqb_spec (narenas_limit (st_ag s)) 0) as [E|E]; cbn [negb];
      [destruct (Z.eqb_spec (arena_max (par s)) 0); cbn [negb];
       [destruct (Z.ltb_spec (arena_test (par s)) (narenas (st_ag s)));
        [rewrite (proj2 (Z.leb_gt _ (arena_test _))) by lia
        |rewrite (proj2 (Z.leb_le (narenas _) (arena_test _))), E by lia]|]|].
    - case_match; apply below_limit; lia.
    - apply Z.leb_le. change (0 -w 1) with 18446744073709551615. lia.
    - apply below_limit; lia.
    - apply below_limit; lia. }
  destruct (in_budget _ _); [|done]. rewrite u64_small by lia.
  destruct (_int_new_arena _ _) as [a s2|? ?|?|?|]; try done. by destruct (a =? 0).
Qed.

End Reuse.

(** ** Examples *)

(** Two arenas, the main one attached to the thread; [f] is the flag word of
    the main arena, [g] that of the other one. *)
Definition two_arenas (f g : Z) : @state bump_source :=
  state_of (list_to_map [(4096 + off_next, 65568); (65568 + off_next, 4096);
    (4096 + off_flags, f); (65568 + off_flags, g); (4096 + off_attached_threads, 1)]) 4096.

Lemma two_arenas_ring f g : arena_ring (st_mem (two_arenas f g)) 4096 [65568].
Proof.
  split; [split; reflexivity|]. split; [by apply (bool_decide_unpack _)|].
  intros x y Hx Hy. unfold sizeof_malloc_state. set_unfold. lia.
Qed.

Lemma two_arenas_quiet f g : quiet (two_arenas f g) [65568].
Proof.
  split; [reflexivity|]. split; [reflexivity|]. split; [apply two_arenas_ring|].
  intros a Ha. change (main_arena (st_gl (two_arenas f g))) with 4096 in Ha.
  set_unfold. destruct Ha as [->|[->|[]]]; reflexivity.
Qed.

Lemma fork_parent_roundtrip_witness :
  exists s1 s2, __shm_malloc_fork_lock_parent 2 (two_arenas 0 0) = Ok tt s1
    /\ __shm_malloc_fork_unlock_parent 2 s1 = Ok tt s2.
Proof.
  destruct (fork_parent_roundtrip 2 (two_arenas 0 0) [65568]) as (s1 & s2 & H1 & _ & _ & H2 & _);
    [apply two_arenas_quiet|simpl; lia|]. by exists s1, s2.
Defined.

Lemma fork_child_state_witness :
  exists s1 s2, __shm_malloc_fork_lock_parent 2 (two_arenas 0 0) = Ok tt s1
    /\ __shm_malloc_fork_unlock_child s1 = Ok tt s2
    /\ arena_is_corrupt s2 4096 = true
    /\ word s2 (65568 + off_mutex) = 1 /\ flags s2 65568 = 0.
Proof.
  destruct (fork_child_state 2 (two_arenas 0 0) [65568])
    as (s1 & s2 & H1 & H2 & _ & _ & _ & _ & H3 & _ & H4); [apply two_arenas_quiet|simpl; lia|].
  exists s1, s2. split; [done|]. split; [done|]. split; [done|]. apply H4. set_solver.
Defined.

Lemma free_list_roundtrip_witness :
  exists s1 s2, arena_thread_freeres (two_arenas 0 0) = Ok tt s1 /\ get_free_list s1 = Ok 4096 s2.
Proof.
  destruct (free_list_roundtrip (two_arenas 0 0) 4096) as (s1 & s2 & H1 & _ & _ & _ & H2 & _);
    [reflexivity|lia|reflexivity|reflexivity|reflexivity|]. by exists s1, s2.
Defined.

Lemma reused_arena_healthy_witness :
  exists s', reused_arena 3 0 (two_arenas 4 0) = Ok 65568 s' /\ thread_arena (st_ag s') = 65568.
Proof.
  destruct (reused_arena 3 0 (two_arenas 4 0)) as [a s'|? ?|?|?|] eqn:E; try (vm_compute in E; discriminate).
  assert (a = 65568) as -> by (vm_compute in E; congruence).
  exists s'. split; [done|]. apply (reused_arena_healthy 3 0 65568 (two_arenas 4 0) s' E). lia.
Defined.

Lemma reused_arena_gives_up_witness :
  exists s', reused_arena 2 0 (two_arenas 4 4) = Ok 0 s'.
Proof.
  destruct (reused_arena_gives_up 2 (two_arenas 4 4) [65568]) as (s' & H & _);
    [apply two_arenas_ring|vm_compute; discriminate|left; reflexivity| |simpl; lia|by exists s'].
  intros a Ha. change (main_arena (st_gl (two_arenas 4 4))) with 4096 in Ha.
  set_unfold. destruct Ha as [->|[->|[]]]; reflexivity.
Defined.

(** With the default parameters a first request for another arena gets one:
    the limit is not known yet. *)
Lemma arena_get2_budget_witness :
  match arena_get2 2 100 0 (two_arenas 0 0) with
  | Ok a s2 => a <> 0 /\ a <> 4096 /\ narenas (st_ag s2) = 2
  | _ => False
  end.
Proof.
  rewrite (arena_get2_budget 2 100 0 (two_arenas 0 0)) by (vm_compute; try lia; split; congruence).
  vm_compute. repeat split; discriminate.
Defined.
