(* ===== verification/Ipc.v ===== *)
(** * Turn taking between the program and the isolated library

    [IpcCommunication] and [CallbackManager] of
    [src/libipc/ipc_communication.cpp]: two processes hand each other the turn
    with two System V semaphores and exchange messages through two buffers of
    the shared memory.  Each side's position in [trigger_ipc_call] and
    [wait_for_return] is explicit, and a step of the system is one step of one
    side, so that every interleaving is an execution.

    Modelled: the semaphores, the head of the messages ([communication_t]),
    [sending_is_blocked], [errno], nested calls, the removal of the semaphores
    by [terminate], the end of the application.  Not modelled: [sending_lock]
    (off unless concurrent communication is asked for), the arguments and
    results that the generated stubs put behind the head of the message, an
    exception that leaves the application's own [wait_for_return], [exit]
    called by a handler of the library or by a failed
    [remap_shared_memory]. *)

From S2P Require Import Prelude.

(** ** The two processes *)

(** The application and the library; the library's [sending_*] fields are
    the application's [receiving_*] fields ([switch_sender_receiver]). *)
Inductive side := Par | Lib.

#[export] Instance side_eq_dec : EqDecision side.
Proof. solve_decision. Defined.

Definition other (x : side) : side := match x with Par => Lib | Lib => Par end.

(** [communication_t]. *)
Record message := mkMsg { m_code : Z; m_errno : Z; m_callback : Z }.

(** Where a process is. *)
Inductive pc :=
| Own          (* its own code: the application, or a handler *)
| Triggering   (* [trigger_ipc_call], before [semop] *)
| Triggered    (* after [semop], before [sending_is_blocked = true] *)
| Waiting      (* [wait_for_return], at the first [semop] *)
| Received     (* after it, before the message is read *)
| Answering    (* the handler is done; before [sending_is_blocked = true] *)
| Posting      (* before the second [semop] *)
| Dying        (* the library's [catch] block, before [terminate] *)
| Gone.        (* the process has exited *)

(** A process: [depth] counts the active calls of [wait_for_return]; [sem] is
    the value of the semaphore it increments, [out] the head of [sending_data]. *)
Record proc := mkProc {
  p_pc : pc; depth : Z; sending_is_blocked : bool; p_errno : Z; ipc_count : Z;
  sem : Z; out : message
}.

(** [removed]: the semaphores were removed; [warnings] counts the lines
    beginning with [WARN] that were printed. *)
Record sys := mkSys { par_ : proc; lib_ : proc; removed : bool; warnings : Z }.

Definition proc_of (x : side) (s : sys) : proc := match x with Par => par_ s | Lib => lib_ s end.
Definition put_proc (x : side) (p : proc) (s : sys) : sys :=
  match x with
  | Par => mkSys p (lib_ s) (removed s) (warnings s)
  | Lib => mkSys (par_ s) p (removed s) (warnings s)
  end.
Definition warn_if (b : bool) (s : sys) : sys :=
  if b then mkSys (par_ s) (lib_ s) (removed s) (warnings s + 1) else s.

Definition at_pc (c : pc) (p : proc) : proc :=
  mkProc c (depth p) (sending_is_blocked p) (p_errno p) (ipc_count p) (sem p) (out p).
Definition put_depth (d : Z) (p : proc) : proc :=
  mkProc (p_pc p) d (sending_is_blocked p) (p_errno p) (ipc_count p) (sem p) (out p).
Definition put_blocked (b : bool) (p : proc) : proc :=
  mkProc (p_pc p) (depth p) b (p_errno p) (ipc_count p) (sem p) (out p).
Definition put_errno_ (e : Z) (p : proc) : proc :=
  mkProc (p_pc p) (depth p) (sending_is_blocked p) e (ipc_count p) (sem p) (out p).
Definition count_call (p : proc) : proc :=
  mkProc (p_pc p) (depth p) (sending_is_blocked p) (p_errno p) (ipc_count p + 1) (sem p) (out p).
Definition put_sem (v : Z) (p : proc) : proc :=
  mkProc (p_pc p) (depth p) (sending_is_blocked p) (p_errno p) (ipc_count p) v (out p).
Definition put_out (m : message) (p : proc) : proc :=
  mkProc (p_pc p) (depth p) (sending_is_blocked p) (p_errno p) (ipc_count p) (sem p) m.
Definition put_code (c : Z) (p : proc) : proc :=
  put_out (mkMsg c (m_errno (out p)) (m_callback (out p))) p.
(** [sending_data->libc_errno = errno]. *)
Definition save_errno (p : proc) : proc :=
  put_out (mkMsg (m_code (out p)) (p_errno p) (m_callback (out p))) p.

(** [semop (sending_semaphore, &sema_inc, 1)]. *)
Definition post (s : sys) (p : proc) : proc := if removed s then p else put_sem (sem p + 1) p.

(** [terminate]: both semaphores are removed. *)
Definition terminate (s : sys) : sys := mkSys (par_ s) (lib_ s) true (warnings s).

(** The destructor of the application's instance, when the program does not
    fork ([is_forked] and [is_forking] are false). *)
Definition ipc_destroy (p : proc) (s : sys) : sys := terminate (put_proc Par (at_pc Gone p) s).

(** ** Steps *)

(** What a side can do; the stubs choose the codes. *)
Inductive action :=
| Compute (e : Z)               (* own code changes [errno] *)
| Call (code callback : Z)      (* a stub writes the message and calls [trigger_ipc_call] *)
| Return_ (code : Z)            (* a handler writes its code and returns *)
| Throw                         (* a handler of the library throws *)
| Finish                        (* the application ends, also inside a callback *)
| Step.                         (* the next step of the communication code *)

(** [wait_for_return] returns: to the code that called it, or, from the
    library's outermost call, to the end of [child_process_main]. *)
Definition return_from_wait (x : side) (p : proc) (s : sys) : sys :=
  let p := put_depth (depth p - 1) p in
  match x with
  | Lib => if depth p =? 0 then terminate (put_proc x (at_pc Gone p) s)
           else put_proc x (at_pc Own p) s
  | Par => put_proc x (at_pc Own p) s
  end.

(** The dispatch on the received code. *)
Definition dispatch (x : side) (p : proc) (s : sys) : sys :=
  let m := out (proc_of (other x) s) in
  let p := put_errno_ (m_errno m) p in
  if m_code m =? 1 then return_from_wait x p s
  else if m_code m =? -1 then terminate (put_proc x (at_pc Gone p) s)
  else if 2 <=? m_code m then put_proc x (at_pc Own p) s   (* [execute] or [processor] *)
  else put_proc x (at_pc Answering p) s.                   (* "Invalid return code" *)

(** [trigger_ipc_call] and [wait_for_return], one step. *)
Definition comm_step (x : side) (s : sys) : option sys :=
  let p := proc_of x s in
  match p_pc p with
  | Triggering =>
      Some (put_proc x (at_pc Triggered (post s p)) (warn_if (sending_is_blocked p) s))
  | Triggered => Some (put_proc x (put_depth (depth p + 1) (put_blocked true (at_pc Waiting p))) s)
  | Waiting =>
      if removed s then Some (put_proc x (at_pc Gone p) s)   (* [EIDRM], [EINVAL] *)
      else
        let q := proc_of (other x) s in
        if 0 <? sem q then
          Some (put_proc x (put_blocked false (at_pc Received p))
                 (put_proc (other x) (put_sem (sem q - 1) q)
                    (warn_if (negb (sending_is_blocked p)) s)))
        else None
  | Received => Some (dispatch x p s)
  | Answering =>
      Some (put_proc x (put_blocked true (at_pc Posting (save_errno p))) (warn_if (sending_is_blocked p) s))
  | Posting =>
      if removed s then Some (put_proc x (at_pc Gone p) s)
      else Some (put_proc x (at_pc Waiting (post s p)) s)
  | Dying => Some (terminate (put_proc x (at_pc Gone p) s))
  | Own | Gone => None
  end.

Definition exec (x : side) (a : action) (s : sys) : option sys :=
  let p := proc_of x s in
  match a, p_pc p with
  | Step, _ => comm_step x s
  | Compute e, Own => Some (put_proc x (put_errno_ e p) s)
  | Call c cb, Own =>
      let p := put_out (mkMsg c (m_errno (out p)) cb) p in
      Some (put_proc x (at_pc Triggering (save_errno (count_call p))) s)
  | Return_ c, Own =>
      if 0 <? depth p then Some (put_proc x (at_pc Answering (put_code c p)) s) else None
  | Throw, Own =>
      match x with
      | Lib => Some (put_proc x (at_pc Dying (post s (put_code (-1) p))) s)
      | Par => None
      end
  | Finish, Own => match x with Par => Some (ipc_destroy p s) | Lib => None end
  | _, _ => None
  end.

(** After [fork_receiving_process]: the application runs its own code, and
    the library is in the [wait_for_return] of [child_process_main]. *)
Definition ipc_init (e1 e2 : Z) : sys :=
  mkSys (mkProc Own 0 false e1 0 0 (mkMsg 0 0 0)) (mkProc Waiting 1 true e2 0 0 (mkMsg 0 0 0)) false 0.

(** The states an execution can reach, when the actions satisfy [ok]. *)
Inductive reach (ok : action -> Prop) (e1 e2 : Z) : sys -> Prop :=
| reach_init : reach ok e1 e2 (ipc_init e1 e2)
| reach_exec x a s s' : reach ok e1 e2 s -> ok a -> exec x a s = Some s' -> reach ok e1 e2 s'.

(** Runs in which no handler throws and the application does not end, with the
    codes the generated stubs use: a function's code is at least 3, a callback
    has code 2, and a handler answers with 1
    ([src/cali-linker/modules/communication_pair.cpp]). *)
Definition stub_code (a : action) : Prop :=
  match a with Call c _ => 2 <= c | Return_ c => c = 1 | Throw | Finish => False | _ => True end.

(** ** Callbacks *)

Definition CALLBACK_MAX_RESERVED : Z := 5.

Record callback_entry := mkEntry { callback : Z; wrapper : Z }.

(** [callback_numbers] and [callback_functions] of [CallbackManager]. *)
Record callback_manager := mkCM {
  callback_numbers : gmap Z Z; callback_functions : list callback_entry }.

Definition callback_needs_wrapping (cb : Z) : bool :=
  negb (cb =? 0) && negb (cb =? 18446744073709551615) && (CALLBACK_MAX_RESERVED <? cb).

(** The constructor: entry 0 and the reserved numbers. *)
Definition cm_init : callback_manager :=
  mkCM ∅ (mkEntry 0 0 :: map (fun n => mkEntry (Z.of_nat n) (Z.of_nat n)) (seq 1 5)).

Definition wrap_outgoing_callback (cb w : Z) (cm : callback_manager) : Z * callback_manager :=
  if negb (callback_needs_wrapping cb) then (cb, cm)
  else
    match callback_numbers cm !! cb with
    | Some n => (n, cm)
    | None =>
        let fs := callback_functions cm ++ [mkEntry cb w] in
        (Z.of_nat (length fs) - 1, mkCM (callback_numbers cm) fs)
    end.

(** [callback_functions.at (callback)]: the entry whose wrapper is called;
    [None] is [std::out_of_range]. *)
Definition execute (cb : Z) (cm : callback_manager) : option callback_entry :=
  if cb <? 0 then None else callback_functions cm !! Z.to_nat cb.
