(* ===== verification/IpcProps.v ===== *)
(** * The two processes take turns

    Invariants of every interleaving of [Ipc.exec]: one token, no warning, no
    deadlock, [errno] travels with the turn, calls and returns nest; and the
    round trip of callbacks through the table. *)

From S2P Require Import Prelude Ipc.

(** The process holds the turn: nobody else may touch the shared memory. *)
Definition active (c : pc) : bool :=
  match c with Own | Triggering | Received | Answering | Posting => true | _ => false end.

Definition hold (p : proc) : Z := if active (p_pc p) then 1 else 0.

(** What [sending_is_blocked] is at each position. *)
Definition flag_ok (p : proc) : Prop :=
  match p_pc p with
  | Waiting | Posting => sending_is_blocked p = true
  | Dying | Gone => True
  | _ => sending_is_blocked p = false
  end.

Definition proc_inv (r : bool) (p : proc) : Prop :=
  0 <= sem p /\ flag_ok p /\ (p_pc p = Gone -> r = true).

Definition tokens (s : sys) : Z := sem (par_ s) + sem (lib_ s) + hold (par_ s) + hold (lib_ s).

Record turn_inv (s : sys) : Prop := {
  ti_par : proc_inv (removed s) (par_ s);
  ti_lib : proc_inv (removed s) (lib_ s);
  ti_most : tokens s <= 1;
  ti_one : removed s = false -> tokens s = 1;
  ti_warn : warnings s = 0
}.

Lemma turn_inv_init e1 e2 : turn_inv (ipc_init e1 e2).
Proof. by repeat split. Qed.

(** Opens one step of one side; the other side stays a variable. *)
Ltac open_step H :=
  unfold exec, comm_step, dispatch, return_from_wait, ipc_destroy, terminate, post, warn_if in H; cbn in H.

(** Leaves one case per branch of the step. *)
Ltac step_cases H :=
  repeat (case_match; try discriminate); simplify_eq; bool_hyps; cbn in *.

Lemma hold_range p : 0 <= hold p <= 1.
Proof. unfold hold. by case_match. Qed.

#[local] Arguments hold : simpl never.
#[local] Arguments flag_ok : simpl never.

(** Closes what is left of an invariant after a step. *)
Ltac close_inv :=
  unfold at_pc, put_depth, put_blocked, put_errno_, count_call, put_sem, put_code, save_errno, put_out in *;
  cbn in *;
  repeat match goal with
  | |- context [hold (mkProc (p_pc ?q) _ _ _ _ _ _)] =>
      match goal with |- context [hold ?h] => match h with mkProc _ _ _ _ _ _ _ => change (hold h) with (hold q) end end
  | H : context [hold (mkProc ?c ?d ?b ?e ?n ?v ?m)] |- _ =>
      change (hold (mkProc c d b e n v m)) with (if active c then 1 else 0) in H; cbn in H
  | |- context [hold (mkProc ?c ?d ?b ?e ?n ?v ?m)] =>
      change (hold (mkProc c d b e n v m)) with (if active c then 1 else 0); cbn
  end; try done; try lia; auto.

Lemma turn_inv_exec x a s s' : turn_inv s -> exec x a s = Some s' -> turn_inv s'.
Proof.
  destruct s as [pa li r w]. intros [(Hps & Hpf & Hpg) (Hls & Hlf & Hlg) Hm Ho Hw] H.
  unfold tokens in *. cbn in *. subst w.
  pose proof (hold_range pa). pose proof (hold_range li).
  destruct x; [destruct pa as [c d b e n v m]|destruct li as [c d b e n v m]]; cbn in *;
    destruct c, a; try discriminate; open_step H;
    match goal with F : flag_ok (mkProc _ _ _ _ _ _ _) |- _ => cbv in F; rename F into Hb end;
    step_cases H; split; unfold tokens, proc_inv; cbn; repeat split; intros; close_inv.
Qed.

Lemma reach_turn_inv ok e1 e2 s : reach ok e1 e2 s -> turn_inv s.
Proof. induction 1; [apply turn_inv_init|eauto using turn_inv_exec]. Qed.

(** C7: the two processes never run at the same time.  In every reachable
    state at most one side is between receiving the turn and handing it on,
    the warnings about [sending_is_blocked] are never printed, and as long as
    the semaphores exist there is exactly one turn, held by one side or on its
    way in a semaphore. *)
Theorem ipc_one_turn (e1 e2 : Z) (s : sys) :
  reach (fun _ => True) e1 e2 s ->
  active (p_pc (par_ s)) && active (p_pc (lib_ s)) = false
  /\ warnings s = 0
  /\ (removed s = false -> tokens s = 1).
Proof.
  intros [Hp Hl Hm Ho Hw]%reach_turn_inv. split; [|done].
  destruct Hp as [? _], Hl as [? _]. unfold tokens, hold in Hm.
  destruct (active (p_pc (par_ s))), (active (p_pc (lib_ s))); cbn in *; done || lia.
Qed.

(** C28: no deadlock.  As long as the semaphores exist, one of the two sides
    runs code of its own or can take the next step of the protocol. *)
Theorem ipc_no_deadlock (e1 e2 : Z) (s : sys) :
  reach (fun _ => True) e1 e2 s -> removed s = false ->
  exists x, p_pc (proc_of x s) = Own \/ is_Some (comm_step x s).
Proof.
  intros [(Hps & _ & Hpg) (Hls & _ & Hlg) _ Ho _]%reach_turn_inv Hr. specialize (Ho Hr).
  unfold tokens, hold in Ho. unfold comm_step.
  destruct (p_pc (par_ s)) eqn:Ep;
    try (exists Par; cbn; rewrite Ep; first [by left|right; rewrite ?Hr; by eexists]);
    (destruct (p_pc (lib_ s)) eqn:El;
     try (exists Lib; cbn; rewrite El; first [by left|right; rewrite ?Hr; by eexists]));
    try (rewrite Hlg in Hr by done; done); try (rewrite Hpg in Hr by done; done); cbn in Ho.
  destruct (Z.eq_dec (sem (lib_ s)) 0) as [E|E].
  - exists Lib. right. cbn. rewrite El, Hr, (proj2 (Z.ltb_lt _ _)) by lia. by eexists.
  - exists Par. right. cbn. rewrite Ep, Hr, (proj2 (Z.ltb_lt _ _)) by lia. by eexists.
Qed.

(** ** [errno] *)

(** The message of [p] carries its [errno], when it is about to post the
    message, or the message is under way to [q]. *)
Definition errno_sent (p q : proc) : Prop :=
  p_pc p = Triggering \/ p_pc p = Posting
  \/ ((0 < sem p \/ p_pc q = Received) /\ p_pc p <> Dying /\ p_pc p <> Gone) ->
  m_errno (out p) = p_errno p.

Lemma errno_sent_exec x a s s' :
  turn_inv s -> errno_sent (par_ s) (lib_ s) /\ errno_sent (lib_ s) (par_ s) ->
  exec x a s = Some s' -> errno_sent (par_ s') (lib_ s') /\ errno_sent (lib_ s') (par_ s').
Proof.
  destruct s as [pa li r w]. intros [(Hps & _) (Hls & _) Hm _ _] [Ep El] H.
  unfold tokens, errno_sent in *. cbn in *.
  assert (p_pc pa = Received -> hold pa = 1) as Rp by (unfold hold; by intros ->).
  assert (p_pc li = Received -> hold li = 1) as Rl by (unfold hold; by intros ->).
  pose proof (hold_range pa). pose proof (hold_range li).
  destruct x; [destruct pa as [c d b e n v m]|destruct li as [c d b e n v m]]; cbn in *;
    destruct c, a; try discriminate; open_step H; step_cases H; close_inv; split;
    intros [?|[?|[[?|?] [? ?]]]]; try done; try lia;
    try match goal with R : ?p = Received -> _ = 1, H : ?p = Received |- _ => specialize (R H); lia end;
    (apply Ep || apply El); intuition (done || lia).
Qed.

Lemma reach_errno_sent ok e1 e2 s :
  reach ok e1 e2 s -> errno_sent (par_ s) (lib_ s) /\ errno_sent (lib_ s) (par_ s).
Proof.
  induction 1 as [|x a s s' H IH _ E].
  - split; intros [?|[?|[[?|?] _]]]; done.
  - eapply errno_sent_exec; [eapply reach_turn_inv, H|done|done].
Qed.

(** [errno] travels with the turn.  When a side reads a message, its
    [errno] becomes that of the side that sent it, whatever both did before. *)
Theorem ipc_errno_travels (e1 e2 : Z) (x : side) (s s' : sys) :
  reach (fun _ => True) e1 e2 s -> p_pc (proc_of x s) = Received ->
  p_pc (proc_of (other x) s) <> Dying -> p_pc (proc_of (other x) s) <> Gone ->
  exec x Step s = Some s' -> p_errno (proc_of x s') = p_errno (proc_of (other x) s).
Proof.
  intros [Hp Hl]%reach_errno_sent Hx H1 H2. unfold exec, comm_step. rewrite Hx. intros [= <-].
  assert (m_errno (out (proc_of (other x) s)) = p_errno (proc_of (other x) s)) as E.
  { destruct x; [apply Hl|apply Hp]; right; right; (split; [by right|done]). }
  unfold dispatch, return_from_wait. rewrite <- E. destruct x; cbn; repeat case_match; done.
Qed.

(** ** Nesting of calls *)

(** The depth, with the call that [trigger_ipc_call] has announced. *)
Definition depth' (p : proc) : Z := depth p + match p_pc p with Triggered => 1 | _ => 0 end.

(** How deep the two sides are when [x] has the turn. *)
Definition level (x : side) (s : sys) : Prop :=
  match x with
  | Par => depth' (par_ s) = depth' (lib_ s) - 1
  | Lib => depth' (par_ s) = depth' (lib_ s)
  end.

(** A message from [x] is under way. *)
Definition under_way (x : side) (s : sys) : Prop :=
  0 < sem (proc_of x s) \/ p_pc (proc_of (other x) s) = Received.

Record nest_inv (x : side) (s : sys) : Prop := {
  ni_level : active (p_pc (proc_of x s)) = true -> p_pc (proc_of x s) <> Received -> level x s;
  ni_call : p_pc (proc_of x s) = Triggering \/ p_pc (proc_of x s) = Triggered -> 2 <= m_code (out (proc_of x s));
  ni_return : p_pc (proc_of x s) = Answering \/ p_pc (proc_of x s) = Posting -> m_code (out (proc_of x s)) = 1;
  ni_way : under_way x s ->
    (m_code (out (proc_of x s)) = 1 /\ level x s /\ 1 <= depth' (proc_of x s))
    \/ (2 <= m_code (out (proc_of x s)) /\ level (other x) s);
  ni_deep : p_pc (proc_of x s) <> Own -> p_pc (proc_of x s) <> Triggering -> 1 <= depth' (proc_of x s);
  ni_nonneg : 0 <= depth (proc_of x s);
  ni_alive : p_pc (proc_of x s) <> Gone /\ p_pc (proc_of x s) <> Dying
}.

(** Uses the implications whose premise holds, drops the others. *)
Ltac use_facts :=
  repeat match goal with
  | H : ?P -> ?Q |- _ =>
      match type of P with Prop => idtac end;
      first [let K := fresh in
             assert (K : P) by (first [done | lia | by left | by right | left; lia | right; lia]); specialize (H K); clear K
            |clear H]
  end.

Lemma nest_inv_exec x a s s' :
  stub_code a -> turn_inv s -> removed s = false ->
  nest_inv Par s -> nest_inv Lib s -> exec x a s = Some s' ->
  nest_inv Par s' /\ nest_inv Lib s' /\ removed s' = false.
Proof.
  destruct s as [[c d b e n v m] [c' d' b' e' n' v' m'] r w].
  intros Hok [(Hps & _) (Hls & _) Hm Ho _] Hr [] [] H.
  cbn in Hr. subst r. specialize (Ho eq_refl). clear Hm.
  unfold tokens, under_way, level, stub_code, depth', hold in *. cbn in *.
  destruct x, c, c'; cbn in *; try lia; try (by destruct ni_alive0); try (by destruct ni_alive1);
    destruct (Z_lt_ge_dec 0 v), (Z_lt_ge_dec 0 v'); try lia; use_facts; destruct a; open_step H; try discriminate; step_cases H; try done; try (exfalso; lia);
    (split; [|split; [|done || lia]]); split; unfold level, under_way, depth'; cbn; intros;
    try done; try lia; try (intuition (done || lia)).
Qed.

Lemma reach_nest_inv e1 e2 s :
  reach stub_code e1 e2 s -> nest_inv Par s /\ nest_inv Lib s /\ removed s = false.
Proof.
  induction 1 as [|x a s s' H IH Hok E].
  - split; [|split; [|done]]; split; cbn; unfold level, under_way, depth'; cbn; try done; try lia;
      intros; intuition (done || lia).
  - destruct IH as (? & ? & ?). eapply nest_inv_exec; eauto using reach_turn_inv.
Qed.

(** The calls that are open, the innermost first, each by its caller: a call
    is pushed, an answer that is read ends the first one. *)
Definition answer_read (x : side) (s : sys) : bool :=
  match p_pc (proc_of x s) with Received => m_code (out (proc_of (other x) s)) =? 1 | _ => false end.

Definition track (x : side) (a : action) (s : sys) (open : list side) : list side :=
  match a with
  | Call _ _ => x :: open
  | Step => if answer_read x s then tail open else open
  | _ => open
  end.

Inductive nested (e1 e2 : Z) : list side -> sys -> Prop :=
| nested_init : nested e1 e2 [] (ipc_init e1 e2)
| nested_exec x a s s' open :
    nested e1 e2 open s -> stub_code a -> exec x a s = Some s' -> nested e1 e2 (track x a s open) s'.

Lemma nested_reach e1 e2 open s : nested e1 e2 open s -> reach stub_code e1 e2 s.
Proof. induction 1; [constructor|eauto using reach_exec]. Qed.

Lemma reach_nested e1 e2 s : reach stub_code e1 e2 s -> exists open, nested e1 e2 open s.
Proof. induction 1 as [|x a s s' _ [open IH] Ha E]; [eexists; constructor|eauto using nested_exec]. Qed.

(** Calls alternate: the application makes the outermost one. *)
Fixpoint callers (n : nat) : list side :=
  match n with O => [] | S k => (if Nat.even k then Par else Lib) :: callers k end.

(** The calls of [wait_for_return] a side is in or about to enter. *)
Definition entered (p : proc) : Z := depth' p + match p_pc p with Triggering => 1 | _ => 0 end.

(** The open calls are those of both sides together; the library's outermost
    wait is no call. *)
Definition balanced (open : list side) (s : sys) : Prop :=
  open = callers (length open) /\ entered (par_ s) = (Z.of_nat (length open) + 1) / 2
  /\ entered (lib_ s) = 1 + Z.of_nat (length open) / 2.

Lemma even_half k : Nat.even k = true <-> (Z.of_nat k + 1) / 2 = Z.of_nat k / 2.
Proof.
  rewrite Nat.even_spec. split.
  - intros [m ->]. zlia.
  - intros H. exists (Z.to_nat (Z.of_nat k / 2)). zlia.
Qed.

#[local] Arguments entered : simpl never.

(** How a step changes the number of calls entered. *)
Lemma entered_exec x a s s' :
  exec x a s = Some s' ->
  entered (proc_of x s') = entered (proc_of x s)
    + match a with Ipc.Call _ _ => 1 | Step => if answer_read x s then -1 else 0 | _ => 0 end
  /\ entered (proc_of (other x) s') = entered (proc_of (other x) s).
Proof.
  destruct s as [pa li r w]. unfold answer_read.
  destruct x; [destruct pa as [c d b e n v m]|destruct li as [c d b e n v m]]; cbn [proc_of other par_ lib_];
    intros H; destruct c, a; try discriminate; open_step H; step_cases H; cbn [proc_of other put_proc par_ lib_];
    unfold entered, depth'; cbn; (split; [lia|done]).
Qed.

(** The side that has the turn, or whose message is read, knows who made the
    innermost call. *)
Lemma level_entered x s :
  turn_inv s -> active (p_pc (proc_of x s)) = true -> p_pc (proc_of x s) <> Triggering ->
  entered (proc_of x s) = depth' (proc_of x s) /\ entered (proc_of (other x) s) = depth' (proc_of (other x) s).
Proof.
  intros [(Hp & _) (Hl & _) Hm _ _] Ha Hx. unfold tokens, hold, entered in *.
  destruct x; cbn [proc_of other] in *; rewrite Ha in Hm;
    [destruct (p_pc (par_ s)), (p_pc (lib_ s))|destruct (p_pc (lib_ s)), (p_pc (par_ s))]; cbn in *; try done; lia.
Qed.

Lemma balanced_turn x s open :
  balanced open s -> turn_inv s -> active (p_pc (proc_of x s)) = true -> p_pc (proc_of x s) <> Triggering ->
  (level x s <-> x = if Nat.even (length open) then Par else Lib).
Proof.
  intros (_ & Hp & Hl) Ht Ha Hx. destruct (level_entered x s Ht Ha Hx) as [E1 E2].
  pose proof (even_half (length open)) as Hev. destruct (Nat.even (length open)) eqn:E.
  - specialize (proj1 Hev eq_refl) as Hh. destruct x; cbn [proc_of other level] in *; split; try done; lia.
  - assert ((Z.of_nat (length open) + 1) / 2 = Z.of_nat (length open) / 2 + 1) as Hh by (assert (~ (Z.of_nat (length open) + 1) / 2 = Z.of_nat (length open) / 2) by (intros H%Hev; done); zlia).
    destruct x; cbn [proc_of other level] in *; split; try done; lia.
Qed.


(** The answer that is read ends the innermost call. *)
Lemma answer_innermost e1 e2 x s open :
  reach stub_code e1 e2 s -> balanced open s -> answer_read x s = true -> exists rest, open = x :: rest.
Proof.
  intros Hr Hb Hans. pose proof (reach_turn_inv _ _ _ _ Hr) as Ht. destruct (reach_nest_inv _ _ _ Hr) as (Hp & Hl & _).
  unfold answer_read in Hans. destruct (p_pc (proc_of x s)) eqn:Ex; try discriminate. apply Z.eqb_eq in Hans.
  assert (active (p_pc (proc_of x s)) = true) as Ha by (by rewrite Ex). assert (p_pc (proc_of x s) <> Triggering) as Hx by (by rewrite Ex).
  pose proof (balanced_turn x s open Hb Ht Ha Hx) as Hturn. destruct (level_entered x s Ht Ha Hx) as [E1 E2].
  assert (level (other x) s /\ 1 <= depth' (proc_of (other x) s)) as [Hlev Hd].
  { assert (under_way (other x) s) as Hw by (right; by destruct x).
    destruct x; cbn [other proc_of] in *; [destruct (ni_way _ _ Hl Hw) as [(_ & ? & ?)|[? _]]|destruct (ni_way _ _ Hp Hw) as [(_ & ? & ?)|[? _]]]; cbn [proc_of] in *; (done || lia). }
  assert (~ level x s) as Hnot by (destruct x; cbn [level other] in *; lia).
  destruct Hb as (Hopen & Hbp & Hbl). assert (0 < length open)%nat as Hpos.
  { destruct (length open) as [|k]; [|lia]. cbn in Hturn. destruct x; [exfalso; by apply Hnot, Hturn|]. cbn [proc_of other] in *. rewrite E2 in Hbp. change ((Z.of_nat 0 + 1) / 2) with 0 in Hbp. lia. }
  destruct open as [|y rest]; [cbn in Hpos; lia|]. cbn [length callers] in Hopen. injection Hopen as Hy _.
  exists rest. f_equal. cbn [length] in Hturn. rewrite Nat.even_succ, <- Nat.negb_even in Hturn. rewrite Hy.
  destruct (Nat.even (length rest)), x; cbn in Hturn; try done; exfalso; apply Hnot; by apply Hturn.
Qed.

Lemma balanced_exec e1 e2 x a s s' open :
  reach stub_code e1 e2 s -> balanced open s -> exec x a s = Some s' -> balanced (track x a s open) s'.
Proof.
  intros Hr Hb E. pose proof (reach_turn_inv _ _ _ _ Hr) as Ht. destruct (reach_nest_inv _ _ _ Hr) as (Hp & Hl & _).
  pose proof (entered_exec x a s s' E) as [E1 E2]. pose proof Hb as (Hopen & Hbp & Hbl).
  assert (match a with Ipc.Call _ _ => False | Step => answer_read x s = false | _ => True end -> balanced (track x a s open) s') as Hsame.
  { intros Hs. assert (track x a s open = open) as -> by (destruct a; try done; cbn; by rewrite Hs).
    assert (entered (par_ s') = entered (par_ s) /\ entered (lib_ s') = entered (lib_ s)) as [H1 H2].
    { destruct a; try done; try rewrite Hs in E1; destruct x; cbn [proc_of other] in *; lia. }
    split; [done|]. lia. }
  destruct a as [e|code cb|code| | |]; try (by apply Hsame).
  - assert (p_pc (proc_of x s) = Own) as Ex by (unfold exec in E; by destruct (p_pc (proc_of x s))).
    assert (level x s) as Hlev by (destruct x; [apply (ni_level _ _ Hp)|apply (ni_level _ _ Hl)]; by rewrite Ex).
    apply (balanced_turn x s open Hb Ht) in Hlev; [|by rewrite Ex|by rewrite Ex].
    cbn [track length]. split; [cbn [length callers]; congruence|]. pose proof (even_half (length open)) as Hev. cbn [length].
    destruct (Nat.even (length open)); subst x; cbn [proc_of other] in *; [specialize (proj1 Hev eq_refl) as Hh|
      assert ((Z.of_nat (length open) + 1) / 2 <> Z.of_nat (length open) / 2) as Hh by (intros H%Hev; done)]; zlia.
  - destruct (answer_read x s) eqn:Ea; [|by apply Hsame]. destruct (answer_innermost _ _ _ _ _ Hr Hb Ea) as [rest ->].
    cbn [track]. rewrite Ea. cbn [tail length callers] in *. injection Hopen as Hx Hrest. split; [done|].
    pose proof (even_half (length rest)) as Hev. destruct (Nat.even (length rest)); subst x; cbn [proc_of other] in *;
      [specialize (proj1 Hev eq_refl) as Hh|assert ((Z.of_nat (length rest) + 1) / 2 <> Z.of_nat (length rest) / 2) as Hh by (intros H%Hev; done)]; zlia.
Qed.

Lemma nested_balanced e1 e2 open s : nested e1 e2 open s -> balanced open s.
Proof. induction 1 as [|x a s s' open Hn IH Ha E]; [done|]. eapply balanced_exec; eauto using nested_reach. Qed.

(** C29: calls and returns nest.  While no handler throws and the application
    does not end, and with the codes of the generated stubs, the semaphores stay
    and both processes stay; the open calls form a stack on which the two
    processes alternate, the application below; an answer that is read ends
    the innermost call, which its reader has made, and the reader goes on; a
    process that runs its own code serves the innermost call, and the
    application is outside every call when there is none.  In numbers: each side
    waits once for every call of its own that is open, the library once more. *)
Theorem ipc_calls_nest (e1 e2 : Z) (open : list side) (s : sys) :
  nested e1 e2 open s ->
  removed s = false
  /\ (forall x, p_pc (proc_of x s) <> Gone /\ p_pc (proc_of x s) <> Dying)
  /\ open = callers (length open)
  /\ (forall x s', answer_read x s = true -> exec x Step s = Some s' ->
       p_pc (proc_of x s') = Own /\ exists rest, open = x :: rest /\ nested e1 e2 rest s')
  /\ (forall x, p_pc (proc_of x s) = Own -> hd Lib open = other x)
  /\ (p_pc (par_ s) = Own -> depth (par_ s) = Z.of_nat (length open) / 2 /\ depth' (lib_ s) = depth (par_ s) + 1)
  /\ (p_pc (lib_ s) = Own -> depth (lib_ s) = 1 + Z.of_nat (length open) / 2 /\ depth' (par_ s) = depth (lib_ s)).
Proof.
  intros Hn. pose proof (nested_reach _ _ _ _ Hn) as Hr. pose proof (nested_balanced _ _ _ _ Hn) as Hb. pose proof Hb as (Hopen & Hbp & Hbl).
  pose proof (reach_turn_inv _ _ _ _ Hr) as Ht. destruct (reach_nest_inv _ _ _ Hr) as (Hp & Hl & Hrm).
  assert (forall x s', exec x Step s = Some s' -> nested e1 e2 (track x Step s open) s') as Hstep by (intros x s' E; by eapply nested_exec).
  assert (forall x, p_pc (proc_of x s) = Own -> x = if Nat.even (length open) then Par else Lib) as Hown.
  { intros x Ex. apply (balanced_turn x s open Hb Ht); [by rewrite Ex|by rewrite Ex|].
    destruct x; [apply (ni_level _ _ Hp)|apply (ni_level _ _ Hl)]; by rewrite Ex. }
  assert (forall x, p_pc (proc_of x s) = Own -> entered (proc_of x s) = depth (proc_of x s) /\ entered (proc_of (other x) s) = depth' (proc_of (other x) s)) as Hdep.
  { intros x Ex. destruct (level_entered x s Ht) as [E1 E2]; [by rewrite Ex|by rewrite Ex|]. split; [|done]. rewrite E1. unfold depth'. rewrite Ex. lia. }
  split_and!; try done.
  - intros [|]; [apply (ni_alive _ _ Hp)|apply (ni_alive _ _ Hl)].
  - intros x s' Ha E. specialize (Hstep x s' E). destruct (answer_innermost _ _ _ _ _ Hr Hb Ha) as [rest ->].
    cbn [track] in Hstep. rewrite Ha in Hstep. split; [|by exists rest].
    destruct (reach_nest_inv _ _ _ (nested_reach _ _ _ _ Hstep)) as (Hp' & Hl' & _).
    assert (p_pc (proc_of x s') <> Gone) as Hgone by (destruct x; [apply (ni_alive _ _ Hp')|apply (ni_alive _ _ Hl')]).
    unfold answer_read in Ha. unfold exec, comm_step in E. destruct (p_pc (proc_of x s)); try discriminate. injection E as <-.
    revert Hgone. unfold dispatch, return_from_wait. rewrite Ha. destruct x; [done|]. by destruct (depth (put_depth _ _) =? 0).
  - intros x Ex. specialize (Hown x Ex). rewrite Hopen. destruct (length open) as [|k]; [cbn in *; by subst x|].
    cbn [callers hd]. rewrite Nat.even_succ, <- Nat.negb_even in Hown. by destruct (Nat.even k); subst x.
  - intros Ex. destruct (Hdep Par Ex) as [E1 E2]. specialize (Hown Par Ex). cbn [proc_of other] in *.
    pose proof (even_half (length open)) as Hev. destruct (Nat.even (length open)); [|done]. specialize (proj1 Hev eq_refl). lia.
  - intros Ex. destruct (Hdep Lib Ex) as [E1 E2]. specialize (Hown Lib Ex). cbn [proc_of other] in *.
    pose proof (even_half (length open)) as Hev. destruct (Nat.even (length open)); [done|].
    assert ((Z.of_nat (length open) + 1) / 2 <> Z.of_nat (length open) / 2) as Hh by (intros H%Hev; done). zlia.
Qed.

(** ** Callbacks *)

(** Callbacks passed out one after the other. *)
Definition wraps (l : list (Z * Z)) (cm : callback_manager) : callback_manager :=
  fold_left (fun cm cw => snd (wrap_outgoing_callback (fst cw) (snd cw) cm)) l cm.

(** Passing out a callback only ever appends to the table; no callback is
    ever entered in [callback_numbers]. *)
Lemma wraps_prefix l cm :
  callback_numbers (wraps l cm) = callback_numbers cm
  /\ exists r, callback_functions (wraps l cm) = callback_functions cm ++ r.
Proof.
  revert cm. induction l as [|[cb w] l IH]; intros cm; simpl; [split; [done|exists []; by rewrite app_nil_r]|].
  destruct (IH (snd (wrap_outgoing_callback cb w cm))) as [Hn [r Hr]]. fold (wraps l) in *. rewrite Hn, Hr.
  unfold wrap_outgoing_callback. repeat case_match; simpl; eauto.
  split; [done|]. eexists. by rewrite <- app_assoc.
Qed.

(** A callback that was passed out can be called back.  Whatever was
    wrapped before and is wrapped later, the number given to the other process
    makes [execute] call the wrapper with this callback, and it is not one of
    the reserved numbers. *)
Theorem callback_roundtrip (cb w : Z) (before after : list (Z * Z)) :
  callback_needs_wrapping cb = true ->
  let '(n, cm) := wrap_outgoing_callback cb w (wraps before cm_init) in
  execute n (wraps after cm) = Some (mkEntry cb w) /\ CALLBACK_MAX_RESERVED < n.
Proof.
  intros Hcb. destruct (wraps_prefix before cm_init) as [Hn [r Hr]].
  unfold wrap_outgoing_callback. rewrite Hcb, Hn, Hr. cbn [negb callback_numbers cm_init].
  rewrite lookup_empty. set (fs := _ ++ [mkEntry cb w]).
  assert (length fs = S (length (callback_functions cm_init ++ r))) as Hlen
    by (unfold fs; rewrite length_app; simpl; lia).
  assert (6 <= length (callback_functions cm_init ++ r))%nat as H6 by (rewrite length_app; simpl; lia).
  destruct (wraps_prefix after (mkCM ∅ fs)) as [_ [r' Hr']]. unfold execute.
  split; [|unfold CALLBACK_MAX_RESERVED; lia].
  rewrite (proj2 (Z.ltb_ge _ 0)) by lia. rewrite Hr'. cbn [callback_functions].
  replace (Z.to_nat (Z.of_nat (length fs) - 1)) with (length (callback_functions cm_init ++ r)) by lia.
  unfold fs. generalize (callback_functions cm_init ++ r). intros tb.
  rewrite <- (app_assoc tb [_] r'). by apply list_lookup_middle.
Qed.

(** The table is not deduplicated: the same callback, passed out [k]
    times, takes [k] entries, because [callback_numbers] is searched but never
    filled. *)
Theorem callback_table_grows (cb w : Z) (k : nat) :
  callback_needs_wrapping cb = true ->
  length (callback_functions (wraps (repeat (cb, w) k) cm_init)) = (6 + k)%nat.
Proof.
  intros Hcb. assert (forall fs, length (callback_functions (wraps (repeat (cb, w) k) (mkCM ∅ fs)))
                              = (length fs + k)%nat) as H.
  { induction k as [|k IH]; intros fs; [simpl; lia|]. cbn [repeat wraps fold_left fst snd].
    unfold wrap_outgoing_callback at 2. rewrite Hcb. cbn [negb callback_numbers]. rewrite lookup_empty.
    cbn [snd callback_functions]. fold (wraps (repeat (cb, w) k)). rewrite IH, length_app. simpl. lia. }
  apply (H (callback_functions cm_init)).
Qed.

(** ** Examples *)

Fixpoint run (l : list (side * action)) (s : sys) : option sys :=
  match l with
  | [] => Some s
  | (x, a) :: l => match exec x a s with Some s' => run l s' | None => None end
  end.

Lemma run_reach ok e1 e2 l s s' :
  reach ok e1 e2 s -> Forall (fun xa => ok (snd xa)) l -> run l s = Some s' -> reach ok e1 e2 s'.
Proof.
  revert s. induction l as [|[x a] l IH]; intros s Hr Hok H; simpl in H; [by simplify_eq|].
  destruct (exec x a s) eqn:E; [|done]. inversion Hok; subst. eauto using reach_exec.
Qed.

(** The open calls after a run. *)
Fixpoint run_track (l : list (side * action)) (s : sys) (open : list side) : list side :=
  match l with
  | [] => open
  | (x, a) :: l => match exec x a s with Some s' => run_track l s' (track x a s open) | None => open end
  end.

Lemma run_nested e1 e2 l open s s' open' :
  nested e1 e2 open s -> Forall (fun xa => stub_code (snd xa)) l -> run l s = Some s' -> run_track l s open = open' -> nested e1 e2 open' s'.
Proof.
  revert open s. induction l as [|[x a] l IH]; intros open s Hn Hok H Ho; cbn [run run_track] in *; [by simplify_eq|].
  destruct (exec x a s) as [s1|] eqn:E; [|done]. apply list.Forall_cons in Hok as [Ha Hok].
  apply (IH (track x a s open) s1); [by eapply nested_exec|done|done|done].
Qed.

(** The application calls function 3 with [errno] 7; the library calls back. *)
Definition call_library : list (side * action) :=
  [(Par, Compute 7); (Par, Call 3 0); (Par, Step); (Par, Step); (Lib, Step)].
Definition after_call : sys := default (ipc_init 0 0) (run call_library (ipc_init 0 0)).
Definition call_back : list (side * action) :=
  call_library ++ [(Lib, Step); (Lib, Call 2 6); (Lib, Step); (Par, Step); (Par, Step)].

Lemma after_call_reach : reach (fun _ => True) 0 0 after_call.
Proof.
  apply (run_reach _ 0 0 call_library (ipc_init 0 0)); [constructor| |vm_compute; reflexivity].
  by rewrite list.Forall_forall.
Qed.

Lemma ipc_one_turn_witness : active (p_pc (lib_ after_call)) = true /\ active (p_pc (par_ after_call)) = false.
Proof.
  pose proof (ipc_one_turn 0 0 after_call after_call_reach) as [H _]. split; [reflexivity|].
  apply andb_false_iff in H as [H|H]; [done|vm_compute in H; discriminate].
Defined.

Lemma ipc_no_deadlock_witness :
  exists x, p_pc (proc_of x after_call) = Own \/ is_Some (comm_step x after_call).
Proof. apply (ipc_no_deadlock 0 0 after_call after_call_reach). reflexivity. Defined.

Lemma ipc_errno_travels_witness :
  exists s', exec Lib Step after_call = Some s' /\ p_errno (lib_ s') = 7.
Proof.
  eexists. split; [reflexivity|].
  apply (ipc_errno_travels 0 0 Lib after_call); [apply after_call_reach|reflexivity|discriminate|discriminate|reflexivity].
Defined.

(** The library reads the answer of the application to its callback. *)
Definition answer_back : list (side * action) :=
  call_back ++ [(Par, Return_ 1); (Par, Step); (Par, Step); (Lib, Step); (Lib, Step)].
Definition at_answer : sys := default (ipc_init 0 0) (run answer_back (ipc_init 0 0)).

Definition after_answer : sys := default (ipc_init 0 0) (exec Lib Step at_answer).

Lemma at_answer_nested : nested 0 0 [Lib; Par] at_answer.
Proof.
  apply (run_nested 0 0 answer_back [] (ipc_init 0 0)); [constructor| |vm_compute; reflexivity|vm_compute; reflexivity].
  unfold answer_back, call_back, call_library. cbn [app]. repeat (constructor; [cbn; first [done|lia]|]). constructor.
Qed.

Lemma answer_step : answer_read Lib at_answer = true /\ exec Lib Step at_answer = Some after_answer.
Proof. split; vm_compute; reflexivity. Qed.

Lemma ipc_calls_nest_witness : exists rest, [Lib; Par] = Lib :: rest /\ nested 0 0 rest after_answer.
Proof.
  destruct (ipc_calls_nest 0 0 [Lib; Par] at_answer at_answer_nested) as (_ & _ & _ & Hans & _).
  destruct (Hans Lib after_answer (proj1 answer_step) (proj2 answer_step)) as (_ & H). exact H.
Defined.

Lemma callback_roundtrip_witness :
  execute 7 (wraps [(5000, 1)] (snd (wrap_outgoing_callback 4096 2 (wraps [(4096, 1)] cm_init))))
  = Some (mkEntry 4096 2).
Proof. apply (callback_roundtrip 4096 2 [(4096, 1)] [(5000, 1)]). reflexivity. Defined.

Lemma callback_table_grows_witness :
  length (callback_functions (wraps (repeat (4096, 1) 3) cm_init)) = 9%nat.
Proof. apply (callback_table_grows 4096 1 3). reflexivity. Defined.
