(* ===== verification/Survivors.v ===== *)
(** * Who removes the semaphores

    [src/libipc/shared_memory_locking.cpp], the fork handlers and the
    destructor of [IpcCommunication] and [SharedMemoryInformation::terminate]:
    the processes of the application share the semaphores, and the last one
    to end is to remove them.  In a program compiled as forking each process
    holds a read lock on one byte of the segment's file, and a process is the
    sole survivor if it could get a write lock; locks go with the process
    that holds them and are not inherited by its children. *)

From stdpp Require Import gmap fin_maps.
From S2P Require Import Prelude.

(** [Starting]: in [fork], before the handler of the child has run;
    [Finished]: after the destructor, before the process is gone. *)
Inductive phase := Starting | Running | Finished.

#[export] Instance phase_eq_dec : EqDecision phase.
Proof. solve_decision. Defined.

Record family := mkFam {
  procs : gmap nat phase;
  read_locks : gset nat;             (* on byte 0 of the segment's file *)
  is_forked : gset nat;              (* the processes with [is_forked] set *)
  unintended_fork : bool;        (* [has_unintenden_fork] of the segment *)
  ipc_removed : bool;                (* [sending_semaphore], [receiving_semaphore], [sending_lock] *)
  mtx_removed : bool }.              (* [SharedMemoryInformation::mtx] *)

Section Family.
Context (program_is_forking : bool).
Implicit Types (x y : nat) (s : family).

Definition statuslock_install x s : family :=
  mkFam (procs s) ({[x]} ∪ read_locks s) (is_forked s) (unintended_fork s) (ipc_removed s) (mtx_removed s).

(** [F_GETLK] reports a lock of another process that conflicts. *)
Definition statuslock_is_sole_survivor x s : bool := bool_decide (read_locks s ∖ {[x]} = ∅).

(** [shared_memory_unfork], and the flag of the communication. *)
Definition unfork x s : family :=
  mkFam (procs s) (read_locks s) ({[x]} ∪ is_forked s) true (ipc_removed s) (mtx_removed s).

Definition shared_memory_terminate x s : family :=
  if (if program_is_forking then statuslock_is_sole_survivor x s else negb (unintended_fork s))
  then mkFam (procs s) (read_locks s) (is_forked s) (unintended_fork s) (ipc_removed s) true
  else s.

Definition ipc_terminate x s : family :=
  shared_memory_terminate x
    (mkFam (procs s) (read_locks s) (is_forked s) (unintended_fork s) true (mtx_removed s)).

Definition destroy_communication x s : family :=
  if (if program_is_forking then statuslock_is_sole_survivor x s else bool_decide (x ∉ is_forked s))
  then ipc_terminate x s else s.

Definition set_phase x (p : phase) s : family :=
  mkFam (<[x := p]> (procs s)) (read_locks s) (is_forked s) (unintended_fork s) (ipc_removed s) (mtx_removed s).

Inductive family_action := Fork x y | ChildHandler y | Destroy x | Exit x.

Definition exec_family (a : family_action) s : option family :=
  match a with
  | Fork x y =>
      match procs s !! x, procs s !! y with
      | Some Running, None =>
          Some (mkFam (<[y := Starting]> (procs s)) (read_locks s)
                  (if decide (x ∈ is_forked s) then {[y]} ∪ is_forked s else is_forked s ∖ {[y]})
                  (unintended_fork s) (ipc_removed s) (mtx_removed s))
      | _, _ => None
      end
  | ChildHandler y =>
      match procs s !! y with
      | Some Starting => Some (set_phase y Running (if program_is_forking then statuslock_install y s else unfork y s))
      | _ => None
      end
  | Destroy x =>
      match procs s !! x with
      | Some Running => Some (set_phase x Finished (destroy_communication x s))
      | _ => None
      end
  | Exit x =>
      match procs s !! x with
      | Some Finished =>
          Some (mkFam (delete x (procs s)) (read_locks s ∖ {[x]}) (is_forked s) (unintended_fork s)
                  (ipc_removed s) (mtx_removed s))
      | _ => None
      end
  end.

(** After [fork_receiving_process] in process [x]. *)
Definition family_init x : family :=
  let s := mkFam {[x := Running]} ∅ ∅ false false false in
  if program_is_forking then statuslock_install x s else s.

(** The wait of the parent's fork handler is long enough: nobody ends while a
    child has not taken its lock. *)
Definition timely (a : family_action) s : Prop :=
  match a with Destroy _ => forall y, procs s !! y <> Some Starting | _ => True end.

Inductive family_reach s0 : family -> Prop :=
| family_refl : family_reach s0 s0
| family_next s a s' : family_reach s0 s -> timely a s -> exec_family a s = Some s' -> family_reach s0 s'.

End Family.

(** ** A forking program *)

Section Forking.
Implicit Types (x y : nat) (s : family).

(** The locks are those of the processes that have left [fork], and once a
    semaphore is removed every process is past its destructor. *)
Definition family_ok s : Prop :=
  (forall x, x ∈ read_locks s <-> exists p, procs s !! x = Some p /\ p <> Starting)
  /\ (ipc_removed s || mtx_removed s = true -> forall y p, procs s !! y = Some p -> p = Finished).

(** Only the last process passes the test. *)
Lemma sole_survivor_last x s : family_ok s -> (forall y, procs s !! y <> Some Starting) -> is_Some (procs s !! x) ->
  statuslock_is_sole_survivor x s = bool_decide (dom (procs s) = {[x]}).
Proof.
  intros [Hl _] Hst Hx. apply bool_decide_ext. split.
  - intros He. apply set_eq. intros y. rewrite elem_of_dom, elem_of_singleton. split; [|by intros ->].
    intros [p Hp]. destruct (decide (y = x)) as [|Hne]; [done|].
    assert (y ∈ read_locks s ∖ {[x]}) as Hy; [|by rewrite He in Hy].
    apply elem_of_difference. rewrite elem_of_singleton. split; [|done]. apply Hl. exists p. split; [done|].
    intros ->. by destruct (Hst y).
  - intros He. apply set_eq. intros y. rewrite elem_of_difference, elem_of_singleton. split; [|set_solver].
    intros [Hy Hne]. apply Hl in Hy as (p & Hp & _). apply elem_of_dom_2 in Hp. rewrite He in Hp. set_solver.
Qed.

Lemma destroy_forking x s :
  destroy_communication true x s =
  (if statuslock_is_sole_survivor x s
   then mkFam (procs s) (read_locks s) (is_forked s) (unintended_fork s) true true else s).
Proof.
  unfold destroy_communication, ipc_terminate, shared_memory_terminate, statuslock_is_sole_survivor. cbn [read_locks].
  by destruct (bool_decide _).
Qed.

Lemma family_ok_init x : family_ok (family_init true x).
Proof.
  split; [|done]. intros y. cbn. rewrite elem_of_union, elem_of_singleton. split.
  - intros [->|?]; [|set_solver]. exists Running. by rewrite lookup_singleton_eq.
  - intros (p & Hp & _). apply lookup_singleton_Some in Hp as [-> _]. by left.
Qed.

(** Changing the phase of one process, with its lock. *)
Lemma locks_insert (m : gmap nat phase) (l l' : gset nat) x p :
  (forall y, y ∈ l <-> exists q, m !! y = Some q /\ q <> Starting) ->
  (forall y, y <> x -> (y ∈ l' <-> y ∈ l)) -> (x ∈ l' <-> p <> Starting) ->
  forall y, y ∈ l' <-> exists q, <[x := p]> m !! y = Some q /\ q <> Starting.
Proof.
  intros Hl Hne Hx y. destruct (decide (y = x)) as [->|Hy].
  - rewrite lookup_insert_eq, Hx. split; [eauto|]. by intros (q & [= <-] & ?).
  - rewrite lookup_insert_ne by done. by rewrite Hne, Hl.
Qed.

Lemma family_ok_step a s s' : family_ok s -> timely a s -> exec_family true a s = Some s' -> family_ok s'.
Proof.
  intros Hok Ha E. pose proof Hok as [Hl Hr]. destruct a as [x y|y|x|x]; cbn [exec_family] in E.
  - destruct (procs s !! x) as [[| |]|] eqn:Ex; try done. destruct (procs s !! y) eqn:Ey; try done. injection E as <-. split.
    + cbn. apply (locks_insert _ (read_locks s)); [done|done|]. rewrite Hl, Ey. split; [by intros (? & ? & _)|done].
    + intros H. exfalso. by specialize (Hr H x Running Ex).
  - destruct (procs s !! y) as [[| |]|] eqn:Ey; try done. injection E as <-. split.
    + cbn. apply (locks_insert _ (read_locks s)); [done|set_solver|]. split; [done|set_solver].
    + intros H. exfalso. by specialize (Hr H y Starting Ey).
  - destruct (procs s !! x) as [[| |]|] eqn:Ex; try done. injection E as <-. rewrite destroy_forking.
    rewrite sole_survivor_last by eauto. case_bool_decide as Hd.
    + split; cbn; [apply (locks_insert _ (read_locks s)); [done|done|rewrite Hl, Ex; naive_solver]|].
      intros _ y p Hp. destruct (decide (y = x)) as [->|Hne]; [rewrite lookup_insert_eq in Hp; congruence|].
      rewrite lookup_insert_ne in Hp by done. apply elem_of_dom_2 in Hp. rewrite Hd in Hp. set_solver.
    + split; cbn; [apply (locks_insert _ (read_locks s)); [done|done|rewrite Hl, Ex; naive_solver]|].
      intros H. exfalso. by specialize (Hr H x Running Ex).
  - destruct (procs s !! x) as [[| |]|] eqn:Ex; try done. injection E as <-. split; cbn.
    + intros y. rewrite elem_of_difference, elem_of_singleton, Hl. setoid_rewrite lookup_delete_Some. naive_solver.
    + intros H y p Hp. apply lookup_delete_Some in Hp as [_ Hp]. by apply (Hr H y).
Qed.

Lemma family_reach_ok x0 s : family_reach true (family_init true x0) s -> family_ok s.
Proof. induction 1 as [|s a s' Hr IH Ha E]; [apply family_ok_init|by eapply family_ok_step]. Qed.

(** C39: in a forking program whose children get their lock in time, no
    process that still runs loses the semaphores: they are removed only by the
    destructor of a process when it is the only one left, and that destructor
    does remove them. *)
Theorem last_process_removes x0 s x s' :
  family_reach true (family_init true x0) s -> timely (Destroy x) s -> exec_family true (Destroy x) s = Some s' ->
  ipc_removed s' = bool_decide (dom (procs s) = {[x]}) /\ mtx_removed s' = bool_decide (dom (procs s) = {[x]})
  /\ (ipc_removed s' || mtx_removed s' = true -> forall y p, procs s' !! y = Some p -> p = Finished).
Proof.
  intros Hr Ht E. pose proof (family_reach_ok x0 s Hr) as Hok.
  assert (family_ok s') as [_ Hs'] by (by eapply family_ok_step).
  cbn [exec_family] in E. destruct (procs s !! x) as [[| |]|] eqn:Ex; try done.
  assert (ipc_removed s || mtx_removed s = false) as [Hi Hm]%orb_false_iff.
  { apply not_true_is_false. intros H. by specialize (proj2 Hok H x Running Ex). }
  injection E as <-. split; [|split; [|exact Hs']]; rewrite destroy_forking, sole_survivor_last by eauto; by case_bool_decide.
Qed.

End Forking.

Definition run_family (b : bool) (l : list family_action) (s : family) : option family :=
  fold_left (fun r a => s ← r; exec_family b a s) l (Some s).

Lemma last_process_removes_witness :
  exists s', exec_family true (Destroy 0) (family_init true 0) = Some s' /\ ipc_removed s' = true.
Proof.
  destruct (exec_family true (Destroy 0) (family_init true 0)) as [s'|] eqn:E; [|discriminate E].
  exists s'. split; [reflexivity|].
  destruct (last_process_removes 0 (family_init true 0) 0 s') as (H & _ & _); [constructor| |exact E|].
  - intros y Hy. change (({[0%nat := Running]} : gmap nat phase) !! y = Some Starting) in Hy. apply lookup_singleton_Some in Hy as [_ Hy]. discriminate Hy.
  - rewrite H. reflexivity.
Defined.

(** Two processes that end together: each sees the lock of the other, and the
    semaphores stay when both are gone. *)
Lemma ending_together_leaks :
  (fun s => (procs s, ipc_removed s, mtx_removed s)) <$>
    run_family true [Fork 0 1; ChildHandler 1; Destroy 0; Destroy 1; Exit 0; Exit 1] (family_init true 0)
  = Some (∅, false, false).
Proof. reflexivity. Qed.

(** A parent that ends before its child has taken the lock removes the
    semaphores under the child. *)
Lemma early_end_removes :
  (fun s => (procs s !! 1%nat, ipc_removed s, mtx_removed s)) <$>
    run_family true [Fork 0 1; Destroy 0; Exit 0; ChildHandler 1] (family_init true 0)
  = Some (Some Running, true, true).
Proof. reflexivity. Qed.
