(* ===== verification/FdMap.v ===== *)
(** * File descriptors shared by the two processes

    [FileDescriptorMapping] of [src/libipc/file_descriptor_manager.cpp]: each
    side keeps, for each of its descriptors, the number the other side knows
    it by.  [mapToOtherSide] includes the remote [fromOtherSide] it triggers,
    and [close_fd] is the hooked [close] with the remote
    [internal_close_fd].

    The kernel's choice of a descriptor number for a received or opened file
    is an argument of the step; that the number was free is a premise of the
    theorems.  Accesses outside the arrays of [FileDescriptor_MAXFD] entries
    are undefined in the source and have no result here. *)

From S2P Require Import Prelude Ipc.

Definition FileDescriptor_MAXFD : Z := 256.
Definition FileDescriptor_NOTSET : Z := -1.

(** One side: the two arrays and the descriptors that are open. *)
Record fd_side := mkFd {
  local_to_remote_fd : list Z; local_to_remote_pid : list Z; open_fds : gset Z; pid_ : Z }.

Definition aread (l : list Z) (i : Z) : option Z := if i <? 0 then None else l !! Z.to_nat i.
Definition awrite (l : list Z) (i v : Z) : option (list Z) :=
  if (i <? 0) || (FileDescriptor_MAXFD <=? i) then None else Some (<[Z.to_nat i := v]> l).

(** The constructor: the three standard descriptors are shared. *)
Definition fd_init (pid : Z) : fd_side :=
  mkFd (0 :: 1 :: 2 :: replicate 253 FileDescriptor_NOTSET) (replicate 256 0) {[0; 1; 2]} pid.

Definition set_mapping (fd remote pid : Z) (p : fd_side) : option fd_side :=
  l ← awrite (local_to_remote_fd p) fd remote;
  l' ← awrite (local_to_remote_pid p) fd pid;
  Some (mkFd l l' (open_fds p) (pid_ p)).

(** [fromOtherSide]; [recvfd] gave the descriptor [local_fd]. *)
Definition fromOtherSide (local_fd remote_fd pid : Z) (p : fd_side) : option fd_side :=
  set_mapping local_fd remote_fd pid
    (mkFd (local_to_remote_fd p) (local_to_remote_pid p) ({[local_fd]} ∪ open_fds p) (pid_ p)).

(** [mapToOtherSide]: the remote number, and both sides.  [sent]: [sendfd]
    succeeded; [fresh]: what [recvfd] returns on the other side. *)
Definition mapToOtherSide (fd : Z) (sent : bool) (fresh : Z) (p q : fd_side) : option (Z * fd_side * fd_side) :=
  r ← aread (local_to_remote_fd p) fd;
  if negb (r =? FileDescriptor_NOTSET) then Some (r, p, q)
  else if negb sent then Some (fd, p, q)
  else
    q' ← fromOtherSide fresh fd (pid_ p) q;
    p' ← set_mapping fd fresh 0 p;
    Some (fresh, p', q').

(** [onCloseLocal] without the propagation: the remote descriptor that was
    mapped, if one was. *)
Definition onCloseLocal (fd : Z) (p : fd_side) : option (option Z * fd_side) :=
  if fd <? 0 then Some (None, p)
  else
    r ← aread (local_to_remote_fd p) fd;
    if r =? FileDescriptor_NOTSET then Some (None, p)
    else
      l ← awrite (local_to_remote_fd p) fd FileDescriptor_NOTSET;
      Some (Some r, mkFd l (local_to_remote_pid p) (open_fds p) (pid_ p)).

Definition real_close (fd : Z) (p : fd_side) : fd_side :=
  mkFd (local_to_remote_fd p) (local_to_remote_pid p) (open_fds p ∖ {[fd]}) (pid_ p).

(** [internal_close_fd], run by the other side: no propagation back. *)
Definition internal_close_fd (fd : Z) (q : fd_side) : option fd_side :=
  '(_, q) ← onCloseLocal fd q; Some (real_close fd q).

(** The hooked [close], after the fork. *)
Definition close_fd (fd : Z) (p q : fd_side) : option (fd_side * fd_side) :=
  '(r, p) ← onCloseLocal fd (real_close fd p);
  match r with
  | None => Some (p, q)
  | Some remote => q ← internal_close_fd remote q; Some (p, q)
  end.

(** The hooked [open]: the kernel chose [fd]. *)
Definition open_fd (fd : Z) (p : fd_side) : fd_side :=
  mkFd (local_to_remote_fd p) (local_to_remote_pid p) ({[fd]} ∪ open_fds p) (pid_ p).

(** ** The mapping is a bijection between open descriptors *)

Definition remote (p : fd_side) (fd : Z) : Z :=
  default FileDescriptor_NOTSET (aread (local_to_remote_fd p) fd).

(** Each mapping of [p] is inverse to one of [q], and mapped descriptors are open. *)
Definition half (p q : fd_side) : Prop :=
  forall f g, remote p f = g -> g <> FileDescriptor_NOTSET -> remote q g = f /\ f ∈ open_fds p.

Definition sized (p : fd_side) : Prop :=
  length (local_to_remote_fd p) = 256%nat /\ length (local_to_remote_pid p) = 256%nat.

Definition fd_inv (p q : fd_side) : Prop := sized p /\ sized q /\ half p q /\ half q p.

Lemma fd_inv_sym p q : fd_inv p q -> fd_inv q p.
Proof. by intros (? & ? & ? & ?). Qed.

Lemma aread_awrite l i v l' j :
  length l = 256%nat -> awrite l i v = Some l' ->
  length l' = 256%nat /\ aread l' j = if j =? i then Some v else aread l j.
Proof.
  unfold awrite, aread, FileDescriptor_MAXFD. intros Hl H.
  destruct ((i <? 0) || (256 <=? i)) eqn:E; [done|]. bool_hyps. simplify_eq. rewrite length_insert.
  split; [done|]. destruct (Z.eqb_spec j i) as [->|Hne].
  - rewrite (proj2 (Z.ltb_ge i 0)) by lia. apply list_lookup_insert_eq. lia.
  - destruct (Z.ltb_spec j 0); [done|]. apply list_lookup_insert_ne. lia.
Qed.

Lemma awrite_ok l i v : 0 <= i < 256 -> exists l', awrite l i v = Some l'.
Proof.
  intros H. unfold awrite, FileDescriptor_MAXFD.
  rewrite (proj2 (Z.ltb_ge i 0)), (proj2 (Z.leb_gt 256 i)) by lia. by eexists.
Qed.

Lemma aread_ok l i : length l = 256%nat -> 0 <= i < 256 -> exists v, aread l i = Some v.
Proof.
  intros Hl H. unfold aread. rewrite (proj2 (Z.ltb_ge i 0)) by lia. apply lookup_lt_is_Some. lia.
Qed.

Lemma remote_ok p fd : sized p -> 0 <= fd < 256 -> aread (local_to_remote_fd p) fd = Some (remote p fd).
Proof. intros [H _] Hfd. unfold remote. by destruct (aread_ok _ fd H Hfd) as [v ->]. Qed.

(** Outside the arrays nothing is mapped. *)
Lemma remote_range p fd : sized p -> remote p fd <> FileDescriptor_NOTSET -> 0 <= fd < 256.
Proof.
  intros [H _] Hr. unfold remote, aread in Hr. destruct (Z.ltb_spec fd 0); [done|].
  destruct (local_to_remote_fd p !! Z.to_nat fd) eqn:E; [|done].
  apply lookup_lt_Some in E. lia.
Qed.

Lemma set_mapping_ok fd r pid p :
  sized p -> 0 <= fd < 256 ->
  exists p', set_mapping fd r pid p = Some p' /\ sized p' /\ open_fds p' = open_fds p
    /\ forall j, remote p' j = if j =? fd then r else remote p j.
Proof.
  intros [H1 H2] Hfd. unfold set_mapping.
  destruct (awrite_ok (local_to_remote_fd p) fd r Hfd) as [l E1].
  destruct (awrite_ok (local_to_remote_pid p) fd pid Hfd) as [l' E2]. rewrite E1, E2.
  eexists. split; [reflexivity|]. split; [|split; [done|]].
  - split; [apply (aread_awrite _ _ _ _ 0 H1 E1)|apply (aread_awrite _ _ _ _ 0 H2 E2)].
  - intros j. unfold remote. cbn [local_to_remote_fd]. destruct (aread_awrite _ _ _ _ j H1 E1) as [_ ->].
    by destruct (j =? fd).
Qed.

(** C38: sharing a descriptor keeps the two tables inverse to each other.  The
    number that [mapToOtherSide] returns is open on the other side, both sides
    agree on the pair, and sharing again returns the same number. *)
Theorem share_keeps_bijection (fd fresh : Z) (p q : fd_side) :
  fd_inv p q -> fd ∈ open_fds p -> fresh ∉ open_fds q -> 0 <= fd < 256 -> 0 <= fresh < 256 ->
  exists r p' q', mapToOtherSide fd true fresh p q = Some (r, p', q')
    /\ fd_inv p' q' /\ remote p' fd = r /\ remote q' r = fd /\ r ∈ open_fds q'
    /\ forall f, mapToOtherSide fd true f p' q' = Some (r, p', q').
Proof.
  intros (Hp & Hq & Hpq & Hqp) Hopen Hfresh Hfd Hfr. unfold mapToOtherSide at 1.
  rewrite (remote_ok p fd Hp Hfd). cbn [mbind option_bind].
  destruct (Z.eqb_spec (remote p fd) FileDescriptor_NOTSET) as [E|E]; cbn [negb].
  - unfold fromOtherSide. set (q0 := mkFd _ _ _ (pid_ q)).
    destruct (set_mapping_ok fresh fd (pid_ p) q0 Hq Hfr) as (q' & Eq & Hq' & Oq & Rq).
    destruct (set_mapping_ok fd fresh 0 p Hp Hfd) as (p' & Ep & Hp' & Op & Rp).
    rewrite Eq, Ep. cbn [mbind option_bind].
    assert (remote q fresh = FileDescriptor_NOTSET) as Nq.
    { destruct (Z.eq_dec (remote q fresh) FileDescriptor_NOTSET); [done|].
      destruct (Hqp fresh _ eq_refl n) as [_ ?]. done. }
    change (remote q0) with (remote q) in Rq. change (open_fds q0) with ({[fresh]} ∪ open_fds q) in Oq.
    unfold FileDescriptor_NOTSET in *.
    exists fresh, p', q'. split; [done|]. split; [|split; [|split; [|split]]].
    + split; [done|]. split; [done|]. split; intros f g Hfg Hg.
      * rewrite Rp in Hfg. rewrite Rq, Op. destruct (Z.eqb_spec f fd) as [->|Hf].
        { subst g. by rewrite Z.eqb_refl. }
        destruct (Hpq f g Hfg Hg) as [Hgf Hop]. destruct (Z.eqb_spec g fresh) as [->|]; [|done].
        pose proof (remote_range p f Hp) as Hr. unfold FileDescriptor_NOTSET in Hr. lia.
      * rewrite Rq in Hfg. rewrite Rp, Oq. destruct (Z.eqb_spec f fresh) as [->|Hf].
        { subst g. rewrite Z.eqb_refl. split; [done|set_solver]. }
        destruct (Hqp f g Hfg Hg) as [Hgf Hop]. destruct (Z.eqb_spec g fd) as [->|].
        { pose proof (remote_range q f Hq) as Hr. unfold FileDescriptor_NOTSET in Hr. lia. }
        split; [done|set_solver].
    + by rewrite Rp, Z.eqb_refl.
    + by rewrite Rq, Z.eqb_refl.
    + rewrite Oq. set_solver.
    + intros f. unfold mapToOtherSide. rewrite (remote_ok p' fd Hp' Hfd), Rp, Z.eqb_refl. cbn [mbind option_bind].
      by rewrite (proj2 (Z.eqb_neq fresh _)) by (unfold FileDescriptor_NOTSET; lia).
  - destruct (Hpq fd _ eq_refl E) as [H1 _]. assert (remote q (remote p fd) <> FileDescriptor_NOTSET) as E'
      by (rewrite H1; unfold FileDescriptor_NOTSET; lia).
    destruct (Hqp _ _ eq_refl E') as [_ H2].
    exists (remote p fd), p, q. split; [done|]. split; [done|]. split; [done|]. split; [done|]. split; [done|].
    intros f. unfold mapToOtherSide. rewrite (remote_ok p fd Hp Hfd). cbn [mbind option_bind].
    by rewrite (proj2 (Z.eqb_neq _ _)) by done.
Qed.

(** The table after [onCloseLocal]. *)
Lemma onCloseLocal_ok fd p :
  sized p -> 0 <= fd < 256 ->
  exists p', onCloseLocal fd p = Some (if remote p fd =? FileDescriptor_NOTSET then None else Some (remote p fd), p')
    /\ sized p' /\ open_fds p' = open_fds p
    /\ forall j, remote p' j = if j =? fd then FileDescriptor_NOTSET else remote p j.
Proof.
  intros Hp Hfd. unfold onCloseLocal. rewrite (proj2 (Z.ltb_ge fd 0)) by lia.
  rewrite (remote_ok p fd Hp Hfd). cbn [mbind option_bind].
  destruct (Z.eqb_spec (remote p fd) FileDescriptor_NOTSET) as [E|E].
  - exists p. split; [done|]. split; [done|]. split; [done|]. intros j. by destruct (Z.eqb_spec j fd) as [->|].
  - destruct (awrite_ok (local_to_remote_fd p) fd FileDescriptor_NOTSET Hfd) as [l El]. rewrite El.
    cbn [mbind option_bind]. destruct Hp as [H1 H2]. eexists. split; [reflexivity|].
    split; [split; [apply (aread_awrite _ _ _ _ 0 H1 El)|done]|]. split; [done|].
    intros j. unfold remote. cbn [local_to_remote_fd]. destruct (aread_awrite _ _ _ _ j H1 El) as [_ ->].
    by destruct (j =? fd).
Qed.

(** Closing a descriptor closes its counterpart and nothing else.  On both
    sides exactly the pair disappears from the tables and from the open
    descriptors, and the tables stay inverse to each other. *)
Theorem close_removes_pair (fd : Z) (p q : fd_side) :
  fd_inv p q -> 0 <= fd < 256 ->
  exists p' q', close_fd fd p q = Some (p', q') /\ fd_inv p' q'
    /\ open_fds p' = open_fds p ∖ {[fd]}
    /\ (forall f, remote p' f = if f =? fd then FileDescriptor_NOTSET else remote p f)
    /\ open_fds q' = (if remote p fd =? FileDescriptor_NOTSET then open_fds q
                      else open_fds q ∖ {[remote p fd]}).
Proof.
  intros (Hp & Hq & Hpq & Hqp) Hfd. unfold close_fd.
  destruct (onCloseLocal_ok fd (real_close fd p) Hp Hfd) as (p' & Ep & Hp' & Op & Rp). rewrite Ep.
  change (remote (real_close fd p)) with (remote p) in *. cbn [mbind option_bind].
  change (open_fds (real_close fd p)) with (open_fds p ∖ {[fd]}) in Op.
  destruct (Z.eqb_spec (remote p fd) FileDescriptor_NOTSET) as [E|E].
  - exists p', q. split; [done|]. split; [|done]. split; [done|]. split; [done|]. split; intros f g Hfg Hg.
    + rewrite Rp in Hfg. destruct (Z.eqb_spec f fd); [congruence|].
      destruct (Hpq f g Hfg Hg). rewrite Op. split; [done|set_solver].
    + destruct (Hqp f g Hfg Hg) as [H ?]. rewrite Rp. destruct (Z.eqb_spec g fd) as [->|]; [|done].
      pose proof (remote_range q f Hq) as Hr. rewrite Hfg in Hr. unfold FileDescriptor_NOTSET in *. lia.
  - set (g0 := remote p fd) in *. destruct (Hpq fd g0 eq_refl E) as [Hg0 _].
    assert (0 <= g0 < 256) as Hg0r by (apply (remote_range q); [done|]; unfold FileDescriptor_NOTSET; lia).
    unfold internal_close_fd.
    destruct (onCloseLocal_ok g0 q Hq Hg0r) as (q1 & Eq & Hq1 & Oq & Rq). rewrite Eq. cbn [mbind option_bind].
    exists p', (real_close g0 q1). split; [done|].
    change (open_fds (real_close g0 q1)) with (open_fds q1 ∖ {[g0]}). rewrite Oq. split; [|done].
    split; [done|]. split; [done|]. split; intros f g; change (remote (real_close g0 q1)) with (remote q1);
      rewrite Rp, Rq, ?Op; change (open_fds (real_close g0 q1)) with (open_fds q1 ∖ {[g0]}); rewrite ?Oq; intros Hfg Hg.
    + destruct (Z.eqb_spec f fd) as [->|Hne]; [congruence|]. destruct (Hpq f g Hfg Hg) as [H1 H2].
      destruct (Z.eqb_spec g g0) as [->|]; [congruence|]. split; [done|set_solver].
    + destruct (Z.eqb_spec f g0) as [->|Hne]; [congruence|]. destruct (Hqp f g Hfg Hg) as [H1 H2].
      destruct (Z.eqb_spec g fd) as [->|]; [by destruct Hne|]. split; [done|set_solver].
Qed.

(** Nothing checks a descriptor against the size of the arrays.  Sharing
    a descriptor of 256 or more, or a negative one such as a failed [open]
    returns, reads outside the table before anything else is done. *)
Theorem share_out_of_range (fd fresh : Z) (sent : bool) (p q : fd_side) :
  sized p -> fd < 0 \/ FileDescriptor_MAXFD <= fd -> mapToOtherSide fd sent fresh p q = None.
Proof.
  intros [H _] Hfd. unfold mapToOtherSide, aread, FileDescriptor_MAXFD in *.
  destruct (Z.ltb_spec fd 0); [done|]. by rewrite lookup_ge_None_2 by lia.
Qed.

(** ** Examples *)

Lemma fd_init_inv a b : fd_inv (fd_init a) (fd_init b).
Proof.
  assert (forall c d, half (fd_init c) (fd_init d)) as H.
  { intros c d f g Hfg Hg. pose proof (remote_range (fd_init c) f) as Hr. rewrite Hfg in Hr.
    specialize (Hr ltac:(by split) Hg). destruct (Z_lt_ge_dec f 3) as [Hlt|Hge].
    - assert (f = 0 \/ f = 1 \/ f = 2) as [->|[->| ->]] by lia; vm_compute in Hfg; subst g;
        (split; [reflexivity|simpl; set_solver]).
    - exfalso. apply Hg. rewrite <- Hfg. unfold remote, aread. rewrite (proj2 (Z.ltb_ge f 0)) by lia.
      cbn [local_to_remote_fd fd_init]. rewrite !lookup_cons_ne_0 by lia.
      destruct (replicate 253 FileDescriptor_NOTSET !! _) eqn:E; [|done].
      apply lookup_replicate in E as [-> _]. done. }
  by split; [split|split; [split|split]].
Qed.

Lemma open_inv fd p q : fd_inv p q -> fd_inv (open_fd fd p) q.
Proof.
  intros (Hp & Hq & Hpq & Hqp). split; [done|]. split; [done|]. split; [|done].
  intros f g Hfg Hg. destruct (Hpq f g Hfg Hg). split; [done|simpl; set_solver].
Qed.

Lemma share_keeps_bijection_witness :
  exists r p' q', mapToOtherSide 5 true 7 (open_fd 5 (fd_init 100)) (fd_init 101) = Some (r, p', q')
    /\ remote q' r = 5.
Proof.
  destruct (share_keeps_bijection 5 7 (open_fd 5 (fd_init 100)) (fd_init 101))
    as (r & p' & q' & H & _ & _ & H1 & _);
    [apply open_inv, fd_init_inv|simpl; set_solver|simpl; set_solver|lia|lia|]. by exists r, p', q'.
Defined.

Lemma close_removes_pair_witness :
  exists p' q', close_fd 1 (fd_init 100) (fd_init 101) = Some (p', q')
    /\ open_fds q' = open_fds (fd_init 101) ∖ {[1]}.
Proof.
  destruct (close_removes_pair 1 (fd_init 100) (fd_init 101)) as (p' & q' & H & _ & _ & _ & Hq);
    [apply fd_init_inv|lia|]. exists p', q'. split; [done|]. exact Hq.
Defined.

Lemma share_out_of_range_witness : mapToOtherSide 256 true 7 (fd_init 100) (fd_init 101) = None.
Proof. apply (share_out_of_range 256 7 true (fd_init 100) (fd_init 101)); [done|right; done]. Defined.
