(* ===== verification/ShmWrap.v ===== *)
(** * The interposed memory functions

    [free], [realloc], [mmap], [mremap] and their companions of
    [src/libipc/shared_memory_manager.cpp], which send a call to the shared
    allocator or to the C library, the hooks that make the shared allocator
    the default, and the mapping of files into both processes.

    The state joins the variables of this file, the private allocator of the C
    library (a parameter, [Libc]) and the shared allocator on its page source.
    [std::lock_guard] releases [memory_mutex] on return and on an exception.
    The build is the default one: no [MALLOC_TESTER]. *)

From S2P Require Import Prelude MallocState MallocCore MallocInt MallocApi PageAlloc Ipc FdMap.

(** What the C library does with private memory. *)
Class Libc := {
  l_state : Type;
  l_free_resolved : bool;                                       (* [real (free)] is set *)
  l_realloc_resolved : bool;                                    (* [real (realloc)] is set *)
  l_free : Z -> l_state -> memory -> l_state * memory;
  l_malloc : Z -> l_state -> memory -> Z * l_state * memory;    (* without a hook *)
  l_realloc : Z -> Z -> l_state -> memory -> Z * l_state * memory;
  l_mremap : Z -> Z -> Z -> Z -> Z }.

Section Wrap.
Context `{K : Kernel} `{LC : Libc}.

Record world := mkWorld {
  use_shared_memory_only : bool;
  malloc_hook_set : bool;              (* [__malloc_hook == shm_malloc_hook], else null *)
  memalign_hook_set : bool;
  memory_mutex : bool;                 (* held *)
  w_libc : l_state;
  w_shm : @state shm_page_source }.

(** [WExit]: the process ends. *)
Inductive wres (A : Type) := WOk (a : A) (w : world) | WThrown (w : world) | WBlocked | WExit | WNoFuel.
#[global] Arguments WOk {A}.
#[global] Arguments WThrown {A}.
#[global] Arguments WBlocked {A}.
#[global] Arguments WExit {A}.
#[global] Arguments WNoFuel {A}.

Definition W (A : Type) : Type := world -> wres A.
Definition wret {A} (a : A) : W A := fun w => WOk a w.
Definition wbind {A B} (c : W A) (k : A -> W B) : W B := fun w =>
  match c w with
  | WOk a w => k a w
  | WThrown w => WThrown w
  | WBlocked => WBlocked
  | WExit => WExit
  | WNoFuel => WNoFuel
  end.

Definition put_hooks (b : bool) (w : world) : world :=
  mkWorld (use_shared_memory_only w) b b (memory_mutex w) (w_libc w) (w_shm w).
Definition put_malloc_hook (b : bool) (w : world) : world :=
  mkWorld (use_shared_memory_only w) b (memalign_hook_set w) (memory_mutex w) (w_libc w) (w_shm w).
Definition put_mutex (b : bool) (w : world) : world :=
  mkWorld (use_shared_memory_only w) (malloc_hook_set w) (memalign_hook_set w) b (w_libc w) (w_shm w).
Definition put_shm (s : @state shm_page_source) (w : world) : world :=
  mkWorld (use_shared_memory_only w) (malloc_hook_set w) (memalign_hook_set w) (memory_mutex w) (w_libc w) s.
Definition put_libc (l : l_state) (m : memory) (w : world) : world :=
  mkWorld (use_shared_memory_only w) (malloc_hook_set w) (memalign_hook_set w) (memory_mutex w) l
    (upd_mem (fun _ => m) (w_shm w)).
Definition wmem (w : world) : memory := st_mem (w_shm w).
Definition wmodify (f : world -> world) : W unit := fun w => WOk tt (f w).

(** The state in which an exception leaves the shared memory: a failed
    [remapSharedMemory] has called [unregister_shared_memory_as_default]. *)
Definition thrown (s : @state shm_page_source) (w : world) : world :=
  let w' := put_shm (set_os (put_unregistered false (st_os s)) s) w in
  if remap_unregistered (st_os s) && use_shared_memory_only w then put_hooks false w' else w'.

(** A call of the shared allocator. *)
Definition shm {A} (c : @M shm_page_source A) : W A := fun w =>
  match c (w_shm w) with
  | Ok a s => WOk a (put_shm s w)
  | Thrown s => WThrown (thrown s w)
  | Blocked _ => WBlocked
  | Aborted _ _ => WExit
  | NoFuel => WNoFuel
  end.

(** A call of the page allocator. *)
Definition shm_pages (c : shm_info -> memory -> paged Z) : W Z := fun w =>
  let s := w_shm w in
  match c (st_os s) (st_mem s) with
  | PgOk a i m => WOk a (put_shm (set_os i (upd_mem (fun _ => m) s)) w)
  | PgThrow i => WThrown (thrown (set_os i s) w)
  | PgExit _ => WExit
  end.

(** [std::lock_guard<std::mutex> guard (memory_mutex); body] *)
Definition guarded {A} (body : W A) : W A := fun w =>
  if memory_mutex w then WBlocked
  else match body (put_mutex true w) with
       | WOk a w => WOk a (put_mutex false w)
       | WThrown w => WThrown (put_mutex false w)
       | r => r
       end.

(** ** Hooks *)

Definition register_shared_memory_as_default : W unit :=
  wmodify (fun w => put_hooks true (mkWorld true (malloc_hook_set w) (memalign_hook_set w) (memory_mutex w) (w_libc w) (w_shm w))).
Definition unregister_shared_memory_as_default : W unit :=
  wmodify (fun w => if use_shared_memory_only w then put_hooks false w else w).
Definition reregister_shared_memory_as_default : W unit :=
  wmodify (fun w => if use_shared_memory_only w then put_hooks true w else w).

Definition shm_malloc_2 (fuel : nat) (size : Z) : W Z := shm (__libc_shm_malloc fuel size).

Definition shm_malloc_hook (fuel : nat) (size : Z) : W Z :=
  guarded
    (wbind (wmodify (put_malloc_hook false)) (fun _ =>
     wbind (shm_malloc_2 fuel size) (fun result =>
     wbind (wmodify (put_malloc_hook true)) (fun _ => wret result)))).

Definition shm_memalign_hook (fuel : nat) (alignment size : Z) : W Z := shm (__libc_shm_memalign fuel alignment size).

(** [malloc] of the C library: the hook, if one is set. *)
Definition malloc (fuel : nat) (size : Z) : W Z := fun w =>
  if malloc_hook_set w then shm_malloc_hook fuel size w
  else let '(p, l, m) := l_malloc size (w_libc w) (wmem w) in WOk p (put_libc l m w).

(** ** [free], [realloc] and relatives *)

Definition free (fuel : nat) (ptr : Z) : W unit :=
  if shm_is_shared_memory_pointer ptr then
    guarded
      (wbind unregister_shared_memory_as_default (fun _ =>
       wbind (shm (__libc_shm_free fuel ptr)) (fun _ => reregister_shared_memory_as_default)))
  else fun w =>
    if l_free_resolved then let '(l, m) := l_free ptr (w_libc w) (wmem w) in WOk tt (put_libc l m w)
    else WOk tt w.

(** [-8u] is a 32-bit constant, so the mask clears the upper half too. *)
Definition early_size (m : memory) (ptr : Z) : Z := Z.land (ld m (ptr - 8)) (u32 (- 8)).

Definition realloc (fuel : nat) (ptr size : Z) : W Z := fun w =>
  if ((ptr =? 0) && use_shared_memory_only w) || shm_is_shared_memory_pointer ptr then
    guarded
      (wbind unregister_shared_memory_as_default (fun _ =>
       wbind (shm (__libc_shm_realloc fuel ptr size)) (fun new_ptr =>
       wbind reregister_shared_memory_as_default (fun _ => wret new_ptr)))) w
  else if ptr =? 0 then malloc fuel size w
  else if negb l_realloc_resolved then
    let current_size := early_size (wmem w) ptr in
    if size <? current_size then WOk ptr w
    else
      wbind (malloc fuel size) (fun ptr2 =>
      wbind (wmodify (fun w => put_shm (upd_mem (mem_copy ptr2 ptr (Z.to_nat (current_size / 8))) (w_shm w)) w)) (fun _ =>
      wbind (free fuel ptr) (fun _ => wret ptr2))) w
  else let '(p, l, m) := l_realloc ptr size (w_libc w) (wmem w) in WOk p (put_libc l m w).

(** [memmove (d, s, n)]: all of [src] is read before the writes. *)
Fixpoint copy_bytes (d s : Z) (n : nat) (src m : memory) : memory :=
  match n with
  | O => m
  | S k => copy_bytes (d + 1) (s + 1) k src (st_byte m d (ld_byte src s))
  end.
Definition memmove (d s : Z) (n : nat) : W unit :=
  wmodify (fun w => put_shm (upd_mem (fun m => copy_bytes d s n m m) (w_shm w)) w).

Definition realloc_to_shm (fuel : nat) (ptr size : Z) : W Z :=
  if (ptr =? 0) || shm_is_shared_memory_pointer ptr then shm (__libc_shm_realloc fuel ptr size)
  else
    wbind (shm_malloc_2 fuel size) (fun result =>
    wbind (memmove result ptr (Z.to_nat size)) (fun _ => wret result)).

Definition ipc_free (fuel : nat) (ptr : Z) : W Z :=
  if shm_is_shared_memory_pointer ptr then wbind (free fuel ptr) (fun _ => wret 0) else wret ptr.

(** [originalFree]: the function the caller gave. *)
Definition shm_free_wrapper (fuel : nat) (ptr : Z) (originalFree : Z -> W unit) : W unit :=
  if shm_is_shared_memory_pointer ptr then shm (__libc_shm_free fuel ptr) else originalFree ptr.

(** ** Mappings *)

Definition mmap (addr length prot flags fd offset : Z) : W Z := fun w =>
  if use_shared_memory_only w then shm_pages (shm_mmap addr length prot flags fd offset) w
  else
    let result := k_mmap addr length prot flags in
    WOk result (put_shm (upd_mem (fun m => if result =? MAP_FAILED then m else mem_zero result (result + length) m) (w_shm w)) w).
Definition mmap64 : Z -> Z -> Z -> Z -> Z -> Z -> W Z := mmap.

Definition mremap (old_address old_size new_size flags : Z) : W Z :=
  if shm_is_shared_memory_pointer old_address then shm_pages (shm_mremap old_address old_size new_size)
  else wret (l_mremap old_address old_size new_size flags).

(** ** Strings *)

Fixpoint strlen (fuel : nat) (m : memory) (s : Z) : option nat :=
  match fuel with
  | O => None
  | S k => if ld_byte m s =? 0 then Some O else S <$> strlen k m (s + 1)
  end.

Definition shm_strdup (fuel : nat) (s : Z) : W Z := fun w =>
  match strlen fuel (wmem w) s with
  | None => WNoFuel
  | Some n =>
      let len := Z.of_nat n + 1 in
      wbind (shm_malloc_2 fuel len) (fun newString =>
        if newString =? 0 then wret 0
        else wbind (memmove newString s (Z.to_nat len)) (fun _ => wret newString)) w
  end.

End Wrap.

(** ** Files mapped into both processes *)

Definition put_next_free (v : Z) (i : shm_info) : shm_info :=
  mkShm (base i) (has_forked i) (has_unintenden_fork i) (shared_size i) (current_mapped_size i)
    (pages_used i) (bitset_size i) (first_unused_page_index i) v (pagesize_ i) (remap_unregistered i).

(** [synchronizedFileMap]: [K] is the kernel as this process sees it, [K'] as
    the other one does; the result is the address this process got, and the
    one the other process got. *)
Definition synchronizedFileMap (K K' : Kernel) (length prot flags fd : Z) (sent : bool) (fresh : Z)
    (i : shm_info) (p q : fd_side) : option (Z * Z * shm_info * fd_side * fd_side) :=
  '(_, p, q) ← mapToOtherSide fd sent fresh p q;
  let addr := mmap_next_free_address i in
  let i := put_next_free (addr +w ALIGN_UP length (pagesize_ i)) i in
  let result := @k_mmap K addr length prot flags in
  let result2 := @internal_mmap K' addr length prot flags in
  Some (result, result2, i, p, q).

(** ** Forks *)

Definition shared_memory_forking (i : shm_info) : shm_info :=
  mkShm (base i) true (has_unintenden_fork i) (shared_size i) (current_mapped_size i)
    (pages_used i) (bitset_size i) (first_unused_page_index i) (mmap_next_free_address i) (pagesize_ i) (remap_unregistered i).

(** [shared_memory_unfork]: the new [shared_memory_has_forked_complete] and the segment. *)
Definition shared_memory_unfork (i : option shm_info) : bool * option shm_info :=
  (false,
   (fun i => mkShm (base i) (has_forked i) true (shared_size i) (current_mapped_size i)
      (pages_used i) (bitset_size i) (first_unused_page_index i) (mmap_next_free_address i) (pagesize_ i) (remap_unregistered i)) <$> i).
