(* ===== verification/ShmWrapProps.v ===== *)
(** * What the interposed functions keep

    The hooks of [src/libipc/shared_memory_manager.cpp] across calls, the
    choice of the allocator, string copies and file mappings. *)

From S2P Require Import Prelude MallocState MallocCore MallocInt MallocApi HookProps PageAlloc PageProps Ipc FdMap ShmWrap.

Lemma ld_byte_range m a : Z.land (ld_byte m a) 255 = ld_byte m a.
Proof. unfold ld_byte. by rewrite <- Z.land_assoc. Qed.

Section WrapProps.
Context `{K : Kernel} `{LC : Libc}.
Implicit Types w : world.

(** ** The hooks *)

(** The hooks are set exactly when shared memory is the default, and the
    mutex is free: the state between two calls. *)
Definition hooks_ok w : Prop :=
  malloc_hook_set w = use_shared_memory_only w /\ memalign_hook_set w = use_shared_memory_only w /\ memory_mutex w = false.

Inductive wcall :=
| CallMalloc (size : Z)
| CallMemalignHook (alignment size : Z)
| CallFree (ptr : Z)
| CallRealloc (ptr size : Z)
| CallReallocToShm (ptr size : Z)
| CallIpcFree (ptr : Z)
| CallFreeWrapper (ptr : Z)
| CallMmap (addr length prot flags fd offset : Z)
| CallMremap (old_address old_size new_size flags : Z)
| CallStrdup (s : Z)
| CallRegister.

#[export] Instance wcall_eq_dec : EqDecision wcall.
Proof. solve_decision. Defined.

Definition discard {A} (c : W A) : W unit := wbind c (fun _ => wret tt).

Definition run_wcall (fuel : nat) (c : wcall) : W unit :=
  match c with
  | CallMalloc size => discard (malloc fuel size)
  | CallMemalignHook alignment size => discard (shm_memalign_hook fuel alignment size)
  | CallFree ptr => free fuel ptr
  | CallRealloc ptr size => discard (realloc fuel ptr size)
  | CallReallocToShm ptr size => discard (realloc_to_shm fuel ptr size)
  | CallIpcFree ptr => discard (ipc_free fuel ptr)
  | CallFreeWrapper ptr => shm_free_wrapper fuel ptr (free fuel)
  | CallMmap addr length prot flags fd offset => discard (mmap addr length prot flags fd offset)
  | CallMremap o os ns f => discard (mremap o os ns f)
  | CallStrdup s => discard (shm_strdup fuel s)
  | CallRegister => register_shared_memory_as_default
  end.

(** A computation keeps the hooks when it returns, and leaves the mutex free
    when it throws. *)
Definition keeps_hooks {A} (c : W A) : Prop := forall w, hooks_ok w ->
  match c w with
  | WOk _ w' => hooks_ok w' /\ use_shared_memory_only w' = use_shared_memory_only w
  | WThrown w' => memory_mutex w' = false /\ use_shared_memory_only w' = use_shared_memory_only w
  | _ => True
  end.

Lemma keeps_ret {A} (a : A) : keeps_hooks (wret a).
Proof. by intros w Hw. Qed.

Lemma keeps_bind {A B} (c : W A) (k : A -> W B) :
  keeps_hooks c -> (forall a, keeps_hooks (k a)) -> keeps_hooks (wbind c k).
Proof.
  intros Hc Hk w Hw. unfold wbind. specialize (Hc w Hw). destruct (c w) as [a w' | w' | | | ]; try done.
  destruct Hc as [Hw' <-]. by apply Hk.
Qed.

Lemma keeps_modify f :
  (forall w, hooks_ok w -> hooks_ok (f w) /\ use_shared_memory_only (f w) = use_shared_memory_only w) -> keeps_hooks (wmodify f).
Proof. intros Hf w Hw. by apply Hf. Qed.

Lemma thrown_frame s w :
  memory_mutex (thrown s w) = memory_mutex w /\ use_shared_memory_only (thrown s w) = use_shared_memory_only w.
Proof. unfold thrown. by destruct (_ && _). Qed.

Lemma keeps_shm {A} (c : @M shm_page_source A) : keeps_hooks (shm c).
Proof. intros w (H1 & H2 & H3). unfold shm. destruct (c (w_shm w)); try done. by destruct (thrown_frame s w) as [-> ->]. Qed.

Lemma keeps_pages c : keeps_hooks (shm_pages c).
Proof. intros w (H1 & H2 & H3). unfold shm_pages. destruct (c _ _) as [| i |]; try done.
  by destruct (thrown_frame (@set_os shm_page_source i (w_shm w)) w) as [-> ->]. Qed.

(** Inside the guard the hooks are off; the tail sets them again. *)
Lemma keeps_guarded {A} (c : @M shm_page_source A) :
  keeps_hooks (guarded (wbind unregister_shared_memory_as_default (fun _ =>
    wbind (shm c) (fun a => wbind reregister_shared_memory_as_default (fun _ => wret a))))).
Proof.
  intros w (H1 & H2 & H3). unfold guarded, wbind, unregister_shared_memory_as_default, reregister_shared_memory_as_default, wmodify, shm, wret.
  rewrite H3. cbn [put_mutex use_shared_memory_only].
  destruct (use_shared_memory_only w) eqn:Eu; cbn [put_hooks put_mutex w_shm use_shared_memory_only];
    destruct (c (w_shm w)) as [a s|s| | | ]; unfold thrown; cbn; rewrite ?Eu, ?andb_false_r; cbn; try done.
  - by destruct (remap_unregistered _); cbn.
  - unfold hooks_ok. cbn. by rewrite Eu.
Qed.

Lemma keeps_free fuel ptr : keeps_hooks (free fuel ptr).
Proof.
  unfold free. destruct (shm_is_shared_memory_pointer ptr).
  - intros w Hw. pose proof (keeps_guarded (__libc_shm_free fuel ptr) w Hw) as H. revert H. unfold guarded, wbind, wret.
    destruct Hw as (_ & _ & Hm). rewrite Hm. destruct (unregister_shared_memory_as_default _) as [? w1 | w1 | | | ]; try done.
    destruct (shm _ w1) as [? w2 | w2 | | | ]; done.
  - intros w (H1 & H2 & H3). destruct l_free_resolved; [|done]. by destruct (l_free ptr _ _).
Qed.

Lemma keeps_malloc fuel size : keeps_hooks (malloc fuel size).
Proof.
  intros w (H1 & H2 & H3). unfold malloc. destruct (malloc_hook_set w) eqn:Eh.
  - unfold shm_malloc_hook, guarded, wbind, wmodify, wret, shm_malloc_2, shm. rewrite H3.
    cbn [put_mutex put_malloc_hook w_shm]. destruct (__libc_shm_malloc fuel size (w_shm w)) as [a s|s| | | ]; try done.
    unfold thrown. cbn. by destruct (_ && _).
  - destruct (l_malloc size _ _) as [[? ?] ?]. unfold hooks_ok. cbn. by rewrite Eh.
Qed.

Lemma keeps_memmove d s n : keeps_hooks (memmove d s n).
Proof. by apply keeps_modify. Qed.

Create HintDb wrap.
#[local] Hint Resolve keeps_ret keeps_bind keeps_shm keeps_pages keeps_free keeps_malloc keeps_memmove : wrap.

(** The copying branch of [realloc]. *)
Definition moving (fuel : nat) (ptr size : Z) (n : nat) : W Z :=
  wbind (malloc fuel size) (fun ptr2 =>
  wbind (wmodify (fun w => put_shm (upd_mem (mem_copy ptr2 ptr n) (w_shm w)) w)) (fun _ =>
  wbind (free fuel ptr) (fun _ => wret ptr2))).

Lemma keeps_move fuel ptr size n : keeps_hooks (moving fuel ptr size n).
Proof.
  apply keeps_bind; [apply keeps_malloc|intros p]. apply keeps_bind; [by apply keeps_modify|intros _].
  apply keeps_bind; [apply keeps_free|intros _; apply keeps_ret].
Qed.

Lemma keeps_realloc fuel ptr size : keeps_hooks (realloc fuel ptr size).
Proof.
  intros w Hw. unfold realloc. destruct (_ || _); [by apply (keeps_guarded (__libc_shm_realloc fuel ptr size))|].
  destruct (ptr =? 0); [by apply keeps_malloc|]. destruct (negb l_realloc_resolved).
  - destruct (_ <? _); [done|]. by apply keeps_move.
  - by destruct (l_realloc ptr size _ _) as [[? ?] ?].
Qed.

Lemma keeps_strdup fuel s : keeps_hooks (shm_strdup fuel s).
Proof.
  intros w Hw. unfold shm_strdup. destruct (strlen fuel (wmem w) s) as [n|]; [|done]. revert w Hw.
  apply keeps_bind; [apply keeps_shm|intros p]. destruct (p =? 0); [apply keeps_ret|].
  apply keeps_bind; [apply keeps_memmove|intros _; apply keeps_ret].
Qed.

Lemma keeps_mmap addr length prot flags fd offset : keeps_hooks (mmap addr length prot flags fd offset).
Proof. intros w Hw. unfold mmap. destruct (use_shared_memory_only w) eqn:E; [|done]. rewrite <- E. by apply keeps_pages. Qed.

#[local] Hint Resolve keeps_realloc keeps_strdup keeps_mmap : wrap.

Lemma keeps_discard {A} (c : W A) : keeps_hooks c -> keeps_hooks (discard c).
Proof. intros Hc. apply keeps_bind; [done|]. intros a. apply keeps_ret. Qed.

#[local] Hint Resolve keeps_discard : wrap.

Lemma keeps_call fuel c : c <> CallRegister -> keeps_hooks (run_wcall fuel c).
Proof.
  destruct c as [size|al size|ptr|ptr size|ptr size|ptr|ptr| | | |]; intros Hc; try done; cbn [run_wcall]; auto with wrap.
  - apply keeps_discard, keeps_shm.
  - apply keeps_discard. unfold realloc_to_shm. destruct (_ || _); [apply keeps_shm|].
    apply keeps_bind; [apply keeps_shm|intros p]. apply keeps_bind; auto with wrap.
  - apply keeps_discard. unfold ipc_free. destruct (shm_is_shared_memory_pointer ptr); auto with wrap.
  - unfold shm_free_wrapper. destruct (shm_is_shared_memory_pointer ptr); auto with wrap.
  - apply keeps_discard. unfold mremap. destruct (shm_is_shared_memory_pointer _); auto with wrap.
Qed.

(** C22: between calls the hooks are set exactly when shared memory is the
    default and [memory_mutex] is free.  Every interposed function that
    returns re-establishes this, and one that throws still frees the mutex;
    only [register_shared_memory_as_default] changes the default. *)
Theorem wrappers_keep_hooks fuel c w : hooks_ok w ->
  match run_wcall fuel c w with
  | WOk _ w' => hooks_ok w'
      /\ use_shared_memory_only w' = (if decide (c = CallRegister) then true else use_shared_memory_only w)
  | WThrown w' => memory_mutex w' = false /\ use_shared_memory_only w' = use_shared_memory_only w
  | _ => True
  end.
Proof.
  intros Hw. destruct (decide (c = CallRegister)) as [->|Hc]; [|by apply keeps_call].
  by destruct Hw as (_ & _ & ?).
Qed.

(** ** Exceptions *)

(** An exception out of the computation leaves the allocator's hook unset. *)
Definition loses_hook {A} (c : W A) : Prop := forall w w', hooks_ok w -> use_shared_memory_only w = true ->
  c w = WThrown w' -> malloc_hook_set w' = false.

Lemma loses_bind {A B} (c : W A) (k : A -> W B) :
  keeps_hooks c -> loses_hook c -> (forall a, loses_hook (k a)) -> loses_hook (wbind c k).
Proof.
  intros Hk Hc Hr w w' Hw Hu. unfold wbind. specialize (Hk w Hw). destruct (c w) as [a w1 | w1 | | | ] eqn:E; try done.
  - destruct Hk as [H1 H2]. apply Hr; [done|congruence].
  - intros [= <-]. by apply (Hc w).
Qed.

Lemma loses_ok {A} (c : W A) : (forall w, exists a w', c w = WOk a w') -> loses_hook c.
Proof. intros Hc w w' _ _. by destruct (Hc w) as (a & w1 & ->). Qed.

Lemma thrown_hook s w : malloc_hook_set w = false -> malloc_hook_set (thrown s w) = false.
Proof. unfold thrown. by destruct (_ && _). Qed.

Lemma loses_guarded {A B} (c : @M shm_page_source A) (k : A -> W B) :
  (forall a w, exists b w', k a w = WOk b w') ->
  loses_hook (guarded (wbind unregister_shared_memory_as_default (fun _ => wbind (shm c) k))).
Proof.
  intros Hk w w' (H1 & H2 & H3) Hu. unfold guarded, wbind, unregister_shared_memory_as_default, wmodify. rewrite H3.
  cbn [put_mutex use_shared_memory_only]. rewrite Hu. unfold shm. cbn [put_hooks put_mutex w_shm].
  destruct (c (w_shm w)) as [a s|s| | | ]; try done.
  - match goal with |- context [k a ?w0] => destruct (Hk a w0) as (b & w1 & ->) end. done.
  - intros [= <-]. by apply thrown_hook.
Qed.

Lemma loses_free fuel ptr : loses_hook (free fuel ptr).
Proof.
  unfold free. destruct (shm_is_shared_memory_pointer ptr).
  - apply loses_guarded. intros a w. unfold reregister_shared_memory_as_default, wmodify. eauto.
  - apply loses_ok. intros w. destruct l_free_resolved; [destruct (l_free ptr _ _)|]; eauto.
Qed.

Lemma loses_malloc fuel size : loses_hook (malloc fuel size).
Proof.
  intros w w' (H1 & H2 & H3) Hu. unfold malloc. rewrite H1, Hu.
  unfold shm_malloc_hook, guarded, wbind, wmodify, wret, shm_malloc_2, shm. rewrite H3.
  cbn [put_mutex put_malloc_hook w_shm]. destruct (__libc_shm_malloc fuel size (w_shm w)) as [a s|s| | | ]; try done.
  intros [= <-]. by apply thrown_hook.
Qed.

Lemma loses_move fuel ptr size n : loses_hook (moving fuel ptr size n).
Proof.
  apply loses_bind; [apply keeps_malloc|apply loses_malloc|intros p].
  apply loses_bind; [by apply keeps_modify|apply loses_ok; unfold wmodify; eauto|intros _].
  apply loses_bind; [apply keeps_free|apply loses_free|intros _; apply loses_ok; unfold wret; eauto].
Qed.

Lemma loses_realloc fuel ptr size : loses_hook (realloc fuel ptr size).
Proof.
  intros w w' Hw Hu. unfold realloc. destruct (_ || _).
  { apply (loses_guarded (__libc_shm_realloc fuel ptr size)); [|done|done]. intros a w0.
    unfold wbind, reregister_shared_memory_as_default, wmodify, wret. eauto. }
  destruct (ptr =? 0); [by apply loses_malloc|]. destruct (negb l_realloc_resolved).
  - destruct (_ <? _); [done|]. by apply loses_move.
  - by destruct (l_realloc ptr size _ _) as [[? ?] ?].
Qed.

(** The calls that run the shared allocator with the hooks removed. *)
Definition unhooked (c : wcall) : bool :=
  match c with CallMalloc _ | CallFree _ | CallRealloc _ _ | CallIpcFree _ => true | _ => false end.

Lemma loses_call fuel c : unhooked c = true -> loses_hook (run_wcall fuel c).
Proof.
  destruct c as [size|al size|ptr|ptr size|ptr size|ptr| | | | |]; intros Hc; try done; cbn [run_wcall].
  - apply loses_bind; [apply keeps_malloc|apply loses_malloc|intros a; apply loses_ok; unfold wret; eauto].
  - apply loses_free.
  - apply loses_bind; [apply keeps_realloc|apply loses_realloc|intros a; apply loses_ok; unfold wret; eauto].
  - unfold ipc_free. destruct (shm_is_shared_memory_pointer ptr); [|apply loses_ok; unfold discard, wbind, wret; eauto].
    apply loses_bind; [|apply loses_bind; [apply keeps_free|apply loses_free|]|];
      [apply keeps_bind; [apply keeps_free|intros; apply keeps_ret]|intros a; apply loses_ok; unfold wret; eauto..].
Qed.

(** C36: when the shared allocator throws below [malloc], [free], [realloc] or
    [ipc_free], the hook that [unregister] or [shm_malloc_hook] removed is not
    put back although shared memory stays the default: from then on [malloc]
    is served from private memory. *)
Theorem exception_loses_hooks fuel c w w' :
  hooks_ok w -> use_shared_memory_only w = true -> unhooked c = true -> run_wcall fuel c w = WThrown w' ->
  use_shared_memory_only w' = true /\ malloc_hook_set w' = false
  /\ forall fuel' size, malloc fuel' size w' =
       (let '(p, l, m) := l_malloc size (w_libc w') (wmem w') in WOk p (put_libc l m w')).
Proof.
  intros Hw Hu Hc E. assert (malloc_hook_set w' = false) as Hh by (by apply (loses_call fuel c Hc w)).
  assert (keeps_hooks (run_wcall fuel c)) as Hk by (apply keeps_call; by destruct c).
  specialize (Hk w Hw). rewrite E in Hk. destruct Hk as [_ Hu']. split; [congruence|]. split; [done|].
  intros fuel' size. unfold malloc. by rewrite Hh.
Qed.

(** ** Copies *)

Lemma copy_bytes_get n : forall d s src m a, 
  ld_byte (copy_bytes d s n src m) a = (if in_range d (d + Z.of_nat n) a then ld_byte src (s + (a - d)) else ld_byte m a).
Proof.
  induction n as [|n IH]; intros d s src m a; cbn [copy_bytes]; unfold in_range.
  { destruct (Z.leb_spec d a), (Z.ltb_spec a (d + Z.of_nat 0)); cbn; try done; lia. }
  rewrite IH. unfold in_range. destruct (Z.eq_dec d a) as [<-|Hne].
  - rewrite (proj2 (Z.leb_gt (d + 1) d)), (Z.leb_refl d), (proj2 (Z.ltb_lt d (d + Z.of_nat (S n)))) by lia. cbn [andb].
    rewrite ld_st_byte_eq, ld_byte_range. by rewrite Z.sub_diag, Z.add_0_r.
  - rewrite ld_st_byte_ne by done. replace (d + 1 + Z.of_nat n) with (d + Z.of_nat (S n)) by lia.
    replace (s + 1 + (a - (d + 1))) with (s + (a - d)) by lia.
    destruct (Z.leb_spec (d + 1) a), (Z.leb_spec d a); try done; exfalso; clear -Hne H H0; lia.
Qed.

Lemma strlen_spec m n : forall fuel s,
  (n < fuel)%nat -> (forall k, 0 <= k < Z.of_nat n -> ld_byte m (s + k) <> 0) -> ld_byte m (s + Z.of_nat n) = 0 ->
  strlen fuel m s = Some n.
Proof.
  induction n as [|n IH]; intros [|fuel] s Hf Hne Hz; try lia; cbn [strlen].
  - rewrite Z.add_0_r in Hz. by rewrite Hz.
  - pose proof (Hne 0 ltac:(lia)) as H0. rewrite Z.add_0_r in H0. rewrite (proj2 (Z.eqb_neq _ _) H0).
    rewrite (IH fuel (s + 1)); [done|lia| |].
    + intros k Hk. replace (s + 1 + k) with (s + (1 + k)) by lia. apply Hne. lia.
    + rewrite <- Hz. f_equal. lia.
Qed.

(** [shm_strdup] of a string of [n] characters, when the shared allocator
    returns a block, returns that block holding the characters and the final
    zero, with every other byte as the allocator left it; the copy reads back as a
    string of the same length if the allocation left the original alone. *)
Theorem shm_strdup_copies fuel s w n p w1 :
  (n < fuel)%nat ->
  (forall k, 0 <= k < Z.of_nat n -> ld_byte (wmem w) (s + k) <> 0) -> ld_byte (wmem w) (s + Z.of_nat n) = 0 ->
  shm_malloc_2 fuel (Z.of_nat n + 1) w = WOk p w1 -> p <> 0 ->
  exists w', shm_strdup fuel s w = WOk p w'
    /\ (forall a, ld_byte (wmem w') a =
         if in_range p (p + Z.of_nat n + 1) a then ld_byte (wmem w1) (s + (a - p)) else ld_byte (wmem w1) a)
    /\ ((forall k, 0 <= k <= Z.of_nat n -> ld_byte (wmem w1) (s + k) = ld_byte (wmem w) (s + k)) ->
        strlen fuel (wmem w') p = Some n).
Proof.
  intros Hf Hne Hz Hm Hp. unfold shm_strdup. rewrite (strlen_spec _ n) by done. unfold wbind. rewrite Hm.
  rewrite (proj2 (Z.eqb_neq p 0) Hp). unfold memmove, wmodify, wret. eexists. split; [reflexivity|].
  assert (forall a, ld_byte (copy_bytes p s (Z.to_nat (Z.of_nat n + 1)) (wmem w1) (wmem w1)) a =
         if in_range p (p + Z.of_nat n + 1) a then ld_byte (wmem w1) (s + (a - p)) else ld_byte (wmem w1) a) as Hc.
  { intros a. rewrite copy_bytes_get. by replace (p + Z.of_nat (Z.to_nat (Z.of_nat n + 1))) with (p + Z.of_nat n + 1) by lia. }
  split; [exact Hc|]. intros Hsame.
  assert (forall k, 0 <= k <= Z.of_nat n -> in_range p (p + Z.of_nat n + 1) (p + k) = true) as Hin.
  { intros k Hk. unfold in_range. by rewrite (proj2 (Z.leb_le p _)), (proj2 (Z.ltb_lt _ _)) by lia. }
  apply strlen_spec; [done| |].
  - intros k Hk. cbn [wmem put_shm w_shm upd_mem st_mem]. fold (wmem w1). rewrite Hc, Hin by lia.
    rewrite Z.add_simpl_l, Hsame by lia. by apply Hne.
  - cbn [wmem put_shm w_shm upd_mem st_mem]. fold (wmem w1). by rewrite Hc, Hin, Z.add_simpl_l, Hsame by lia.
Qed.

End WrapProps.

(** ** A concrete process *)

(** A kernel whose file system is full, and a private allocator that hands
    out addresses in order. *)
Definition full_kernel : Kernel := {|
  k_ftruncate _ := false; k_mremap b _ _ := b; k_mmap a _ _ _ := a; k_mprotect _ _ _ := 0 |}.
Definition bump_libc : Libc := {|
  l_state := Z; l_free_resolved := true; l_realloc_resolved := true;
  l_free _ l m := (l, m); l_malloc n l m := (l, l + n, m); l_realloc _ n l m := (l, l + n, m);
  l_mremap o _ _ _ := o |}.

(** Shared memory is the default, the allocator not yet initialised, and the
    private string "Hi" at [4096]. *)
Definition small_world (K : Kernel) : @world K bump_libc :=
  let i := mkShm shm_shared_memory_base false false 20480 20480 {[0 := 31]} 64 5 68169720922112 4096 false in
  let av := malloc_memory i in
  @mkWorld K bump_libc true true true false 1048576
    (@mkSt (@shm_page_source K) {[4096 := 72 + 256 * 105]} (mkGl av mp_init 0 DEFAULT_CHECK_ACTION 0 0 4096)
      (mkAg av 0 0 0 1 0 (-1) 0 0 0) (mkHk HookIni HookNull HookIni HookIni 0 0) (mkEnv [] false 1 false) i []).

Lemma small_hooks_ok K : @hooks_ok K bump_libc (small_world K).
Proof. done. Qed.

Lemma wrappers_keep_hooks_witness :
  match @run_wcall good_kernel bump_libc 1000 (CallMalloc 100) (small_world good_kernel) with
  | WOk _ w' => hooks_ok w' /\ use_shared_memory_only w' = true
  | _ => False
  end.
Proof.
  pose proof (@wrappers_keep_hooks good_kernel bump_libc 1000 (CallMalloc 100) _ (small_hooks_ok good_kernel)) as H.
  destruct (run_wcall 1000 (CallMalloc 100) (small_world good_kernel)) as [u w' | w' | | | ] eqn:E.
  2-5: apply (f_equal (fun r => match r with WOk _ _ => true | _ => false end)) in E; vm_compute in E; discriminate E.
  destruct H as [H1 H2]. split; [exact H1|]. rewrite H2. reflexivity.
Defined.

Lemma exception_loses_hooks_witness :
  match @run_wcall full_kernel bump_libc 1000 (CallMalloc 100) (small_world full_kernel) with
  | WThrown w' => use_shared_memory_only w' = true /\ malloc_hook_set w' = false
  | _ => False
  end.
Proof.
  pose proof (@exception_loses_hooks full_kernel bump_libc 1000 (CallMalloc 100) (small_world full_kernel)) as H.
  destruct (run_wcall 1000 (CallMalloc 100) (small_world full_kernel)) as [u w' | w' | | | ] eqn:E.
  1,3-5: apply (f_equal (fun r => match r with WThrown _ => true | _ => false end)) in E; vm_compute in E; discriminate E.
  destruct (H w' (small_hooks_ok full_kernel) eq_refl eq_refl eq_refl) as (H1 & H2 & _). split; [exact H1|exact H2].
Defined.

Lemma shm_strdup_copies_witness :
  match @shm_malloc_2 good_kernel bump_libc 1000 3 (small_world good_kernel) with
  | WOk p w1 => exists w', @shm_strdup good_kernel bump_libc 1000 4096 (small_world good_kernel) = WOk p w'
      /\ strlen 1000 (wmem w') p = Some 2%nat
  | _ => False
  end.
Proof.
  pose proof (@shm_strdup_copies good_kernel bump_libc 1000 4096 (small_world good_kernel) 2) as H.
  change (Z.of_nat 2 + 1) with 3 in H.
  destruct (shm_malloc_2 1000 3 (small_world good_kernel)) as [p w1 | w1 | | | ] eqn:E.
  2-5: apply (f_equal (fun r => match r with WOk _ _ => true | _ => false end)) in E; vm_compute in E; discriminate E.
  assert ((negb (p =? 0) && forallb (fun k => ld_byte (wmem w1) (4096 + k) =? ld_byte (wmem (small_world good_kernel)) (4096 + k)) [0; 1; 2]) = true) as B.
  { apply (f_equal (fun r => match r with WOk p w1 => negb (p =? 0) && forallb (fun k => ld_byte (wmem w1) (4096 + k) =? ld_byte (wmem (small_world good_kernel)) (4096 + k)) [0; 1; 2] | _ => true end)) in E.
    cbv iota in E. rewrite <- E. vm_compute. reflexivity. }
  apply andb_true_iff in B as [B1 B2]. cbn [forallb] in B2. rewrite !andb_true_iff, !Z.eqb_eq in B2. destruct B2 as (B2 & B3 & B4 & _).
  destruct (H p w1) as (w' & H1 & _ & H2); [lia| |reflexivity|reflexivity| |].
  - intros k Hk. assert (k = 0 \/ k = 1) as [->| ->] by lia; vm_compute; discriminate.
  - intros ->. discriminate B1.
  - exists w'. split; [exact H1|]. apply H2. intros k Hk. assert (k = 0 \/ k = 1 \/ k = 2) as [->|[->| ->]] by lia; assumption.
Defined.

(** ** Files mapped on both sides *)

Record map_req := mkReq { q_length : Z; q_prot : Z; q_flags : Z; q_fd : Z; q_sent : bool; q_fresh : Z }.

(** A mapping that was made: the address asked for, the request, and what the
    two processes got. *)
Record made := mkMade { m_addr : Z; m_req : map_req; m_here : Z; m_there : Z }.

Fixpoint file_maps (K K' : Kernel) (l : list map_req) (i : shm_info) (p q : fd_side) : option (list made * shm_info) :=
  match l with
  | [] => Some ([], i)
  | r :: l =>
      '(x, y, i1, p, q) ← synchronizedFileMap K K' (q_length r) (q_prot r) (q_flags r) (q_fd r) (q_sent r) (q_fresh r) i p q;
      '(ms, i2) ← file_maps K K' l i1 p q;
      Some (mkMade (mmap_next_free_address i) r x y :: ms, i2)
  end.

Definition file_bytes (l : list map_req) : Z := fold_right (fun r z => ALIGN_UP (q_length r) 4096 + z) 0 l.

(** The two processes ask their kernels for the same page-aligned range of the
    file window. *)
Definition same_range (K K' : Kernel) (x : made) : Prop :=
  let r := m_req x in
  m_addr x mod 4096 = 0 /\ 68169720922112 <= m_addr x /\ m_addr x + q_length r <= 69269232549888
  /\ m_here x = @k_mmap K (m_addr x) (q_length r) (q_prot r) (q_flags r)
  /\ m_there x = @k_mmap K' (m_addr x) (q_length r) (q_prot r) (q_flags r).

Definition sane_length (r : map_req) : Prop := 0 < q_length r <= 1099511627776.

Lemma sane_aligned r : sane_length r ->
  q_length r <= ALIGN_UP (q_length r) 4096 /\ ALIGN_UP (q_length r) 4096 mod 4096 = 0.
Proof. intros [H1 H2]. destruct (ALIGN_UP_4096_spec (q_length r)) as [H3 H4]; lia. Qed.

Lemma file_bytes_nonneg l : Forall sane_length l -> 0 <= file_bytes l.
Proof.
  induction 1 as [|r l Hr Hl IH]; cbn [file_bytes fold_right]; [lia|]. fold (file_bytes l).
  pose proof (sane_aligned r Hr). destruct Hr. lia.
Qed.

(** One mapping from an aligned cursor inside the window. *)
Lemma file_map_step K K' r i p q x y i1 p1 q1 :
  sane_length r -> pagesize_ i = 4096 -> mmap_next_free_address i mod 4096 = 0 ->
  68169720922112 <= mmap_next_free_address i -> mmap_next_free_address i + ALIGN_UP (q_length r) 4096 <= 69269232549888 ->
  synchronizedFileMap K K' (q_length r) (q_prot r) (q_flags r) (q_fd r) (q_sent r) (q_fresh r) i p q = Some (x, y, i1, p1, q1) ->
  same_range K K' (mkMade (mmap_next_free_address i) r x y) /\ pagesize_ i1 = 4096
  /\ mmap_next_free_address i1 = mmap_next_free_address i + ALIGN_UP (q_length r) 4096.
Proof.
  intros Hr Hps Ha H1 H2. pose proof (sane_aligned r Hr) as [H3 H4]. pose proof Hr as [H5 H6]. unfold synchronizedFileMap.
  destruct (mapToOtherSide _ _ _ _ _) as [[[fd' p'] q']|]; cbn [mbind option_bind]; [|done]. intros [= <- <- <- <- <-].
  split; [|split; [done|]].
  - unfold same_range. cbn [m_addr m_req m_here m_there]. repeat (split; [done || lia|]).
    rewrite internal_mmap_window by lia. unfold in_range.
    by rewrite (proj2 (Z.leb_le _ _)), (proj2 (Z.ltb_lt _ _)) by lia.
  - cbn [put_next_free mmap_next_free_address]. rewrite Hps. apply u64_small. lia.
Qed.

(** C37: files mapped into both processes one after the other get page-aligned
    ranges of the window for files that do not overlap, and both kernels are
    asked for the same range: the check that the other process makes on the
    address never refuses it. *)
Theorem file_maps_apart K K' (l : list map_req) : forall i p q ms i',
  Forall sane_length l -> pagesize_ i = 4096 -> mmap_next_free_address i mod 4096 = 0 ->
  68169720922112 <= mmap_next_free_address i -> mmap_next_free_address i + file_bytes l <= 69269232549888 ->
  file_maps K K' l i p q = Some (ms, i') ->
  length ms = length l /\ Forall (same_range K K') ms
  /\ ForallOrdPairs (fun x y => m_addr x + q_length (m_req x) <= m_addr y) ms
  /\ mmap_next_free_address i' = mmap_next_free_address i + file_bytes l
  /\ Forall (fun x => mmap_next_free_address i <= m_addr x) ms.
Proof.
  induction l as [|r l IH]; intros i p q ms i' Hl Hps Ha H1 H2; cbn [file_maps].
  { intros [= <- <-]. repeat split; try constructor. cbn. lia. }
  inversion Hl as [|? ? Hr Hl']. subst. cbn [file_bytes fold_right] in *. fold (file_bytes l) in *.
  pose proof (file_bytes_nonneg l Hl'). destruct (sane_aligned r Hr) as [H3 H4]. pose proof Hr as [H5 H6].
  destruct (synchronizedFileMap _ _ _ _ _ _ _ _ _ _ _) as [[[[[x y] i1] p1] q1]|] eqn:E; cbn [mbind option_bind]; [|done].
  apply file_map_step in E as (E1 & E2 & E3); [|done|done|done|done|lia].
  destruct (file_maps K K' l i1 p1 q1) as [[ms1 i2]|] eqn:F; cbn [mbind option_bind]; [|done]. intros [= <- <-].
  apply IH in F as (F1 & F2 & F3 & F4 & F5); [|done|done|rewrite E3; zlia|lia|lia].
  split; [cbn; lia|]. split; [by constructor|]. split; [|split; [lia|]].
  - constructor; [|done]. eapply Forall_impl; [|exact F5]. intros z Hz. cbn [m_addr m_req]. cbn beta in Hz. lia.
  - constructor; [cbn [m_addr]; lia|]. eapply Forall_impl; [|exact F5]. intros z Hz. cbn beta in *. lia.
Qed.

Lemma file_maps_apart_witness :
  let i := shared_memory_init 4096 in
  let l := [mkReq 5000 1 2 0 true 5; mkReq 100 1 2 1 true 6] in
  exists ms i', file_maps good_kernel good_kernel l i (fd_init 7) (fd_init 8) = Some (ms, i')
    /\ (m_addr <$> ms) = [68169720922112; 68169720930304]
    /\ ForallOrdPairs (fun x y => m_addr x + q_length (m_req x) <= m_addr y) ms.
Proof.
  intros i l. pose proof (file_maps_apart good_kernel good_kernel l i (fd_init 7) (fd_init 8)) as H.
  assert (exists ms i', file_maps good_kernel good_kernel l i (fd_init 7) (fd_init 8) = Some (ms, i')
    /\ (m_addr <$> ms) = [68169720922112; 68169720930304]) as (ms & i' & E & Em).
  { unfold l, file_maps, synchronizedFileMap, mapToOtherSide. cbn [q_fd q_sent q_fresh q_length q_prot q_flags].
    eexists _, _. split; reflexivity. }
  exists ms, i'. split; [exact E|]. split; [exact Em|].
  destruct (H ms i') as (_ & _ & H3 & _); [..|exact E|exact H3]; try reflexivity; try done.
  repeat constructor; unfold sane_length; cbn; lia.
Defined.
