(* ===== verification/Bpf.v ===== *)
(** * The system call filters

    [src/libipc/bpf/syscall_filter_mprotect.bpf] and
    [syscall_filter_sequential.bpf], installed by [SeccompFilterBuilder] of
    [src/libipc/seccomp.cpp]: the classic BPF machine on which the kernel runs
    them, and the two programs, line by line, with their labels. *)

From S2P Require Import Prelude PageAlloc.

(** ** The machine *)

(** [struct seccomp_data], 64-bit fields as unsigned numbers. *)
Record seccomp_data := mkSd {
  sd_nr : Z; sd_arch : Z; sd_ip : Z; sd_arg1 : Z; sd_arg2 : Z; sd_arg3 : Z;
  sd_arg4 : Z; sd_arg5 : Z; sd_arg6 : Z }.

(** [lower] and [higher] of [seccomp.cpp]. *)
Definition lower (x : Z) : Z := u32 (u64 x).
Definition higher (x : Z) : Z := u32 (Z.shiftr (u64 x) 32).

(** [ld [k]]: the aligned 32-bit word at byte [k] of the data, which is little
    endian; [None] outside it. *)
Definition load (d : seccomp_data) (k : Z) : option Z :=
  match k with
  | 0 => Some (u32 (sd_nr d))
  | 4 => Some (u32 (sd_arch d))
  | 8 => Some (lower (sd_ip d)) | 12 => Some (higher (sd_ip d))
  | 16 => Some (lower (sd_arg1 d)) | 20 => Some (higher (sd_arg1 d))
  | 24 => Some (lower (sd_arg2 d)) | 28 => Some (higher (sd_arg2 d))
  | 32 => Some (lower (sd_arg3 d)) | 36 => Some (higher (sd_arg3 d))
  | 40 => Some (lower (sd_arg4 d)) | 44 => Some (higher (sd_arg4 d))
  | 48 => Some (lower (sd_arg5 d)) | 52 => Some (higher (sd_arg5 d))
  | 56 => Some (lower (sd_arg6 d)) | 60 => Some (higher (sd_arg6 d))
  | _ => None
  end.

(** The instructions that the filters use.  A conditional jump falls through
    when its test fails; [Label] lines mark positions and do nothing. *)
Inductive insn :=
| Ld (k : Z)
| Tax
| And (k : Z)
| AddX
| Jmp (l : string)
| Jeq (k : Z) (l : string)
| Jne (k : Z) (l : string)
| Jgt (k : Z) (l : string)
| Jge (k : Z) (l : string)
| Jlt (k : Z) (l : string)
| Jset (k : Z) (l : string)
| Ret (k : Z)
| Label (l : string).

Definition is_label (l : string) (i : insn) : bool :=
  match i with Label l' => if decide (l = l') then true else false | _ => false end.

(** The position of a label. *)
Fixpoint find_label (l : string) (p : list insn) : option nat :=
  match p with
  | [] => None
  | i :: p => if is_label l i then Some 0%nat else S <$> find_label l p
  end.

(** The jump of an instruction, taken or not. *)
Definition branch (i : insn) (A : Z) : option (string * bool) :=
  match i with
  | Jmp l => Some (l, true)
  | Jeq k l => Some (l, A =? k)
  | Jne k l => Some (l, negb (A =? k))
  | Jgt k l => Some (l, k <? A)
  | Jge k l => Some (l, k <=? A)
  | Jlt k l => Some (l, A <? k)
  | Jset k l => Some (l, truthy (Z.land A k))
  | _ => None
  end.

(** Runs from [pc] with accumulator [A] and index register [X]; [None]: the
    fuel is used up, or a load, a label or [pc] is invalid. *)
Fixpoint run_bpf (fuel : nat) (p : list insn) (d : seccomp_data) (pc : nat) (A X : Z) : option Z :=
  match fuel with
  | O => None
  | S f =>
      match p !! pc with
      | None => None
      | Some (Ret k) => Some k
      | Some (Ld k) => v ← load d k; run_bpf f p d (S pc) v X
      | Some Tax => run_bpf f p d (S pc) A A
      | Some (And k) => run_bpf f p d (S pc) (Z.land A k) X
      | Some AddX => run_bpf f p d (S pc) (u32 (A + X)) X
      | Some (Label _) => run_bpf f p d (S pc) A X
      | Some i =>
          '(l, taken) ← branch i A;
          if (taken : bool) then pc' ← find_label l p; run_bpf f p d pc' A X
          else run_bpf f p d (S pc) A X
      end
  end.

(** The kernel's decision on a system call: registers start at zero. *)
Definition decide_syscall (p : list insn) (d : seccomp_data) : option Z := run_bpf (length p) p d 0 0 0.

(** ** The programs *)

Definition SECCOMP_RET_ALLOW : Z := 2147418112.   (* 0x7fff0000 *)
Definition SECCOMP_RET_TRAP : Z := 196608.        (* 0x00030000 *)
Definition SECCOMP_RET_KILL : Z := 0.
Definition AUDIT_ARCH_X86_64 : Z := 3221225534.   (* 0xc000003e *)
Definition PROT_WRITE : Z := 2.
Definition SHARED_MEMORY_FD : Z := 1022.

(** System call numbers of [sys/syscall.h]. *)
Definition SYS_write : Z := 1.
Definition SYS_mmap : Z := 9.
Definition SYS_mprotect : Z := 10.
Definition SYS_writev : Z := 20.
Definition SYS_dup : Z := 32.
Definition SYS_dup2 : Z := 33.
Definition SYS_sendfile : Z := 40.
Definition SYS_clone : Z := 56.
Definition SYS_fork : Z := 57.
Definition SYS_vfork : Z := 58.
Definition SYS_splice : Z := 275.
Definition SYS_tee : Z := 276.
Definition SYS_dup3 : Z := 292.
Definition SYS_pwritev : Z := 296.

(** The addresses that the linker gives to the sections ([bpf_ident_0001] to
    [bpf_ident_0014]). *)
Record text_layout := mkLayout {
  start_text_mprotect : Z; stop_text_mprotect : Z; start_text : Z; stop_text : Z }.

Definition filter_mprotect (t : text_layout) : list insn := [
  Ld 4;
  Jne AUDIT_ARCH_X86_64 "bad";
  Ld 0;
  Jeq SYS_mprotect "mprotect";
  Jeq SYS_dup "restrict_fd_arg1";
  Jeq SYS_dup2 "restrict_fd_arg1";
  Jeq SYS_dup3 "restrict_fd_arg1";
  Jeq SYS_write "restrict_fd_arg1";
  Jeq SYS_writev "restrict_fd_arg1";
  Jeq SYS_pwritev "restrict_fd_arg1";
  Jeq SYS_sendfile "restrict_fd_arg1";
  Jeq SYS_splice "restrict_fd_arg3";
  Jeq SYS_tee "restrict_fd_arg2";
  Jeq SYS_mmap "restrict_fd_arg5";
  Jmp "good";

  Label "mprotect";
  Ld 32;
  Jset PROT_WRITE "mprotect_write";
  Ret SECCOMP_RET_ALLOW;

  Label "mprotect_write";
  Ld 20;
  And 4294967040;
  Jeq 16128 "mprotect_check_privileged";
  Ld 20;
  Jgt (higher (stop_text t)) "good";
  Jlt (higher (stop_text t)) "mprotect_write_2";
  Ld 16;
  Jge (lower (stop_text t)) "good";
  Label "mprotect_write_2";
  Ld 20;
  Tax;
  Ld 28;
  AddX;
  Jlt (higher (start_text t)) "good";
  Jmp "bad";

  Label "mprotect_check_privileged";
  Ld 12;
  Jne (higher (start_text_mprotect t)) "bad";
  Ld 8;
  Jlt (lower (start_text_mprotect t)) "bad";
  Jgt (lower (stop_text_mprotect t)) "bad";
  Jmp "good";

  Label "restrict_fd_arg1";
  Ld 16;
  Jeq SHARED_MEMORY_FD "bad";
  Jmp "good";

  Label "restrict_fd_arg2";
  Ld 24;
  Jeq SHARED_MEMORY_FD "bad";
  Jmp "good";

  Label "restrict_fd_arg3";
  Ld 32;
  Jeq SHARED_MEMORY_FD "bad";
  Jmp "good";

  Label "restrict_fd_arg5";
  Ld 48;
  Jeq SHARED_MEMORY_FD "bad";
  Jmp "good";

  Label "good";
  Ret SECCOMP_RET_ALLOW;

  Label "bad";
  Ret SECCOMP_RET_TRAP;
  Ret SECCOMP_RET_KILL ].

Definition filter_sequential : list insn := [
  Ld 4;
  Jne AUDIT_ARCH_X86_64 "bad";
  Ld 0;
  Jeq SYS_clone "bad";
  Jeq SYS_fork "bad";
  Jeq SYS_vfork "bad";
  Jmp "good";

  Label "good";
  Ret SECCOMP_RET_ALLOW;

  Label "bad";
  Ret SECCOMP_RET_TRAP;
  Ret SECCOMP_RET_KILL ].

(** The check of the constructor in the mprotect build: the privileged section
    lies in one 4 GB block ([_exit (1)] otherwise). *)
Definition builder_accepts (t : text_layout) : bool :=
  higher (start_text_mprotect t) =? higher (stop_text_mprotect t).
