(* ===== verification/BpfProps.v ===== *)
(** * What the system call filters allow

    Every program with forward jumps only terminates; the two filters decide
    as the predicates below; what that means for the shared memory
    ([src/libipc/bpf/], [src/libipc/seccomp.cpp]). *)

From S2P Require Import Prelude PageAlloc Bpf.

(** ** Termination *)

(** Every jump goes forward to a label, loads are inside the data, and the
    last instruction returns: what the kernel's checker accepts. *)
Definition insn_ok (p : list insn) (pc : nat) (i : insn) : bool :=
  match i with
  | Ld k => ((k mod 4 =? 0) && (0 <=? k) && (k <? 64)) && (S pc <? length p)%nat
  | Ret _ => true
  | Tax | And _ | AddX | Label _ => (S pc <? length p)%nat
  | Jmp l => match find_label l p with Some n => (pc <? n)%nat | None => false end
  | Jeq _ l | Jne _ l | Jgt _ l | Jge _ l | Jlt _ l | Jset _ l =>
      match find_label l p with Some n => (pc <? n)%nat | None => false end && (S pc <? length p)%nat
  end.

Definition check_bpf (p : list insn) : bool :=
  negb (length p =? 0)%nat
  && forallb (fun pc => match p !! pc with Some i => insn_ok p pc i | None => false end) (seq 0 (length p)).

Lemma find_label_lt l p n : find_label l p = Some n -> (n < length p)%nat.
Proof.
  revert n. induction p as [|i p IH]; intros n H; simpl in *; [done|].
  destruct (is_label l i); [by simplify_eq; lia|].
  destruct (find_label l p) as [m|]; simplify_eq/=. specialize (IH m eq_refl). lia.
Qed.

Lemma load_ok d k : (k mod 4 =? 0) && (0 <=? k) && (k <? 64) = true -> is_Some (load d k).
Proof.
  intros H. bool_hyps. assert (k = 4 * (k / 4)) as E by zlia.
  assert (k / 4 = 0 \/ k / 4 = 1 \/ k / 4 = 2 \/ k / 4 = 3 \/ k / 4 = 4 \/ k / 4 = 5 \/ k / 4 = 6
          \/ k / 4 = 7 \/ k / 4 = 8 \/ k / 4 = 9 \/ k / 4 = 10 \/ k / 4 = 11 \/ k / 4 = 12
          \/ k / 4 = 13 \/ k / 4 = 14 \/ k / 4 = 15) as Hc by zlia.
  rewrite E. repeat (destruct Hc as [->|Hc]; [by eexists|]). rewrite Hc. by eexists.
Qed.

Lemma check_bpf_insn p pc i : check_bpf p = true -> p !! pc = Some i -> insn_ok p pc i = true.
Proof.
  unfold check_bpf. intros H Hi. apply andb_true_iff in H as [_ H]. rewrite forallb_forall in H.
  assert (In pc (seq 0 (length p))) as Hin by (apply in_seq; apply lookup_lt_Some in Hi; lia).
  specialize (H pc Hin). by rewrite Hi in H.
Qed.

Lemma run_bpf_total p d :
  check_bpf p = true ->
  forall fuel pc A X, (pc < length p)%nat -> (length p - pc <= fuel)%nat -> is_Some (run_bpf fuel p d pc A X).
Proof.
  intros Hck. induction fuel as [|f IH]; intros pc A X Hpc Hf; [lia|]. cbn [run_bpf].
  destruct (lookup_lt_is_Some_2 p pc Hpc) as [i Hi]. rewrite Hi.
  pose proof (check_bpf_insn p pc i Hck Hi) as Hok.
  assert (forall l t A, match find_label l p with Some n => (pc <? n)%nat | None => false end = true ->
            ((t : bool) = false -> (S pc < length p)%nat) ->
            is_Some (if t then pc' ← find_label l p; run_bpf f p d pc' A X else run_bpf f p d (S pc) A X)) as Hj.
  { intros l t A' H Ht. destruct t; [|by apply IH; [apply Ht|lia]].
    destruct (find_label l p) as [n|] eqn:En; [|done]. apply find_label_lt in En. apply Nat.ltb_lt in H.
    simpl. apply IH; lia. }
  assert (forall b, b && (S pc <? length p)%nat = true -> b = true /\ (S pc < length p)%nat) as Hand
    by (intros b H; apply andb_true_iff in H as [? ?%Nat.ltb_lt]; done).
  destruct i; simpl in Hok |- *; try (by eexists);
    try (apply Nat.ltb_lt in Hok; apply IH; lia);
    try (by apply Hj); try (apply Hand in Hok as [? ?]; by apply Hj).
  - apply Hand in Hok as [Hk ?]. destruct (load_ok d k Hk) as [v ->]. simpl. apply IH; lia.
  - by apply (Hj l true A).
Qed.

(** A filter whose jumps go forward always decides.  A program that passes
    the checks of the kernel returns a decision for every system call within
    as many steps as it has lines, so the fuel of [decide_syscall] is enough;
    both filters pass, wherever the linker puts the sections. *)
Theorem bpf_decides (t : text_layout) :
  (forall p d, check_bpf p = true -> is_Some (decide_syscall p d))
  /\ check_bpf (filter_mprotect t) = true /\ check_bpf filter_sequential = true.
Proof.
  split; [|split; reflexivity]. intros p d Hck. apply run_bpf_total; [done| |lia].
  unfold check_bpf in Hck. destruct p; [done|simpl; lia].
Qed.

(** ** The decisions *)

Definition word64 (x : Z) : Prop := 0 <= x < 18446744073709551616.

Lemma lower_eq x : word64 x -> lower x = x mod 4294967296.
Proof. intros H. unfold lower. by rewrite u64_small. Qed.

Lemma higher_eq x : word64 x -> higher x = x / 4294967296.
Proof.
  intros H. unfold higher. rewrite u64_small by done. rewrite Z.shiftr_div_pow2 by lia.
  change (2 ^ 32) with 4294967296. unfold word64 in H. apply u32_small. zlia.
Qed.

(** The test on the upper half is the pointer test of [shm_malloc.h]. *)
Lemma window_test x :
  word64 x -> (Z.land (higher x) 4294967040 =? 16128) = in_range 69269232549888 70368744177664 x.
Proof.
  intros Hx. unfold word64 in Hx. rewrite higher_eq by done.
  assert (Z.land (x / 4294967296) 4294967040 = x / 4294967296 - (x / 4294967296) mod 256) as ->.
  { change 4294967040 with (u32 (Z.lnot (2 ^ 8 - 1))).
    rewrite <- (land_mask_down 8) by lia. apply Z.bits_inj'. intros n Hn.
    rewrite !Z.land_spec. destruct (Z.testbit (x / 4294967296) n) eqn:E; [|done]. cbn [andb].
    assert (n < 32) as Hlt.
    { destruct (Z_lt_ge_dec n 32); [done|]. rewrite Z.bits_above_log2 in E; [done|zlia|].
      assert (x / 4294967296 < 2 ^ 32) by (change (2 ^ 32) with 4294967296; zlia).
      destruct (Z.eq_dec (x / 4294967296) 0) as [->|]; [simpl; lia|].
      apply Z.log2_lt_pow2 in H; [lia|zlia]. }
    unfold u32. change 4294967296 with (2 ^ 32). by rewrite Z.mod_pow2_bits_low by lia. }
  unfold in_range. apply eq_true_iff_eq. rewrite andb_true_iff, Z.eqb_eq, Z.leb_le, Z.ltb_lt. zlia.
Qed.

(** [addr] is at or above [x], from the comparisons of the halves. *)
Lemma halves_le x addr : word64 x -> word64 addr ->
  (x <=? addr) = (higher x <? higher addr) || ((higher x =? higher addr) && (lower x <=? lower addr)).
Proof.
  intros Hx Ha. rewrite !higher_eq, !lower_eq by done. unfold word64 in *. apply eq_true_iff_eq.
  rewrite orb_true_iff, andb_true_iff, Z.leb_le, Z.leb_le, Z.ltb_lt, Z.eqb_eq. zlia.
Qed.

(** A system call as the kernel reports it, and a program's layout. *)
Record call_ok (d : seccomp_data) : Prop := {
  co_nr : 0 <= sd_nr d < 4294967296; co_arch : 0 <= sd_arch d < 4294967296;
  co_ip : word64 (sd_ip d); co_arg1 : word64 (sd_arg1 d); co_arg2 : word64 (sd_arg2 d);
  co_arg3 : word64 (sd_arg3 d); co_arg5 : word64 (sd_arg5 d) }.

Record layout_ok (t : text_layout) : Prop := {
  lo_start_mp : word64 (start_text_mprotect t); lo_stop_mp : word64 (stop_text_mprotect t);
  lo_start : word64 (start_text t); lo_stop : word64 (stop_text t);
  lo_builder : builder_accepts t = true }.

(** Making memory writable: inside the segment only from the privileged
    section (its end included), elsewhere only above the program's text, or
    when the upper halves of address and length add up to less than that of
    the text. *)
Definition may_write (t : text_layout) (d : seccomp_data) : bool :=
  if in_range 69269232549888 70368744177664 (sd_arg1 d) then
    (start_text_mprotect t <=? sd_ip d) && (sd_ip d <=? stop_text_mprotect t)
  else (stop_text t <=? sd_arg1 d)
       || (u32 (higher (sd_arg2 d) + higher (sd_arg1 d)) <? higher (start_text t)).

(** The argument of a restricted call that must not be the segment's descriptor. *)
Definition fd_argument (d : seccomp_data) : option Z :=
  let nr := sd_nr d in
  if existsb (Z.eqb nr) [SYS_dup; SYS_dup2; SYS_dup3; SYS_write; SYS_writev; SYS_pwritev; SYS_sendfile]
  then Some (sd_arg1 d)
  else if nr =? SYS_splice then Some (sd_arg3 d)
  else if nr =? SYS_tee then Some (sd_arg2 d)
  else if nr =? SYS_mmap then Some (sd_arg5 d)
  else None.

Definition mprotect_allows (t : text_layout) (d : seccomp_data) : bool :=
  if negb (sd_arch d =? AUDIT_ARCH_X86_64) then false
  else if sd_nr d =? SYS_mprotect then negb (Z.testbit (sd_arg3 d) 1) || may_write t d
  else match fd_argument d with
       | Some fd => negb (fd mod 4294967296 =? SHARED_MEMORY_FD)
       | None => true
       end.

Lemma prot_write_bit x : word64 x -> truthy (Z.land (lower x) 2) = Z.testbit x 1.
Proof.
  intros Hx. rewrite lower_eq by done. change 4294967296 with (2 ^ 32).
  rewrite <- (Z.mod_pow2_bits_low x 32 1) by lia. set (y := x mod 2 ^ 32). unfold truthy.
  destruct (Z.testbit y 1) eqn:E.
  - apply negb_true_iff, Z.eqb_neq. intros H0.
    assert (Z.testbit (Z.land y 2) 1 = true) as H1 by (by rewrite Z.land_spec, E). by rewrite H0 in H1.
  - apply negb_false_iff, Z.eqb_eq, Z.bits_inj'. intros n Hn. rewrite Z.land_spec, Z.bits_0.
    destruct (Z.eq_dec n 1) as [->|]; [by rewrite E|].
    change 2 with (2 ^ 1). rewrite Z.pow2_bits_eqb by lia.
    rewrite (proj2 (Z.eqb_neq 1 n)) by lia. apply andb_false_r.
Qed.

Lemma in_section t ip :
  layout_ok t -> word64 ip ->
  (start_text_mprotect t <=? ip) && (ip <=? stop_text_mprotect t)
  = (higher ip =? higher (start_text_mprotect t))
    && (lower (start_text_mprotect t) <=? lower ip) && (lower ip <=? lower (stop_text_mprotect t)).
Proof.
  intros [] Hip. unfold builder_accepts in *. rewrite !higher_eq, !lower_eq in * by done.
  apply Z.eqb_eq in lo_builder0. unfold word64 in *. apply eq_true_iff_eq.
  rewrite !andb_true_iff, !Z.leb_le, Z.eqb_eq. zlia.
Qed.

(** Splits on the comparisons of a goal, one by one. *)
Ltac cmp_case :=
  match goal with
  | |- context [?a <? ?b] => destruct (Z.ltb_spec a b); cbn [andb orb negb]
  | |- context [?a <=? ?b] => destruct (Z.leb_spec a b); cbn [andb orb negb]
  | |- context [?a =? ?b] => destruct (Z.eqb_spec a b); cbn [andb orb negb]
  end.

Definition verdict (b : bool) : option Z := Some (if b then SECCOMP_RET_ALLOW else SECCOMP_RET_TRAP).

(** The filter as nested tests: the program run on unknown data. *)
Lemma filter_mprotect_run t d :
  call_ok d ->
  decide_syscall (filter_mprotect t) d =
  if negb (sd_arch d =? AUDIT_ARCH_X86_64) then verdict false
  else if sd_nr d =? SYS_mprotect then
    if truthy (Z.land (lower (sd_arg3 d)) 2) then
      if Z.land (higher (sd_arg1 d)) 4294967040 =? 16128 then
        verdict ((higher (sd_ip d) =? higher (start_text_mprotect t))
                 && (lower (start_text_mprotect t) <=? lower (sd_ip d))
                 && (lower (sd_ip d) <=? lower (stop_text_mprotect t)))
      else verdict ((higher (stop_text t) <? higher (sd_arg1 d))
                    || ((higher (stop_text t) =? higher (sd_arg1 d))
                        && (lower (stop_text t) <=? lower (sd_arg1 d)))
                    || (u32 (higher (sd_arg2 d) + higher (sd_arg1 d)) <? higher (start_text t)))
    else verdict true
  else match fd_argument d with
       | Some fd => verdict (negb (lower fd =? SHARED_MEMORY_FD))
       | None => verdict true
       end.
Proof.
  intros []. unfold decide_syscall.
  lazy -[Z.eqb Z.ltb Z.leb Z.land Z.add lower higher u32 truthy negb orb andb existsb sd_nr sd_arch sd_ip sd_arg1 sd_arg2
         sd_arg3 sd_arg5 stop_text start_text stop_text_mprotect start_text_mprotect].
  rewrite !(u32_small (sd_nr d)), (u32_small (sd_arch d)) by done. cbn [existsb].
  destruct (sd_arch d =? 3221225534); [cbn [negb]|reflexivity].
  generalize (sd_nr d). intros nr.
  destruct (Z.eqb_spec nr 10) as [->|_].
  - destruct (truthy _); [|reflexivity]. destruct (Z.land _ _ =? _).
    + destruct (_ =? _); [cbn [negb andb]|reflexivity].
      repeat cmp_case; done || lia.
    + repeat cmp_case; done || lia.
  - repeat match goal with
    | |- context [nr =? ?k] => destruct (Z.eqb_spec nr k) as [->|_]; [cbn; by case_match|cbn [orb]]
    end. reflexivity.
Qed.

Lemma filter_mprotect_verdict t d :
  layout_ok t -> call_ok d -> decide_syscall (filter_mprotect t) d = verdict (mprotect_allows t d).
Proof.
  intros Ht Hd. rewrite filter_mprotect_run by done. pose proof (in_section t _ Ht (co_ip _ Hd)) as Hs.
  destruct Ht, Hd. unfold mprotect_allows.
  destruct (negb _); [done|]. destruct (sd_nr d =? SYS_mprotect).
  - rewrite prot_write_bit, window_test by done. unfold may_write.
    rewrite Hs, (halves_le (stop_text t)) by done.
    destruct (Z.testbit (sd_arg3 d) 1); cbn [negb orb]; [|done]. by destruct (in_range _ _ _).
  - destruct (fd_argument d) as [fd|] eqn:E; [|done]. rewrite lower_eq; [done|].
    unfold fd_argument in E. repeat case_match; by simplify_eq.
Qed.

(** The sequential filter only refuses the calls that make processes. *)
Definition sequential_allows (d : seccomp_data) : bool :=
  (sd_arch d =? AUDIT_ARCH_X86_64) && negb (existsb (Z.eqb (sd_nr d)) [SYS_clone; SYS_fork; SYS_vfork]).

(** C25: the filters decide as their predicates.  For every system call, and
    for every layout that the constructor accepts, the jumps of the mprotect
    filter on 32-bit halves amount to the comparisons of 64-bit addresses in
    [mprotect_allows]; the sequential filter traps exactly [clone], [fork],
    [vfork] and calls of another architecture. *)
Theorem filters_decide (t : text_layout) (d : seccomp_data) :
  layout_ok t -> call_ok d ->
  decide_syscall (filter_mprotect t) d = verdict (mprotect_allows t d)
  /\ decide_syscall filter_sequential d = verdict (sequential_allows d).
Proof.
  intros Ht Hd. split; [by apply filter_mprotect_verdict|]. destruct Hd.
  unfold decide_syscall, sequential_allows.
  lazy -[Z.eqb negb orb andb existsb sd_nr sd_arch u32].
  rewrite !(u32_small (sd_nr d)), (u32_small (sd_arch d)) by done. cbn [existsb].
  repeat cmp_case; done.
Qed.

(** C26: a call of [mprotect] that makes the segment writable is a privilege.
    When the filter lets a call through: if it is [mprotect] with [PROT_WRITE] on
    a range that starts inside the shared memory, it comes from the section
    [text_mprotect] (its end included); and if it is one of the calls whose
    descriptor is restricted, the descriptor is not the segment's.  Other calls
    are not restricted, [pkey_mprotect] among them. *)
Theorem segment_write_privileged (t : text_layout) (d : seccomp_data) :
  layout_ok t -> call_ok d -> decide_syscall (filter_mprotect t) d = Some SECCOMP_RET_ALLOW ->
  (sd_nr d = SYS_mprotect -> Z.testbit (sd_arg3 d) 1 = true ->
   in_range 69269232549888 70368744177664 (sd_arg1 d) = true ->
   start_text_mprotect t <= sd_ip d <= stop_text_mprotect t)
  /\ (forall fd, fd_argument d = Some fd -> sd_nr d <> SYS_mprotect -> fd mod 4294967296 <> SHARED_MEMORY_FD).
Proof.
  intros Ht Hd. rewrite filter_mprotect_verdict by done. unfold verdict.
  destruct (mprotect_allows t d) eqn:E; [intros _|done].
  unfold mprotect_allows in E. destruct (negb _); [done|]. split.
  - intros Hnr Hw Hin. rewrite Hnr, Z.eqb_refl, Hw in E. unfold may_write in E. rewrite Hin in E. cbn [negb orb] in E.
    bool_hyps. lia.
  - intros fd Hfd Hnr. rewrite (proj2 (Z.eqb_neq _ _) Hnr), Hfd in E. by apply negb_true_iff, Z.eqb_neq in E.
Qed.

(** The number of [pwrite64]. *)
Definition SYS_pwrite64 : Z := 18.

(** C40: two gaps of the filter.  Only the start of the range is compared with
    the segment: from any code, a request that begins one page below the
    segment and ends inside it is allowed to make it writable.  And [pwrite64]
    to the segment's descriptor is allowed, although [write], [writev] and
    [pwritev] are not. *)
Theorem filter_gaps (t : text_layout) (ip rest : Z) :
  layout_ok t -> word64 ip -> word64 rest -> stop_text t <= shm_shared_memory_base - 4096 ->
  decide_syscall (filter_mprotect t)
    (mkSd SYS_mprotect AUDIT_ARCH_X86_64 ip (shm_shared_memory_base - 4096) 8192 3 0 0 0)
  = Some SECCOMP_RET_ALLOW
  /\ decide_syscall (filter_mprotect t)
       (mkSd SYS_pwrite64 AUDIT_ARCH_X86_64 ip SHARED_MEMORY_FD rest rest rest rest rest)
     = Some SECCOMP_RET_ALLOW.
Proof.
  intros Ht Hip Hrest Hstop. unfold shm_shared_memory_base in *.
  split; rewrite filter_mprotect_verdict by (done || (split; cbn; try done; unfold word64; lia)).
  - unfold mprotect_allows, may_write. cbn [sd_arch sd_nr sd_arg1 sd_arg2 sd_arg3].
    rewrite (proj2 (Z.leb_le (stop_text t) _)) by lia. reflexivity.
  - reflexivity.
Qed.

(** The number of [pkey_mprotect], which changes protections as [mprotect] does. *)
Definition SYS_pkey_mprotect : Z := 329.

(** The filter does not know it: any code may make any range writable. *)
Lemma pkey_mprotect_allowed (t : text_layout) (ip addr len prot pkey : Z) :
  layout_ok t -> word64 ip -> word64 addr -> word64 len -> word64 prot -> word64 pkey ->
  decide_syscall (filter_mprotect t) (mkSd SYS_pkey_mprotect AUDIT_ARCH_X86_64 ip addr len prot pkey 0 0) = Some SECCOMP_RET_ALLOW.
Proof. intros. by rewrite filter_mprotect_verdict by (done || (split; cbn; try done; unfold word64; lia)). Qed.

(** ** Examples *)

(** A program at 4 MB, with a privileged section in it. *)
Definition small_layout : text_layout := mkLayout 4198400 4202496 4194304 8388608.

Lemma small_layout_ok : layout_ok small_layout.
Proof. split; try reflexivity; unfold word64; simpl; lia. Qed.

Definition mprotect_call (ip addr len prot : Z) : seccomp_data :=
  mkSd SYS_mprotect AUDIT_ARCH_X86_64 ip addr len prot 0 0 0.

Definition good_call : seccomp_data := mprotect_call 4198500 shm_shared_memory_base 4096 3.

Lemma good_call_ok : call_ok good_call.
Proof. by split. Qed.

Lemma filters_decide_witness :
  decide_syscall (filter_mprotect small_layout) good_call = Some SECCOMP_RET_ALLOW.
Proof. rewrite (proj1 (filters_decide small_layout good_call small_layout_ok good_call_ok)). reflexivity. Defined.

Lemma segment_write_privileged_witness :
  decide_syscall (filter_mprotect small_layout) good_call = Some SECCOMP_RET_ALLOW
  /\ 4198400 <= 4198500 <= 4202496.
Proof.
  split; [reflexivity|].
  destruct (segment_write_privileged small_layout good_call small_layout_ok good_call_ok) as [H _];
    [reflexivity|]. by apply H.
Defined.

Lemma filter_gaps_witness :
  decide_syscall (filter_mprotect small_layout)
    (mprotect_call 5000000 (shm_shared_memory_base - 4096) 8192 3) = Some SECCOMP_RET_ALLOW.
Proof.
  apply (filter_gaps small_layout 5000000 0); [apply small_layout_ok|done|done|unfold shm_shared_memory_base; simpl; lia].
Defined.
