(* ===== verification/Graph.v ===== *)
(** * The graph library of the linker

    [src/cali-linker/graph/]: [unique_vector], [BaseGraph], the packed
    [ColorMap], the two breadth-first searches and the bottom-up traversal of
    [algorithms.h], on which the passes of the linker run.

    A vertex is its index in the vector [vertices].  An index outside a vector
    is undefined in the source and has no result here.  A visitor is a record
    of its decisions; the callbacks that only observe ([examine_vertex],
    [tree_edge], [finish_vertex], [finished]) are left out. *)

From S2P Require Import Prelude.

(** ** [unique_vector] *)

Section UniqueVector.
Context `{EqDecision A}.

(** [insert]: false when the element was there. *)
Definition uv_insert (x : A) (l : list A) : bool * list A :=
  if decide (x ∈ l) then (false, l) else (true, l ++ [x]).

Definition uv_insert_unique (x : A) (l : list A) : bool * list A := (true, l ++ [x]).

(** [remove]: the first occurrence. *)
Fixpoint uv_remove (x : A) (l : list A) : bool * list A :=
  match l with
  | [] => (false, [])
  | y :: l => if decide (y = x) then (true, l)
              else let '(b, l') := uv_remove x l in (b, y :: l')
  end.

End UniqueVector.

(** ** [BaseGraph] *)

Record edge (EP : Type) := mkEdge { source : nat; target : nat; eprop : EP }.
Arguments mkEdge {EP}.
Arguments source {EP}.
Arguments target {EP}.
Arguments eprop {EP}.

#[export] Instance edge_eq_dec `{EqDecision EP} : EqDecision (edge EP).
Proof. solve_decision. Defined.

Record vertex (VP EP : Type) := mkVertex {
  v_out : list (edge EP); v_in : list (edge EP); v_property : VP; v_empty : bool }.
Arguments mkVertex {VP EP}.
Arguments v_out {VP EP}.
Arguments v_in {VP EP}.
Arguments v_property {VP EP}.
Arguments v_empty {VP EP}.

(** [size] and [edge_size] are [size_t] and wrap around. *)
Record graph (VP EP : Type) := mkGraph {
  g_size : Z; g_edge_size : Z; free_vertices : list nat; vertices : list (vertex VP EP) }.
Arguments mkGraph {VP EP}.
Arguments g_size {VP EP}.
Arguments g_edge_size {VP EP}.
Arguments free_vertices {VP EP}.
Arguments vertices {VP EP}.

Section Graph.
Context {VP EP : Type} `{EqDecision EP}.
Abbreviation graph := (graph VP EP).
Abbreviation edge := (edge EP).

Definition empty_graph : graph := mkGraph 0 0 [] [].

(** [out_edges (v)] and [in_edges (v)]. *)
Definition out_edges (g : graph) (v : nat) : list edge := default [] (v_out <$> vertices g !! v).
Definition in_edges (g : graph) (v : nat) : list edge := default [] (v_in <$> vertices g !! v).
Definition capacity (g : graph) : nat := length (vertices g).

Definition put_vertices (vs : list (vertex VP EP)) (g : graph) : graph :=
  mkGraph (g_size g) (g_edge_size g) (free_vertices g) vs.
Definition put_edge_size (n : Z) (g : graph) : graph :=
  mkGraph (g_size g) n (free_vertices g) (vertices g).
Definition upd_vertex (v : nat) (f : vertex VP EP -> vertex VP EP) (g : graph) : option graph :=
  x ← vertices g !! v; Some (put_vertices (<[v := f x]> (vertices g)) g).

Definition put_out (l : list edge) (x : vertex VP EP) : vertex VP EP :=
  mkVertex l (v_in x) (v_property x) (v_empty x).
Definition put_in (l : list edge) (x : vertex VP EP) : vertex VP EP :=
  mkVertex (v_out x) l (v_property x) (v_empty x).

(** The loop of [add_vertex] over the stack of free vertices: the vertex that
    is used again, if any, and the rest of the stack. *)
Fixpoint take_free (n : nat) (free : list nat) : option nat * list nat :=
  match free with
  | [] => (None, [])
  | v :: free => if (v <=? n)%nat then (Some v, free) else take_free n free
  end.

Definition add_vertex (prop : VP) (g : graph) : option (nat * graph) :=
  let size := u64 (g_size g + 1) in
  match take_free (capacity g) (free_vertices g) with
  | (Some v, free) =>
      x ← vertices g !! v;
      Some (v, mkGraph size (g_edge_size g) free (<[v := mkVertex (v_out x) (v_in x) prop false]> (vertices g)))
  | (None, free) =>
      Some (capacity g, mkGraph size (g_edge_size g) free (vertices g ++ [mkVertex [] [] prop false]))
  end.

(** The two insertions; the second one only happens when the first one added
    the edge. *)
Definition add_edge_with (ins : edge -> list edge -> bool * list edge) (v1 v2 : nat) (p : EP) (g : graph)
  : option graph :=
  let e := mkEdge v1 v2 p in
  x ← vertices g !! v1;
  let '(b1, l1) := ins e (v_out x) in
  g ← upd_vertex v1 (put_out l1) g;
  if (b1 : bool) then
    y ← vertices g !! v2;
    let '(b2, l2) := ins e (v_in y) in
    g ← upd_vertex v2 (put_in l2) g;
    Some (if (b2 : bool) then put_edge_size (u64 (g_edge_size g + 1)) g else g)
  else Some g.

Definition add_edge : nat -> nat -> EP -> graph -> option graph := add_edge_with uv_insert.
Definition add_edge_unique : nat -> nat -> EP -> graph -> option graph := add_edge_with uv_insert_unique.

(** [vertices[e.source].out_edges.remove (e)] and the same for the target. *)
Definition remove_out (e : edge) (g : graph) : option (bool * graph) :=
  x ← vertices g !! source e;
  let '(b, l) := uv_remove e (v_out x) in
  g ← upd_vertex (source e) (put_out l) g; Some (b, g).
Definition remove_in (e : edge) (g : graph) : option (bool * graph) :=
  x ← vertices g !! target e;
  let '(b, l) := uv_remove e (v_in x) in
  g ← upd_vertex (target e) (put_in l) g; Some (b, g).

Definition remove_edge (e : edge) (g : graph) : option graph :=
  '(b1, g) ← remove_out e g;
  '(b2, g) ← remove_in e g;
  Some (if (b1 && b2 : bool) then put_edge_size (u64 (g_edge_size g - 1)) g else g).

(** [for (const auto &e: l) ...remove (e);] *)
Fixpoint remove_all (rem : edge -> graph -> option (bool * graph)) (l : list edge) (g : graph) : option graph :=
  match l with
  | [] => Some g
  | e :: l => '(_, g) ← rem e g; remove_all rem l g
  end.

Definition remove_vertex (v : nat) (g : graph) : option graph :=
  x ← vertices g !! v;
  let n := u64 (u64 (g_edge_size g - Z.of_nat (length (v_in x))) - Z.of_nat (length (v_out x))) in
  g ← remove_all remove_out (v_in x) (put_edge_size n g);
  x ← vertices g !! v;
  g ← remove_all remove_in (v_out x) g;
  g ← upd_vertex v (fun x => mkVertex [] [] (v_property x) true) g;
  Some (mkGraph (u64 (g_size g - 1)) (g_edge_size g) (v :: free_vertices g) (vertices g)).

End Graph.

(** ** [ColorMap]: four two-bit colours in a byte *)

Definition WHITE : Z := 0.
Definition GRAY : Z := 1.
Definition GREEN : Z := 2.
Definition BLACK : Z := 3.

(** Shift of vertex [v] in its byte, and its byte. *)
Definition color_shift (v : nat) : Z := Z.of_nat (v mod 4) + Z.of_nat (v mod 4).
Definition color_byte (v : nat) : nat := (v / 4)%nat.

Definition colors_new (capacity : nat) : list Z := replicate (capacity / 4 + 512) 0.
Definition colors_init (cm : list Z) : list Z := replicate (length cm) 0.

(** [put] assigns the byte; the value [x] with the old colour masked out is
    not used. *)
Definition color_put (v : nat) (c : Z) (cm : list Z) : option (list Z) :=
  _ ← cm !! color_byte v;
  Some (<[color_byte v := Z.land (Z.shiftl c (color_shift v)) 255]> cm).

Definition color_put_fast (v : nat) (c : Z) (cm : list Z) : option (list Z) :=
  x ← cm !! color_byte v;
  Some (<[color_byte v := Z.land (Z.lor x (Z.shiftl c (color_shift v))) 255]> cm).

Definition color_get (v : nat) (cm : list Z) : option Z :=
  x ← cm !! color_byte v; Some (Z.land (Z.shiftr x (color_shift v)) 3).

(** ** Breadth-first search *)

Record visitor (EP : Type) := mkVisitor {
  discover_vertex : nat -> bool; is_wanted_vertex : nat -> bool;
  examine_backwards_edge : edge EP -> bool; examine_forwards_edge : edge EP -> bool }.
Arguments mkVisitor {EP}.
Arguments discover_vertex {EP}.
Arguments is_wanted_vertex {EP}.
Arguments examine_backwards_edge {EP}.
Arguments examine_forwards_edge {EP}.

(** How a search ends: it returns true, or it visited everything; [Stuck]: a
    colour is outside the map, or the fuel is used up. *)
Inductive search := Found (cm : list Z) | Done (cm : list Z) | Stuck.

Section Search.
Context {VP EP : Type}.
Context (discover wanted : nat -> bool).

(** The bodies of the loops over edges, and over the sources: a vertex is
    coloured, tested and queued.  [check]: only white vertices. *)
Fixpoint scan (check : bool) (cands : list nat) (cm : list Z) (q : list nat) : option (bool * list Z * list nat) :=
  match cands with
  | [] => Some (false, cm, q)
  | v :: cands =>
      c ← color_get v cm;
      if check && negb (c =? WHITE) then scan check cands cm q
      else
        cm ← color_put_fast v GRAY cm;
        if wanted v then Some (true, cm, q)
        else scan check cands cm (if discover v then q ++ [v] else q)
  end.

(** [while (!Q.empty ())]; [next u] lists the ends of the edges of [u] that
    are followed, in order. *)
Fixpoint bfs_loop (fuel : nat) (next : nat -> list nat) (cm : list Z) (q : list nat) : search :=
  match fuel with
  | O => Stuck
  | S k =>
      match q with
      | [] => Done cm
      | u :: q =>
          match scan true (next u) cm q with
          | None => Stuck
          | Some (true, cm, _) => Found cm
          | Some (false, cm, q) =>
              match color_put_fast u BLACK cm with
              | None => Stuck
              | Some cm => bfs_loop k next cm q
              end
          end
      end
  end.

Definition bfs (fuel : nat) (next : nat -> list nat) (sources : list nat) (cm : list Z) : search :=
  match scan false sources (colors_init cm) [] with
  | None => Stuck
  | Some (true, cm, _) => Found cm
  | Some (false, cm, q) => bfs_loop fuel next cm q
  end.

End Search.

Section Algorithms.
Context {VP EP : Type}.
Abbreviation graph := (graph VP EP).

(** The vertices that the loops over in-edges and out-edges consider. *)
Definition next_forward (g : graph) (vis : visitor EP) (u : nat) : list nat :=
  map target (List.filter (examine_forwards_edge vis) (out_edges g u)).
Definition next_twoway (g : graph) (vis : visitor EP) (u : nat) : list nat :=
  map source (List.filter (examine_backwards_edge vis) (in_edges g u)) ++ next_forward g vis u.

Definition breadth_first_search_twoway (fuel : nat) (g : graph) (vis : visitor EP) (sources : list nat) (cm : list Z)
  : search :=
  match sources with
  | [] => Done cm
  | _ => bfs (discover_vertex vis) (is_wanted_vertex vis) fuel (next_twoway g vis) sources cm
  end.

Definition breadth_first_search_forward (fuel : nat) (g : graph) (vis : visitor EP) (sources : list nat) (cm : list Z)
  : search :=
  match sources with
  | [] => Done cm
  | _ => bfs (discover_vertex vis) (fun _ => false) fuel (next_forward g vis) sources cm
  end.

(** ** Bottom-up traversal *)

(** The loop over the in-edges of a visited vertex. *)
Fixpoint resolve (g : graph) (es : list (edge EP)) (resolved : list Z) (q : list nat) : option (list Z * list nat) :=
  match es with
  | [] => Some (resolved, q)
  | e :: es =>
      let u := source e in
      x ← resolved !! u;
      let r := x + 1 in
      resolve g es (<[u := r]> resolved)
        (if r =? Z.of_nat (length (out_edges g u)) then q ++ [u] else q)
  end.

(** The loop; the result is the order of the calls of the visitor. *)
Fixpoint bottom_up_loop (fuel : nat) (g : graph) (resolved : list Z) (q : list nat) : option (list nat) :=
  match fuel with
  | O => None
  | S k =>
      match q with
      | [] => Some []
      | v :: q =>
          '(resolved, q) ← resolve g (in_edges g v) resolved q;
          cons v <$> bottom_up_loop k g resolved q
      end
  end.

Definition bottom_up_traversal (fuel : nat) (g : graph) : option (list nat) :=
  bottom_up_loop fuel g (replicate (S (capacity g)) 0)
    (List.filter (fun v => (length (out_edges g v) =? 0)%nat) (seq 0 (capacity g))).

End Algorithms.
