(* ===== verification/GraphProps.v ===== *)
(** * What the graph operations of the linker keep

    The adjacency lists of [BaseGraph] ([src/cali-linker/graph/basegraph.h])
    against a graph given by its set of vertices and its set of edges. *)

From S2P Require Import Prelude Graph.

(** ** [unique_vector] as a set *)

Section UniqueVectorFacts.
Context `{EqDecision A}.
Implicit Types (x y : A) (l : list A).

Lemma uv_remove_notin x l : x ∉ l -> uv_remove x l = (false, l).
Proof.
  induction l as [|y l IH]; simpl; [done|]. intros H. rewrite not_elem_of_cons in H. destruct H as [Hn H].
  rewrite decide_False by done. by rewrite IH.
Qed.

Lemma uv_remove_in x l :
  NoDup l -> x ∈ l ->
  exists l', uv_remove x l = (true, l') /\ NoDup l' /\ S (length l') = length l /\ (forall y, y ∈ l' <-> y ∈ l /\ y <> x).
Proof.
  induction l as [|y l IH]; simpl; intros Hnd Hx; [by apply not_elem_of_nil in Hx|].
  apply list.NoDup_cons in Hnd as [Hy Hnd]. case_decide as Hxy.
  - subst. exists l. repeat split; [done|..].
    + by right.
    + intros ->. done.
    + rewrite elem_of_cons. naive_solver.
  - apply elem_of_cons in Hx as [->|Hx]; [done|]. destruct (IH Hnd Hx) as (l' & -> & Hnd' & Hlen & Hel).
    exists (y :: l'). split; [done|]. split; [apply list.NoDup_cons; split; [|done]; rewrite Hel; naive_solver|].
    split; [simpl; lia|]. intros z. rewrite !elem_of_cons, Hel. naive_solver.
Qed.

(** [remove] on a vector without duplicates, whether the element is there or not. *)
Lemma uv_remove_spec x l :
  NoDup l ->
  let r := uv_remove x l in
  r.1 = bool_decide (x ∈ l) /\ NoDup r.2 /\ (forall y, y ∈ r.2 <-> y ∈ l /\ y <> x)
  /\ (length r.2 + (if r.1 then 1 else 0) = length l)%nat.
Proof.
  intros Hnd. simpl. destruct (decide (x ∈ l)) as [Hx|Hx].
  - destruct (uv_remove_in x l Hnd Hx) as (l' & -> & ? & ? & ?). rewrite bool_decide_true by done.
    simpl. repeat split; [done|..]; naive_solver lia.
  - rewrite uv_remove_notin, bool_decide_false by done. simpl. repeat split; [done|..]; naive_solver lia.
Qed.

End UniqueVectorFacts.

(** ** The invariant *)

Section GraphOk.
Context {VP EP : Type} `{EqDecision EP}.
Implicit Types (g : graph VP EP) (e : edge EP).

(** The abstract graph: its vertices and its edges. *)
Definition live g (v : nat) : Prop := exists x, vertices g !! v = Some x /\ v_empty x = false.
Definition has_edge g e : Prop := e ∈ out_edges g (source e).

Definition edge_total (vs : list (vertex VP EP)) : nat := sum_list_with (fun x => length (v_out x)) vs.

(** Adjacency as functions of the vertex; an absent vertex counts as empty. *)
Definition outs (vs : list (vertex VP EP)) (v : nat) : list (edge EP) := default [] (v_out <$> vs !! v).
Definition ins (vs : list (vertex VP EP)) (v : nat) : list (edge EP) := default [] (v_in <$> vs !! v).
Definition vacant (vs : list (vertex VP EP)) (v : nat) : bool := default true (v_empty <$> vs !! v).

Record lists_ok (vs : list (vertex VP EP)) : Prop := {
  lo_out_nodup : forall v, NoDup (outs vs v);
  lo_in_nodup : forall v, NoDup (ins vs v);
  lo_out_source : forall v e, e ∈ outs vs v -> source e = v;
  lo_in_target : forall v e, e ∈ ins vs v -> target e = v;
  lo_vacant : forall v, vacant vs v = true -> outs vs v = [] /\ ins vs v = [];
  lo_mirror : forall e, e ∈ outs vs (source e) <-> e ∈ ins vs (target e) }.

(** The same without the condition on removed vertices. *)
Record wired (vs : list (vertex VP EP)) : Prop := {
  wi_out_nodup : forall v, NoDup (outs vs v);
  wi_in_nodup : forall v, NoDup (ins vs v);
  wi_out_source : forall v e, e ∈ outs vs v -> source e = v;
  wi_in_target : forall v e, e ∈ ins vs v -> target e = v;
  wi_mirror : forall e, e ∈ outs vs (source e) <-> e ∈ ins vs (target e) }.

Lemma lists_ok_wired vs : lists_ok vs -> wired vs.
Proof. by intros []. Qed.

Record graph_ok g : Prop := {
  go_lists : lists_ok (vertices g);
  go_edges : g_edge_size g = u64 (Z.of_nat (edge_total (vertices g)));
  go_free : forall v, v ∈ free_vertices g <-> exists x, vertices g !! v = Some x /\ v_empty x = true;
  go_free_nodup : NoDup (free_vertices g);
  go_size : g_size g = u64 (Z.of_nat (capacity g) - Z.of_nat (length (free_vertices g))) }.

Lemma edge_total_insert vs v x y :
  vs !! v = Some x -> (edge_total (<[v := y]> vs) + length (v_out x) = edge_total vs + length (v_out y))%nat.
Proof.
  unfold edge_total. revert v. induction vs as [|z vs IH]; intros [|v] Hv; simplify_eq/=; [lia|].
  specialize (IH v Hv). lia.
Qed.

Lemma upd_vertex_some v f g x :
  vertices g !! v = Some x -> upd_vertex v f g = Some (put_vertices (<[v := f x]> (vertices g)) g).
Proof. unfold upd_vertex. by intros ->. Qed.

Lemma live_vacant g v : live g v <-> vacant (vertices g) v = false.
Proof.
  unfold live, vacant. split; [by intros (x & -> & ?)|].
  destruct (vertices g !! v) as [x|]; simpl; [by exists x|done].
Qed.

Lemma live_lookup g v : live g v -> exists x, vertices g !! v = Some x.
Proof. intros (x & ? & _). by exists x. Qed.

(** What an update of a single list does to the adjacency. *)
Lemma edit_out vs v x l u :
  vs !! v = Some x ->
  let vs' := <[v := put_out l x]> vs in
  outs vs' u = (if decide (u = v) then l else outs vs u) /\ ins vs' u = ins vs u /\ vacant vs' u = vacant vs u.
Proof.
  intros Hv. simpl. unfold outs, ins, vacant. destruct (decide (u = v)) as [->|Hn].
  - rewrite list_lookup_insert_eq by (by eapply lookup_lt_Some). by rewrite Hv.
  - by rewrite list_lookup_insert_ne.
Qed.

Lemma edit_in vs v x l u :
  vs !! v = Some x ->
  let vs' := <[v := put_in l x]> vs in
  outs vs' u = outs vs u /\ ins vs' u = (if decide (u = v) then l else ins vs u) /\ vacant vs' u = vacant vs u.
Proof.
  intros Hv. simpl. unfold outs, ins, vacant. destruct (decide (u = v)) as [->|Hn].
  - rewrite list_lookup_insert_eq by (by eapply lookup_lt_Some). by rewrite Hv.
  - by rewrite list_lookup_insert_ne.
Qed.

Lemma edge_total_out vs v x l :
  vs !! v = Some x -> (edge_total (<[v := put_out l x]> vs) + length (v_out x) = edge_total vs + length l)%nat.
Proof. intros Hv. by apply (edge_total_insert _ _ _ (put_out l x)). Qed.

Lemma edge_total_in vs v x l : vs !! v = Some x -> edge_total (<[v := put_in l x]> vs) = edge_total vs.
Proof. intros Hv. pose proof (edge_total_insert _ _ _ (put_in l x) Hv). simpl in *. lia. Qed.

(** The rest of the graph: what an edit of the lists leaves alone. *)
Definition same_frame g g' : Prop :=
  g_size g' = g_size g /\ free_vertices g' = free_vertices g /\ length (vertices g') = length (vertices g)
  /\ (forall u, vacant (vertices g') u = vacant (vertices g) u).

Lemma vacant_Some vs v : (exists x, vs !! v = Some x /\ v_empty x = true) <-> (v < length vs)%nat /\ vacant vs v = true.
Proof.
  unfold vacant. split.
  - intros (x & Hx & He). rewrite Hx. split; [by eapply lookup_lt_Some|done].
  - intros [Hv He]. destruct (lookup_lt_is_Some_2 _ _ Hv) as [x Hx]. rewrite Hx in He. by exists x.
Qed.

Lemma graph_ok_frame g g' :
  graph_ok g -> same_frame g g' -> lists_ok (vertices g') ->
  g_edge_size g' = u64 (Z.of_nat (edge_total (vertices g'))) -> graph_ok g'.
Proof.
  intros [Hl He Hf Hn Hs] (Hsz & Hfr & Hlen & Hvac) Hl' He'. split; [done|done|..].
  - intros v. rewrite Hfr, Hf, !vacant_Some, Hlen, Hvac. done.
  - by rewrite Hfr.
  - unfold capacity in *. by rewrite Hsz, Hfr, Hlen.
Qed.

(** ** What the operations of the source mean for the abstract graph *)

Inductive gop :=
| AddVertex (p : VP)
| AddEdge (v1 v2 : nat) (p : EP)
| AddEdgeUnique (v1 v2 : nat) (p : EP)
| RemoveEdge (e : edge EP)
| RemoveVertex (v : nat).

Definition apply_gop (op : gop) g : option (graph VP EP) :=
  match op with
  | AddVertex p => snd <$> add_vertex p g
  | AddEdge v1 v2 p => add_edge v1 v2 p g
  | AddEdgeUnique v1 v2 p => add_edge_unique v1 v2 p g
  | RemoveEdge e => remove_edge e g
  | RemoveVertex v => remove_vertex v g
  end.

(** What a caller has to respect: ends of edges are vertices of the graph, an
    edge given to [add_edge_unique] is new, a vertex is removed once. *)
Definition gop_pre (op : gop) g : Prop :=
  match op with
  | AddVertex _ => True
  | AddEdge v1 v2 _ => live g v1 /\ live g v2
  | AddEdgeUnique v1 v2 p => live g v1 /\ live g v2 /\ ~ has_edge g (mkEdge v1 v2 p)
  | RemoveEdge e => live g (source e) /\ live g (target e)
  | RemoveVertex v => live g v /\ (forall p, ~ has_edge g (mkEdge v v p))
  end.

(** The abstract step on vertices [L] and edges [E]. *)
Definition abs_step (op : gop) (L : nat -> Prop) (E : edge EP -> Prop)
    (L' : nat -> Prop) (E' : edge EP -> Prop) : Prop :=
  match op with
  | AddVertex _ => exists v, ~ L v /\ (forall u, L' u <-> L u \/ u = v) /\ (forall e, E' e <-> E e)
  | AddEdge v1 v2 p | AddEdgeUnique v1 v2 p =>
      (forall u, L' u <-> L u) /\ (forall e, E' e <-> E e \/ e = mkEdge v1 v2 p)
  | RemoveEdge e0 => (forall u, L' u <-> L u) /\ (forall e, E' e <-> E e /\ e <> e0)
  | RemoveVertex v => (forall u, L' u <-> L u /\ u <> v) /\ (forall e, E' e <-> E e /\ source e <> v /\ target e <> v)
  end.

Lemma outs_edges g v : out_edges g v = outs (vertices g) v.
Proof. done. Qed.

Lemma edge_ends_live g e : lists_ok (vertices g) -> has_edge g e -> live g (source e) /\ live g (target e).
Proof.
  intros L He. unfold has_edge in He. rewrite outs_edges in He. rewrite !live_vacant. split.
  - destruct (vacant (vertices g) (source e)) eqn:E; [|done]. destruct (lo_vacant _ L _ E) as [Hn _].
    rewrite Hn in He. by apply not_elem_of_nil in He.
  - destruct (vacant (vertices g) (target e)) eqn:E; [|done]. destruct (lo_vacant _ L _ E) as [_ Hn].
    apply (lo_mirror _ L) in He. rewrite Hn in He. by apply not_elem_of_nil in He.
Qed.

(** *** Adding an edge *)

(** Both insertions of a new edge, whichever of the two routines is used. *)
Lemma add_edge_with_new f v1 v2 p g :
  let e := mkEdge v1 v2 p in
  (forall l, e ∉ l -> f e l = (true, l ++ [e])) ->
  wired (vertices g) -> is_Some (vertices g !! v1) -> is_Some (vertices g !! v2) -> ~ has_edge g e ->
  exists g', add_edge_with f v1 v2 p g = Some g' /\ same_frame g g'
    /\ g_edge_size g' = u64 (g_edge_size g + 1) /\ edge_total (vertices g') = S (edge_total (vertices g))
    /\ (forall u, outs (vertices g') u = if decide (u = v1) then outs (vertices g) u ++ [e] else outs (vertices g) u)
    /\ (forall u, ins (vertices g') u = if decide (u = v2) then ins (vertices g) u ++ [e] else ins (vertices g) u).
Proof.
  intros e Hf Hok [x Hx] H2 Hnew.
  assert (outs (vertices g) v1 = v_out x) as Ho by (unfold outs; by rewrite Hx).
  assert (e ∉ ins (vertices g) v2) as Hni.
  { intros Hi. apply Hnew. unfold has_edge. rewrite outs_edges. by apply (wi_mirror _ Hok). }
  unfold add_edge_with. fold e. rewrite Hx. cbn [mbind option_bind].
  rewrite Hf by (rewrite <- Ho; apply Hnew). rewrite (upd_vertex_some _ _ _ x Hx). cbn [mbind option_bind vertices put_vertices].
  set (vs1 := <[v1 := put_out (v_out x ++ [e]) x]> (vertices g)).
  pose proof (fun u => edit_out _ _ _ (v_out x ++ [e]) u Hx) as E1. cbv zeta in E1. fold vs1 in E1.
  destruct H2 as [y0 Hy0].
  assert (is_Some (vs1 !! v2)) as [y Hy].
  { apply lookup_lt_is_Some_2. unfold vs1. rewrite length_insert. by eapply lookup_lt_Some. }
  rewrite Hy. cbn [mbind option_bind].
  assert (v_in y = ins (vertices g) v2) as Hyin.
  { destruct (E1 v2) as (_ & <- & _). unfold ins. by rewrite Hy. }
  rewrite Hyin, Hf by done. rewrite (upd_vertex_some _ _ _ y) by done. cbn [mbind option_bind].
  eexists. split; [reflexivity|].
  pose proof (fun u => edit_in _ _ _ (ins (vertices g) v2 ++ [e]) u Hy) as E2. cbv zeta in E2.
  cbn [vertices put_vertices put_edge_size g_edge_size]. split; [|split; [done|split; [|split]]].
  - split; [done|split; [done|split]]; cbn [vertices put_vertices put_edge_size].
    + unfold vs1. by rewrite !length_insert.
    + intros u. destruct (E2 u) as (_ & _ & ->). apply E1.
  - rewrite edge_total_in by done. pose proof (edge_total_out _ _ _ (v_out x ++ [e]) Hx) as Ht. fold vs1 in Ht.
    rewrite length_app in Ht. simpl in Ht. lia.
  - intros u. destruct (E2 u) as (-> & _). destruct (E1 u) as (-> & _). case_decide; [subst; by rewrite Ho|done].
  - intros u. destruct (E2 u) as (_ & -> & _). case_decide; [by subst|]. apply E1.
Qed.

Lemma NoDup_snoc {A} (l : list A) x : NoDup l -> x ∉ l -> NoDup (l ++ [x]).
Proof.
  intros Hl Hx. apply list.NoDup_app. split; [done|]. split; [|apply NoDup_singleton].
  intros y Hy ->%list_elem_of_singleton. done.
Qed.

Lemma lists_ok_add vs vs' e :
  lists_ok vs -> e ∉ outs vs (source e) -> vacant vs (source e) = false -> vacant vs (target e) = false ->
  (forall u, vacant vs' u = vacant vs u) ->
  (forall u, outs vs' u = if decide (u = source e) then outs vs u ++ [e] else outs vs u) ->
  (forall u, ins vs' u = if decide (u = target e) then ins vs u ++ [e] else ins vs u) ->
  lists_ok vs'.
Proof.
  intros [Ho Hi Hs Ht Hv Hm] Hne H1 H2 Hvac Ho' Hi'. split.
  - intros v. rewrite Ho'. case_decide; [|done]. subst. by apply NoDup_snoc.
  - intros v. rewrite Hi'. case_decide; [|done]. subst. apply NoDup_snoc; [done|]. by rewrite <- Hm.
  - intros v e'. rewrite Ho'. case_decide; [|apply Hs]. subst. rewrite elem_of_app, list_elem_of_singleton.
    intros [?| ->]; [by apply Hs|done].
  - intros v e'. rewrite Hi'. case_decide; [|apply Ht]. subst. rewrite elem_of_app, list_elem_of_singleton.
    intros [?| ->]; [by apply Ht|done].
  - intros v. rewrite Hvac, Ho', Hi'. intros Hv'. rewrite !decide_False by (intros ->; congruence). by apply Hv.
  - intros e'. rewrite Ho', Hi'. specialize (Hm e').
    destruct (decide (e' = e)) as [->|Hn].
    + rewrite !decide_True by done. rewrite !elem_of_app, !list_elem_of_singleton. naive_solver.
    + repeat case_decide; rewrite ?elem_of_app, ?list_elem_of_singleton; naive_solver.
Qed.

Lemma add_edge_with_refines f v1 v2 p g :
  let e := mkEdge v1 v2 p in
  (forall l, e ∉ l -> f e l = (true, l ++ [e])) ->
  graph_ok g -> live g v1 -> live g v2 -> ~ has_edge g e ->
  exists g', add_edge_with f v1 v2 p g = Some g' /\ graph_ok g'
    /\ (forall u, live g' u <-> live g u) /\ (forall e', has_edge g' e' <-> has_edge g e' \/ e' = e).
Proof.
  intros e Hf Hok H1 H2 Hnew. destruct (add_edge_with_new f v1 v2 p g Hf (lists_ok_wired _ (go_lists _ Hok)) (live_lookup _ _ H1) (live_lookup _ _ H2) Hnew)
    as (g' & -> & Hfr & Hes & Htot & Ho & Hi).
  exists g'. split; [done|]. pose proof Hfr as (_ & _ & _ & Hvac). rewrite live_vacant in H1, H2. split; [|split].
  - eapply graph_ok_frame; [done|done| |].
    + by eapply (lists_ok_add (vertices g) _ e); [apply (go_lists _ Hok)|..].
    + rewrite Hes, Htot, (go_edges _ Hok), u64_add_l. f_equal. lia.
  - intros u. by rewrite !live_vacant, Hvac.
  - intros e'. unfold has_edge. rewrite !outs_edges, Ho. case_decide as Hs.
    + by rewrite elem_of_app, list_elem_of_singleton.
    + split; [by left|]. intros [?| ->]; done.
Qed.

Lemma add_edge_present v1 v2 p g :
  is_Some (vertices g !! v1) -> has_edge g (mkEdge v1 v2 p) -> add_edge v1 v2 p g = Some g.
Proof.
  intros [x Hx] He.
  assert (mkEdge v1 v2 p ∈ v_out x) as Hin by (unfold has_edge in He; unfold out_edges in He; cbn [source] in He; by rewrite Hx in He).
  unfold add_edge, add_edge_with. rewrite Hx. cbn [mbind option_bind]. unfold uv_insert. rewrite decide_True by done.
  rewrite (upd_vertex_some _ _ _ x Hx). cbn [mbind option_bind].
  replace (put_out (v_out x) x) with x by (by destruct x). rewrite list_insert_id by done. by destruct g.
Qed.

Lemma add_edge_refines v1 v2 p g :
  graph_ok g -> live g v1 -> live g v2 ->
  exists g', add_edge v1 v2 p g = Some g' /\ graph_ok g' /\ (forall u, live g' u <-> live g u)
    /\ (forall e, has_edge g' e <-> has_edge g e \/ e = mkEdge v1 v2 p).
Proof.
  intros Hok H1 H2. destruct (decide (mkEdge v1 v2 p ∈ out_edges g v1)) as [Hin|Hin].
  - exists g. rewrite add_edge_present by (done || by apply live_lookup). split; [done|]. split; [done|]. split; [done|].
    intros e. split; [by left|]. intros [?| ->]; done.
  - apply add_edge_with_refines; try done. intros l Hl. unfold uv_insert. by rewrite decide_False.
Qed.

(** *** Removing edges *)

Lemma remove_out_spec e g :
  is_Some (vertices g !! source e) -> (forall u, NoDup (outs (vertices g) u)) ->
  exists g', remove_out e g = Some (bool_decide (e ∈ outs (vertices g) (source e)), g')
    /\ same_frame g g' /\ g_edge_size g' = g_edge_size g
    /\ (forall u, NoDup (outs (vertices g') u))
    /\ (forall u e', e' ∈ outs (vertices g') u <-> e' ∈ outs (vertices g) u /\ ~ (u = source e /\ e' = e))
    /\ (forall u, ins (vertices g') u = ins (vertices g) u)
    /\ (edge_total (vertices g') + (if bool_decide (e ∈ outs (vertices g) (source e)) then 1 else 0)
          = edge_total (vertices g))%nat.
Proof.
  intros [x Hx] Hnd. assert (outs (vertices g) (source e) = v_out x) as Ho by (unfold outs; by rewrite Hx).
  unfold remove_out. rewrite Hx. cbn [mbind option_bind].
  destruct (uv_remove_spec e (v_out x)) as (Hb & Hnd' & Hel & Hlen); [by rewrite <- Ho|].
  destruct (uv_remove e (v_out x)) as [b l] eqn:E. cbn [fst snd] in *. rewrite (upd_vertex_some _ _ _ x Hx).
  cbn [mbind option_bind]. eexists. split; [by rewrite Ho, Hb|].
  pose proof (fun u => edit_out _ _ _ l u Hx) as E1. cbv zeta in E1. cbn [vertices put_vertices].
  split; [|split; [done|split; [|split; [|split]]]].
  - split; [done|split; [done|split]]; cbn [vertices put_vertices]; [by rewrite length_insert|apply E1].
  - intros u. destruct (E1 u) as (-> & _). by destruct (decide (u = source e)).
  - intros u e'. destruct (E1 u) as (-> & _). destruct (decide (u = source e)) as [Hu|Hu]; [|naive_solver].
    rewrite Hel, Hu, Ho. naive_solver.
  - intros u. apply E1.
  - pose proof (edge_total_out _ _ _ l Hx). rewrite Ho. destruct b; rewrite <- Hb in *; lia.
Qed.

Lemma remove_in_spec e g :
  is_Some (vertices g !! target e) -> (forall u, NoDup (ins (vertices g) u)) ->
  exists g', remove_in e g = Some (bool_decide (e ∈ ins (vertices g) (target e)), g')
    /\ same_frame g g' /\ g_edge_size g' = g_edge_size g
    /\ (forall u, NoDup (ins (vertices g') u))
    /\ (forall u e', e' ∈ ins (vertices g') u <-> e' ∈ ins (vertices g) u /\ ~ (u = target e /\ e' = e))
    /\ (forall u, outs (vertices g') u = outs (vertices g) u)
    /\ edge_total (vertices g') = edge_total (vertices g).
Proof.
  intros [x Hx] Hnd. assert (ins (vertices g) (target e) = v_in x) as Ho by (unfold ins; by rewrite Hx).
  unfold remove_in. rewrite Hx. cbn [mbind option_bind].
  destruct (uv_remove_spec e (v_in x)) as (Hb & Hnd' & Hel & Hlen); [by rewrite <- Ho|].
  destruct (uv_remove e (v_in x)) as [b l] eqn:E. cbn [fst snd] in *. rewrite (upd_vertex_some _ _ _ x Hx).
  cbn [mbind option_bind]. eexists. split; [by rewrite Ho, Hb|].
  pose proof (fun u => edit_in _ _ _ l u Hx) as E1. cbv zeta in E1. cbn [vertices put_vertices].
  split; [|split; [done|split; [|split; [|split]]]].
  - split; [done|split; [done|split]]; cbn [vertices put_vertices]; [by rewrite length_insert|apply E1].
  - intros u. destruct (E1 u) as (_ & -> & _). by destruct (decide (u = target e)).
  - intros u e'. destruct (E1 u) as (_ & -> & _). destruct (decide (u = target e)) as [Hu|Hu]; [|naive_solver].
    rewrite Hel, Hu, Ho. naive_solver.
  - intros u. apply E1.
  - by apply edge_total_in.
Qed.

Lemma same_frame_refl g : same_frame g g.
Proof. done. Qed.

Lemma same_frame_trans g1 g2 g3 : same_frame g1 g2 -> same_frame g2 g3 -> same_frame g1 g3.
Proof.
  intros (H1 & H2 & H3 & H4) (H1' & H2' & H3' & H4'). split; [congruence|split; [congruence|split; [congruence|]]].
  intros u. by rewrite H4'.
Qed.

Lemma same_frame_lookup g g' v : same_frame g g' -> is_Some (vertices g !! v) -> is_Some (vertices g' !! v).
Proof. intros (_ & _ & Hlen & _) H%lookup_lt_is_Some_1. apply lookup_lt_is_Some_2. lia. Qed.

Lemma remove_edge_refines e g :
  graph_ok g -> live g (source e) -> live g (target e) ->
  exists g', remove_edge e g = Some g' /\ graph_ok g'
    /\ (forall u, live g' u <-> live g u) /\ (forall e', has_edge g' e' <-> has_edge g e' /\ e' <> e).
Proof.
  intros Hok H1 H2. pose proof (go_lists _ Hok) as [Ho Hi Hs Ht Hv Hm].
  destruct (remove_out_spec e g) as (g1 & E1 & F1 & S1 & N1 & O1 & I1 & T1); [apply live_lookup in H1; naive_solver|done|].
  destruct (remove_in_spec e g1) as (g2 & E2 & F2 & S2 & N2 & I2 & O2 & T2).
  { apply (same_frame_lookup _ _ _ F1). apply live_lookup in H2. naive_solver. }
  { intros u. by rewrite I1. }
  unfold remove_edge. rewrite E1. cbn [mbind option_bind]. rewrite E2. cbn [mbind option_bind].
  pose proof (same_frame_trans _ _ _ F1 F2) as F. pose proof F as (_ & _ & _ & Hvac).
  assert (bool_decide (e ∈ ins (vertices g1) (target e)) = bool_decide (e ∈ outs (vertices g) (source e))) as ->.
  { rewrite I1. apply bool_decide_ext. by rewrite Hm. }
  rewrite andb_diag. set (b := bool_decide _) in *. eexists. split; [reflexivity|].
  assert (vertices (if b then put_edge_size (u64 (g_edge_size g2 - 1)) g2 else g2) = vertices g2) as Hvs by by destruct b.
  assert (forall e' u, e' ∈ outs (vertices g2) u <-> e' ∈ outs (vertices g) u /\ e' <> e) as Hout.
  { intros e' u. rewrite O2, O1. split; [|naive_solver]. intros [Hin Hn]. split; [done|]. intros ->. apply Hn.
    split; [|done]. symmetry. by apply Hs. }
  assert (forall e' u, e' ∈ ins (vertices g2) u <-> e' ∈ ins (vertices g) u /\ e' <> e) as Hin'.
  { intros e' u. rewrite I2, I1. split; [|naive_solver]. intros [Hin Hn]. split; [done|]. intros ->. apply Hn.
    split; [|done]. symmetry. by apply Ht. }
  split; [|split].
  - eapply graph_ok_frame; [done| |rewrite Hvs|rewrite Hvs].
    + unfold same_frame. rewrite Hvs. destruct F as (? & ? & ? & ?). by destruct b.
    + split.
      * intros v. by rewrite O2.
      * done.
      * intros v e'. rewrite Hout. intros [? _]. by apply Hs.
      * intros v e'. rewrite Hin'. intros [? _]. by apply Ht.
      * intros v. rewrite Hvac. intros [Hv1 Hv2]%Hv. split; apply elem_of_nil_inv; intros e'; rewrite ?Hout, ?Hin', ?Hv1, ?Hv2;
          intros [[]%not_elem_of_nil _].
      * intros e'. by rewrite Hout, Hin', Hm.
    + rewrite T2. destruct b; cbn [g_edge_size put_edge_size]; rewrite S2, S1, (go_edges _ Hok); rewrite ?u64_sub_l; f_equal; lia.
  - intros u. by rewrite !live_vacant, Hvs, Hvac.
  - intros e'. unfold has_edge. by rewrite !outs_edges, Hvs, Hout.
Qed.

(** *** Removing a vertex *)

Lemma remove_all_out l g :
  NoDup l -> (forall u, NoDup (outs (vertices g) u)) ->
  (forall e, e ∈ l -> e ∈ outs (vertices g) (source e)) ->
  (forall u e, e ∈ outs (vertices g) u -> source e = u) ->
  exists g', remove_all remove_out l g = Some g' /\ same_frame g g' /\ g_edge_size g' = g_edge_size g
    /\ (forall u, NoDup (outs (vertices g') u))
    /\ (forall u e, e ∈ outs (vertices g') u <-> e ∈ outs (vertices g) u /\ e ∉ l)
    /\ (forall u, ins (vertices g') u = ins (vertices g) u)
    /\ (edge_total (vertices g') + length l = edge_total (vertices g))%nat.
Proof.
  revert g. induction l as [|e l IH]; intros g Hl Hnd Hin Hs.
  - exists g. split_and!; try done. { intros u e. split; [|naive_solver]. by split; [|apply not_elem_of_nil]. }
  - apply list.NoDup_cons in Hl as [Hel Hl]. pose proof (Hin e (list_elem_of_here e l)) as Hin0.
    destruct (remove_out_spec e g) as (g1 & E1 & F1 & S1 & N1 & O1 & I1 & T1); [|done|].
    { destruct (vertices g !! source e) eqn:Hx; [done|]. unfold outs in Hin0. rewrite Hx in Hin0. by apply not_elem_of_nil in Hin0. }
    rewrite bool_decide_true in E1, T1 by done.
    destruct (IH g1 Hl N1) as (g' & E2 & F2 & S2 & N2 & O2 & I2 & T2).
    { intros e' He'. apply O1. split; [apply Hin; by right|]. intros [_ ->]. done. }
    { intros u e' [? _]%O1. by apply Hs. }
    exists g'. cbn [remove_all]. rewrite E1. cbn [mbind option_bind]. rewrite E2. split_and!; try done.
    + by eapply same_frame_trans.
    + congruence.
    + intros u e'. rewrite O2, O1, not_elem_of_cons. split.
      * intros [[Ho Hne] Hnl]. split; [done|]. split; [|done]. intros ->. apply Hne. split; [|done]. symmetry. by apply Hs.
      * intros (Ho & Hne & Hnl). split; [|done]. split; [done|]. by intros [_ ?].
    + intros u. by rewrite I2.
    + simpl. lia.
Qed.

Lemma remove_all_in l g :
  NoDup l -> (forall u, NoDup (ins (vertices g) u)) ->
  (forall e, e ∈ l -> e ∈ ins (vertices g) (target e)) ->
  (forall u e, e ∈ ins (vertices g) u -> target e = u) ->
  exists g', remove_all remove_in l g = Some g' /\ same_frame g g' /\ g_edge_size g' = g_edge_size g
    /\ (forall u, NoDup (ins (vertices g') u))
    /\ (forall u e, e ∈ ins (vertices g') u <-> e ∈ ins (vertices g) u /\ e ∉ l)
    /\ (forall u, outs (vertices g') u = outs (vertices g) u)
    /\ edge_total (vertices g') = edge_total (vertices g).
Proof.
  revert g. induction l as [|e l IH]; intros g Hl Hnd Hin Hs.
  - exists g. split_and!; try done. intros u e. split; [|naive_solver]. by split; [|apply not_elem_of_nil].
  - apply list.NoDup_cons in Hl as [Hel Hl]. pose proof (Hin e (list_elem_of_here e l)) as Hin0.
    destruct (remove_in_spec e g) as (g1 & E1 & F1 & S1 & N1 & O1 & I1 & T1); [|done|].
    { destruct (vertices g !! target e) eqn:Hx; [done|]. unfold ins in Hin0. rewrite Hx in Hin0. by apply not_elem_of_nil in Hin0. }
    destruct (IH g1 Hl N1) as (g' & E2 & F2 & S2 & N2 & O2 & I2 & T2).
    { intros e' He'. apply O1. split; [apply Hin; by right|]. intros [_ ->]. done. }
    { intros u e' [? _]%O1. by apply Hs. }
    exists g'. cbn [remove_all]. rewrite E1. cbn [mbind option_bind]. rewrite E2. split_and!; try done.
    + by eapply same_frame_trans.
    + congruence.
    + intros u e'. rewrite O2, O1, not_elem_of_cons. split.
      * intros [[Ho Hne] Hnl]. split; [done|]. split; [|done]. intros ->. apply Hne. split; [|done]. symmetry. by apply Hs.
      * intros (Ho & Hne & Hnl). split; [|done]. split; [done|]. by intros [_ ?].
    + intros u. by rewrite I2.
    + congruence.
Qed.

(** The vertex after its lists are cleared. *)
Definition cleared (x : vertex VP EP) : vertex VP EP := mkVertex [] [] (v_property x) true.

Lemma edit_clear vs v x u :
  vs !! v = Some x ->
  let vs' := <[v := cleared x]> vs in
  outs vs' u = (if decide (u = v) then [] else outs vs u) /\ ins vs' u = (if decide (u = v) then [] else ins vs u)
  /\ vacant vs' u = (if decide (u = v) then true else vacant vs u).
Proof.
  intros Hv. simpl. unfold outs, ins, vacant. destruct (decide (u = v)) as [->|Hn].
  - by rewrite list_lookup_insert_eq by (by eapply lookup_lt_Some).
  - by rewrite list_lookup_insert_ne.
Qed.

(** The result of [remove_vertex] as adjacency; [l] are the out-edges that
    lead elsewhere. *)
Lemma remove_vertex_adj v g :
  wired (vertices g) -> is_Some (vertices g !! v) ->
  exists g' l, remove_vertex v g = Some g'
    /\ g_size g' = u64 (g_size g - 1) /\ free_vertices g' = v :: free_vertices g
    /\ length (vertices g') = length (vertices g)
    /\ (forall u, vacant (vertices g') u = if decide (u = v) then true else vacant (vertices g) u)
    /\ (forall u, NoDup (outs (vertices g') u)) /\ (forall u, NoDup (ins (vertices g') u))
    /\ (forall u e, e ∈ outs (vertices g') u <-> e ∈ outs (vertices g) u /\ source e <> v /\ target e <> v)
    /\ (forall u e, e ∈ ins (vertices g') u <-> e ∈ ins (vertices g) u /\ source e <> v /\ target e <> v)
    /\ g_edge_size g' = u64 (u64 (g_edge_size g - Z.of_nat (length (ins (vertices g) v))) - Z.of_nat (length (outs (vertices g) v)))
    /\ NoDup l /\ (forall e, e ∈ l <-> e ∈ outs (vertices g) v /\ target e <> v)
    /\ (edge_total (vertices g') + length (ins (vertices g) v) + length l = edge_total (vertices g))%nat.
Proof.
  intros [Ho Hi Hs Ht Hm] [x Hx].
  assert (v_in x = ins (vertices g) v) as Hxi by (unfold ins; by rewrite Hx).
  assert (v_out x = outs (vertices g) v) as Hxo by (unfold outs; by rewrite Hx).
  unfold remove_vertex. rewrite Hx. cbn [mbind option_bind]. rewrite Hxi, Hxo.
  set (n := u64 _). destruct (remove_all_out (ins (vertices g) v) (put_edge_size n g)) as (g1 & E1 & F1 & S1 & N1 & O1 & I1 & T1).
  { apply Hi. } { apply Ho. } { intros e He. cbn. apply Hm. by rewrite (Ht v e He). } { apply Hs. }
  cbn [vertices put_edge_size] in *. rewrite E1. cbn [mbind option_bind].
  assert (is_Some (vertices g1 !! v)) as [x1 Hx1] by (apply (same_frame_lookup _ _ _ F1); cbn; by rewrite Hx).
  rewrite Hx1. cbn [mbind option_bind].
  assert (v_out x1 = outs (vertices g1) v) as Hxo1 by (unfold outs; by rewrite Hx1). rewrite Hxo1.
  assert (forall e, e ∈ outs (vertices g1) v <-> e ∈ outs (vertices g) v /\ target e <> v) as Hov.
  { intros e. rewrite O1. split; intros [He Hn]; (split; [done|]).
    - intros <-. apply Hn. apply Hm. by rewrite (Hs _ _ He).
    - intros He2. by apply Ht in He2. }
  destruct (remove_all_in (outs (vertices g1) v) g1) as (g2 & E2 & F2 & S2 & N2 & I2 & O2 & T2).
  { apply N1. } { intros u. by rewrite I1. }
  { intros e [He _]%Hov. rewrite I1. apply Hm. by rewrite (Hs v e He). } { intros u e. rewrite I1. apply Ht. }
  rewrite E2. cbn [mbind option_bind].
  assert (is_Some (vertices g2 !! v)) as [x2 Hx2] by (apply (same_frame_lookup _ _ _ F2); by rewrite Hx1).
  rewrite (upd_vertex_some _ _ _ x2 Hx2). cbn [mbind option_bind]. exists (mkGraph (u64 (g_size g2 - 1)) (g_edge_size g2) (v :: free_vertices g2) (<[v := cleared x2]> (vertices g2))), (outs (vertices g1) v). split; [reflexivity|].
  cbn [g_size g_edge_size free_vertices vertices put_vertices].
  pose proof (fun u => edit_clear _ _ _ u Hx2) as E3. cbv zeta in E3.
  destruct (same_frame_trans _ _ _ F1 F2) as (Fs & Ff & Fl & Fv). cbn [vertices put_edge_size g_size free_vertices] in *.
  split_and!.
  - by rewrite Fs.
  - by rewrite Ff.
  - by rewrite length_insert, Fl.
  - intros u. destruct (E3 u) as (_ & _ & ->). by rewrite Fv.
  - intros u. destruct (E3 u) as (-> & _ & _). destruct (decide (u = v)); [constructor|]. by rewrite O2.
  - intros u. destruct (E3 u) as (_ & -> & _). by destruct (decide (u = v)); [constructor|].
  - intros u e. destruct (E3 u) as (-> & _ & _). destruct (decide (u = v)) as [->|Hu].
    + split; [intros []%not_elem_of_nil|]. intros (He & Hsv & _). by apply Hs in He.
    + rewrite O2, O1. split.
      * intros [He Hn]. pose proof (Hs _ _ He). split; [done|]. split; [congruence|]. intros Htv. apply Hn.
        rewrite <- Htv. apply Hm. by rewrite (Hs _ _ He).
      * intros (He & _ & Htv). split; [done|]. intros He'. by apply Ht in He'.
  - intros u e. destruct (E3 u) as (_ & -> & _). destruct (decide (u = v)) as [->|Hu].
    + split; [intros []%not_elem_of_nil|]. intros (He & _ & Htv). by apply Ht in He.
    + rewrite I2, I1, Hov. split.
      * intros [He Hn]. pose proof (Ht _ _ He) as Hte. split; [done|]. split; [|congruence]. intros Hsv. apply Hn.
        split; [|congruence]. rewrite <- Hsv. apply Hm. by rewrite Hte.
      * intros (He & Hsv & _). split; [done|]. intros [He' _]. by apply Hs in He'.
  - by rewrite S2, S1.
  - apply N1.
  - apply Hov.
  - assert (v_out x2 = outs (vertices g1) v) as Hx2o by (rewrite <- O2; unfold outs; by rewrite Hx2).
    pose proof (edge_total_insert _ _ _ (cleared x2) Hx2) as T3. rewrite Hx2o in T3. simpl in T3. lia.
Qed.

Lemma remove_vertex_refines v g :
  graph_ok g -> live g v -> (forall p, ~ has_edge g (mkEdge v v p)) ->
  exists g', remove_vertex v g = Some g' /\ graph_ok g'
    /\ (forall u, live g' u <-> live g u /\ u <> v)
    /\ (forall e, has_edge g' e <-> has_edge g e /\ source e <> v /\ target e <> v).
Proof.
  intros Hok Hv Hloop. destruct (remove_vertex_adj v g (lists_ok_wired _ (go_lists _ Hok)) (live_lookup _ _ Hv))
    as (g' & l & E & Hs & Hf & Hl & Hvac & No & Ni & O & I & Hes & Nl & Hel & T).
  pose proof (go_lists _ Hok) as L. exists g'. split; [done|]. split; [split|split].
  - split; [done|done|..].
    + intros u e [He _]%O. by apply (lo_out_source _ L).
    + intros u e [He _]%I. by apply (lo_in_target _ L).
    + intros u Hu. rewrite Hvac in Hu. assert (u = v \/ u <> v /\ vacant (vertices g) u = true) as Hc.
      { destruct (decide (u = v)); [by left|by right]. }
      split; apply elem_of_nil_inv; intros e; [intros (He & H1 & H2)%O|intros (He & H1 & H2)%I].
      * destruct Hc as [->|[_ Hc]]; [by apply (lo_out_source _ L) in He|].
        destruct (lo_vacant _ L u Hc) as [Hn _]. rewrite Hn in He. by apply not_elem_of_nil in He.
      * destruct Hc as [->|[_ Hc]]; [by apply (lo_in_target _ L) in He|].
        destruct (lo_vacant _ L u Hc) as [_ Hn]. rewrite Hn in He. by apply not_elem_of_nil in He.
    + intros e. by rewrite O, I, (lo_mirror _ L).
  - assert (length l = length (outs (vertices g) v)) as Hlen.
    { apply Permutation_length, NoDup_Permutation; [done|apply (lo_out_nodup _ L)|]. intros [s t p]. rewrite Hel. split; [naive_solver|].
      intros He. split; [done|]. intros Et. cbn in Et. subst t. apply (Hloop p). pose proof (lo_out_source _ L _ _ He) as Es. cbn in Es. by subst s. }
    rewrite Hes, (go_edges _ Hok), u64_sub_l, <- Z.sub_add_distr, u64_sub_l. f_equal. lia.
  - intros u. rewrite Hf, elem_of_cons, (go_free _ Hok), !vacant_Some, Hl, Hvac.
    destruct (live_lookup _ _ Hv) as [x Hx]. apply lookup_lt_Some in Hx. destruct (decide (u = v)); naive_solver.
  - rewrite Hf. apply list.NoDup_cons. split; [|apply (go_free_nodup _ Hok)]. rewrite (go_free _ Hok), vacant_Some.
    apply live_vacant in Hv. intros [_ ?]. congruence.
  - unfold capacity. rewrite Hs, Hf, Hl, (go_size _ Hok), u64_sub_l. f_equal. unfold capacity. simpl. lia.
  - intros u. rewrite !live_vacant, Hvac. destruct (decide (u = v)); naive_solver.
  - intros e. unfold has_edge. by rewrite !outs_edges, O.
Qed.

(** *** Adding a vertex *)

(** The vertex is put where nothing was, with empty lists. *)
Lemma add_vertex_lists p g :
  graph_ok g ->
  exists v g', add_vertex p g = Some (v, g') /\ vacant (vertices g) v = true
    /\ g_size g' = u64 (g_size g + 1) /\ g_edge_size g' = g_edge_size g
    /\ (forall u, outs (vertices g') u = outs (vertices g) u) /\ (forall u, ins (vertices g') u = ins (vertices g) u)
    /\ (forall u, vacant (vertices g') u = if decide (u = v) then false else vacant (vertices g) u)
    /\ edge_total (vertices g') = edge_total (vertices g)
    /\ ((free_vertices g = [] /\ free_vertices g' = [] /\ v = capacity g /\ capacity g' = S (capacity g))
        \/ (free_vertices g = v :: free_vertices g' /\ capacity g' = capacity g)).
Proof.
  intros Hok. unfold add_vertex. destruct (free_vertices g) as [|v l] eqn:Hfree; cbn [take_free].
  - exists (capacity g). eexists. split; [reflexivity|].
    assert (vertices g !! capacity g = None) as Hnone by (apply lookup_ge_None_2; unfold capacity; lia).
    assert (forall u, (vertices g ++ [mkVertex [] [] p false]) !! u
              = if decide (u = capacity g) then Some (mkVertex [] [] p false) else vertices g !! u) as Hlk.
    { intros u. unfold capacity. case_decide; [by apply list_lookup_middle|].
      destruct (decide (u < length (vertices g))%nat); [by apply lookup_app_l|].
      rewrite !lookup_ge_None_2; [done|lia|rewrite length_app; simpl; lia]. }
    split; [unfold vacant; by rewrite Hnone|]. cbn [g_size g_edge_size vertices free_vertices]. split_and!; try done.
    1-3: intros u; unfold outs, ins, vacant; rewrite Hlk; case_decide; subst; by rewrite ?Hnone.
    + unfold edge_total. rewrite sum_list_with_app. simpl. lia.
    + left. unfold capacity. cbn [vertices]. rewrite length_app. simpl. split_and!; try done. lia.
  - assert (v ∈ free_vertices g) as Hv by (rewrite Hfree; left).
    apply (go_free _ Hok) in Hv as (x & Hx & Hemp). pose proof (lookup_lt_Some _ _ _ Hx) as Hlt.
    assert (vacant (vertices g) v = true) as Hvac by (unfold vacant; by rewrite Hx).
    destruct (lo_vacant _ (go_lists _ Hok) v Hvac) as [Ho Hi]. unfold outs in Ho. unfold ins in Hi. rewrite Hx in Ho, Hi. simpl in Ho, Hi.
    replace (v <=? capacity g)%nat with true by (symmetry; apply Nat.leb_le; unfold capacity; lia).
    exists v. rewrite Hx. cbn [mbind option_bind]. eexists. split; [reflexivity|]. split; [done|].
    cbn [g_size g_edge_size vertices free_vertices]. rewrite Ho, Hi. split_and!; try done.
    1-3: intros u; unfold outs, ins, vacant; destruct (decide (u = v)) as [->|];
      [rewrite list_lookup_insert_eq by done; rewrite ?Hx; simpl; congruence|by rewrite list_lookup_insert_ne].
    + pose proof (edge_total_insert _ _ _ (mkVertex [] [] p false) Hx) as Ht. rewrite Ho in Ht. simpl in Ht. lia.
    + right. unfold capacity. cbn [vertices]. by rewrite length_insert.
Qed.

Lemma add_vertex_refines p g :
  graph_ok g ->
  exists v g', add_vertex p g = Some (v, g') /\ graph_ok g' /\ ~ live g v
    /\ (forall u, live g' u <-> live g u \/ u = v) /\ (forall e, has_edge g' e <-> has_edge g e).
Proof.
  intros Hok. destruct (add_vertex_lists p g Hok) as (v & g' & E & Hv & Hs & He & O & I & V & T & C).
  pose proof (go_lists _ Hok) as L. exists v, g'. split; [done|]. split; [split|split; [|split]].
  - destruct L as [L1 L2 L3 L4 L5 L6]. split; intros u; rewrite ?O, ?I, ?V; [done|done|apply L3|apply L4| |apply L6].
    intros Hu. apply L5. by destruct (decide (u = v)).
  - by rewrite He, (go_edges _ Hok), T.
  - intros u. pose proof (go_free _ Hok u) as Hfu. rewrite vacant_Some in *. rewrite V. fold (capacity g') in *. fold (capacity g) in *.
    destruct C as [(Hn & -> & -> & ->)|[Hn ->]]; rewrite Hn in Hfu.
    + split; [intros []%not_elem_of_nil|]. destruct (decide (u = capacity g)); [by intros [_ ?]|].
      intros [Hlt Hva]. exfalso. apply (not_elem_of_nil u), Hfu. split; [lia|done].
    + pose proof (go_free_nodup _ Hok) as Hnd. rewrite Hn in Hnd. apply list.NoDup_cons in Hnd as [Hnv _].
      rewrite elem_of_cons in Hfu. destruct (decide (u = v)) as [->|]; [|naive_solver].
      split; [done|]. by intros [_ ?].
  - destruct C as [(_ & -> & _)|[Hn _]]; [constructor|]. pose proof (go_free_nodup _ Hok) as Hnd. rewrite Hn in Hnd.
    by apply list.NoDup_cons in Hnd as [_ ?].
  - rewrite Hs, (go_size _ Hok), u64_add_l. f_equal. destruct C as [(-> & -> & _ & ->)|[-> ->]]; simpl; lia.
  - rewrite live_vacant. congruence.
  - intros u. rewrite !live_vacant, V. destruct (decide (u = v)) as [->|]; naive_solver.
  - intros e. unfold has_edge. by rewrite !outs_edges, O.
Qed.

Lemma empty_graph_ok : graph_ok (@empty_graph VP EP).
Proof.
  split; [|done|..].
  - split; intros; try constructor; try done; by apply not_elem_of_nil in H.
  - intros v. split; [intros []%not_elem_of_nil|]. by intros (x & Hx & _).
  - constructor.
  - done.
Qed.

(** C13: [BaseGraph] refines a set of vertices and a set of edges: started
    from a graph whose adjacency lists are consistent, every operation that is
    called within its contract succeeds, leaves the lists consistent (mirrored,
    free of duplicates, with exact counters and free list), and changes the
    two sets as its name says; a removed vertex takes its edges with it. *)
Theorem graph_refines (op : gop) (g : graph VP EP) :
  graph_ok g -> gop_pre op g ->
  exists g', apply_gop op g = Some g' /\ graph_ok g' /\ abs_step op (live g) (has_edge g) (live g') (has_edge g').
Proof.
  intros Hok Hpre. destruct op as [p|v1 v2 p|v1 v2 p|e|v]; cbn [apply_gop gop_pre abs_step] in *.
  - destruct (add_vertex_refines p g Hok) as (v & g' & -> & Hok' & Hn & Hl & He). exists g'. split; [done|]. split; [done|]. by exists v.
  - destruct Hpre as [H1 H2]. by apply add_edge_refines.
  - destruct Hpre as (H1 & H2 & H3). by apply add_edge_with_refines.
  - destruct Hpre as [H1 H2]. by apply remove_edge_refines.
  - destruct Hpre as [H1 H2]. by apply remove_vertex_refines.
Qed.

End GraphOk.

(** A graph with two vertices and an edge. *)
Definition two_vertices : graph nat nat :=
  mkGraph 2 1 [] [mkVertex [mkEdge 0%nat 1%nat 7%nat] [] 10%nat false; mkVertex [] [mkEdge 0%nat 1%nat 7%nat] 20%nat false].

Lemma two_vertices_ok : graph_ok two_vertices.
Proof.
  destruct (add_vertex_refines 10%nat (@empty_graph nat nat) empty_graph_ok) as (v1 & g1 & E1 & H1 & _).
  vm_compute in E1. injection E1 as _ <-.
  destruct (add_vertex_refines 20%nat _ H1) as (v2 & g2 & E2 & H2 & _). vm_compute in E2. injection E2 as _ <-.
  destruct (add_edge_with_refines uv_insert_unique 0 1 7%nat _ ltac:(done) H2) as (g3 & E3 & H3 & _).
  { by exists (mkVertex [] [] 10%nat false). } { by exists (mkVertex [] [] 20%nat false). } { by intros []%not_elem_of_nil. }
  vm_compute in E3. by injection E3 as <-.
Qed.

Lemma graph_refines_witness :
  exists g', apply_gop (RemoveVertex 0%nat) two_vertices = Some g' /\ graph_ok g'
    /\ abs_step (VP := nat) (RemoveVertex 0%nat) (live two_vertices) (has_edge two_vertices) (live g') (has_edge g').
Proof.
  apply graph_refines; [exact two_vertices_ok|]. split.
  - by exists (mkVertex [mkEdge 0%nat 1%nat 7%nat] [] 10%nat false).
  - intros p Hp. apply list_elem_of_singleton in Hp. discriminate.
Defined.

(** A loop is in both lists of its vertex, and [remove_vertex] subtracts it
    twice: the number of edges wraps around. *)
Lemma remove_vertex_loop (p q : nat) :
  let e := mkEdge 0%nat 0%nat q in
  let g := mkGraph 1 1 [] [mkVertex [e] [e] p false] in
  remove_vertex 0 g = Some (mkGraph 0 18446744073709551615 [0%nat] [mkVertex [] [] p true]).
Proof.
  intros e g. unfold remove_vertex. simpl. unfold remove_out. simpl. rewrite decide_True by done. reflexivity.
Qed.
