(* ===== verification/SearchProps.v ===== *)
(** * What the searches of the linker compute

    The packed colour map ([src/cali-linker/graph/color_map.h]), the
    breadth-first searches and the bottom-up traversal
    ([src/cali-linker/graph/algorithms.h]). *)

From S2P Require Import Prelude Graph GraphProps.

(** ** [ColorMap] *)

Definition range (n : nat) : list Z := Z.of_nat <$> seq 0 n.

Lemma elem_range n x : 0 <= x < Z.of_nat n -> In x (range n).
Proof. intros Hx. apply in_map_iff. exists (Z.to_nat x). split; [lia|]. apply in_seq. lia. Qed.

(** What a byte holds after [put_fast], for all bytes, colours and places. *)
Definition put_fast_byte_ok : bool :=
  forallb (fun x => forallb (fun c => forallb (fun i => forallb (fun j =>
    let y := Z.land (Z.lor x (Z.shiftl c (i + i))) 255 in
    (0 <=? y) && (y <? 256) &&
    (Z.land (Z.shiftr y (j + j)) 3 =?
       if i =? j then Z.lor (Z.land (Z.shiftr x (j + j)) 3) c else Z.land (Z.shiftr x (j + j)) 3))
  (range 4)) (range 4)) (range 4)) (range 256).

Lemma put_fast_bytes : put_fast_byte_ok = true.
Proof. vm_compute. reflexivity. Qed.

Lemma put_fast_byte x c i j :
  0 <= x < 256 -> 0 <= c < 4 -> 0 <= i < 4 -> 0 <= j < 4 ->
  let y := Z.land (Z.lor x (Z.shiftl c (i + i))) 255 in
  0 <= y < 256 /\
  Z.land (Z.shiftr y (j + j)) 3 = if decide (i = j) then Z.lor (Z.land (Z.shiftr x (j + j)) 3) c
                                  else Z.land (Z.shiftr x (j + j)) 3.
Proof.
  intros Hx Hc Hi Hj. pose proof put_fast_bytes as H. unfold put_fast_byte_ok in H. rewrite forallb_forall in H.
  specialize (H x (elem_range 256 _ Hx)). rewrite forallb_forall in H. specialize (H c (elem_range 4 _ Hc)).
  rewrite forallb_forall in H. specialize (H i (elem_range 4 _ Hi)). rewrite forallb_forall in H.
  specialize (H j (elem_range 4 _ Hj)). cbv zeta in *. apply andb_true_iff in H as [H H2]. bool_hyps.
  split; [lia|]. rewrite H2. destruct (Z.eqb_spec i j); case_decide; done.
Qed.

(** A map of bytes with room for the vertices below [n]. *)
Definition cm_ok (n : nat) (cm : list Z) : Prop := (n <= 4 * length cm)%nat /\ Forall (fun x => 0 <= x < 256) cm.

Definition colour (cm : list Z) (v : nat) : Z := default 0 (color_get v cm).

Lemma color_byte_lt n cm v : cm_ok n cm -> (v < n)%nat -> is_Some (cm !! color_byte v).
Proof.
  intros [Hn _] Hv. apply lookup_lt_is_Some_2. unfold color_byte.
  apply Nat.Div0.div_lt_upper_bound. lia.
Qed.

Lemma color_get_colour n cm v : cm_ok n cm -> (v < n)%nat -> color_get v cm = Some (colour cm v).
Proof.
  intros Hcm Hv. unfold colour, color_get. destruct (color_byte_lt _ _ _ Hcm Hv) as [x ->]. done.
Qed.

Lemma same_byte_shift u v : color_byte u = color_byte v -> (u mod 4 = v mod 4)%nat -> u = v.
Proof. unfold color_byte. intros H1 H2. rewrite (Nat.div_mod_eq u 4), (Nat.div_mod_eq v 4). lia. Qed.

(** [put_fast] adds the bits of the colour at its vertex and nowhere else. *)
Lemma color_put_fast_spec n cm v c :
  cm_ok n cm -> (v < n)%nat -> 0 <= c < 4 ->
  exists cm', color_put_fast v c cm = Some cm' /\ cm_ok n cm'
    /\ forall u, colour cm' u = if decide (u = v) then Z.lor (colour cm v) c else colour cm u.
Proof.
  intros Hcm Hv Hc. destruct (color_byte_lt _ _ _ Hcm Hv) as [x Hx]. destruct Hcm as [Hn Hb].
  assert (0 <= x < 256) as Hx256 by (eapply Forall_lookup_1 in Hb; [|done]; done).
  assert (forall w, 0 <= Z.of_nat (w mod 4) < 4) as Hmod by (intros w; pose proof (Nat.mod_upper_bound w 4); lia).
  pose proof (fun w => put_fast_byte x c _ _ Hx256 Hc (Hmod v) (Hmod w)) as Hbyte. cbv zeta in Hbyte.
  unfold color_put_fast. rewrite Hx. cbn [mbind option_bind]. eexists. split; [reflexivity|]. split.
  - split; [by rewrite length_insert|]. apply Forall_insert; [done|]. apply (Hbyte v).
  - intros u. unfold colour, color_get. destruct (decide (color_byte u = color_byte v)) as [E|E].
    + rewrite E. rewrite list_lookup_insert_eq by (by eapply lookup_lt_Some). rewrite Hx. cbn [mbind option_bind default from_option id].
      unfold color_shift. destruct (Hbyte u) as [_ Hu]. rewrite Hu.
      destruct (decide (u = v)) as [->|Huv]; [by rewrite decide_True|]. rewrite decide_False; [done|].
      intros Hm. apply Huv, same_byte_shift; [done|lia].
    + rewrite list_lookup_insert_ne by done. rewrite decide_False by (by intros ->). done.
Qed.

Lemma colors_init_ok n cm : (n <= 4 * length cm)%nat -> cm_ok n (colors_init cm).
Proof. intros Hn. split; [unfold colors_init; by rewrite length_replicate|]. apply Forall_replicate. lia. Qed.

Lemma colour_init cm v : colour (colors_init cm) v = 0.
Proof.
  unfold colour, color_get, colors_init. destruct (replicate (length cm) 0 !! color_byte v) as [x|] eqn:E; [|done].
  apply lookup_replicate in E as [-> _]. cbn [mbind option_bind default from_option id]. by rewrite Z.shiftr_0_l.
Qed.

(** [put] forgets the other three vertices of the byte. *)
Lemma color_put_wipes u v c cm :
  color_byte u = color_byte v -> u <> v -> 0 <= c < 4 -> is_Some (cm !! color_byte v) ->
  exists cm', color_put v c cm = Some cm' /\ colour cm' u = 0.
Proof.
  intros Hb Huv Hc [x Hx]. unfold color_put. rewrite Hx. cbn [mbind option_bind]. eexists. split; [reflexivity|].
  assert (forall w, 0 <= Z.of_nat (w mod 4) < 4) as Hmod by (intros w; pose proof (Nat.mod_upper_bound w 4); lia).
  destruct (put_fast_byte 0 c _ _ ltac:(lia) Hc (Hmod v) (Hmod u)) as [_ Hbyte].
  unfold colour, color_get, color_shift. rewrite Hb, list_lookup_insert_eq by (by eapply lookup_lt_Some).
  cbn [mbind option_bind default from_option id]. rewrite Z.lor_0_l in Hbyte. rewrite decide_False in Hbyte; [by rewrite Z.shiftr_0_l in Hbyte|].
  intros Hm. apply Huv, same_byte_shift; [done|lia].
Qed.

(** ** Breadth-first search *)

Lemma filter_mono {A} (f f' : A -> bool) l :
  (forall x, x ∈ l -> f' x = true -> f x = true) -> (length (List.filter f' l) <= length (List.filter f l))%nat.
Proof.
  induction l as [|y l IH]; intros H; simpl; [lia|].
  assert (length (List.filter f' l) <= length (List.filter f l))%nat as Hl by (apply IH; intros; apply H; [by right|done]).
  destruct (f' y) eqn:E'; [rewrite (H y) by (done || left)|destruct (f y)]; simpl; lia.
Qed.

Lemma filter_drop {A} (f f' : A -> bool) l x :
  x ∈ l -> f x = true -> f' x = false -> (forall y, y ∈ l -> f' y = true -> f y = true) ->
  (S (length (List.filter f' l)) <= length (List.filter f l))%nat.
Proof.
  induction l as [|y l IH]; intros Hx Hf Hf' H; [by apply not_elem_of_nil in Hx|]. simpl.
  assert (forall y, y ∈ l -> f' y = true -> f y = true) as Hl by (intros; apply H; [by right|done]).
  apply elem_of_cons in Hx as [->|Hx].
  - rewrite Hf, Hf'. simpl. apply le_n_S. by apply filter_mono.
  - specialize (IH Hx Hf Hf' Hl). destruct (f' y) eqn:E'; [rewrite (H y) by (done || left)|destruct (f y)]; simpl; lia.
Qed.

(** The vertices that a search from [sources] comes across when it follows
    [adj]: it goes on from a vertex only when [discover_vertex] accepts it. *)
Inductive reached (discover : nat -> bool) (adj : nat -> nat -> Prop) (sources : list nat) : nat -> Prop :=
| reached_source s : s ∈ sources -> reached discover adj sources s
| reached_step u v : reached discover adj sources u -> discover u = true -> adj u v -> reached discover adj sources v.

Lemma reached_ext discover adj adj' sources v :
  (forall u w, adj u w <-> adj' u w) -> reached discover adj sources v <-> reached discover adj' sources v.
Proof.
  intros H. split; induction 1 as [s Hs|u w _ IH Hd Ha]; try by constructor.
  - apply (reached_step _ _ _ u); [done|done|by apply H].
  - apply (reached_step _ _ _ u); [done|done|by apply H].
Qed.

(** What a search reports: a wanted vertex that it can reach, or the colours
    of everything it reached. *)
Definition search_exact (discover wanted : nat -> bool) (adj : nat -> nat -> Prop) (n : nat) (sources : list nat)
    (r : search) : Prop :=
  match r with
  | Found _ => exists v, reached discover adj sources v /\ wanted v = true
  | Done cm => cm_ok n cm /\ forall v,
      (colour cm v = BLACK <-> reached discover adj sources v /\ discover v = true)
      /\ (colour cm v = GRAY <-> reached discover adj sources v /\ discover v = false)
      /\ (reached discover adj sources v -> (v < n)%nat /\ wanted v = false)
  | Stuck => False
  end.

Section Bfs.
Context (discover wanted : nat -> bool) (next : nat -> list nat) (n : nat).
Context (next_lt : forall u v, (u < n)%nat -> v ∈ next u -> (v < n)%nat).

Abbreviation reached := (reached discover (fun u v => v ∈ next u)).

Definition white (cm : list Z) : nat := length (List.filter (fun v => colour cm v =? 0) (seq 0 n)).

(** The loop over candidates: it stops at a wanted one, or it turns the white
    ones grey and queues those that are discovered. *)
Definition scanned (check : bool) (cands : list nat) (cm : list Z) (q : list nat) (r : bool * list Z * list nat) : Prop :=
  let '(b, cm', q') := r in
  if b then exists v, v ∈ cands /\ wanted v = true
  else exists added, q' = q ++ added /\ cm_ok n cm'
    /\ (forall v, colour cm' v = if decide (colour cm v = 0 /\ v ∈ cands) then 1 else colour cm v)
    /\ (forall v, v ∈ added -> v ∈ cands /\ discover v = true)
    /\ (forall v, v ∈ cands -> colour cm v = 0 -> wanted v = false /\ (discover v = true -> v ∈ added))
    /\ (length added + white cm' <= white cm + if check then 0 else length cands)%nat.

Lemma scanned_nil check cm q : cm_ok n cm -> scanned check [] cm q (false, cm, q).
Proof.
  intros Hcm. exists []. rewrite app_nil_r. split_and!; try done; [|by intros v []%not_elem_of_nil..|simpl; lia].
  intros v. rewrite decide_False; [done|]. intros [_ []%not_elem_of_nil].
Qed.

(** A candidate that is not white changes nothing. *)
Lemma scanned_skip v cands cm q r : colour cm v <> 0 -> scanned true cands cm q r -> scanned true (v :: cands) cm q r.
Proof.
  destruct r as [[[] cm'] q']; intros Hv.
  - intros (w & ? & ?). exists w. by split; [right|].
  - intros (added & -> & Hcm' & Hc & Ha & Hw & Hl). exists added. split_and!; try done.
    + intros u. rewrite Hc. apply decide_ext. rewrite elem_of_cons. split; [intros []; by auto|]. by intros [? [->|?]].
    + intros u Hu. destruct (Ha u Hu). by split; [right|].
    + intros u [->|Hu]%elem_of_cons Hz; [done|]. by apply Hw.
Qed.

(** A white candidate, or one of the sources, becomes grey. *)
Lemma scanned_take check v cands cm cm1 q r :
  (colour cm v = 0 \/ check = false /\ colour cm v = 1) -> (v < n)%nat -> wanted v = false ->
  (forall u, colour cm1 u = if decide (u = v) then 1 else colour cm u) ->
  scanned check cands cm1 (if discover v then q ++ [v] else q) r -> scanned check (v :: cands) cm q r.
Proof.
  destruct r as [[[] cm'] q']; intros Hz Hv Ew Hc1.
  { intros (w & ? & ?). exists w. by split; [right|]. }
  intros (added & -> & Hcm' & Hc & Ha & Hw & Hl). exists ((if discover v then [v] else []) ++ added). split_and!; try done.
  - destruct (discover v); [by rewrite <- app_assoc|done].
  - intros u. rewrite Hc, Hc1. destruct (decide (u = v)) as [->|Huv].
    + rewrite (decide_False (P := _ /\ v ∈ cands)) by (by intros [? _]). case_decide as Hd; [done|].
      destruct Hz as [Hz|[_ Hz]]; [|done]. exfalso. apply Hd. split; [done|left].
    + apply decide_ext. rewrite elem_of_cons. split; [intros []; by auto|]. by intros [? [->|?]].
  - intros u [Hu|Hu]%elem_of_app; [|destruct (Ha u Hu); by split; [right|]].
    destruct (discover v) eqn:Ed; [|by apply not_elem_of_nil in Hu]. apply list_elem_of_singleton in Hu as ->. by split; [left|].
  - intros u Hu Hz'. destruct (decide (u = v)) as [->|Huv]; [split; [done|]; intros ->; left|].
    apply elem_of_cons in Hu as [->|Hu]; [done|]. destruct (Hw u Hu) as [? Hd]; [rewrite Hc1; by rewrite decide_False|].
    split; [done|]. intros ?. apply elem_of_app. right. by apply Hd.
  - assert (white cm1 + (if check then 1 else 0) <= white cm)%nat as Hwh.
    { unfold white. assert (forall u, u ∈ seq 0 n -> (colour cm1 u =? 0) = true -> (colour cm u =? 0) = true) as Hsub.
      { intros u _. rewrite Hc1. case_decide; done. }
      destruct check; [|rewrite Nat.add_0_r; by apply filter_mono]. rewrite Nat.add_1_r.
      destruct Hz as [Hz|[? _]]; [|done]. apply (filter_drop _ _ _ v); [apply elem_of_seq; lia|by rewrite Hz| |done].
      rewrite Hc1. by rewrite decide_True. }
    rewrite length_app. destruct (discover v), check; simpl; lia.
Qed.

Lemma scan_spec check cands cm q :
  cm_ok n cm -> (forall v, v ∈ cands -> (v < n)%nat) ->
  (check = false -> forall v, colour cm v = 0 \/ colour cm v = 1) ->
  exists r, scan discover wanted check cands cm q = Some r /\ scanned check cands cm q r.
Proof.
  revert cm q. induction cands as [|v cands IH]; intros cm q Hcm Hlt Hck; simpl.
  - eexists. split; [done|]. by apply scanned_nil.
  - assert (v < n)%nat as Hv by (apply Hlt; left). assert (forall v, v ∈ cands -> (v < n)%nat) as Hlt' by (intros; apply Hlt; by right).
    rewrite (color_get_colour n) by done. cbn [mbind option_bind].
    destruct (check && negb (colour cm v =? WHITE)) eqn:Ec.
    + apply andb_true_iff in Ec as [-> Ec]. bool_hyps. destruct (IH cm q Hcm Hlt' Hck) as (r & Hr & Hs).
      exists r. split; [done|]. by apply scanned_skip.
    + destruct (color_put_fast_spec n cm v GRAY Hcm Hv) as (cm1 & -> & Hcm1 & Hc1); [done|]. cbn [mbind option_bind].
      assert (colour cm v = 0 \/ check = false /\ colour cm v = 1) as Hz.
      { destruct check; [left; simpl in Ec; bool_hyps; done|]. destruct (Hck eq_refl v); auto. }
      replace (Z.lor (colour cm v) GRAY) with 1 in Hc1 by (by destruct Hz as [-> |[_ ->]]).
      destruct (wanted v) eqn:Ew; [eexists; split; [done|]; exists v; by split; [left|]|].
      destruct (IH cm1 (if discover v then q ++ [v] else q) Hcm1 Hlt') as (r & Hr & Hs).
      { intros Hf u. rewrite Hc1. case_decide; [by right|by apply Hck]. }
      exists r. split; [done|]. by eapply scanned_take.
Qed.

(** The invariant of the loop over the queue. *)
Record bfs_inv (sources : list nat) (cm : list Z) (q : list nat) : Prop := {
  bi_cm : cm_ok n cm;
  bi_colour : forall v, colour cm v = WHITE \/ colour cm v = GRAY \/ colour cm v = BLACK /\ discover v = true;
  bi_reached : forall v, colour cm v <> WHITE -> (v < n)%nat /\ reached sources v /\ wanted v = false;
  bi_queue : forall v, v ∈ q -> colour cm v <> WHITE /\ discover v = true;
  bi_source : forall s, s ∈ sources -> colour cm s <> WHITE;
  bi_open : forall u, colour cm u <> WHITE -> discover u = true ->
    u ∈ q \/ colour cm u = BLACK /\ forall w, w ∈ next u -> colour cm w <> WHITE }.

Lemma bfs_inv_start sources cm cm' q' :
  (n <= 4 * length cm)%nat -> (forall s, s ∈ sources -> (s < n)%nat) ->
  scanned false sources (colors_init cm) [] (false, cm', q') ->
  bfs_inv sources cm' q' /\ (length q' + white cm' <= n + length sources)%nat.
Proof.
  intros Hn Hs (added & -> & Hcm' & Hc & Ha & Hw & Hl).
  assert (forall v, colour cm' v = if decide (v ∈ sources) then 1 else 0) as Hc'.
  { intros v. rewrite Hc, colour_init. apply decide_ext. naive_solver. }
  assert (forall v, colour cm' v <> WHITE -> v ∈ sources) as Hin by (intros v; rewrite Hc'; by case_decide).
  split.
  - split; [done|..].
    + intros v. rewrite Hc'. case_decide; auto.
    + intros v Hv%Hin. split; [by apply Hs|]. split; [by constructor|]. apply Hw; [done|apply colour_init].
    + intros v Hv%Ha. rewrite Hc'. destruct Hv. by rewrite decide_True.
    + intros v Hv. rewrite Hc'. by rewrite decide_True.
    + intros u Hu%Hin Hd. left. apply Hw; [done|apply colour_init|done].
  - simpl. assert (white (colors_init cm) <= n)%nat; [|lia]. unfold white.
    etransitivity; [apply filter_length_le|]. by rewrite length_seq.
Qed.

(** One turn of the loop that does not end the search. *)
Lemma bfs_inv_step sources u cm q cm1 q1 cm2 :
  bfs_inv sources cm (u :: q) -> scanned true (next u) cm q (false, cm1, q1) ->
  cm_ok n cm2 -> (forall v, colour cm2 v = if decide (v = u) then Z.lor (colour cm1 u) BLACK else colour cm1 v) ->
  bfs_inv sources cm2 q1 /\ (length q1 + white cm2 < S (length q) + white cm)%nat.
Proof.
  intros [Hcm Hcol Hre Hq Hsrc Hop] (added & -> & Hcm1 & Hc1 & Ha & Hw & Hl) Hcm2 Hc2.
  destruct (Hq u) as [Hu Hud]; [left|]. destruct (Hre u Hu) as (Hun & Hur & Huw).
  assert (forall v, colour cm v <> WHITE -> colour cm1 v = colour cm v) as Hkeep.
  { intros v Hv. rewrite Hc1. rewrite decide_False; [done|]. by intros [? _]. }
  assert (colour cm2 u = BLACK) as Hub.
  { rewrite Hc2, decide_True by done. rewrite Hkeep by done. by destruct (Hcol u) as [->|[->|[-> _]]]. }
  assert (forall v, v <> u -> colour cm2 v = if decide (colour cm v = WHITE /\ v ∈ next u) then GRAY else colour cm v) as Hc3.
  { intros v Hv. by rewrite Hc2, decide_False, Hc1. }
  assert (forall v, colour cm2 v <> WHITE <-> colour cm v <> WHITE \/ v ∈ next u) as Hnw.
  { intros v. destruct (decide (v = u)) as [->|Hv]; [rewrite Hub; naive_solver|]. rewrite Hc3 by done.
    destruct (decide (colour cm v = WHITE /\ v ∈ next u)) as [[? ?]|Hn]; [naive_solver|]. split; [by left|].
    intros [?|Hin]; [done|]. intros Hz. by apply Hn. }
  split.
  - split; [done|..].
    + intros v. destruct (decide (v = u)) as [->|Hv]; [by right; right|]. rewrite Hc3 by done. case_decide; [by auto|apply Hcol].
    + intros v Hv. destruct (decide (colour cm v = WHITE)) as [Hz|Hz]; [|by apply Hre].
      apply Hnw in Hv as [?|Hin]; [done|]. split; [by apply (next_lt u)|]. split; [by apply (reached_step _ _ _ u)|by apply Hw].
    + intros v [Hv|Hv]%elem_of_app; [destruct (Hq v); [by right|]|destruct (Ha v Hv)]; rewrite Hnw; auto.
    + intros v Hv. apply Hnw. left. by apply Hsrc.
    + intros v Hv Hd. destruct (decide (v = u)) as [->|Hvu]; [right; split; [done|]; intros w Hw'; apply Hnw; by right|].
      destruct (decide (colour cm v = WHITE)) as [Hz|Hz].
      * apply Hnw in Hv as [?|Hin]; [done|]. left. apply elem_of_app. right. by apply Hw.
      * destruct (Hop v Hz Hd) as [[?|Hin]%elem_of_cons|[Hb Hn]]; [done|left; apply elem_of_app; by left|right].
        split; [rewrite Hc3 by done; rewrite decide_False; [done|by intros [? _]]|]. intros w Hw'. apply Hnw. left. by apply Hn.
  - assert (white cm2 <= white cm1)%nat; [|rewrite length_app; lia]. apply filter_mono. intros v _. rewrite !Z.eqb_eq.
    destruct (decide (v = u)) as [->|Hv]; [by rewrite Hub|]. by rewrite Hc2, decide_False.
Qed.

Lemma bfs_loop_spec sources fuel cm q :
  bfs_inv sources cm q -> (length q + white cm < fuel)%nat ->
  match bfs_loop discover wanted fuel next cm q with
  | Found _ => exists v, reached sources v /\ wanted v = true
  | Done cm' => bfs_inv sources cm' []
  | Stuck => False
  end.
Proof.
  revert cm q. induction fuel as [|fuel IH]; intros cm q Hinv Hf; [lia|]. cbn [bfs_loop].
  destruct q as [|u q]; [done|]. pose proof (bi_queue _ _ _ Hinv u ltac:(left)) as [Hu Hud].
  destruct (bi_reached _ _ _ Hinv u Hu) as (Hun & Hur & _). pose proof (bi_cm _ _ _ Hinv) as Hcm.
  destruct (scan_spec true (next u) cm q Hcm) as ([[b cm1] q1] & -> & Hs); [intros v; by apply next_lt|done|].
  destruct b; [destruct Hs as (v & Hv & Hwv); exists v; split; [by apply (reached_step _ _ _ u)|done]|].
  pose proof Hs as (_ & _ & Hcm1 & _).
  destruct (color_put_fast_spec n cm1 u BLACK Hcm1 Hun) as (cm2 & -> & Hcm2 & Hc2); [done|].
  destruct (bfs_inv_step _ _ _ _ _ _ _ Hinv Hs Hcm2 Hc2) as [Hinv2 Hm]. apply IH; [done|]. simpl in Hf. lia.
Qed.

(** With an empty queue the colours are exact. *)
Lemma bfs_inv_end sources cm v :
  bfs_inv sources cm [] ->
  (colour cm v = BLACK <-> reached sources v /\ discover v = true)
  /\ (colour cm v = GRAY <-> reached sources v /\ discover v = false)
  /\ (reached sources v -> (v < n)%nat /\ wanted v = false).
Proof.
  intros [Hcm Hcol Hre Hq Hsrc Hop].
  assert (forall u, colour cm u <> WHITE -> discover u = true -> colour cm u = BLACK /\ forall w, w ∈ next u -> colour cm w <> WHITE) as Hcl.
  { intros u Hu Hd. destruct (Hop u Hu Hd) as [[]%not_elem_of_nil|?]; done. }
  assert (forall u, reached sources u -> colour cm u <> WHITE) as Hall.
  { induction 1 as [s Hs|u w _ IH Hd Hw]; [by apply Hsrc|]. by apply (Hcl u). }
  split_and!.
  - split.
    + intros Hb. split; [apply Hre; by rewrite Hb|]. destruct (Hcol v) as [E|[E|[_ ?]]]; try done; by rewrite Hb in E.
    + intros [Hr Hd]. by apply Hcl; [apply Hall|].
  - split.
    + intros Hb. split; [apply Hre; by rewrite Hb|]. destruct (discover v) eqn:Hd; [|done].
      destruct (Hcl v) as [E _]; [by rewrite Hb|done|]. by rewrite Hb in E.
    + intros [Hr Hd]. destruct (Hcol v) as [E|[E|[_ ?]]]; [by apply Hall in E|done|congruence].
  - intros Hr. destruct (Hre v (Hall v Hr)) as (? & _ & ?). done.
Qed.

Lemma bfs_exact sources fuel cm :
  (n <= 4 * length cm)%nat -> (forall s, s ∈ sources -> (s < n)%nat) -> (n + length sources < fuel)%nat ->
  search_exact discover wanted (fun u v => v ∈ next u) n sources (bfs discover wanted fuel next sources cm).
Proof.
  intros Hn Hs Hf. unfold bfs.
  destruct (scan_spec false sources (colors_init cm) []) as ([[b cm1] q1] & -> & Hsc);
    [by apply colors_init_ok|done|by intros _ v; rewrite colour_init; left|].
  destruct b; [destruct Hsc as (v & ? & ?); exists v; by split; [constructor|]|].
  destruct (bfs_inv_start _ _ _ _ Hn Hs Hsc) as [Hinv Hm].
  pose proof (bfs_loop_spec sources fuel cm1 q1 Hinv ltac:(lia)) as H.
  destruct (bfs_loop _ _ _ _ _ _); [done| |done]. split; [by apply (bi_cm _ _ _ H)|]. intros v. by apply bfs_inv_end.
Qed.

End Bfs.

(** ** The searches on a graph *)

Section GraphSearch.
Context {VP EP : Type} `{EqDecision EP}.
Implicit Types (g : graph VP EP) (vis : visitor EP).

(** An edge that a search follows from [u] to [v]. *)
Definition follows_forward g vis (u v : nat) : Prop :=
  exists e, has_edge g e /\ examine_forwards_edge vis e = true /\ source e = u /\ target e = v.
Definition follows_twoway g vis (u v : nat) : Prop :=
  follows_forward g vis u v
  \/ exists e, has_edge g e /\ examine_backwards_edge vis e = true /\ target e = u /\ source e = v.

Lemma elem_map_filter {A B} (f : A -> B) (p : A -> bool) l y :
  y ∈ map f (List.filter p l) <-> exists x, x ∈ l /\ p x = true /\ f x = y.
Proof.
  rewrite list_elem_of_In, in_map_iff.
  split; intros (x & H1 & H2); exists x; [apply filter_In in H2|rewrite filter_In]; rewrite <- list_elem_of_In in *; naive_solver.
Qed.

Lemma next_forward_spec g vis u v : graph_ok g -> v ∈ next_forward g vis u <-> follows_forward g vis u v.
Proof.
  intros Hok. pose proof (go_lists _ Hok) as L. unfold next_forward, follows_forward, has_edge. rewrite elem_map_filter.
  split; intros (e & He & Hx & Ht).
  - exists e. pose proof (lo_out_source _ L u e He) as <-. done.
  - destruct Ht as [<- <-]. by exists e.
Qed.

Lemma next_twoway_spec g vis u v : graph_ok g -> v ∈ next_twoway g vis u <-> follows_twoway g vis u v.
Proof.
  intros Hok. pose proof (go_lists _ Hok) as L. unfold next_twoway, follows_twoway.
  rewrite elem_of_app, next_forward_spec, elem_map_filter by done. rewrite (Logic.or_comm _ (follows_forward g vis u v)). apply Logic.or_iff_compat_l. unfold has_edge.
  split; intros (e & He & Hx & Ht).
  - exists e. pose proof (lo_in_target _ L u e He) as <-. split; [by apply (lo_mirror _ L)|done].
  - destruct Ht as [<- <-]. exists e. split; [by apply (lo_mirror _ L)|done].
Qed.

Lemma live_lt g v : live g v -> (v < capacity g)%nat.
Proof. intros (x & Hx & _). by eapply lookup_lt_Some. Qed.

Lemma follows_lt g vis u v : graph_ok g -> follows_twoway g vis u v -> (v < capacity g)%nat.
Proof.
  intros Hok [(e & He & _ & _ & <-)|(e & He & _ & _ & <-)]; apply live_lt; by apply (edge_ends_live g e (go_lists _ Hok)).
Qed.

(** A search over [next] on a graph, in terms of the edges it follows. *)
Lemma bfs_graph g vis (wanted : nat -> bool) next adj sources cm :
  graph_ok g -> (forall u v, v ∈ next u <-> adj u v) -> (forall u v, adj u v -> follows_twoway g vis u v) ->
  (capacity g <= 4 * length cm)%nat -> (forall s, s ∈ sources -> (s < capacity g)%nat) ->
  search_exact (discover_vertex vis) wanted adj (capacity g) sources
    (bfs (discover_vertex vis) wanted (S (capacity g + length sources)) next sources cm).
Proof.
  intros Hok Hn Ha Hc Hs.
  pose proof (bfs_exact (discover_vertex vis) wanted next (capacity g)) as H. specialize (H ltac:(intros u v _ Hv;
    apply (follows_lt g vis u v Hok), Ha, Hn, Hv) sources (S (capacity g + length sources)) cm Hc Hs ltac:(lia)).
  unfold search_exact in *. destruct (bfs _ _ _ _ _ _); [|destruct H as [Hcm H]; split; [done|]|done].
  - destruct H as (v & Hr & Hw). exists v. split; [|done]. eapply reached_ext; [|done]. intros; symmetry; apply Hn.
  - intros v. rewrite <- !(reached_ext _ (fun u v => v ∈ next u) adj) by done. apply H.
Qed.

(** C18: breadth-first search is exact: on a consistent graph, with a colour
    map that has room for its vertices, both searches terminate; the two-way
    search returns true exactly when a wanted vertex can be reached, and
    otherwise, like the forward search, leaves black the vertices that were
    reached and discovered, grey those reached but not discovered, and white
    all others. *)
Theorem breadth_first_search_exact (g : graph VP EP) (vis : visitor EP) (sources : list nat) (cm : list Z) :
  graph_ok g -> sources <> [] -> (capacity g <= 4 * length cm)%nat -> (forall s, s ∈ sources -> (s < capacity g)%nat) ->
  let fuel := S (capacity g + length sources) in
  search_exact (discover_vertex vis) (is_wanted_vertex vis) (follows_twoway g vis) (capacity g) sources
    (breadth_first_search_twoway fuel g vis sources cm)
  /\ search_exact (discover_vertex vis) (fun _ => false) (follows_forward g vis) (capacity g) sources
    (breadth_first_search_forward fuel g vis sources cm).
Proof.
  intros Hok Hne Hc Hs fuel. split.
  - assert (breadth_first_search_twoway fuel g vis sources cm
      = bfs (discover_vertex vis) (is_wanted_vertex vis) fuel (next_twoway g vis) sources cm) as -> by (by destruct sources).
    apply (bfs_graph g vis); try done. intros u v. by apply next_twoway_spec.
  - assert (breadth_first_search_forward fuel g vis sources cm
      = bfs (discover_vertex vis) (fun _ => false) fuel (next_forward g vis) sources cm) as -> by (by destruct sources).
    apply (bfs_graph g vis); try done; [intros u v; by apply next_forward_spec|by left].
Qed.

End GraphSearch.

Definition all_visitor : visitor nat := mkVisitor (fun _ => true) (fun v => (v =? 0)%nat) (fun _ => true) (fun _ => true).

Lemma breadth_first_search_exact_witness :
  let cm := colors_new (capacity two_vertices) in
  breadth_first_search_twoway 4 two_vertices all_visitor [1%nat] cm
    = Found (<[0%nat := 5]> cm)
  /\ search_exact (fun _ => true) (fun v => (v =? 0)%nat) (follows_twoway two_vertices all_visitor) 2 [1%nat]
       (breadth_first_search_twoway 4 two_vertices all_visitor [1%nat] cm).
Proof.
  intros cm. split; [vm_compute; reflexivity|].
  apply (breadth_first_search_exact two_vertices all_visitor [1%nat] cm); [exact two_vertices_ok|done|vm_compute; lia|].
  intros s ->%list_elem_of_singleton. vm_compute. lia.
Defined.

(** ** Bottom-up traversal *)

Section BottomUp.
Context {VP EP : Type} `{EqDecision EP} (g : graph VP EP).

Definition count {A} (P : A -> Prop) `{forall x, Decision (P x)} (l : list A) : nat := length (filter P l).

Lemma count_cons {A} (P : A -> Prop) `{forall x, Decision (P x)} x l :
  count P (x :: l) = ((if decide (P x) then 1 else 0) + count P l)%nat.
Proof. unfold count. rewrite filter_cons. by case_decide. Qed.

Definition from (u : nat) (es : list (edge EP)) : nat := count (fun e => source e = u) es.
Definition degree (u : nat) : nat := length (out_edges g u).

(** The loop over the in-edges: every source is resolved once per edge, and a
    source is queued when that was its last one. *)
Lemma resolve_spec es res q :
  (forall e, e ∈ es -> is_Some (res !! source e)) ->
  (forall u, (0 < from u es)%nat -> Z.of_nat (from u es) + default 0 (res !! u) <= Z.of_nat (degree u)) ->
  exists res' new, resolve g es res q = Some (res', q ++ new)
    /\ (forall u, res' !! u = (fun x => x + Z.of_nat (from u es)) <$> res !! u)
    /\ NoDup new
    /\ (forall u, u ∈ new <-> (0 < from u es)%nat /\ default 0 (res !! u) + Z.of_nat (from u es) = Z.of_nat (degree u)).
Proof.
  revert res q. induction es as [|e es IH]; intros res q Hin Hle; cbn [resolve].
  - exists res, []. rewrite app_nil_r. split_and!; [done| |constructor|].
    + intros u. destruct (res !! u); [|done]. change (from u []) with 0%nat. simpl. f_equal. lia.
    + intros u. split; [intros []%not_elem_of_nil|]. unfold from, count. simpl. lia.
  - destruct (Hin e ltac:(left)) as [x Hx]. rewrite Hx. cbn [mbind option_bind]. set (u0 := source e) in *.
    assert (forall u, from u (e :: es) = ((if decide (u0 = u) then 1 else 0) + from u es)%nat) as Hfr by (intros u; unfold from; by rewrite count_cons).
    assert (forall u, <[u0 := x + 1]> res !! u = if decide (u0 = u) then Some (x + 1) else res !! u) as Hlk.
    { intros u. case_decide as Hu; [subst u; apply list_lookup_insert_eq; by eapply lookup_lt_Some|by apply list_lookup_insert_ne]. }
    destruct (IH (<[u0 := x + 1]> res) (if x + 1 =? Z.of_nat (degree u0) then q ++ [u0] else q)) as (res' & new & Heq & Hres & Hnd & Hnew).
    { intros e' He'. rewrite Hlk. case_decide; [done|]. apply Hin. by right. }
    { intros u Hpos. specialize (Hle u). rewrite Hfr in Hle. rewrite Hlk. case_decide as Hu; [subst u; rewrite Hx in Hle|]; simpl in *; lia. }
    fold (degree u0). rewrite Heq.
    exists res', ((if x + 1 =? Z.of_nat (degree u0) then [u0] else []) ++ new).
    assert (u0 ∈ new <-> (0 < from u0 es)%nat /\ x + 1 + Z.of_nat (from u0 es) = Z.of_nat (degree u0)) as Hnew0.
    { rewrite Hnew, Hlk, decide_True by done. done. }
    assert (Z.of_nat (from u0 es) + 1 + x <= Z.of_nat (degree u0)) as Hle0.
    { specialize (Hle u0). rewrite Hfr, decide_True, Hx in Hle by done. simpl in Hle. lia. } split_and!.
    + destruct (x + 1 =? Z.of_nat (degree u0)); [by rewrite <- app_assoc|done].
    + intros u. rewrite Hres, Hlk, Hfr. case_decide as Hu; [subst u; rewrite Hx; simpl; f_equal; lia|done].
    + destruct (Z.eqb_spec (x + 1) (Z.of_nat (degree u0))); [|done]. apply list.NoDup_cons. split; [|done].
      rewrite Hnew0. lia.
    + intros u. rewrite elem_of_app, Hfr. destruct (decide (u0 = u)) as [<-|Hu].
      * rewrite Hnew0, Hx. simpl. destruct (Z.eqb_spec (x + 1) (Z.of_nat (degree u0))) as [E|E].
        -- rewrite list_elem_of_singleton. split; [lia|]. by left.
        -- split; [intros [[]%not_elem_of_nil|?]; lia|]. intros. right. lia.
      * rewrite Hnew, Hlk, decide_False by done. destruct (_ =? _); rewrite ?list_elem_of_singleton;
          (split; [intros [He|?]; [|done]|by right]); [congruence|by apply not_elem_of_nil in He].
Qed.

Context (Hok : graph_ok g).

(** The out-edges of [u] that lead into [D]. *)
Definition into (D : list nat) (u : nat) : nat := count (fun e => target e ∈ D) (out_edges g u).

Record bu_inv (D : list nat) (res : list Z) (q : list nat) : Prop := {
  bu_res : forall u, (u < capacity g)%nat -> res !! u = Some (Z.of_nat (into D u));
  bu_nodup : NoDup (D ++ q);
  bu_ready : forall u, u ∈ D ++ q <-> (u < capacity g)%nat /\ forall e, e ∈ out_edges g u -> target e ∈ D;
  bu_order : forall D1 v D2, D = D1 ++ v :: D2 -> forall e, e ∈ out_edges g v -> target e ∈ D1 }.

(** The edges into [v] from [u], seen from both ends. *)
Lemma from_in_edges u v : from u (in_edges g v) = count (fun e => target e = v) (out_edges g u).
Proof.
  destruct (go_lists _ Hok) as [Ho Hi Hs Ht _ Hm]. apply Permutation_length, NoDup_Permutation.
  - apply list.NoDup_filter, Hi.
  - apply list.NoDup_filter, Ho.
  - intros e. rewrite !list_elem_of_filter. split.
    + intros [<- He]. pose proof (Ht v e He) as <-. split; [done|]. by apply Hm.
    + intros [<- He]. pose proof (Hs u e He) as <-. split; [done|]. by apply Hm.
Qed.

Lemma count_split {A} (P Q R : A -> Prop) `{forall x, Decision (P x), forall x, Decision (Q x), forall x, Decision (R x)} l :
  (forall x, x ∈ l -> P x <-> Q x \/ R x) -> (forall x, x ∈ l -> ~ (Q x /\ R x)) -> count P l = (count Q l + count R l)%nat.
Proof.
  induction l as [|x l IH]; intros Hi Hd; [done|]. rewrite !count_cons, IH; [|intros; apply Hi; by right|intros; apply Hd; by right].
  pose proof (Hi x ltac:(left)). pose proof (Hd x ltac:(left)). repeat case_decide; first [lia|exfalso; naive_solver].
Qed.

Lemma into_snoc D v u : v ∉ D -> into (D ++ [v]) u = (into D u + from u (in_edges g v))%nat.
Proof.
  intros Hv. rewrite from_in_edges. apply count_split.
  - intros e _. by rewrite elem_of_app, list_elem_of_singleton.
  - intros e _ [Hd E]. by rewrite E in Hd.
Qed.

Lemma into_le D u : (into D u <= degree u)%nat.
Proof. apply length_filter. Qed.

Lemma into_full D u : into D u = degree u <-> forall e, e ∈ out_edges g u -> target e ∈ D.
Proof.
  unfold into, degree, count. induction (out_edges g u) as [|e l IH]; [by split; [intros _ e []%not_elem_of_nil|]|].
  rewrite filter_cons. pose proof (length_filter (fun e : edge EP => target e ∈ D) l). case_decide as He; simpl.
  - rewrite Nat.succ_inj_wd, IH. setoid_rewrite elem_of_cons. naive_solver.
  - split; [lia|]. intros H'. exfalso. apply He, H'. left.
Qed.

Lemma out_edge_lt u e : e ∈ out_edges g u -> (u < capacity g)%nat.
Proof.
  intros He. pose proof (lo_out_source _ (go_lists _ Hok) u e He) as <-. apply live_lt.
  by apply (edge_ends_live g e (go_lists _ Hok)).
Qed.

Lemma in_edge_source v e : e ∈ in_edges g v -> e ∈ out_edges g (source e).
Proof.
  intros He. apply (lo_mirror _ (go_lists _ Hok)). by rewrite (lo_in_target _ (go_lists _ Hok) v e He).
Qed.

Lemma from_pos u v : (0 < from u (in_edges g v))%nat -> exists e, e ∈ out_edges g u /\ target e = v.
Proof.
  rewrite from_in_edges. unfold count. intros Hpos.
  destruct (filter _ _) as [|e l] eqn:E; simpl in Hpos; [lia|]. exists e.
  assert (e ∈ filter (fun e => target e = v) (out_edges g u)) as He by (rewrite E; left).
  apply list_elem_of_filter in He. tauto.
Qed.

Lemma bu_step D res v q :
  bu_inv D res (v :: q) ->
  exists res' q', resolve g (in_edges g v) res q = Some (res', q') /\ bu_inv (D ++ [v]) res' q'.
Proof.
  intros [Hres Hnd Hrdy Hord].
  assert (v ∉ D) as HvD by (apply list.NoDup_app in Hnd as (_ & Hd & _); intros HD; apply (Hd v HD); left).
  pose proof (fun u => into_snoc D v u HvD) as Hsn. pose proof (fun u => into_le (D ++ [v]) u) as Hle.
  assert (forall u, (0 < from u (in_edges g v))%nat -> res !! u = Some (Z.of_nat (into D u))) as Hpos.
  { intros u (e & He & _)%from_pos. by apply Hres, (out_edge_lt u e). }
  destruct (resolve_spec (in_edges g v) res q) as (res' & new & E & Hres' & Hnnd & Hnew).
  { intros e He. rewrite Hres; [done|]. by apply (out_edge_lt (source e) e), (in_edge_source v). }
  { intros u Hu. specialize (Hle u). rewrite Hsn in Hle. rewrite Hpos by done. simpl. lia. }
  assert (forall u, u ∈ new <-> (0 < from u (in_edges g v))%nat /\ into (D ++ [v]) u = degree u) as Hnew'.
  { intros u. rewrite Hnew, Hsn. split; intros [Hu H]; (split; [done|]); rewrite Hpos in * by done; simpl in *; lia. }
  exists res', (q ++ new). split; [done|]. rewrite cons_middle, app_assoc in Hnd, Hrdy. split.
  - intros u Hu. rewrite Hres', Hres, Hsn by done. simpl. f_equal. lia.
  - rewrite app_assoc. apply list.NoDup_app. split; [done|]. split; [|done]. intros u Hu [Hf Hn]%Hnew'.
    apply Hrdy in Hu as [_ Hu]. apply into_full in Hu. specialize (Hle u). specialize (Hsn u). lia.
  - intros u. rewrite app_assoc, elem_of_app, Hrdy, Hnew', into_full. split.
    + intros [[Hu He]|[Hf He]]; [|split; [|done]; apply from_pos in Hf as (e & ? & _); by apply (out_edge_lt u e)].
      split; [done|]. intros e Hin. apply elem_of_app. left. by apply He.
    + intros [Hu He]. destruct (decide (into D u = degree u)) as [Hd|Hd]; [left; by rewrite <- into_full|right].
      split; [|done]. apply into_full in He. specialize (Hsn u). specialize (Hle u). pose proof (into_le D u). lia.
  - intros D1 w D2 HD e He. destruct (decide (D2 = [])) as [->|HD2].
    + apply app_inj_tail in HD as [-> <-]. specialize (Hrdy v). rewrite !elem_of_app, list_elem_of_singleton in Hrdy.
      destruct Hrdy as [Hr _]. by apply Hr; [left; right|].
    + destruct (exists_last HD2) as (D3 & y & ->). rewrite app_comm_cons, app_assoc in HD.
      apply app_inj_tail in HD as [HD _]. by apply (Hord D1 w D3).
Qed.

Lemma bu_length D res q : bu_inv D res q -> (length D + length q <= capacity g)%nat.
Proof.
  intros [_ Hnd Hr _]. rewrite <- length_app. transitivity (length (seq 0 (capacity g))); [|by rewrite length_seq].
  apply submseteq_length, NoDup_submseteq; [done|].
  intros u [Hu _]%Hr. apply elem_of_seq. lia.
Qed.

Lemma bottom_up_loop_spec fuel D res q :
  bu_inv D res q -> (capacity g - length D < fuel)%nat ->
  exists l res', bottom_up_loop fuel g res q = Some l /\ bu_inv (D ++ l) res' [].
Proof.
  revert D res q. induction fuel as [|fuel IH]; intros D res q Hinv Hf; [lia|]. cbn [bottom_up_loop].
  destruct q as [|v q]; [exists [], res; by rewrite app_nil_r|].
  destruct (bu_step _ _ _ _ Hinv) as (res1 & q1 & -> & Hinv1). cbn [mbind option_bind].
  pose proof (bu_length _ _ _ Hinv) as Hlen. simpl in Hlen.
  destruct (IH _ _ _ Hinv1) as (l & res' & -> & Hinv'); [rewrite length_app; simpl; lia|].
  exists (v :: l), res'. split; [done|]. by rewrite cons_middle, app_assoc.
Qed.

Lemma bu_start :
  bu_inv [] (replicate (S (capacity g)) 0) (List.filter (fun v => (length (out_edges g v) =? 0)%nat) (seq 0 (capacity g))).
Proof.
  split.
  - intros u Hu. rewrite lookup_replicate_2 by lia. f_equal. unfold into, count.
    replace (filter _ _) with (@nil (edge EP)); [done|]. symmetry. apply elem_of_nil_inv. intros e [[]%not_elem_of_nil _]%list_elem_of_filter.
  - apply base.NoDup_ListNoDup, List.NoDup_filter, seq_NoDup.
  - intros u. rewrite app_nil_l, list_elem_of_In, filter_In, in_seq, Nat.eqb_eq, length_zero_iff_nil. split.
    + intros [Hu ->]. split; [lia|]. by intros e []%not_elem_of_nil.
    + intros [Hu He]. split; [lia|]. apply elem_of_nil_inv. intros e Hin%He. by apply not_elem_of_nil in Hin.
  - intros D1 v D2 HD. by destruct D1.
Qed.

(** [w] is a successor of [u]. *)
Definition successor (w u : nat) : Prop := exists e, has_edge g e /\ source e = u /\ target e = w.

Lemma successor_out w u : successor w u <-> exists e, e ∈ out_edges g u /\ target e = w.
Proof.
  unfold successor, has_edge. split; intros (e & He & Ht).
  - destruct Ht as [<- <-]. by exists e.
  - exists e. pose proof (lo_out_source _ (go_lists _ Hok) u e He) as <-. done.
Qed.

(** A visited vertex starts no infinite walk, and only those that do are left out. *)
Lemma bu_acc D res v : bu_inv D res [] -> v ∈ D <-> (v < capacity g)%nat /\ Acc successor v.
Proof.
  intros [_ _ Hr Hord]. rewrite app_nil_r in Hr. split.
  - intros Hv. split; [by apply Hr|].
    assert (forall m D1 v D2, D = D1 ++ v :: D2 -> (length D1 < m)%nat -> Acc successor v) as Hm.
    { induction m as [|m IH]; intros D1 w D2 HD Hlt; [lia|]. constructor. intros w' (e & He & <-)%successor_out.
      apply (Hord D1 w D2 HD) in He. apply list_elem_of_split in He as (D3 & D4 & ->).
      apply (IH D3 _ (D4 ++ w :: D2)); [by rewrite HD, <- app_assoc|]. rewrite length_app in Hlt. simpl in Hlt. lia. }
    apply list_elem_of_split in Hv as (D1 & D2 & HD). apply (Hm (S (length D1)) D1 v D2); [done|lia].
  - intros [Hv Hacc]. induction Hacc as [v _ IH]. apply Hr. split; [done|]. intros e He. apply IH.
    + by apply successor_out; exists e.
    + pose proof (lo_out_source _ (go_lists _ Hok) v e He) as <-. apply live_lt. by apply (edge_ends_live g e (go_lists _ Hok)).
Qed.

End BottomUp.

Lemma bottom_up_run {VP EP : Type} `{EqDecision EP} (g : graph VP EP) :
  graph_ok g ->
  exists order, bottom_up_traversal (S (capacity g)) g = Some order
    /\ NoDup order
    /\ (forall before v after, order = before ++ v :: after -> forall w, successor g w v -> w ∈ before)
    /\ (forall v, v ∈ order <-> (v < capacity g)%nat /\ Acc (successor g) v).
Proof.
  intros Hok. destruct (bottom_up_loop_spec g Hok (S (capacity g)) [] _ _ (bu_start g)) as (order & res & E & Hinv);
    [simpl; lia|]. exists order. split; [done|]. rewrite app_nil_l in Hinv. split_and!.
  - pose proof (bu_nodup _ _ _ _ Hinv) as H. by rewrite app_nil_r in H.
  - intros before v after HD w (e & He & <-)%(successor_out g Hok). by apply (bu_order _ _ _ _ Hinv before v after).
  - intros v. by apply (bu_acc g Hok order res).
Qed.

(** C30: the bottom-up traversal of a consistent graph terminates within one
    turn per vertex; it visits no vertex twice, a vertex only after all
    vertices that its edges lead to, and exactly the vertices from which no
    cycle can be reached, hence all vertices of an acyclic graph. *)
Theorem bottom_up_traversal_exact {VP EP : Type} `{EqDecision EP} (g : graph VP EP) :
  graph_ok g ->
  exists order, bottom_up_traversal (S (capacity g)) g = Some order
    /\ NoDup order
    /\ (forall before v after, order = before ++ v :: after -> forall w, successor g w v -> w ∈ before)
    /\ (forall v, v ∈ order <-> (v < capacity g)%nat /\ Acc (successor g) v).
Proof. apply bottom_up_run. Qed.

Lemma bottom_up_traversal_exact_witness :
  bottom_up_traversal 3 two_vertices = Some [1%nat; 0%nat]
  /\ exists order, bottom_up_traversal (S (capacity two_vertices)) two_vertices = Some order /\ NoDup order
    /\ (forall before v after, order = before ++ v :: after -> forall w, successor two_vertices w v -> w ∈ before)
    /\ (forall v, v ∈ order <-> (v < capacity two_vertices)%nat /\ Acc (successor two_vertices) v).
Proof.
  split; [vm_compute; reflexivity|]. apply bottom_up_traversal_exact. exact two_vertices_ok.
Defined.
