(* ===== verification/Scc.v ===== *)
(** * Strongly connected components in the linker

    [AbstractMap] ([src/cali-linker/graph/abstract_map.h]), the depth-first
    search of [algorithms.h] and Tarjan's algorithm of [scc_algorithms.h] on
    top of it.

    A visitor keeps a state [T]; the two callbacks that the components use,
    [discover_vertex] and [finish_vertex], are functions on it, and the others
    do nothing.  [None]: an index outside a map, an empty [std::stack], or no
    fuel left. *)

From S2P Require Import Prelude Graph.

(** ** [AbstractMap]: one value per vertex, and one more *)

Definition amap_new {A} (capacity : nat) (x : A) : list A := replicate (S capacity) x.
Definition amap_put {A} (v : nat) (x : A) (l : list A) : option (list A) :=
  if (v <? length l)%nat then Some (<[v := x]> l) else None.
Definition amap_get {A} (v : nat) (l : list A) : option A := l !! v.

(** ** Depth-first search *)

Section Dfs.
Context {VP EP T : Type} (g : graph VP EP).
Context (discover_vertex finish_vertex : nat -> T -> option T).

(** The two loops of [depth_first_visit_impl]: [u] and its edges not yet
    examined are the context, [stack] the contexts to come back to.  One unit
    of fuel per edge and per finished vertex. *)
Fixpoint dfs_loop (fuel : nat) (u : nat) (es : list (edge EP)) (stack : list (nat * list (edge EP)))
    (color : list Z) (t : T) : option (list Z * T) :=
  match fuel with
  | O => None
  | S k =>
      match es with
      | e :: es =>
          let v := target e in
          v_color ← color_get v color;
          if v_color =? WHITE then
            color ← color_put_fast v GRAY color;
            t ← discover_vertex v t;
            dfs_loop k v (out_edges g v) ((u, es) :: stack) color t
          else dfs_loop k u es stack color t
      | [] =>
          color ← color_put_fast u BLACK color;
          t ← finish_vertex u t;
          match stack with
          | [] => Some (color, t)
          | (u, es) :: stack => dfs_loop k u es stack color t
          end
      end
  end.

Definition depth_first_visit_impl (fuel : nat) (u : nat) (color : list Z) (t : T) : option (list Z * T) :=
  color ← color_put_fast u GRAY color;
  t ← discover_vertex u t;
  dfs_loop fuel u (out_edges g u) [] color t.

(** [for (auto u: graph.vertex_set ())]: the vertices that are still white. *)
Fixpoint dfs_vertices (fuel : nat) (vs : list nat) (color : list Z) (t : T) : option (list Z * T) :=
  match vs with
  | [] => Some (color, t)
  | u :: vs =>
      c ← color_get u color;
      if c =? WHITE then
        '(color, t) ← depth_first_visit_impl fuel u color t;
        dfs_vertices fuel vs color t
      else dfs_vertices fuel vs color t
  end.

Definition get_default_starting_vertex : option nat := if g_size g =? 0 then None else Some 0%nat.

(** [source]: [None] is [null_vertex]. *)
Definition depth_first_search (fuel : nat) (source : option nat) (color : list Z) (t : T) : option (list Z * T) :=
  let color := colors_init color in
  let vs := seq 0 (capacity g) in
  match source with
  | Some s =>
      if decide (get_default_starting_vertex = Some s) then dfs_vertices fuel vs color t
      else
        '(color, t) ← depth_first_visit_impl fuel s color t;
        dfs_vertices fuel vs color t
  | None => dfs_vertices fuel vs color t
  end.

End Dfs.

(** ** Tarjan's algorithm *)

Definition LONG_MAX : Z := 9223372036854775807.
Definition null_vertex : Z := 18446744073709551615.

(** The maps of [tarjan_scc_visitor]; [s] has its top first. *)
Record tarjan := mkTarjan {
  comp : list Z; c_total : Z; root : list Z; discover_time : list Z; dfs_time : Z; scc_stack : list nat }.

Definition tarjan_discover (v : nat) (t : tarjan) : option tarjan :=
  root ← amap_put v (Z.of_nat v) (root t);
  comp ← amap_put v LONG_MAX (comp t);
  dt ← amap_put v (dfs_time t) (discover_time t);
  Some (mkTarjan comp (c_total t) root dt (s64 (dfs_time t + 1)) (v :: scc_stack t)).

Definition min_discover_time (dt : list Z) (u v : Z) : option Z :=
  du ← amap_get (Z.to_nat u) dt;
  dv ← amap_get (Z.to_nat v) dt;
  Some (if du <? dv then u else v).

(** The loop over the out-edges of [v]: the new [root]. *)
Fixpoint tarjan_roots (v : nat) (ws : list nat) (comp dt root : list Z) : option (list Z) :=
  match ws with
  | [] => Some root
  | w :: ws =>
      c ← amap_get w comp;
      if c =? LONG_MAX then
        rv ← amap_get v root;
        rw ← amap_get w root;
        r ← min_discover_time dt rv rw;
        root ← amap_put v r root;
        tarjan_roots v ws comp dt root
      else tarjan_roots v ws comp dt root
  end.

(** [do { w = s.top (); s.pop (); ... } while (w != v);] *)
Fixpoint pop_component (v : nat) (c : Z) (s : list nat) (comp root : list Z) : option (list nat * list Z * list Z) :=
  match s with
  | [] => None
  | w :: s =>
      comp ← amap_put w c comp;
      root ← amap_put w (Z.of_nat v) root;
      if decide (w = v) then Some (s, comp, root) else pop_component v c s comp root
  end.

Section Scc.
Context {VP EP : Type}.

Definition tarjan_finish (g : graph VP EP) (v : nat) (t : tarjan) : option tarjan :=
  root ← tarjan_roots v (map target (out_edges g v)) (comp t) (discover_time t) (root t);
  r ← amap_get v root;
  if r =? Z.of_nat v then
    '(s, comp, root) ← pop_component v (c_total t) (scc_stack t) (comp t) root;
    Some (mkTarjan comp (s64 (c_total t + 1)) root (discover_time t) (dfs_time t) s)
  else Some (mkTarjan (comp t) (c_total t) root (discover_time t) (dfs_time t) (scc_stack t)).

(** The number of components, and the map that was given. *)
Definition strong_components (fuel : nat) (g : graph VP EP) (comp0 : list Z) : option (Z * list Z) :=
  '(_, t) ← depth_first_search g tarjan_discover (tarjan_finish g) fuel None (colors_new (capacity g))
    (mkTarjan comp0 0 (amap_new (capacity g) null_vertex) (amap_new (capacity g) 0) 0 []);
  Some (c_total t, comp t).

End Scc.

(** ** The graph of components *)

Section SccGraph.
Context {VP EP E2 : Type} `{EqDecision E2} (e0 : E2).

(** [outGraph[v2].push_back (v1)] *)
Definition push_member (v2 v1 : nat) (out : graph (list nat) E2) : option (graph (list nat) E2) :=
  upd_vertex v2 (fun x => mkVertex (v_out x) (v_in x) (v_property x ++ [v1]) (v_empty x)) out.

(** [for (long i = 0; i < size; i++) outGraph.add_vertex ({});] *)
Fixpoint add_components (size : nat) (out : graph (list nat) E2) : option (graph (list nat) E2) :=
  match size with
  | O => Some out
  | S k => '(_, out) ← add_vertex [] out; add_components k out
  end.

(** The loop over the out-edges of a vertex of component [v2]. *)
Fixpoint add_component_edges (comp : list Z) (v2 : Z) (es : list (edge EP)) (out : graph (list nat) E2)
  : option (graph (list nat) E2) :=
  match es with
  | [] => Some out
  | e :: es =>
      target2 ← amap_get (target e) comp;
      if v2 =? target2 then add_component_edges comp v2 es out
      else
        out ← add_edge (Z.to_nat v2) (Z.to_nat target2) e0 out;
        add_component_edges comp v2 es out
  end.

Fixpoint fill_components (inGraph : graph VP EP) (comp : list Z) (vs : list nat) (out : graph (list nat) E2)
  : option (graph (list nat) E2) :=
  match vs with
  | [] => Some out
  | v1 :: vs =>
      v2 ← amap_get v1 comp;
      out ← push_member (Z.to_nat v2) v1 out;
      out ← add_component_edges comp v2 (out_edges inGraph v1) out;
      fill_components inGraph comp vs out
  end.

Definition strong_components_graph (fuel : nat) (inGraph : graph VP EP) (out : graph (list nat) E2)
  : option (Z * graph (list nat) E2) :=
  '(size, comp) ← strong_components fuel inGraph (amap_new (capacity inGraph) 0);
  out ← add_components (Z.to_nat size) out;
  out ← fill_components inGraph comp (seq 0 (capacity inGraph)) out;
  Some (size, out).

(** What [DataDrivenSCCPass] keeps: the members of the components in the order
    of the bottom-up traversal. *)
Definition data_sccs (fuel : nat) (inGraph : graph VP EP) : option (list (list nat)) :=
  '(_, out) ← strong_components_graph fuel inGraph empty_graph;
  order ← bottom_up_traversal (S (capacity out)) out;
  Some (map (fun v => default [] (v_property <$> vertices out !! v)) order).

End SccGraph.
