(* ===== verification/Tarjan.v ===== *)
(** * The invariant of Tarjan's algorithm

    The algorithm on an abstract state: colours, component numbers, roots and
    discovery times as functions of the vertex, the stack and the frames of the
    depth-first search.  [SccProps] connects it to the code of [Scc].

    Two facts carry the argument.  A vertex of the stack reaches its root, and
    a grey vertex reaches every younger vertex of the stack; and the root of a
    black vertex is at least as old as the roots of its children in the search
    tree.  So when a vertex is its own root, the stack above it is closed and
    strongly connected. *)

From stdpp Require Import relations sorting.
From S2P Require Import Prelude Graph GraphProps SearchProps Scc.

(** ** The abstract state *)

Record scc_state := mkScc {
  col : nat -> Z; cmp : nat -> Z; rt : nat -> nat; dt : nat -> Z; stk : list nat; cnt : Z; tim : Z }.

Section Tarjan.
Context (n : nat) (adj : nat -> list nat).
Context (adj_lt : forall u v, (u < n)%nat -> v ∈ adj u -> (v < n)%nat).
Implicit Types (a : scc_state) (u v w p x : nat) (F : list (nat * list nat)).

Definition reach : nat -> nat -> Prop := rtc (fun u v => v ∈ adj u).

Definition off a v : Prop := col a v <> WHITE /\ v ∉ stk a.

(** The vertices of the frames are grey, those that are left black. *)
Record scc_inv a F : Prop := {
  si_col : forall v, col a v = WHITE \/ col a v = GRAY \/ col a v = BLACK;
  si_lt : forall v, col a v <> WHITE -> (v < n)%nat;
  si_gray : forall v, col a v = GRAY <-> v ∈ F.*1;
  si_frames : StronglySorted (fun u v => dt a v < dt a u) F.*1;
  si_edges : forall u es, (u, es) ∈ F -> exists pre, adj u = pre ++ es /\ forall w, w ∈ pre -> col a w <> WHITE;
  si_stk : forall v, v ∈ stk a -> col a v <> WHITE /\ cmp a v = LONG_MAX /\ dt a v < tim a;
  si_sorted : StronglySorted (fun u v => dt a v < dt a u) (stk a);
  si_gray_stk : forall v, col a v = GRAY -> v ∈ stk a;
  si_off : forall v, off a v -> 0 <= cmp a v < cnt a
    /\ forall w, w ∈ adj v -> off a w /\ cmp a w <= cmp a v;
  si_root : forall v, v ∈ stk a -> rt a v ∈ stk a /\ dt a (rt a v) <= dt a v /\ reach v (rt a v)
    /\ (col a v = GRAY <-> rt a v = v);
  si_black : forall v w, v ∈ stk a -> col a v = BLACK -> w ∈ adj v ->
    col a w <> WHITE /\ (w ∈ stk a -> dt a (rt a v) <= dt a w);
  si_reach : forall u w, u ∈ F.*1 -> w ∈ stk a -> dt a u <= dt a w -> reach u w;
  si_parent : forall u w, u ∈ F.*1 -> w ∈ stk a -> dt a u < dt a w -> exists p,
    p ∈ stk a /\ w ∈ adj p /\ dt a p < dt a w
    /\ (forall x, x ∈ F.*1 -> dt a x < dt a w -> dt a x <= dt a p)
    /\ (col a p = BLACK -> col a w = BLACK /\ dt a (rt a p) <= dt a (rt a w));
  si_scc : forall u v, off a u -> off a v -> (cmp a u = cmp a v <-> reach u v /\ reach v u);
  si_used : forall k, 0 <= k < cnt a -> exists v, off a v /\ cmp a v = k;
  si_count : 0 <= cnt a /\ cnt a + Z.of_nat (length (stk a)) <= tim a }.

(** A vertex off the stack only reaches such vertices. *)
Lemma off_reach a F u v : scc_inv a F -> off a u -> reach u v -> off a v /\ cmp a v <= cmp a u.
Proof.
  intros Hi Hu. induction 1 as [u|u w v Hw _ IH]; [done|]. destruct (si_off _ _ Hi u Hu) as [_ H].
  destruct (H w Hw) as [Hoff Hle]. destruct (IH Hoff). split; [done|lia].
Qed.

(** Discovery times tell the vertices of the stack apart. *)
Lemma sorted_inj (f : nat -> Z) l u v :
  StronglySorted (fun u v => f v < f u) l -> u ∈ l -> v ∈ l -> f u = f v -> u = v.
Proof.
  induction 1 as [|x l Hl IH Hx]; [by intros []%not_elem_of_nil|]. rewrite Forall_forall in Hx.
  intros [->|Hu]%elem_of_cons [->|Hv]%elem_of_cons E; try done.
  - specialize (Hx v). rewrite <- list_elem_of_In in Hx. specialize (Hx Hv). lia.
  - specialize (Hx u). rewrite <- list_elem_of_In in Hx. specialize (Hx Hu). lia.
  - by apply IH.
Qed.

Lemma stk_inj a F u v : scc_inv a F -> u ∈ stk a -> v ∈ stk a -> dt a u = dt a v -> u = v.
Proof. intros Hi. apply sorted_inj, (si_sorted _ _ Hi). Qed.

(** The top frame has the latest grey vertex. *)
Lemma top_frame a u es F x : scc_inv a ((u, es) :: F) -> x ∈ ((u, es) :: F).*1 -> dt a x <= dt a u.
Proof.
  intros Hi Hx. pose proof (si_frames _ _ Hi) as Hs. cbn in Hs, Hx. inversion Hs as [|? ? _ Hall]; subst.
  apply elem_of_cons in Hx as [->|Hx]; [lia|]. rewrite Forall_forall in Hall. apply list_elem_of_In in Hx.
  specialize (Hall x Hx). cbn beta in Hall. lia.
Qed.

(** ** Discovering a vertex *)

(** [a'] is [a] after [v] turned grey. *)
Definition discovered a v a' : Prop :=
  (forall w, col a' w = if decide (w = v) then GRAY else col a w)
  /\ (forall w, cmp a' w = if decide (w = v) then LONG_MAX else cmp a w)
  /\ (forall w, rt a' w = if decide (w = v) then v else rt a w)
  /\ (forall w, dt a' w = if decide (w = v) then tim a else dt a w)
  /\ stk a' = v :: stk a /\ cnt a' = cnt a /\ tim a' = tim a + 1.

Lemma sorted_ext (f f' : nat -> Z) l :
  (forall x, x ∈ l -> f x = f' x) -> StronglySorted (fun u v => f v < f u) l -> StronglySorted (fun u v => f' v < f' u) l.
Proof.
  intros Hf. induction 1 as [|x l Hl IH Hx]; constructor; [apply IH; intros; apply Hf; by right|].
  rewrite Forall_forall in *. intros y Hy. rewrite <- (Hf x), <- (Hf y); [by apply Hx|right; by apply list_elem_of_In|left].
Qed.

Lemma sorted_least (f : nat -> Z) l :
  StronglySorted (fun u v => f v < f u) l -> l <> [] -> exists y, y ∈ l /\ forall z, z ∈ l -> f y <= f z.
Proof.
  induction 1 as [|x l Hl IH Hx]; [done|]. intros _. destruct l as [|x' l'] eqn:El.
  - exists x. split; [left|]. intros z Hz. apply list_elem_of_singleton in Hz as ->. lia.
  - destruct IH as (y & Hy & Hmin); [done|]. exists y. split; [by right|]. intros z [->|Hz]%elem_of_cons; [|by apply Hmin].
    rewrite Forall_forall in Hx. apply list_elem_of_In in Hy. specialize (Hx y Hy). cbn beta in Hx. lia.
Qed.

(** Without frames the stack is empty: the oldest vertex is its own root. *)
Lemma no_frames a : scc_inv a [] -> stk a = [].
Proof.
  intros Hi. destruct (decide (stk a = [])) as [|Hne]; [done|exfalso].
  destruct (sorted_least _ _ (si_sorted _ _ Hi) Hne) as (y & Hy & Hmin).
  destruct (si_root _ _ Hi y Hy) as (H1 & H2 & _ & H3). specialize (Hmin _ H1).
  assert (rt a y = y) as E%H3 by (apply (stk_inj a [] _ _ Hi H1 Hy); lia).
  by apply (si_gray _ _ Hi), not_elem_of_nil in E.
Qed.

Section Discover.
Context a v a' F F' (Hi : scc_inv a F) (Hv : (v < n)%nat) (Hwhite : col a v = WHITE) (Hd : discovered a v a') (HF : F'.*1 = F.*1).
Context (Hpar : match F with [] => True | (u, _) :: _ => v ∈ adj u end).

Lemma disc_stk w : w ∈ stk a' <-> w = v \/ w ∈ stk a.
Proof. destruct Hd as (_ & _ & _ & _ & -> & _). apply elem_of_cons. Qed.

Lemma disc_ne w : w ∈ stk a -> w <> v.
Proof. intros Hw ->. by destruct (si_stk _ _ Hi v Hw). Qed.

(** The vertices that were on the stack keep their values. *)
Lemma disc_old w : w ∈ stk a ->
  dt a' w = dt a w /\ rt a' w = rt a w /\ col a' w = col a w /\ dt a' (rt a' w) = dt a (rt a w) /\ cmp a' w = cmp a w.
Proof.
  destruct Hd as (Hcol & Hcmp & Hrt & Hdt & _). intros Hw. destruct (si_root _ _ Hi w Hw) as [Hr _].
  pose proof (disc_ne w Hw). pose proof (disc_ne _ Hr).
  rewrite Hrt, !Hdt, Hcol, Hcmp. by rewrite !decide_False by (done || by rewrite decide_False).
Qed.

Lemma disc_new : dt a' v = tim a /\ rt a' v = v /\ col a' v = GRAY /\ cmp a' v = LONG_MAX.
Proof. destruct Hd as (Hcol & Hcmp & Hrt & Hdt & _). rewrite Hdt, Hrt, Hcol, Hcmp. by rewrite !decide_True. Qed.

Lemma disc_late w : w ∈ stk a -> dt a' w < dt a' v.
Proof. intros Hw. destruct (disc_old w Hw) as [-> _], disc_new as [-> _]. by apply (si_stk _ _ Hi). Qed.

Lemma disc_frame w : w ∈ F.*1 -> w ∈ stk a.
Proof. intros Hw. by apply (si_gray_stk _ _ Hi), (si_gray _ _ Hi). Qed.

Lemma disc_nonwhite w : col a' w <> WHITE <-> col a w <> WHITE \/ w = v.
Proof.
  destruct Hd as [Hcol _]. rewrite Hcol. case_decide as E; [subst; by split; [right|]|]. split; [by left|by intros []].
Qed.

Lemma disc_off w : (off a' w <-> off a w) /\ (off a w -> cmp a' w = cmp a w).
Proof.
  destruct Hd as (_ & Hcmp & _). split.
  - unfold off. rewrite disc_nonwhite, disc_stk. split; [|intros [Hw Hn]; split; [by left|]; by intros [->|?]].
    intros [[Hw| ->] Hn]; [|by destruct Hn; left]. split; [done|]. intros ?. apply Hn. by right.
  - intros [Hw _]. rewrite Hcmp, decide_False; [done|]. by intros ->.
Qed.

Lemma disc_sorted l : (forall w, w ∈ l -> w ∈ stk a) -> StronglySorted (fun u v => dt a v < dt a u) l ->
  StronglySorted (fun u v => dt a' v < dt a' u) (v :: l).
Proof.
  intros Hl Hs. constructor; [apply (sorted_ext (dt a)); [|done]; intros w Hw; symmetry; by apply disc_old, Hl|].
  apply Forall_forall. intros w Hw. apply disc_late, Hl. by apply list_elem_of_In.
Qed.

Lemma disc_reach u w : u ∈ v :: F.*1 -> w ∈ stk a' -> dt a' u <= dt a' w -> reach u w.
Proof.
  intros [->|Hu]%elem_of_cons [->|Hw]%disc_stk Hle; [constructor|pose proof (disc_late w Hw); lia|..].
  - destruct F as [|[u0 es0] F0] eqn:EF; [by apply not_elem_of_nil in Hu|]. eapply rtc_r; [|exact Hpar].
    apply (si_reach _ _ Hi); [done| |by eapply top_frame]. apply (si_gray_stk _ _ Hi), (si_gray _ _ Hi). left.
  - apply (si_reach _ _ Hi); [done|done|]. destruct (disc_old w Hw) as [E _], (disc_old u (disc_frame u Hu)) as [E' _]. lia.
Qed.

Lemma disc_parent u w : u ∈ v :: F.*1 -> w ∈ stk a' -> dt a' u < dt a' w -> exists p,
  p ∈ stk a' /\ w ∈ adj p /\ dt a' p < dt a' w
  /\ (forall x, x ∈ v :: F.*1 -> dt a' x < dt a' w -> dt a' x <= dt a' p)
  /\ (col a' p = BLACK -> col a' w = BLACK /\ dt a' (rt a' p) <= dt a' (rt a' w)).
Proof.
  intros [->|Hu]%elem_of_cons [->|Hw]%disc_stk Hlt; [lia|pose proof (disc_late w Hw); lia|..].
  - assert (exists u0 es0 F0, F = (u0, es0) :: F0 /\ v ∈ adj u0) as (u0 & es0 & F0 & EF & Hadj).
    { destruct F as [|[u0 es0] F0]; [by apply not_elem_of_nil in Hu|]. by eauto. }
    assert (u0 ∈ F.*1) as HuF by (rewrite EF; left). pose proof (disc_frame u0 HuF) as Hu0.
    destruct (disc_old u0 Hu0) as (E1 & _ & E3 & _). exists u0. split; [apply disc_stk; by right|]. split; [done|]. split; [by apply disc_late|].
    split; [|rewrite E3; by rewrite (proj2 (si_gray _ _ Hi u0) HuF)].
    intros x [->|Hx]%elem_of_cons Hlx; [lia|]. destruct (disc_old x (disc_frame x Hx)) as [-> _]. rewrite E1.
    rewrite EF in Hx. pose proof Hi as Hi'. rewrite EF in Hi'. by apply (top_frame a u0 es0 F0).
  - destruct (disc_old w Hw) as (E1 & _ & E3 & E4 & _), (disc_old u (disc_frame u Hu)) as [E' _].
    destruct (si_parent _ _ Hi u w Hu Hw ltac:(lia)) as (p & Hp & Hadj & Hpt & Hx & Hb). exists p.
    destruct (disc_old p Hp) as (P1 & _ & P3 & P4 & _). rewrite P3, P4, E4, E3.
    split; [apply disc_stk; by right|]. split; [done|]. split; [lia|]. split; [|done].
    intros x [->|HxF]%elem_of_cons Hlx; [pose proof (disc_late w Hw); lia|]. destruct (disc_old x (disc_frame x HxF)) as [X _].
    rewrite X in *. rewrite P1. apply Hx; [done|lia].
Qed.

Lemma discover_inv :
  (forall u es, (u, es) ∈ F' -> exists pre, adj u = pre ++ es /\ forall w, w ∈ pre -> col a w <> WHITE \/ w = v) ->
  scc_inv a' ((v, adj v) :: F').
Proof.
  pose proof Hd as (Hcol & _ & _ & _ & Hstk & Hcnt & Htim). intros Hedges. destruct disc_new as (Ndt & Nrt & Ncol & Ncmp).
  split; cbn [fmap list_fmap fst]; rewrite ?HF.
  - intros w. rewrite Hcol. case_decide; [by auto|apply (si_col _ _ Hi)].
  - intros w [Hw| ->]%disc_nonwhite; [by apply (si_lt _ _ Hi)|done].
  - intros w. rewrite Hcol, elem_of_cons. case_decide as E; [by split; [left|]|].
    rewrite (si_gray _ _ Hi). split; [by right|by intros []].
  - apply disc_sorted; [apply disc_frame|apply (si_frames _ _ Hi)].
  - intros u es [[= -> ->]|Hue]%elem_of_cons; [exists []; split; [done|]; by intros w []%not_elem_of_nil|].
    destruct (Hedges u es Hue) as (pre & -> & Hpre). exists pre. split; [done|]. intros w Hw. by apply disc_nonwhite, Hpre.
  - intros w [->|Hw]%disc_stk; [rewrite Ncol, Ncmp, Ndt, Htim; split; [done|]; split; [done|lia]|].
    destruct (si_stk _ _ Hi w Hw) as (H1 & H2 & H3). destruct (disc_old w Hw) as (-> & _ & -> & _ & ->).
    split; [done|]. split; [done|lia].
  - rewrite Hstk. by apply disc_sorted, (si_sorted _ _ Hi).
  - intros w. rewrite Hcol, disc_stk. case_decide; [by left|]. right. by apply (si_gray_stk _ _ Hi).
  - intros w Hw%disc_off. rewrite (proj2 (disc_off w) Hw), Hcnt. destruct (si_off _ _ Hi w Hw) as [H1 H2]. split; [done|].
    intros x Hx. destruct (H2 x Hx) as [Hxo Hle]. by rewrite (proj2 (disc_off x) Hxo), (proj1 (disc_off x)).
  - intros w [->|Hw]%disc_stk; [rewrite Nrt, disc_stk; split; [by left|]; split; [lia|]; split; [constructor|by rewrite Ncol]|].
    destruct (disc_old w Hw) as (E1 & E2 & E3 & E4 & _). destruct (si_root _ _ Hi w Hw) as (H1 & H2 & H3 & H4).
    rewrite E4, E3, E2, E1, disc_stk. by auto.
  - intros w x [->|Hw]%disc_stk; [by rewrite Ncol|]. destruct (disc_old w Hw) as (_ & _ & -> & -> & _). intros Hb Hx.
    destruct (si_black _ _ Hi w x Hw Hb Hx) as [H1 H2]. rewrite disc_nonwhite. split; [by left|].
    intros [->|Hxs]%disc_stk; [by destruct H1|]. destruct (disc_old x Hxs) as [-> _]. by apply H2.
  - apply disc_reach.
  - apply disc_parent.
  - intros u w Hu%disc_off Hw%disc_off. rewrite (proj2 (disc_off u) Hu), (proj2 (disc_off w) Hw). by apply (si_scc _ _ Hi).
  - intros k. rewrite Hcnt. intros Hk. destruct (si_used _ _ Hi k Hk) as (w & Hw & <-). exists w.
    rewrite (proj2 (disc_off w) Hw). by rewrite (proj1 (disc_off w)).
  - rewrite Hcnt, Htim, Hstk. cbn [length]. destruct (si_count _ _ Hi). lia.
Qed.

End Discover.

(** ** Finishing a vertex *)

(** [r] is the new root of [u]: the oldest of the roots of its successors. *)
Definition rooted a u r : Prop :=
  (r = u \/ exists w, w ∈ adj u /\ w ∈ stk a /\ r = rt a w)
  /\ dt a r <= dt a u /\ forall w, w ∈ adj u -> w ∈ stk a -> dt a r <= dt a (rt a w).

Section Finish.
Context a u F r (Hi : scc_inv a ((u, []) :: F)) (Hr : rooted a u r).

Lemma fin_gray : col a u = GRAY /\ u ∈ stk a /\ rt a u = u.
Proof.
  assert (col a u = GRAY) as Hg by (apply (si_gray _ _ Hi); left).
  assert (u ∈ stk a) as Hu by (by apply (si_gray_stk _ _ Hi)). split; [done|]. split; [done|]. by apply (si_root _ _ Hi u Hu).
Qed.

Lemma fin_adj w : w ∈ adj u -> col a w <> WHITE.
Proof. destruct (si_edges _ _ Hi u []) as (pre & -> & H); [left|]. rewrite app_nil_r. apply H. Qed.

(** The other frames are older. *)
Lemma fin_older x : x ∈ F.*1 -> dt a x < dt a u /\ x <> u.
Proof.
  intros Hx. pose proof (si_frames _ _ Hi) as Hs. cbn in Hs. inversion Hs as [|? ? _ Hall]; subst.
  rewrite Forall_forall in Hall. apply list_elem_of_In in Hx. specialize (Hall x Hx). cbn beta in Hall.
  split; [done|]. intros ->. lia.
Qed.

Lemma fin_frames x : x ∈ F.*1 <-> col a x = GRAY /\ x <> u.
Proof.
  rewrite (si_gray _ _ Hi). cbn. rewrite elem_of_cons. split; [|naive_solver].
  intros Hx. split; [by right|]. by apply fin_older.
Qed.

(** A vertex of the stack that is younger than [u] is black. *)
Lemma fin_black w : w ∈ stk a -> dt a u <= dt a w -> w <> u -> dt a u < dt a w /\ col a w = BLACK.
Proof.
  intros Hw Hle Hne. destruct fin_gray as (_ & Hu & _). assert (dt a u <> dt a w) as Hd.
  { intros E. apply Hne. by apply (stk_inj a _ _ _ Hi Hw Hu). }
  split; [lia|]. destruct (si_col _ _ Hi w) as [Hc|[Hc|Hc]]; [by destruct (si_stk _ _ Hi w Hw)| |done].
  apply (si_gray _ _ Hi) in Hc. apply (top_frame a u [] F) in Hc; [lia|done].
Qed.

Lemma fin_root : r ∈ stk a /\ reach u r.
Proof.
  destruct fin_gray as (_ & Hu & _). destruct Hr as ([->|(w & Hw & Hws & ->)] & _); [by split; [|constructor]|].
  destruct (si_root _ _ Hi w Hws) as (H1 & _ & H2 & _). split; [done|]. by apply (rtc_l _ _ w).
Qed.

(** ** [u] is not its own root: it stays on the stack *)

Lemma finish_stay a' :
  r <> u -> (forall w, col a' w = if decide (w = u) then BLACK else col a w) ->
  (forall w, rt a' w = if decide (w = u) then r else rt a w) ->
  (forall w, cmp a' w = cmp a w) -> (forall w, dt a' w = dt a w) -> stk a' = stk a -> cnt a' = cnt a -> tim a' = tim a ->
  scc_inv a' F.
Proof.
  intros Hru Hcol Hrt Hcmp Hdt Hstk Hcnt Htim. destruct fin_gray as (Hg & Hu & Hru0). destruct fin_root as [Hrs Hur].
  destruct Hr as (_ & Hrle & Hrmin).
  assert (forall w, off a' w <-> off a w) as Hoff.
  { intros w. unfold off. rewrite Hcol, Hstk. case_decide as E; [subst w; split; by intros [_ []]|done]. }
  assert (forall w, col a' w <> WHITE <-> col a w <> WHITE) as Hnw.
  { intros w. rewrite Hcol. case_decide as E; [subst w; by rewrite Hg|done]. }
  split.
  - intros w. rewrite Hcol. case_decide; [by auto|apply (si_col _ _ Hi)].
  - intros w Hw%Hnw. by apply (si_lt _ _ Hi).
  - intros w. rewrite Hcol, fin_frames. case_decide as E; [split; [done|by intros []]|]. split; [by intros|by intros []].
  - apply (sorted_ext (dt a)); [done|]. pose proof (si_frames _ _ Hi) as Hs. by inversion Hs.
  - intros x es Hx. destruct (si_edges _ _ Hi x es) as (pre & -> & H); [by right|]. exists pre. split; [done|].
    intros w Hw. by apply Hnw, H.
  - intros w. rewrite Hstk, Hnw, Hcmp, Hdt, Htim. apply (si_stk _ _ Hi).
  - rewrite Hstk. apply (sorted_ext (dt a)); [done|]. apply (si_sorted _ _ Hi).
  - intros w. rewrite Hcol, Hstk. case_decide; [done|]. apply (si_gray_stk _ _ Hi).
  - intros w Hw%Hoff. rewrite Hcmp, Hcnt. destruct (si_off _ _ Hi w Hw) as [H1 H2]. split; [done|].
    intros x Hx. rewrite Hoff, Hcmp. by apply H2.
  - intros w. rewrite Hstk, !Hdt, Hrt, Hcol. case_decide as E; [|apply (si_root _ _ Hi)].
    subst w. intros _. split; [done|]. split; [done|]. by split.
  - intros w x. rewrite Hstk, !Hdt, Hrt, Hcol, Hnw. case_decide as E; [subst w|apply (si_black _ _ Hi)].
    intros _ _ Hx. split; [by apply fin_adj|]. intros Hxs. specialize (Hrmin x Hx Hxs). destruct (si_root _ _ Hi x Hxs) as (_ & ? & _). lia.
  - intros x w Hx. rewrite Hstk, !Hdt. apply (si_reach _ _ Hi). by right.
  - intros x w Hx. rewrite Hstk, !Hdt. intros Hw Hlt. destruct (si_parent _ _ Hi x w ltac:(by right) Hw Hlt) as (p & Hp & Hadj & Hpt & Hy & Hb).
    exists p. rewrite !Hdt. split; [done|]. split; [done|]. split; [done|]. split; [intros y Hyf; rewrite !Hdt; apply Hy; by right|].
    rewrite !Hrt, !Hcol. destruct (decide (p = u)) as [->|Hpu].
    + intros _. rewrite !decide_False by (intros ->; lia). split; [apply fin_black; [done|lia|intros ->; lia]|by apply Hrmin].
    + intros Hbp. destruct (Hb Hbp) as [Hbw Hle]. rewrite decide_False by (by intros ->; rewrite Hg in Hbw).
      rewrite decide_False by (by intros ->; rewrite Hg in Hbw). done.
  - intros x w Hx%Hoff Hw%Hoff. rewrite !Hcmp. by apply (si_scc _ _ Hi).
  - intros k. rewrite Hcnt. intros Hk. destruct (si_used _ _ Hi k Hk) as (w & Hw & <-). exists w. by rewrite Hoff, Hcmp.
  - rewrite Hcnt, Htim, Hstk. apply (si_count _ _ Hi).
Qed.

(** ** [u] is its own root: the stack down to [u] is a component *)

Definition component w : Prop := w ∈ stk a /\ dt a u <= dt a w.

Lemma component_root w : r = u -> component w -> dt a u <= dt a (rt a w).
Proof.
  intros ->. remember (Z.to_nat (dt a w - dt a u)) as k eqn:Hk. revert w Hk.
  induction k as [k IH] using lt_wf_ind. intros w -> [Hw Hle]. destruct fin_gray as (Hg & Hu & Hru).
  destruct (decide (w = u)) as [->|Hne]; [rewrite Hru; lia|]. destruct (fin_black w Hw Hle Hne) as [Hlt _].
  destruct (si_parent _ _ Hi u w ltac:(left) Hw Hlt) as (p & Hp & Hadj & Hpt & Hx & Hb).
  specialize (Hx u ltac:(left) Hlt). destruct (decide (p = u)) as [->|Hpu]; [by apply Hr|].
  destruct (fin_black p Hp Hx Hpu) as [Hup Hbp]. destruct (Hb Hbp) as [_ Hle2].
  specialize (IH (Z.to_nat (dt a p - dt a u)) ltac:(lia) p eq_refl (conj Hp Hx)). lia.
Qed.

Lemma component_reach w : r = u -> component w -> reach w u.
Proof.
  intros E. remember (Z.to_nat (dt a w - dt a u)) as k eqn:Hk. revert w Hk.
  induction k as [k IH] using lt_wf_ind. intros w -> [Hw Hle].
  destruct (decide (w = u)) as [->|Hne]; [constructor|]. destruct (fin_black w Hw Hle Hne) as [Hlt Hbw].
  pose proof (component_root w E (conj Hw Hle)) as Hge. destruct (si_root _ _ Hi w Hw) as (H1 & H2 & H3 & H4).
  assert (dt a (rt a w) <> dt a w) as Hd.
  { intros Ed. apply (stk_inj a _ _ _ Hi H1 Hw), H4 in Ed. by rewrite Hbw in Ed. }
  etransitivity; [exact H3|]. apply (IH (Z.to_nat (dt a (rt a w) - dt a u))); [lia|done|by split].
Qed.

(** An edge out of the component leads to a finished component. *)
Lemma component_adj w x : r = u -> component w -> x ∈ adj w -> component x \/ off a x.
Proof.
  intros E [Hw Hle] Hx. destruct (decide (x ∈ stk a)) as [Hxs|Hxs].
  - left. split; [done|]. destruct (si_root _ _ Hi x Hxs) as (_ & Hrx & _). destruct (decide (w = u)) as [->|Hne].
    + destruct Hr as (_ & _ & Hmin). specialize (Hmin x Hx Hxs). rewrite E in Hmin. lia.
    + destruct (fin_black w Hw Hle Hne) as [_ Hb]. destruct (si_black _ _ Hi w x Hw Hb Hx) as [_ H].
      specialize (H Hxs). pose proof (component_root w E (conj Hw Hle)). lia.
  - right. split; [|done]. destruct (decide (w = u)) as [->|Hne]; [by apply fin_adj|].
    destruct (fin_black w Hw Hle Hne) as [_ Hb]. by destruct (si_black _ _ Hi w x Hw Hb Hx).
Qed.

(** [a'] is [a] after the component was taken off the stack. *)
Definition popped a' : Prop :=
  (forall w, col a' w = if decide (w = u) then BLACK else col a w)
  /\ (forall w, component w -> cmp a' w = cnt a) /\ (forall w, ~ component w -> cmp a' w = cmp a w /\ rt a' w = rt a w)
  /\ (forall w, dt a' w = dt a w) /\ (forall w, w ∈ stk a' <-> w ∈ stk a /\ dt a w < dt a u)
  /\ StronglySorted (fun x y => dt a y < dt a x) (stk a') /\ (length (stk a') < length (stk a))%nat
  /\ cnt a' = cnt a + 1 /\ tim a' = tim a.

Section Popped.
Context a' (Hru : r = u) (Hp : popped a').

Lemma popped_old w : w ∈ stk a' ->
  w ∈ stk a /\ dt a w < dt a u /\ w <> u /\ col a' w = col a w /\ cmp a' w = cmp a w /\ rt a' w = rt a w /\ dt a' w = dt a w.
Proof.
  destruct Hp as (Hcol & _ & Hout & Hdt & Hstk & _). intros [Hw Hlt]%Hstk.
  assert (w <> u) as Hne by (intros ->; lia). assert (~ component w) as Hnc by (intros [_ ?]; lia).
  destruct (Hout w Hnc). rewrite Hcol, decide_False by done. by split_and!.
Qed.

Lemma popped_off w : off a' w <-> off a w \/ component w.
Proof.
  destruct Hp as (Hcol & _ & _ & _ & Hstk & _). destruct fin_gray as (Hg & Hu & _). unfold off, component. rewrite Hcol, Hstk. case_decide as E.
  - subst w. split; [intros _; right; split; [done|lia]|]. intros _. split; [done|]. intros [_ ?]. lia.
  - split.
    + intros [Hc Hn]. destruct (decide (w ∈ stk a)) as [Hw|Hw]; [right|by left]. split; [done|].
      destruct (Z.le_gt_cases (dt a u) (dt a w)) as [|Hlt]; [done|]. by destruct Hn.
    + intros [[Hc Hn]|[Hw Hle]]; [split; [done|by intros [? _]]|]. split; [by apply (si_stk _ _ Hi)|]. intros [_ ?]. lia.
Qed.

Lemma popped_cmp w : off a w -> ~ component w /\ cmp a' w = cmp a w.
Proof.
  destruct Hp as (_ & _ & Hout & _). intros [_ Hn]. assert (~ component w) as Hnc by (by intros [? _]).
  split; [done|]. by apply Hout.
Qed.

(** The fields of the invariant that speak of the stack. *)
Lemma popped_stack :
  (forall v, v ∈ stk a' -> col a' v <> WHITE /\ cmp a' v = LONG_MAX /\ dt a' v < tim a')
  /\ (forall v, v ∈ stk a' -> rt a' v ∈ stk a' /\ dt a' (rt a' v) <= dt a' v /\ reach v (rt a' v) /\ (col a' v = GRAY <-> rt a' v = v))
  /\ (forall v w, v ∈ stk a' -> col a' v = BLACK -> w ∈ adj v ->
        col a' w <> WHITE /\ (w ∈ stk a' -> dt a' (rt a' v) <= dt a' w)).
Proof.
  pose proof Hp as (Hcol & _ & _ & Hdt & Hstk & _ & _ & _ & Htim). split; [|split].
  - intros v Hv. destruct (popped_old v Hv) as (Hs & _ & _ & -> & -> & _ & ->). rewrite Htim. by apply (si_stk _ _ Hi).
  - intros v Hv. destruct (popped_old v Hv) as (Hs & Hlt & _ & -> & _ & -> & _). rewrite !Hdt.
    destruct (si_root _ _ Hi v Hs) as (H1 & H2 & H3 & H4). split; [apply Hstk; split; [done|lia]|]. by split.
  - intros v w Hv. destruct (popped_old v Hv) as (Hs & _ & _ & -> & _ & -> & _). intros Hb Hw.
    destruct (si_black _ _ Hi v w Hs Hb Hw) as [H1 H2]. rewrite !Hdt. split; [rewrite Hcol; by case_decide|].
    intros [Hws _]%Hstk. by apply H2.
Qed.

Lemma popped_parent x w : x ∈ F.*1 -> w ∈ stk a' -> dt a' x < dt a' w -> exists p,
  p ∈ stk a' /\ w ∈ adj p /\ dt a' p < dt a' w
  /\ (forall y, y ∈ F.*1 -> dt a' y < dt a' w -> dt a' y <= dt a' p)
  /\ (col a' p = BLACK -> col a' w = BLACK /\ dt a' (rt a' p) <= dt a' (rt a' w)).
Proof.
  pose proof Hp as (_ & _ & _ & Hdt & Hstk & _). intros Hx Hw. rewrite !Hdt. intros Hlt.
  destruct (popped_old w Hw) as (Hs & Hltu & _ & -> & _ & -> & _).
  destruct (si_parent _ _ Hi x w ltac:(by right) Hs Hlt) as (p & Hps & Hadj & Hpt & Hy & Hb). exists p.
  assert (p ∈ stk a') as Hp' by (apply Hstk; split; [done|lia]). split; [done|]. split; [done|]. rewrite !Hdt. split; [done|].
  destruct (popped_old p Hp') as (_ & _ & _ & -> & _ & -> & _). split; [|done]. intros y Hyf. rewrite !Hdt. apply Hy. by right.
Qed.

(** The fields that speak of the finished components. *)
Lemma popped_components :
  (forall v, off a' v -> 0 <= cmp a' v < cnt a' /\ forall w, w ∈ adj v -> off a' w /\ cmp a' w <= cmp a' v)
  /\ (forall v w, off a' v -> off a' w -> (cmp a' v = cmp a' w <-> reach v w /\ reach w v))
  /\ (forall k, 0 <= k < cnt a' -> exists v, off a' v /\ cmp a' v = k).
Proof.
  pose proof Hp as (_ & Hin & _ & _ & _ & _ & _ & Hcnt & _). destruct (si_count _ _ Hi) as [Hc0 _]. split; [|split].
  - intros v [Hv|Hv]%popped_off.
    + destruct (popped_cmp v Hv) as [_ ->]. destruct (si_off _ _ Hi v Hv) as [H1 H2]. split; [lia|].
      intros w Hw. destruct (H2 w Hw) as [Hwo Hle]. destruct (popped_cmp w Hwo) as [_ ->]. rewrite popped_off. by auto.
    + rewrite (Hin v Hv). split; [lia|]. intros w Hw. rewrite popped_off. destruct (component_adj v w Hru Hv Hw) as [Hwc|Hwo].
      * rewrite (Hin w Hwc). split; [by right|lia].
      * destruct (popped_cmp w Hwo) as [_ ->]. split; [by left|]. pose proof (si_off _ _ Hi w Hwo). lia.
  - assert (forall v w, off a v -> component w -> cmp a v <> cnt a /\ ~ reach v w) as Hmix.
    { intros v w Hv [Hw _]. pose proof (si_off _ _ Hi v Hv) as [Hlt _]. split; [lia|]. intros Hvw.
      by apply (off_reach a _ v w Hi Hv) in Hvw as [[_ ?] _]. }
    intros v w [Hv|Hv]%popped_off [Hw|Hw]%popped_off.
    + destruct (popped_cmp v Hv) as [_ ->], (popped_cmp w Hw) as [_ ->]. by apply (si_scc _ _ Hi).
    + destruct (popped_cmp v Hv) as [_ ->]. rewrite (Hin w Hw). destruct (Hmix v w Hv Hw). by split; [|intros []].
    + destruct (popped_cmp w Hw) as [_ ->]. rewrite (Hin v Hv). destruct (Hmix w v Hw Hv) as [H1 H2]. split; [by intros E; destruct H1|by intros []].
    + rewrite (Hin v Hv), (Hin w Hw). split; [intros _|done].
      assert (forall y, component y -> reach u y) as Hfrom by (intros y [Hy Hle]; apply (si_reach _ _ Hi); [left|done|done]).
      split; (etransitivity; [by apply component_reach|by apply Hfrom]).
  - intros k. rewrite Hcnt. intros Hk. destruct (decide (k = cnt a)) as [->|Hne].
    + exists u. destruct fin_gray as (_ & Hu & _). assert (component u) as Hcu by (split; [done|lia]).
      rewrite popped_off. split; [by right|by apply Hin].
    + destruct (si_used _ _ Hi k ltac:(lia)) as (v & Hv & <-). exists v. rewrite popped_off. split; [by left|]. by apply popped_cmp.
Qed.

Lemma finish_pop : scc_inv a' F.
Proof.
  pose proof Hp as (Hcol & _ & _ & Hdt & Hstk & Hsort & Hlen & Hcnt & Htim). destruct fin_gray as (Hg & Hu & _).
  destruct popped_stack as (HS1 & HS2 & HS3). destruct popped_components as (HC1 & HC2 & HC3).
  assert (forall w, col a' w <> WHITE <-> col a w <> WHITE) as Hnw.
  { intros w. rewrite Hcol. case_decide as E; [subst w; by rewrite Hg|done]. }
  split; try done.
  - intros w. rewrite Hcol. case_decide; [by auto|apply (si_col _ _ Hi)].
  - intros w Hw%Hnw. by apply (si_lt _ _ Hi).
  - intros w. rewrite Hcol, fin_frames. case_decide as E; [split; [done|by intros []]|]. split; [by intros|by intros []].
  - apply (sorted_ext (dt a)); [done|]. pose proof (si_frames _ _ Hi) as Hs. by inversion Hs.
  - intros x es Hx. destruct (si_edges _ _ Hi x es) as (pre & -> & H); [by right|]. exists pre. split; [done|].
    intros w Hw. by apply Hnw, H.
  - by apply (sorted_ext (dt a)).
  - intros w. rewrite Hcol, Hstk. case_decide as E; [done|]. intros Hw. split; [by apply (si_gray_stk _ _ Hi)|].
    apply fin_older, fin_frames. done.
  - intros x w Hx Hw. rewrite !Hdt. apply Hstk in Hw as [Hw _]. apply (si_reach _ _ Hi); [by right|done].
  - intros x w. apply popped_parent.
  - rewrite Hcnt, Htim. destruct (si_count _ _ Hi). lia.
Qed.

End Popped.
End Finish.

(** ** An edge to a vertex that is not white *)

Lemma skip_inv a u v es F : scc_inv a ((u, v :: es) :: F) -> col a v <> WHITE -> scc_inv a ((u, es) :: F).
Proof.
  intros Hi Hv. destruct Hi. split; try done. intros x xs [[= -> ->]|Hx]%elem_of_cons; [|apply si_edges0; by right].
  destruct (si_edges0 u (v :: es)) as (pre & -> & Hpre); [left|]. exists (pre ++ [v]). rewrite <- app_assoc.
  split; [done|]. intros w [Hw|Hw]%elem_of_app; [by apply Hpre|]. by apply list_elem_of_singleton in Hw as ->.
Qed.

(** ** Without frames and white vertices *)

Lemma scc_done a : scc_inv a [] -> (forall v, (v < n)%nat -> col a v <> WHITE) ->
  (forall u v, (u < n)%nat -> (v < n)%nat -> (cmp a u = cmp a v <-> reach u v /\ reach v u))
  /\ (forall v, (v < n)%nat -> 0 <= cmp a v < cnt a)
  /\ (forall k, 0 <= k < cnt a -> exists v, (v < n)%nat /\ cmp a v = k)
  /\ (forall u v, (u < n)%nat -> v ∈ adj u -> cmp a v <= cmp a u).
Proof.
  intros Hi Hall. pose proof (no_frames a Hi) as Hs.
  assert (forall v, (v < n)%nat -> off a v) as Hoff.
  { intros v Hv. split; [by apply Hall|]. rewrite Hs. apply not_elem_of_nil. }
  split; [|split; [|split]].
  - intros u v Hu Hv. apply (si_scc _ _ Hi); by apply Hoff.
  - intros v Hv. by apply (si_off _ _ Hi), Hoff.
  - intros k Hk. destruct (si_used _ _ Hi k Hk) as (v & [Hv _] & E). exists v. split; [by apply (si_lt _ _ Hi)|done].
  - intros u v Hu Hv. by apply (si_off _ _ Hi u (Hoff u Hu)).
Qed.

End Tarjan.
