(* ===== verification/SccProps.v ===== *)
(** * The components that the linker computes

    The code of [Scc] implements the abstract algorithm of [Tarjan]: it ends,
    with one unit of fuel per edge and per vertex, and numbers the strongly
    connected components of the graph. *)

From stdpp Require Import relations sorting.
From S2P Require Import Prelude Graph GraphProps SearchProps Scc Tarjan.

Lemma amap_put_ok {A} v (x : A) l : (v < length l)%nat -> amap_put v x l = Some (<[v := x]> l).
Proof. intros Hv. unfold amap_put. by rewrite (proj2 (Nat.ltb_lt _ _) Hv). Qed.

Lemma default_insert {A} (d x : A) l v w : (v < length l)%nat ->
  default d (<[v := x]> l !! w) = if decide (w = v) then x else default d (l !! w).
Proof.
  intros Hv. destruct (decide (w = v)) as [->|Hne]; [by rewrite list_lookup_insert_eq|by rewrite list_lookup_insert_ne].
Qed.

Section Link.
Context {VP EP : Type} (g : graph VP EP) (Hok : graph_ok g).
Context (Hbig : Z.of_nat (capacity g) < 9223372036854775807).

Abbreviation n := (capacity g).
Definition succs (u : nat) : list nat := map target (out_edges g u).

Lemma succs_lt u v : v ∈ succs u -> (v < n)%nat.
Proof using Hok.
  intros (e & -> & He)%list_elem_of_fmap. pose proof (lo_out_source _ (go_lists _ Hok) u e He) as Hs.
  apply live_lt. apply (edge_ends_live g e (go_lists _ Hok)). unfold has_edge. by rewrite Hs.
Qed.

Definition abs_scc (cm : list Z) (t : tarjan) : scc_state :=
  mkScc (colour cm) (fun v => default 0 (comp t !! v)) (fun v => Z.to_nat (default 0 (root t !! v)))
    (fun v => default 0 (discover_time t !! v)) (scc_stack t) (c_total t) (dfs_time t).

(** The maps have room for every vertex, and the counters do not overflow. *)
Record maps_ok (cm : list Z) (t : tarjan) : Prop := {
  mo_cm : cm_ok n cm;
  mo_comp : length (comp t) = S n;
  mo_root : length (root t) = S n;
  mo_dt : length (discover_time t) = S n;
  mo_nonneg : Forall (fun x => 0 <= x) (root t);
  mo_time : dfs_time t + Z.of_nat (white n cm) <= Z.of_nat n }.

Lemma white_drop cm cm' v :
  (v < n)%nat -> colour cm v = WHITE -> (forall u, colour cm' u = if decide (u = v) then GRAY else colour cm u) ->
  (white n cm' < white n cm)%nat.
Proof.
  intros Hv Hw Hc. unfold white.
  apply (filter_drop (fun v => colour cm v =? 0) (fun v => colour cm' v =? 0) (seq 0 n) v);
    [apply elem_of_seq; lia|by rewrite Hw|by rewrite Hc, decide_True|].
  intros y _. rewrite Hc. by case_decide.
Qed.

(** ** Discovering *)

Lemma discover_spec cm t v F :
  maps_ok cm t -> scc_inv n succs (abs_scc cm t) F -> (v < n)%nat -> colour cm v = WHITE ->
  exists cm' t', color_put_fast v GRAY cm = Some cm' /\ tarjan_discover v t = Some t' /\ maps_ok cm' t'
    /\ discovered (abs_scc cm t) v (abs_scc cm' t') /\ (forall u, colour cm' u = if decide (u = v) then GRAY else colour cm u).
Proof.
  intros [Mcm Mc Mr Md Mn Mt] Hi Hv Hw. destruct (color_put_fast_spec n cm v GRAY Mcm Hv) as (cm' & Ecm & Mcm' & Hc); [done|].
  rewrite Hw in Hc. change (Z.lor WHITE GRAY) with GRAY in Hc. unfold tarjan_discover.
  rewrite !amap_put_ok by lia. cbn [mbind option_bind]. pose proof (white_drop cm cm' v Hv Hw Hc) as Hlt.
  destruct (si_count _ _ _ _ Hi) as [Hc0 Hct]. cbn in Hc0, Hct.
  assert (s64 (dfs_time t + 1) = dfs_time t + 1) as Es by (apply s64_small; lia).
  eexists cm', _. split; [done|]. split; [done|]. split; [|split; [|done]].
  - split; cbn; rewrite ?length_insert; try done; [|lia]. apply Forall_insert; [done|lia].
  - unfold discovered, abs_scc. cbn. rewrite Es. split; [done|]. split; [intros w; by rewrite default_insert by lia|].
    split; [|split; [intros w; by rewrite default_insert by lia|done]].
    intros w. rewrite default_insert by lia. case_decide; [lia|done].
Qed.

(** ** The new root *)

Section Roots.
Context (cm : list Z) (t : tarjan) (u : nat) (F : list (nat * list nat)).
Context (M : maps_ok cm t) (Hi : scc_inv n succs (abs_scc cm t) ((u, []) :: F)).
Abbreviation a := (abs_scc cm t).

(** [r] may become the root of [u]. *)
Definition origin (r : nat) : Prop := r = u \/ exists w, w ∈ succs u /\ w ∈ scc_stack t /\ r = rt a w.

Lemma stack_lt w : w ∈ scc_stack t -> (w < n)%nat.
Proof using Hi. intros Hw. apply (si_lt _ _ _ _ Hi). by apply (si_stk _ _ _ _ Hi w). Qed.

Lemma origin_stack r : origin r -> r ∈ scc_stack t.
Proof using Hi.
  intros [->|(w & _ & Hw & ->)]; [by apply (fin_gray n succs a u F)|]. by apply (si_root _ _ _ _ Hi w).
Qed.

Lemma stack_comp w : w ∈ succs u -> exists c, comp t !! w = Some c /\ (c = LONG_MAX <-> w ∈ scc_stack t).
Proof using M Hi Hok Hbig.
  intros Hw. pose proof (succs_lt u w Hw) as Hlt. destruct M. destruct (lookup_lt_is_Some_2 (comp t) w ltac:(lia)) as [c Ec].
  exists c. split; [done|]. assert (cmp a w = c) as <- by (cbn; by rewrite Ec). split; [|by intros Hs; apply (si_stk _ _ _ _ Hi)].
  intros E. destruct (decide (w ∈ scc_stack t)) as [|Hn]; [done|exfalso].
  assert (off a w) as Ho by (split; [by apply (fin_adj n succs a u F)|done]).
  destruct (si_off _ _ _ _ Hi w Ho) as [Hr _]. destruct (si_count _ _ _ _ Hi) as [_ Hct]. rewrite E in Hr.
  unfold LONG_MAX in Hr. cbn in *. lia.
Qed.

(** Reading [root] and [discover_time] at a vertex of the stack. *)
Lemma root_get w : (w < n)%nat -> root t !! w = Some (Z.of_nat (rt a w)).
Proof using M.
  intros Hw. destruct M. destruct (lookup_lt_is_Some_2 (root t) w ltac:(lia)) as [z Ez]. cbn. rewrite Ez. cbn.
  eapply Forall_lookup_1 in mo_nonneg0; [ |exact Ez]. by rewrite Z2Nat.id.
Qed.

Lemma time_get w : (w < n)%nat -> discover_time t !! w = Some (dt a w).
Proof using M. intros Hw. destruct M. destruct (lookup_lt_is_Some_2 (discover_time t) w ltac:(lia)) as [z Ez]. cbn. by rewrite Ez. Qed.

Lemma roots_spec ws r0 :
  (forall w, w ∈ ws -> w ∈ succs u) -> origin r0 -> dt a r0 <= dt a u ->
  exists r, tarjan_roots u ws (comp t) (discover_time t) (<[u := Z.of_nat r0]> (root t)) = Some (<[u := Z.of_nat r]> (root t))
    /\ origin r /\ dt a r <= dt a r0 /\ forall w, w ∈ ws -> w ∈ scc_stack t -> dt a r <= dt a (rt a w).
Proof using M Hi Hok Hbig.
  assert (u ∈ scc_stack t /\ rt a u = u) as [Hu Hru] by (by destruct (fin_gray n succs a u F Hi) as (_ & ? & ?)).
  pose proof (stack_lt u Hu) as Hun. assert (length (root t) = S n) as Hlen by apply M.
  revert r0. induction ws as [| w ws IH]; intros r0 Hws Hr0 Hle; cbn [tarjan_roots].
  { exists r0. split; [done|]. split; [done|]. split; [lia|]. by intros w []%not_elem_of_nil. }
  assert (forall w, w ∈ ws -> w ∈ succs u) as Hws' by (intros; apply Hws; by right).
  destruct (stack_comp w ltac:(apply Hws; left)) as (c & Ec & Hc). change (amap_get w (comp t)) with (comp t !! w). rewrite Ec. cbn [mbind option_bind].
  destruct (Z.eqb_spec c LONG_MAX) as [E|E].
  2:{ destruct (IH r0 Hws' Hr0 Hle) as (r & H1 & H2 & H3 & H4). exists r. split; [done|]. split; [done|]. split; [done|].
      intros x [->|Hx]%elem_of_cons Hxs; [by apply Hc in Hxs|by apply H4]. }
  apply Hc in E as Hws0. pose proof (stack_lt w Hws0) as Hwn.
  set (x := if decide (w = u) then r0 else rt a w).
  assert (origin x) as Hx by (unfold x; case_decide; [done|right; exists w; split; [apply Hws; left|done]]).
  unfold amap_get. rewrite list_lookup_insert_eq by lia. cbn [mbind option_bind].
  assert (<[u := Z.of_nat r0]> (root t) !! w = Some (Z.of_nat x)) as ->.
  { unfold x. case_decide as Ew; [subst; apply list_lookup_insert_eq; lia|]. rewrite list_lookup_insert_ne by done. by apply root_get. }
  cbn [mbind option_bind]. unfold min_discover_time, amap_get.
  rewrite !Nat2Z.id, (time_get r0), (time_get x) by (by apply stack_lt, origin_stack). cbn [mbind option_bind].
  set (r1 := if dt a r0 <? dt a x then r0 else x).
  replace (if dt a r0 <? dt a x then Z.of_nat r0 else Z.of_nat x) with (Z.of_nat r1) by (unfold r1; by case_match).
  rewrite amap_put_ok by (rewrite length_insert; lia). cbn [mbind option_bind]. rewrite list_insert_insert_eq.
  assert (origin r1 /\ dt a r1 <= dt a r0 /\ dt a r1 <= dt a x) as (O1 & L1 & L2).
  { unfold r1. destruct (Z.ltb_spec (dt a r0) (dt a x)); (split; [done|lia]). }
  destruct (IH r1 Hws' O1 ltac:(lia)) as (r & H1 & H2 & H3 & H4). exists r. split; [done|]. split; [done|]. split; [lia|].
  intros y [->|Hy]%elem_of_cons Hys; [|by apply H4]. unfold x in L2. case_decide as Ew; [subst; rewrite Hru; lia|lia].
Qed.

Lemma root_spec :
  exists r, tarjan_roots u (succs u) (comp t) (discover_time t) (root t) = Some (<[u := Z.of_nat r]> (root t)) /\ rooted succs a u r.
Proof using M Hi Hok Hbig.
  destruct (fin_gray n succs a u F Hi) as (_ & Hu & Hru). pose proof (stack_lt u Hu) as Hun.
  assert (<[u := Z.of_nat u]> (root t) = root t) as E.
  { apply list_insert_id. rewrite (root_get u Hun). by rewrite Hru. }
  destruct (roots_spec (succs u) u) as (r & H1 & H2 & H3 & H4); [done|by left|lia|]. rewrite E in H1.
  exists r. split; [done|]. split; [done|]. split; [done|]. exact H4.
Qed.

End Roots.

(** ** Taking a component off the stack *)

Lemma pop_spec v c s : forall cl rl,
  v ∈ s -> (forall w, w ∈ s -> (w < length cl)%nat /\ (w < length rl)%nat) -> Forall (fun x => 0 <= x) rl ->
  exists pre rest cl' rl', s = pre ++ v :: rest /\ (v ∉ pre) /\ pop_component v c s cl rl = Some (rest, cl', rl')
    /\ length cl' = length cl /\ length rl' = length rl /\ Forall (fun x => 0 <= x) rl'
    /\ (forall w, default 0 (cl' !! w) = if decide (w ∈ pre ++ [v]) then c else default 0 (cl !! w))
    /\ (forall w, w ∉ pre ++ [v] -> rl' !! w = rl !! w).
Proof.
  induction s as [| x s IH]; intros cl rl Hv Hlt Hpos; [by apply not_elem_of_nil in Hv|]. cbn [pop_component].
  destruct (Hlt x) as [H1 H2]; [left|]. rewrite !amap_put_ok by done. cbn [mbind option_bind].
  assert (Forall (fun z => 0 <= z) (<[x := Z.of_nat v]> rl)) as Hpos' by (apply Forall_insert; [done|lia]).
  destruct (decide (x = v)) as [->|Hne].
  - exists [], s, (<[v := c]> cl), (<[v := Z.of_nat v]> rl). rewrite !length_insert. split; [done|]. split; [by intros []%not_elem_of_nil|].
    split; [done|]. split; [done|]. split; [done|]. split; [done|]. cbn [app]. split.
    + intros w. rewrite default_insert by done. apply decide_ext. by rewrite list_elem_of_singleton.
    + intros w Hw. rewrite list_elem_of_singleton in Hw. by rewrite list_lookup_insert_ne.
  - destruct (IH (<[x := c]> cl) (<[x := Z.of_nat v]> rl)) as (pre & rest & cl' & rl' & -> & Hn & Hpop & L1 & L2 & Hp & Hc & Hr).
    + by apply elem_of_cons in Hv as [->|?].
    + intros w Hw. rewrite !length_insert. apply Hlt. by right.
    + done.
    + exists (x :: pre), rest, cl', rl'. rewrite !length_insert in *. split; [done|]. split; [by intros [->|?]%elem_of_cons|].
      split; [done|]. split; [done|]. split; [done|]. split; [done|]. cbn [app]. split.
      * intros w. rewrite Hc, default_insert by done. destruct (decide (w ∈ pre ++ [v])) as [Hw|Hw]; [by rewrite decide_True by (by right)|].
        destruct (decide (w = x)) as [->|Hwx]; [by rewrite decide_True by left|]. rewrite decide_False; [done|].
        by intros [->|?]%elem_of_cons.
      * intros w Hw. rewrite Hr by (intros ?; apply Hw; by right). rewrite list_lookup_insert_ne; [done|]. intros ->. apply Hw. left.
Qed.

(** A sorted stack splits at a vertex into the younger and the older ones. *)
Lemma sorted_split (f : nat -> Z) pre v rest :
  StronglySorted (fun u w => f w < f u) (pre ++ v :: rest) ->
  StronglySorted (fun u w => f w < f u) rest
  /\ (forall w, w ∈ rest <-> w ∈ pre ++ v :: rest /\ f w < f v)
  /\ (forall w, w ∈ pre ++ [v] <-> w ∈ pre ++ v :: rest /\ f v <= f w).
Proof.
  intros Hs. assert (forall w, w ∈ pre -> f v < f w) as Hpre.
  { induction pre as [| x pre IH]; cbn in *; [by intros w []%not_elem_of_nil|]. inversion Hs as [|? ? Hs' Hall]; subst.
    intros w [->|Hw]%elem_of_cons; [|by apply IH]. rewrite Forall_forall in Hall. apply Hall, list_elem_of_In, elem_of_app. right. left. }
  assert (StronglySorted (fun u w => f w < f u) (v :: rest)) as Hv.
  { clear Hpre. induction pre as [| x pre IH]; [done|]. cbn in Hs. inversion Hs; subst. by apply IH. }
  inversion Hv as [|? ? Hrest Hall]; subst. rewrite Forall_forall in Hall.
  assert (forall w, w ∈ rest -> f w < f v) as Hlow by (intros w Hw; by apply Hall, list_elem_of_In).
  split; [done|]. split; intros w; rewrite !elem_of_app.
  - rewrite elem_of_cons. split; [intros Hw; split; [by auto|by apply Hlow]|]. intros [[Hw|[->|Hw]] Hlt]; [specialize (Hpre w Hw); lia|lia|done].
  - rewrite list_elem_of_singleton, elem_of_cons. split; [intros [Hw| ->]; [specialize (Hpre w Hw)|]; split; auto; lia|].
    intros [[Hw|[->|Hw]] Hlt]; [by left|by right|specialize (Hlow w Hw); lia].
Qed.

Lemma finish_spec cm t u F :
  maps_ok cm t -> scc_inv n succs (abs_scc cm t) ((u, []) :: F) ->
  exists cm' t', color_put_fast u BLACK cm = Some cm' /\ tarjan_finish g u t = Some t' /\ maps_ok cm' t'
    /\ scc_inv n succs (abs_scc cm' t') F /\ (forall v, colour cm' v = if decide (v = u) then BLACK else colour cm v).
Proof using Hok Hbig.
  intros M Hi. destruct (fin_gray n succs _ u F Hi) as (Hg & Hu & _). pose proof (stack_lt cm t u F Hi u Hu) as Hun.
  destruct (color_put_fast_spec n cm u BLACK (mo_cm _ _ M) Hun) as (cm' & Ecm & Mcm' & Hc); [done|].
  change (colour cm u = GRAY) in Hg. rewrite Hg in Hc. change (Z.lor GRAY BLACK) with BLACK in Hc.
  assert (white n cm' <= white n cm)%nat as Hwh.
  { apply filter_mono. intros v _. rewrite Hc. by case_decide. }
  destruct (root_spec cm t u F M Hi) as (r & Er & Hr). unfold tarjan_finish. fold (succs u). rewrite Er. cbn [mbind option_bind].
  destruct M as [Mcm Mc Mr Md Mn Mt]. unfold amap_get. rewrite list_lookup_insert_eq by lia. cbn [mbind option_bind].
  assert (Forall (fun x => 0 <= x) (<[u := Z.of_nat r]> (root t))) as Mn' by (apply Forall_insert; [done|lia]).
  destruct (Z.eqb_spec (Z.of_nat r) (Z.of_nat u)) as [E|E].
  - destruct (pop_spec u (c_total t) (scc_stack t) (comp t) (<[u := Z.of_nat r]> (root t))) as (pre & rest & cl & rl & Es & Hpre & -> & L1 & L2 & Hp & Hcl & Hrl);
      [done|intros w Hw; rewrite length_insert; pose proof (stack_lt cm t u F Hi w Hw); lia|done|]. cbn [mbind option_bind].
    destruct (si_count _ _ _ _ Hi) as [Hc0 Hct]. cbn in Hc0, Hct. rewrite length_insert in L2.
    assert (length rest < length (scc_stack t))%nat as Hlen by (rewrite Es, length_app; cbn; lia).
    assert (s64 (c_total t + 1) = c_total t + 1) as Ec by (apply s64_small; lia).
    eexists cm', _. split; [done|]. split; [done|]. split; [split; cbn; (done || lia)|]. split; [|done].
    pose proof (si_sorted _ _ _ _ Hi) as Hsort. cbn in Hsort. rewrite Es in Hsort.
    destruct (sorted_split _ _ _ _ Hsort) as (S1 & S2 & S3). rewrite <- Es in S2, S3.
    eapply (finish_pop n succs _ u F r Hi Hr); [lia|]. unfold popped, component. cbn [abs_scc col cmp rt dt stk cnt tim comp root discover_time scc_stack c_total dfs_time].
    split; [done|]. split; [intros w Hw%S3; by rewrite Hcl, decide_True|].
    split; [|split; [done|]; split; [done|]; split; [done|]; split; [done|]; split; done].
    intros w Hw. assert (w ∉ pre ++ [u]) as Hnw by (by intros ?%S3). split; [by rewrite Hcl, decide_False|].
    rewrite (Hrl w Hnw), list_lookup_insert_ne; [done|]. intros ->. apply Hnw, elem_of_app. right. left.
  - eexists cm', _. split; [done|]. split; [done|]. split; [split; cbn; rewrite ?length_insert; (done || lia)|]. split; [|done].
    eapply (finish_stay n succs _ u F r Hi Hr); cbn; try done; [lia|].
    intros w. rewrite default_insert by lia. case_decide; [lia|done].
Qed.

(** ** The search *)

Definition frames_of (l : list (nat * list (edge EP))) : list (nat * list nat) := (fun p => (p.1, map target p.2)) <$> l.

(** One unit for every vertex that is to be finished and every edge that is
    to be examined. *)
Definition work (cm : list Z) : nat :=
  sum_list_with (fun v => if colour cm v =? 0 then S (length (succs v)) else 0%nat) (seq 0 n).
Definition frame_work (F : list (nat * list nat)) : nat := sum_list_with (fun p => S (length p.2)) F.

Lemma sum_point (f f' : nat -> nat) l v :
  NoDup l -> v ∈ l -> (forall w, w <> v -> f' w = f w) ->
  (sum_list_with f' l + f v = sum_list_with f l + f' v)%nat.
Proof.
  intros Hl Hv Hf. induction Hl as [|x l Hx Hl IH]; [by apply not_elem_of_nil in Hv|]. cbn.
  apply elem_of_cons in Hv as [->|Hv]; [|rewrite (Hf x) by (by intros ->); specialize (IH Hv); lia].
  assert (sum_list_with f' l = sum_list_with f l); [|lia]. clear IH Hl. induction l as [| y l IH]; [done|]. cbn.
  rewrite (Hf y) by (intros ->; apply Hx; left). f_equal. apply IH. intros Hin. apply Hx. by right.
Qed.

Lemma work_discover cm cm' v : (v < n)%nat -> colour cm v = WHITE ->
  (forall w, colour cm' w = if decide (w = v) then GRAY else colour cm w) -> (work cm' + S (length (succs v)) = work cm)%nat.
Proof.
  intros Hv Hw Hc. unfold work. set (f := fun w => if colour cm w =? 0 then _ else _). set (f' := fun w => if colour cm' w =? 0 then _ else _).
  pose proof (sum_point f f' (seq 0 n) v (NoDup_seq 0 n)) as H. assert (f v = S (length (succs v))) as E1 by (unfold f; by rewrite Hw).
  assert (f' v = 0%nat) as E2 by (unfold f'; by rewrite Hc, decide_True).
  rewrite E1, E2 in H. rewrite Nat.add_0_r in H. apply H; [apply elem_of_seq; lia|].
  intros w Hne. unfold f, f'. by rewrite Hc, decide_False.
Qed.

Lemma work_finish cm cm' u : colour cm u <> WHITE ->
  (forall w, colour cm' w = if decide (w = u) then BLACK else colour cm w) -> work cm' = work cm.
Proof.
  intros Hu Hc. unfold work. induction (seq 0 n) as [| x l IH]; [done|]. cbn. rewrite IH. f_equal. rewrite Hc.
  case_decide as E; [subst|done]. by destruct (Z.eqb_spec (colour cm u) 0).
Qed.

Lemma dfs_loop_spec fuel : forall u es stack cm t,
  maps_ok cm t -> scc_inv n succs (abs_scc cm t) (frames_of ((u, es) :: stack)) ->
  (frame_work (frames_of ((u, es) :: stack)) + work cm <= fuel)%nat ->
  exists cm' t', dfs_loop g tarjan_discover (tarjan_finish g) fuel u es stack cm t = Some (cm', t')
    /\ maps_ok cm' t' /\ scc_inv n succs (abs_scc cm' t') [] /\ (work cm' <= work cm)%nat
    /\ forall v, colour cm v <> WHITE -> colour cm' v <> WHITE.
Proof using Hok Hbig.
  induction fuel as [| k IH]; intros u es stack cm t M Hi Hf; [cbn in Hf; lia|]. cbn [dfs_loop].
  destruct es as [|e es].
  - destruct (finish_spec cm t u _ M Hi) as (cm1 & t1 & -> & -> & M1 & Hi1 & Hc1). cbn [mbind option_bind].
    assert (forall v, colour cm v <> WHITE -> colour cm1 v <> WHITE) as Hkeep by (intros v Hv; rewrite Hc1; by case_decide).
    assert (colour cm u <> WHITE) as Hu.
    { assert (colour cm u = GRAY) as E by (by destruct (fin_gray n succs (abs_scc cm t) u _ Hi)). by rewrite E. }
    pose proof (work_finish cm cm1 u Hu Hc1) as Hwk.
    destruct stack as [|[u' es'] stack]; [exists cm1, t1; split; [done|]; split; [done|]; split; [done|]; split; [lia|done]|].
    destruct (IH u' es' stack cm1 t1 M1 Hi1) as (cm2 & t2 & E2 & M2 & Hi2 & Hw2 & Hk2); [cbn in *; lia|].
    exists cm2, t2. split; [done|]. split; [done|]. split; [done|]. split; [lia|]. intros v Hv. by apply Hk2, Hkeep.
  - set (v := target e). assert (v ∈ succs u /\ (v < n)%nat) as [Hadj Hv].
    { destruct (si_edges _ _ _ _ Hi u (v :: map target es)) as (pre & E & _); [left|].
      assert (v ∈ succs u) as H by (rewrite E; apply elem_of_app; right; left). split; [done|by apply (succs_lt u)]. }
    rewrite (color_get_colour n) by (done || apply M). cbn [mbind option_bind]. destruct (Z.eqb_spec (colour cm v) WHITE) as [Hw|Hw].
    + destruct (discover_spec cm t v _ M Hi Hv Hw) as (cm1 & t1 & -> & -> & M1 & Hd & Hc1). cbn [mbind option_bind].
      pose proof (work_discover cm cm1 v Hv Hw Hc1) as Hwk.
      assert (scc_inv n succs (abs_scc cm1 t1) (frames_of ((v, out_edges g v) :: (u, es) :: stack))) as Hi1.
      { apply (discover_inv n succs _ v _ _ (frames_of ((u, es) :: stack)) Hi Hv Hw Hd); [done|exact Hadj|].
        intros x xs [[= -> ->]|Hx]%elem_of_cons.
        - destruct (si_edges _ _ _ _ Hi u (v :: map target es)) as (pre & E & Hpre); [left|]. exists (pre ++ [v]).
          rewrite <- app_assoc. split; [done|]. intros w [Hin|Hin]%elem_of_app; [left; by apply Hpre|right; by apply list_elem_of_singleton in Hin].
        - destruct (si_edges _ _ _ _ Hi x xs) as (pre & E & Hpre); [by right|]. exists pre. split; [done|]. intros w Hin. left. by apply Hpre. }
      destruct (IH v (out_edges g v) ((u, es) :: stack) cm1 t1 M1 Hi1) as (cm2 & t2 & E2 & M2 & Hi2 & Hw2 & Hk2);
        [cbn in *; rewrite !length_map in *; unfold succs in Hwk; rewrite length_map in Hwk; lia|].
      exists cm2, t2. split; [done|]. split; [done|]. split; [done|]. split; [lia|]. intros x Hx. apply Hk2. rewrite Hc1. by case_decide.
    + apply IH; [done| |cbn in *; lia]. by apply (skip_inv n succs _ u v (map target es) (frames_of stack)).
Qed.

Lemma dfs_visit_spec fuel v cm t :
  maps_ok cm t -> scc_inv n succs (abs_scc cm t) [] -> (v < n)%nat -> colour cm v = WHITE -> (work cm <= fuel)%nat ->
  exists cm' t', depth_first_visit_impl g tarjan_discover (tarjan_finish g) fuel v cm t = Some (cm', t')
    /\ maps_ok cm' t' /\ scc_inv n succs (abs_scc cm' t') [] /\ (work cm' <= work cm)%nat
    /\ colour cm' v <> WHITE /\ forall w, colour cm w <> WHITE -> colour cm' w <> WHITE.
Proof using Hok Hbig.
  intros M Hi Hv Hw Hf. unfold depth_first_visit_impl.
  destruct (discover_spec cm t v [] M Hi Hv Hw) as (cm1 & t1 & -> & -> & M1 & Hd & Hc1). cbn [mbind option_bind].
  pose proof (work_discover cm cm1 v Hv Hw Hc1) as Hwk.
  assert (scc_inv n succs (abs_scc cm1 t1) (frames_of [(v, out_edges g v)])) as Hi1.
  { apply (discover_inv n succs _ v _ [] [] Hi Hv Hw Hd); [done|done|]. by intros x xs []%not_elem_of_nil. }
  destruct (dfs_loop_spec fuel v (out_edges g v) [] cm1 t1 M1 Hi1) as (cm2 & t2 & E2 & M2 & Hi2 & Hw2 & Hk2);
    [cbn; unfold succs in Hwk; rewrite length_map in *; lia|].
  exists cm2, t2. split; [done|]. split; [done|]. split; [done|]. split; [lia|]. split.
  - apply Hk2. rewrite Hc1. by rewrite decide_True.
  - intros w Hww. apply Hk2. rewrite Hc1. by case_decide.
Qed.

Lemma dfs_vertices_spec fuel vs : forall cm t,
  maps_ok cm t -> scc_inv n succs (abs_scc cm t) [] -> (forall v, v ∈ vs -> (v < n)%nat) -> (work cm <= fuel)%nat ->
  exists cm' t', dfs_vertices g tarjan_discover (tarjan_finish g) fuel vs cm t = Some (cm', t')
    /\ maps_ok cm' t' /\ scc_inv n succs (abs_scc cm' t') []
    /\ forall w, w ∈ vs \/ colour cm w <> WHITE -> colour cm' w <> WHITE.
Proof using Hok Hbig.
  induction vs as [| v vs IH]; intros cm t M Hi Hvs Hf; cbn [dfs_vertices].
  { exists cm, t. split; [done|]. split; [done|]. split; [done|]. by intros w [[]%not_elem_of_nil|?]. }
  assert (v < n)%nat as Hv by (apply Hvs; left). assert (forall v, v ∈ vs -> (v < n)%nat) as Hvs' by (intros; apply Hvs; by right).
  rewrite (color_get_colour n) by (done || apply M). cbn [mbind option_bind]. destruct (Z.eqb_spec (colour cm v) WHITE) as [Hw|Hw].
  - destruct (dfs_visit_spec fuel v cm t M Hi Hv Hw Hf) as (cm1 & t1 & -> & M1 & Hi1 & Hwk & Hv1 & Hk1). cbn [mbind option_bind].
    destruct (IH cm1 t1 M1 Hi1 Hvs' ltac:(lia)) as (cm2 & t2 & E2 & M2 & Hi2 & Hk2). exists cm2, t2. split; [done|]. split; [done|]. split; [done|].
    intros w [[->|Hin]%elem_of_cons|Hww]; apply Hk2; auto.
  - destruct (IH cm t M Hi Hvs' Hf) as (cm2 & t2 & E2 & M2 & Hi2 & Hk2). exists cm2, t2. split; [done|]. split; [done|]. split; [done|].
    intros w [[->|Hin]%elem_of_cons|Hww]; apply Hk2; auto.
Qed.

Lemma sum_le (f f' : nat -> nat) l : (forall x, x ∈ l -> (f x <= f' x)%nat) -> (sum_list_with f l <= sum_list_with f' l)%nat.
Proof.
  induction l as [| x l IH]; intros H; [done|]. cbn. assert (f x <= f' x)%nat by (apply H; left).
  assert (sum_list_with f l <= sum_list_with f' l)%nat by (apply IH; intros; apply H; by right). lia.
Qed.

Lemma sum_vertices (vs : list (vertex VP EP)) :
  (sum_list_with (fun v => S (length (outs vs v))) (seq 0 (length vs)) <= length vs + edge_total vs)%nat.
Proof.
  induction vs as [|x vs IH] using rev_ind; [done|]. rewrite length_app. cbn [length]. rewrite seq_app, sum_list_with_app. cbn.
  unfold edge_total in *. rewrite sum_list_with_app. cbn. unfold outs at 2. rewrite lookup_app_r, Nat.sub_diag by lia. cbn.
  enough (sum_list_with (fun v => S (length (outs (vs ++ [x]) v))) (seq 0 (length vs))
    <= sum_list_with (fun v => S (length (outs vs v))) (seq 0 (length vs)))%nat by lia.
  apply sum_le. intros v Hv%elem_of_seq. unfold outs. by rewrite lookup_app_l by lia.
Qed.

Lemma work_le cm : (work cm <= n + edge_total (vertices g))%nat.
Proof.
  etransitivity; [|apply sum_vertices]. apply sum_le. intros v _. unfold succs. rewrite length_map. fold (out_edges g v).
  by case_match; [|lia].
Qed.

(** ** The start *)

Lemma start_ok comp0 : length comp0 = S n ->
  let t := mkTarjan comp0 0 (amap_new n null_vertex) (amap_new n 0) 0 [] in
  let cm := colors_init (colors_new n) in
  maps_ok cm t /\ scc_inv n succs (abs_scc cm t) [].
Proof.
  intros Hl t cm. assert (forall v, colour cm v = WHITE) as Hc by (intros v; apply colour_init).
  assert (n <= 4 * length (colors_new n))%nat as Hroom.
  { unfold colors_new. rewrite length_replicate. pose proof (Nat.div_mod_eq n 4). pose proof (Nat.mod_upper_bound n 4). lia. }
  split.
  - split; [by apply colors_init_ok|done|by apply length_replicate..|by apply Forall_replicate|].
    change (0 + Z.of_nat (white n cm) <= Z.of_nat n). assert (white n cm <= n)%nat; [|lia]. unfold white. etransitivity; [apply filter_length_le|]. by rewrite length_seq.
  - assert (forall v, ~ off (abs_scc cm t) v) as Hno by (intros v [Hv _]; apply Hv, Hc).
    split.
    1: intros v; left; apply Hc.
    1: intros v Hv; by destruct (Hv (Hc v)).
    1: intros v; change (colour cm v = GRAY <-> v ∈ []); rewrite Hc; split; [done|by intros []%not_elem_of_nil].
    1, 4: constructor.
    1: by intros u es []%not_elem_of_nil.
    1, 4: by intros v []%not_elem_of_nil.
    1: intros v Hv; change (colour cm v = GRAY) in Hv; by rewrite Hc in Hv.
    1: intros v Hv; by destruct (Hno v).
    1-3: by intros v w []%not_elem_of_nil.
    1: intros u v Hu; by destruct (Hno u).
    all: cbn; lia.
Qed.

End Link.

(** ** The components *)

Section Components.
Context {VP EP : Type}.

Definition comp_of (l : list Z) (v : nat) : Z := default 0 (amap_get v l).

(** [l] numbers the strongly connected components of [g] from 0 to [c - 1],
    callees first. *)
Definition numbers_components (g : graph VP EP) (c : Z) (l : list Z) : Prop :=
  (forall u v, (u < capacity g)%nat -> (v < capacity g)%nat ->
     (comp_of l u = comp_of l v <-> reach (succs g) u v /\ reach (succs g) v u))
  /\ (forall v, (v < capacity g)%nat -> 0 <= comp_of l v < c)
  /\ (forall k, 0 <= k < c -> exists v, (v < capacity g)%nat /\ comp_of l v = k)
  /\ (forall e, has_edge g e -> comp_of l (target e) <= comp_of l (source e)).

Lemma strong_components_run (g : graph VP EP) fuel comp0 :
  graph_ok g -> Z.of_nat (capacity g) < 9223372036854775807 -> length comp0 = S (capacity g) ->
  (capacity g + edge_total (vertices g) <= fuel)%nat ->
  exists c l, strong_components fuel g comp0 = Some (c, l) /\ length l = S (capacity g) /\ numbers_components g c l.
Proof.
  intros Hok Hbig Hl Hf. destruct (start_ok g comp0 Hl) as [M Hi]. unfold strong_components, depth_first_search. cbv zeta.
  destruct (dfs_vertices_spec g Hok Hbig fuel (seq 0 (capacity g)) _ _ M Hi) as (cm & t & -> & M' & Hi' & Hall).
  { intros v Hv%elem_of_seq. lia. }
  { etransitivity; [apply work_le|done]. }
  cbn [mbind option_bind]. exists (c_total t), (comp t). split; [done|]. split; [apply M'|].
  destruct (scc_done (capacity g) (succs g) (abs_scc cm t) Hi') as (H1 & H2 & H3 & H4).
  { intros v Hv. apply Hall. left. apply elem_of_seq. lia. }
  split; [exact H1|]. split; [exact H2|]. split; [exact H3|]. intros e He. apply H4.
  - by apply (out_edge_lt g Hok _ e).
  - apply list_elem_of_fmap. by exists e.
Qed.

(** C17: Tarjan's algorithm as the linker runs it returns, with one unit of fuel
    per vertex and edge, and is exact: two vertices get the same number iff
    each reaches the other, the numbers are [0 .. c - 1], all used, and an edge
    never leads to a higher number. *)
Theorem strong_components_exact (g : graph VP EP) (fuel : nat) (comp0 : list Z) :
  graph_ok g -> Z.of_nat (capacity g) < 9223372036854775807 -> length comp0 = S (capacity g) ->
  (capacity g + edge_total (vertices g) <= fuel)%nat ->
  exists c l, strong_components fuel g comp0 = Some (c, l) /\ numbers_components g c l.
Proof.
  intros Hok Hbig Hl Hf. destruct (strong_components_run g fuel comp0 Hok Hbig Hl Hf) as (c & l & E & _ & H). eauto.
Qed.

End Components.

(** Two functions that call each other, and one that both need. *)
Definition call_graph : graph nat nat :=
  let e01 := mkEdge 0%nat 1%nat 0%nat in let e10 := mkEdge 1%nat 0%nat 0%nat in let e12 := mkEdge 1%nat 2%nat 0%nat in
  mkGraph 3 3 [] [mkVertex [e01] [e10] 0%nat false; mkVertex [e10; e12] [e01] 0%nat false; mkVertex [] [e12] 0%nat false].

Lemma call_graph_ok : graph_ok call_graph.
Proof.
  destruct (add_vertex_refines 0%nat (@empty_graph nat nat) empty_graph_ok) as (v1 & g1 & E1 & H1 & _). vm_compute in E1. injection E1 as _ <-.
  destruct (add_vertex_refines 0%nat _ H1) as (v2 & g2 & E2 & H2 & _). vm_compute in E2. injection E2 as _ <-.
  destruct (add_vertex_refines 0%nat _ H2) as (v3 & g3 & E3 & H3 & _). vm_compute in E3. injection E3 as _ <-.
  destruct (add_edge_with_refines uv_insert_unique 0 1 0%nat _ ltac:(done) H3) as (g4 & E4 & H4 & _).
  { eexists; split; reflexivity. } { eexists; split; reflexivity. } { by intros []%not_elem_of_nil. }
  vm_compute in E4. injection E4 as <-.
  destruct (add_edge_with_refines uv_insert_unique 1 0 0%nat _ ltac:(done) H4) as (g5 & E5 & H5 & _).
  { eexists; split; reflexivity. } { eexists; split; reflexivity. } { by intros []%not_elem_of_nil. }
  vm_compute in E5. injection E5 as <-.
  destruct (add_edge_with_refines uv_insert_unique 1 2 0%nat _ ltac:(done) H5) as (g6 & E6 & H6 & _).
  { eexists; split; reflexivity. } { eexists; split; reflexivity. } { intros Hin. apply list_elem_of_singleton in Hin. discriminate. }
  vm_compute in E6. by injection E6 as <-.
Qed.

Lemma strong_components_exact_witness :
  strong_components 6 call_graph [0; 0; 0; 0] = Some (2, [1; 1; 0; 0])
  /\ exists c l, strong_components 6 call_graph [0; 0; 0; 0] = Some (c, l) /\ numbers_components call_graph c l.
Proof.
  split; [vm_compute; reflexivity|].
  apply (strong_components_exact call_graph 6 [0; 0; 0; 0]); [exact call_graph_ok|vm_compute; reflexivity|reflexivity|vm_compute; lia].
Defined.
