(* ===== verification/Condense.v ===== *)
(** * Components in call order

    [strong_components_graph] builds the graph of the components, and the
    bottom-up traversal of it lists them callees first, as
    [DataDrivenSCCPass] uses them. *)

From stdpp Require Import relations.
From S2P Require Import Prelude Graph GraphProps SearchProps Scc Tarjan SccProps.

Section Build.
Context {VP EP E2 : Type} `{EqDecision E2} (e0 : E2).
Implicit Types (out : graph (list nat) E2).

Definition member_list out (k : nat) : option (list nat) := v_property <$> vertices out !! k.

Lemma live_capacity out v : live out v -> (v < capacity out)%nat.
Proof. apply live_lt. Qed.

(** ** New vertices *)

Lemma add_components_spec k : forall out, graph_ok out -> free_vertices out = [] ->
  exists out', add_components k out = Some out' /\ graph_ok out' /\ capacity out' = (capacity out + k)%nat
    /\ (forall u, live out' u <-> live out u \/ (capacity out <= u < capacity out + k)%nat)
    /\ (forall e, has_edge out' e <-> has_edge out e)
    /\ vertices out' = vertices out ++ replicate k (mkVertex [] [] [] false).
Proof.
  induction k as [|k IH]; intros out Hok Hfree; cbn [add_components].
  { exists out. split; [done|]. split; [done|]. split; [lia|]. split; [intros u; split; [by left|intros [?|?]; [done|lia]]|].
    split; [done|]. by rewrite app_nil_r. }
  destruct (add_vertex_refines [] out Hok) as (v & out1 & E & Hok1 & _ & Hl & He).
  assert (v = capacity out /\ free_vertices out1 = [] /\ vertices out1 = vertices out ++ [mkVertex [] [] [] false]) as (-> & Hf1 & Hv1).
  { unfold add_vertex in E. rewrite Hfree in E. cbn [take_free] in E. by injection E as <- <-. }
  rewrite E. cbn [mbind option_bind]. assert (capacity out1 = S (capacity out)) as Hc1 by (unfold capacity; rewrite Hv1, length_app; cbn; lia).
  destruct (IH out1 Hok1 Hf1) as (out' & -> & Hok' & Hc & Hl' & He' & Hv'). exists out'. split; [done|]. split; [done|]. split; [lia|].
  split; [|split; [intros e; by rewrite He', He|]].
  - intros u. rewrite Hl', Hl, Hc1. split; [intros [[?| ->]|?]; [by left|right; lia|right; lia]|].
    intros [?|Hu]; [by left; left|]. destruct (decide (u = capacity out)); [left; by right|right; lia].
  - rewrite Hv', Hv1, <- app_assoc. done.
Qed.

(** ** Members *)

Lemma push_member_spec v2 v1 out : graph_ok out -> live out v2 ->
  exists out', push_member v2 v1 out = Some out' /\ graph_ok out' /\ capacity out' = capacity out
    /\ (forall u, live out' u <-> live out u) /\ (forall e, has_edge out' e <-> has_edge out e)
    /\ forall k, member_list out' k = (fun l => if decide (k = v2) then l ++ [v1] else l) <$> member_list out k.
Proof.
  intros Hok Hl. destruct (live_lookup _ _ Hl) as [x Hx]. unfold push_member. rewrite (upd_vertex_some _ _ _ x Hx).
  set (y := mkVertex (v_out x) (v_in x) (v_property x ++ [v1]) (v_empty x)). eexists. split; [reflexivity|].
  pose proof (lookup_lt_Some _ _ _ Hx) as Hlt.
  assert (forall u, outs (<[v2 := y]> (vertices out)) u = outs (vertices out) u
    /\ ins (<[v2 := y]> (vertices out)) u = ins (vertices out) u
    /\ vacant (<[v2 := y]> (vertices out)) u = vacant (vertices out) u) as Hsame.
  { intros u. unfold outs, ins, vacant. destruct (decide (u = v2)) as [->|Hne].
    - rewrite list_lookup_insert_eq by done. by rewrite Hx.
    - by rewrite list_lookup_insert_ne. }
  assert (forall u, outs (<[v2 := y]> (vertices out)) u = outs (vertices out) u) as Ho by apply Hsame.
  assert (forall u, ins (<[v2 := y]> (vertices out)) u = ins (vertices out) u) as Hin by apply Hsame.
  assert (forall u, vacant (<[v2 := y]> (vertices out)) u = vacant (vertices out) u) as Hva by apply Hsame.
  split; [|split; [|split; [|split]]].
  - eapply (graph_ok_frame out); [done| | |].
    + split; [done|]. split; [done|]. cbn. split; [by rewrite length_insert|]. apply Hsame.
    + destruct (go_lists _ Hok). split; cbn; intros u; rewrite ?Ho, ?Hin, ?Hva; auto.
    + pose proof (edge_total_insert _ _ _ y Hx) as Ht. change (length (v_out y)) with (length (v_out x)) in Ht.
      cbn [put_vertices g_edge_size vertices]. rewrite (go_edges _ Hok).
      by replace (edge_total (<[v2 := y]> (vertices out))) with (edge_total (vertices out)) by lia.
  - cbn. unfold capacity. cbn. by rewrite length_insert.
  - intros u. rewrite !live_vacant. cbn. by destruct (Hsame u) as (_ & _ & ->).
  - intros e. unfold has_edge. rewrite !outs_edges. cbn. by rewrite Ho.
  - intros k. unfold member_list. cbn. destruct (decide (k = v2)) as [->|Hne].
    + rewrite list_lookup_insert_eq by done. by rewrite Hx.
    + rewrite list_lookup_insert_ne by done. by destruct (vertices out !! k).
Qed.

(** ** Edges *)

Lemma add_edge_members v1 v2 p out out' : add_edge v1 v2 p out = Some out' ->
  capacity out' = capacity out /\ forall k, member_list out' k = member_list out k.
Proof.
  assert (forall (vs : list (vertex (list nat) E2)) v x y k, vs !! v = Some x -> v_property y = v_property x ->
    v_property <$> <[v := y]> vs !! k = v_property <$> vs !! k) as Hins.
  { intros vs v x y k Hx Hy. destruct (decide (k = v)) as [->|Hne]; [|by rewrite list_lookup_insert_ne].
    rewrite list_lookup_insert_eq by (by eapply lookup_lt_Some). rewrite Hx. cbn. by rewrite Hy. }
  unfold add_edge, add_edge_with. destruct (vertices out !! v1) as [x|] eqn:Hx; cbn [mbind option_bind]; [|done].
  destruct (uv_insert _ (v_out x)) as [b1 l1]. rewrite (upd_vertex_some _ _ _ x Hx). cbn [mbind option_bind].
  set (out1 := put_vertices _ out). assert (capacity out1 = capacity out) as Hc1 by (unfold capacity; cbn; by rewrite length_insert).
  assert (forall k, member_list out1 k = member_list out k) as Hm1 by (intros k; by apply (Hins _ _ x)).
  destruct b1; [|by intros [= <-]]. destruct (vertices out1 !! v2) as [y|] eqn:Hy; cbn [mbind option_bind]; [|done].
  destruct (uv_insert _ (v_in y)) as [b2 l2]. rewrite (upd_vertex_some _ _ _ y Hy). cbn [mbind option_bind].
  set (out2 := put_vertices _ out1). assert (capacity out2 = capacity out) as Hc2.
  { rewrite <- Hc1. unfold capacity. cbn. by rewrite length_insert. }
  assert (forall k, member_list out2 k = member_list out k) as Hm2.
  { intros k. rewrite <- Hm1. by apply (Hins _ _ y). }
  by destruct b2; intros [= <-].
Qed.

(** ** The loops *)

Context (g : graph VP EP) (Hg : graph_ok g) (c : Z) (l : list Z).
Context (Hlen : length l = S (capacity g)) (Hnum : numbers_components g c l).

Definition cn (v : nat) : nat := Z.to_nat (comp_of l v).

Lemma cn_get v : (v < capacity g)%nat -> amap_get v l = Some (comp_of l v) /\ (cn v < Z.to_nat c)%nat /\ Z.of_nat (cn v) = comp_of l v.
Proof using Hlen Hnum.
  intros Hv. destruct (lookup_lt_is_Some_2 l v ltac:(lia)) as [z Ez]. pose proof (proj1 (proj2 Hnum) v Hv) as Hr.
  unfold cn. split; [|lia]. unfold comp_of, amap_get. by rewrite Ez.
Qed.

Lemma edge_lt e : has_edge g e -> (source e < capacity g)%nat /\ (target e < capacity g)%nat.
Proof using Hg. intros He. destruct (edge_ends_live g e (go_lists _ Hg) He). split; by apply live_lt. Qed.

(** [out] holds the components of the vertices [done] and the edges [es]. *)
Record filled (done : list nat) (es : list (edge EP)) (out : graph (list nat) E2) : Prop := {
  fi_ok : graph_ok out;
  fi_cap : capacity out = Z.to_nat c;
  fi_live : forall u, live out u <-> (u < Z.to_nat c)%nat;
  fi_edges : forall e', has_edge out e' <-> eprop e' = e0 /\ exists e,
    e ∈ es /\ source e' = cn (source e) /\ target e' = cn (target e) /\ source e' <> target e';
  fi_members : forall k, (k < Z.to_nat c)%nat -> member_list out k = Some (filter (fun v => cn v = k) done) }.

Lemma add_component_edges_spec done v1 : forall es' es out,
  (forall e, e ∈ es' -> e ∈ out_edges g v1) -> filled done es out ->
  exists out', add_component_edges e0 l (comp_of l v1) es' out = Some out' /\ filled done (es ++ es') out'.
Proof using Hg Hlen Hnum.
  intros es'. induction es' as [|e es' IH]; intros es out Hin Hf; cbn [add_component_edges].
  { exists out. by rewrite app_nil_r. }
  assert (e ∈ out_edges g v1) as He by (apply Hin; left). pose proof (lo_out_source _ (go_lists _ Hg) v1 e He) as Hs.
  assert (has_edge g e) as Hh by (unfold has_edge; by rewrite Hs). destruct (edge_lt e Hh) as [Hlt1 Hlt2]. rewrite Hs in Hlt1.
  destruct (cn_get v1 Hlt1) as (_ & B1 & Z1), (cn_get (target e) Hlt2) as (-> & B2 & Z2). cbn [mbind option_bind].
  assert (forall out, filled done (es ++ [e]) out -> exists out', add_component_edges e0 l (comp_of l v1) es' out = Some out' /\ filled done (es ++ e :: es') out') as Hrest.
  { intros out1 Hf1. destruct (IH (es ++ [e]) out1) as (out' & E & Hf'); [intros; apply Hin; by right|done|].
    exists out'. rewrite <- app_assoc in Hf'. by split. }
  destruct Hf as [F1 F2 F3 F4 F5]. destruct (Z.eqb_spec (comp_of l v1) (comp_of l (target e))) as [E|E].
  - apply Hrest. split; try done. intros e'. rewrite F4. split; intros (Hp & e1 & H1 & H2 & H3 & H4); (split; [done|]); exists e1.
    + split; [apply elem_of_app; by left|done].
    + apply elem_of_app in H1 as [H1|H1]; [by split|]. apply list_elem_of_singleton in H1 as ->. exfalso. apply H4.
      rewrite H2, H3, Hs. unfold cn. by rewrite E.
  - change (Z.to_nat (comp_of l v1)) with (cn v1). change (Z.to_nat (comp_of l (target e))) with (cn (target e)).
    destruct (add_edge_refines (cn v1) (cn (target e)) e0 out F1) as (out1 & E1 & Hok1 & Hl1 & He1); [by apply F3|by apply F3|].
    destruct (add_edge_members _ _ _ _ _ E1) as [C1 M1]. rewrite E1. cbn [mbind option_bind]. apply Hrest.
    split; [done|by rewrite C1|intros u; by rewrite Hl1, F3| |intros k Hk; by rewrite M1, F5].
    intros e'. rewrite He1, F4. split.
    + intros [(Hp & e1 & H1 & H2)|Heq]; [split; [done|]; exists e1; split; [apply elem_of_app; by left|done]|]. subst e'. split; [done|].
      exists e. cbn. rewrite Hs. split; [apply elem_of_app; right; left|]. split; [done|]. split; [done|]. lia.
    + intros (Hp & e1 & [H1|H1]%elem_of_app & H2 & H3 & H4); [left; split; [done|]; by exists e1|right].
      apply list_elem_of_singleton in H1 as ->. rewrite Hs in H2. destruct e' as [s' t' p']. cbn in *. by subst.
Qed.

Lemma fill_components_spec vs : forall done es out,
  (forall v, v ∈ vs -> (v < capacity g)%nat) -> filled done es out ->
  exists out', fill_components e0 g l vs out = Some out' /\ filled (done ++ vs) (es ++ concat (map (out_edges g) vs)) out'.
Proof using Hg Hlen Hnum.
  induction vs as [|v vs IH]; intros done es out Hvs Hf; cbn [fill_components].
  { exists out. cbn. by rewrite !app_nil_r. }
  destruct (cn_get v ltac:(apply Hvs; left)) as (-> & B & _). cbn [mbind option_bind]. change (Z.to_nat (comp_of l v)) with (cn v).
  destruct Hf as [F1 F2 F3 F4 F5]. destruct (push_member_spec (cn v) v out F1) as (out1 & -> & Hok1 & C1 & L1 & E1 & M1); [by apply F3|].
  cbn [mbind option_bind]. assert (filled (done ++ [v]) es out1) as Hf1.
  { split; [done|by rewrite C1|intros u; by rewrite L1, F3|intros e'; by rewrite E1, F4|].
    intros k Hk. rewrite M1, F5 by done. cbn. f_equal. rewrite list.filter_app. case_decide as Ek.
    - subst k. by rewrite list.filter_cons_True by done.
    - rewrite list.filter_cons_False by congruence. by rewrite app_nil_r. }
  destruct (add_component_edges_spec (done ++ [v]) v (out_edges g v) es out1) as (out2 & -> & Hf2); [done|done|]. cbn [mbind option_bind].
  destruct (IH (done ++ [v]) (es ++ out_edges g v) out2) as (out' & -> & Hf'); [intros; apply Hvs; by right|done|].
  exists out'. split; [done|]. cbn. by rewrite <- !app_assoc in Hf'.
Qed.

(** ** The order *)

Section Order.
Context (out : graph (list nat) E2) (Hf : filled (seq 0 (capacity g)) (concat (map (out_edges g) (seq 0 (capacity g)))) out).

Lemma edge_out e : has_edge g e -> cn (source e) <> cn (target e) -> has_edge out (mkEdge (cn (source e)) (cn (target e)) e0).
Proof using Hg Hlen Hnum Hf.
  intros He Hne. apply (fi_edges _ _ _ Hf). split; [done|]. exists e. split; [|done].
  apply list_elem_of_In, in_concat. exists (out_edges g (source e)). split; [|by apply list_elem_of_In].
  apply in_map, in_seq. pose proof (proj1 (edge_lt e He)). lia.
Qed.

Lemma out_descends k k' : successor out k' k -> (k' < k)%nat /\ (k < Z.to_nat c)%nat.
Proof using Hg Hlen Hnum Hf.
  intros (e' & He' & <- & <-). apply (fi_edges _ _ _ Hf) in He' as (_ & e & He & H1 & H2 & H3).
  apply list_elem_of_In, in_concat in He as (es & Hes & He). apply in_map_iff in Hes as (v & <- & Hv).
  apply list_elem_of_In in He. pose proof (lo_out_source _ (go_lists _ Hg) v e He) as Hs.
  assert (has_edge g e) as Hh by (unfold has_edge; by rewrite Hs). destruct (edge_lt e Hh) as [L1 L2].
  destruct (cn_get _ L1) as (_ & B1 & Z1), (cn_get _ L2) as (_ & B2 & Z2). destruct Hnum as (_ & _ & _ & Hle).
  specialize (Hle e Hh). rewrite H1, H2. rewrite H1, H2 in H3. lia.
Qed.

Lemma out_acc k : Acc (successor out) k.
Proof using Hg Hlen Hnum Hf.
  induction k as [k IH] using lt_wf_ind. constructor. intros k' Hk. by apply IH, (out_descends k k').
Qed.

(** Everything reached from a component is in it or in an earlier one. *)
Lemma order_closed order before k after u v :
  (forall b x a, order = b ++ x :: a -> forall w, successor out w x -> w ∈ b) ->
  order = before ++ k :: after -> (u < capacity g)%nat -> cn u = k -> reach (succs g) u v ->
  (v < capacity g)%nat /\ (cn v = k \/ cn v ∈ before).
Proof using Hg Hlen Hnum Hf.
  intros Hord Ho Hu Hk Hr.
  refine (rtc_ind_r (fun v => (v < capacity g)%nat /\ (cn v = k \/ cn v ∈ before)) u _ _ v Hr); [by auto|].
  clear v Hr. intros v w _ Hw [Hv IH].
  apply list_elem_of_fmap in Hw as (e & -> & He). pose proof (lo_out_source _ (go_lists _ Hg) v e He) as Hs.
  assert (has_edge g e) as Hh by (unfold has_edge; by rewrite Hs). destruct (edge_lt e Hh) as [_ Ht]. split; [done|].
  destruct (decide (cn (source e) = cn (target e))) as [E|E]; [rewrite <- E, Hs; done|].
  assert (successor out (cn (target e)) (cn v)) as Hsucc.
  { eexists. split; [by apply (edge_out e)|]. cbn. by rewrite Hs. }
  right. destruct IH as [IH|IH]; [rewrite IH in Hsucc; by apply (Hord before k after)|].
  apply list_elem_of_split in IH as (b1 & b2 & ->). apply elem_of_app. left.
  apply (Hord b1 (cn v) (b2 ++ k :: after)); [|done]. by rewrite Ho, <- app_assoc.
Qed.

End Order.

End Build.

Section DataSccs.
Context {VP EP E2 : Type} `{EqDecision E2} (e0 : E2).

Lemma strong_components_graph_run (g : graph VP EP) fuel :
  graph_ok g -> Z.of_nat (capacity g) < 9223372036854775807 -> (capacity g + edge_total (vertices g) <= fuel)%nat ->
  exists c l out, strong_components_graph e0 fuel g empty_graph = Some (c, out)
    /\ length l = S (capacity g) /\ numbers_components g c l
    /\ filled e0 c l (seq 0 (capacity g)) (concat (map (out_edges g) (seq 0 (capacity g)))) out.
Proof.
  intros Hg Hbig Hfuel. destruct (strong_components_run g fuel (amap_new (capacity g) 0) Hg Hbig) as (c & l & E & Hlen & Hnum);
    [by apply length_replicate|done|]. unfold strong_components_graph. rewrite E. cbn [mbind option_bind].
  destruct (add_components_spec (Z.to_nat c) (@empty_graph (list nat) E2) empty_graph_ok eq_refl) as (out0 & -> & Hok0 & Hc0 & Hl0 & He0 & Hv0).
  cbn [mbind option_bind]. assert (filled e0 c l [] ([] : list (edge EP)) out0) as Hf0.
  { split; [done|done| | |].
    - intros u. rewrite Hl0. split; [intros [(x & Hx & _)|?]; [done|cbn in *; lia]|]. intros Hu. right. cbn. lia.
    - intros e'. rewrite He0. split; [by intros []%not_elem_of_nil|]. by intros (_ & e & []%not_elem_of_nil & _).
    - intros k Hk. unfold member_list. rewrite Hv0. cbn [vertices empty_graph app]. by rewrite lookup_replicate_2. }
  destruct (fill_components_spec e0 g Hg c l Hlen Hnum (seq 0 (capacity g)) [] [] out0) as (out & -> & Hf);
    [intros v Hv%elem_of_seq; lia|done|]. cbn [mbind option_bind]. by exists c, l, out.
Qed.

(** The lists of members are disjoint and cover the vertices. *)
Lemma members_permutation (f : nat -> nat) n m order : NoDup order ->
  (forall k, k ∈ order <-> (k < m)%nat) -> (forall v, (v < n)%nat -> (f v < m)%nat) ->
  concat (map (fun k => filter (fun v => f v = k) (seq 0 n)) order) ≡ₚ seq 0 n.
Proof.
  intros Hnd Hin Hf. apply NoDup_Permutation; [|apply NoDup_seq|].
  - clear Hin. induction Hnd as [|k order Hk Hnd IH]; [constructor|]. cbn. apply list.NoDup_app. split; [apply list.NoDup_filter, NoDup_seq|].
    split; [|done]. intros v [Hv _]%list.list_elem_of_filter Hin. apply Hk.
    apply list_elem_of_In, in_concat in Hin as (l & Hl & Hin). apply in_map_iff in Hl as (k' & <- & Hk').
    apply list_elem_of_In, list.list_elem_of_filter in Hin as [Hv' _]. apply list_elem_of_In. by subst.
  - intros v. split.
    + intros Hv. apply list_elem_of_In, in_concat in Hv as (l & Hl & Hv). apply in_map_iff in Hl as (k' & <- & Hk').
      by apply list_elem_of_In, list.list_elem_of_filter in Hv as [_ ?].
    + intros Hv. apply list_elem_of_In, in_concat. exists (filter (fun w => f w = f v) (seq 0 n)).
      split; [|by apply list_elem_of_In, list.list_elem_of_filter]. apply in_map_iff. exists (f v). split; [done|].
      apply list_elem_of_In, Hin, Hf. apply elem_of_seq in Hv. lia.
Qed.

(** The lists of functions that the data-driven pass keeps.  The two
    algorithms return, every vertex of the call graph is in exactly one list,
    the list of a vertex holds exactly the vertices that it reaches and that
    reach it, and everything that a vertex reaches is in its own list or in an
    earlier one: callees come before callers. *)
Lemma data_sccs_run (g : graph VP EP) (fuel : nat) :
  graph_ok g -> Z.of_nat (capacity g) < 9223372036854775807 -> (capacity g + edge_total (vertices g) <= fuel)%nat ->
  exists ls, data_sccs e0 fuel g = Some ls
    /\ concat ls ≡ₚ seq 0 (capacity g)
    /\ forall before l after, ls = before ++ l :: after -> forall u, u ∈ l ->
         (forall v, v ∈ l <-> reach (succs g) u v /\ reach (succs g) v u)
         /\ forall v, reach (succs g) u v -> v ∈ l \/ v ∈ concat before.
Proof.
  intros Hg Hbig Hfuel. destruct (strong_components_graph_run g fuel Hg Hbig Hfuel) as (c & l & out & E & Hlen & Hnum & Hf).
  unfold data_sccs. rewrite E. cbn [mbind option_bind].
  destruct (bottom_up_run out (fi_ok _ _ _ _ _ _ Hf)) as (order & -> & Hnd & Hord & Hall). cbn [mbind option_bind].
  assert (forall k, k ∈ order <-> (k < Z.to_nat c)%nat) as Hin.
  { intros k. rewrite Hall, (fi_cap _ _ _ _ _ _ Hf). split; [by intros []|]. intros Hk. split; [done|]. by apply (out_acc e0 g Hg c l Hlen Hnum). }
  assert (map (fun v => default [] (v_property <$> vertices out !! v)) order
    = map (fun k => filter (fun v => cn l v = k) (seq 0 (capacity g))) order) as ->.
  { apply map_ext_in. intros k Hk%list_elem_of_In%Hin. fold (member_list out k). by rewrite (fi_members _ _ _ _ _ _ Hf k Hk). }
  eexists. split; [reflexivity|]. split.
  { apply (members_permutation (cn l) (capacity g) (Z.to_nat c)); [done|done|]. intros v Hv. by apply (cn_get g c l Hlen Hnum v Hv). }
  intros before m after Hm u Hu. apply map_eq_app in Hm as (b & tl & -> & <- & Htl).
  destruct tl as [|k a]; [done|]. cbn in Htl. injection Htl as <- <-.
  assert (forall v j, v ∈ filter (fun v => cn l v = j) (seq 0 (capacity g)) <-> cn l v = j /\ (v < capacity g)%nat) as Hmem.
  { intros v j. rewrite list.list_elem_of_filter, elem_of_seq. split; intros []; (split; [done|lia]). }
  apply Hmem in Hu as [Hk Hu].
  assert (forall v, reach (succs g) u v -> (v < capacity g)%nat /\ (cn l v = k \/ cn l v ∈ b)) as Hcl.
  { intros v Hr. by apply (order_closed e0 g Hg c l Hlen Hnum out Hf (b ++ k :: a) b k a u v). }
  split; intros v.
  - rewrite Hmem. split.
    + intros [Hv Hlt]. apply (proj1 Hnum u v Hu Hlt). destruct (cn_get g c l Hlen Hnum u Hu), (cn_get g c l Hlen Hnum v Hlt). lia.
    + intros [H1 H2]. destruct (Hcl v H1) as [Hlt _]. split; [|done]. unfold cn in *. rewrite <- Hk. f_equal. symmetry. by apply (proj1 Hnum).
  - intros Hr. destruct (Hcl v Hr) as [Hlt [Hv|Hv]]; [left; by apply Hmem|right].
    apply list_elem_of_In, in_concat. exists (filter (fun w => cn l w = cn l v) (seq 0 (capacity g))).
    split; [|by apply list_elem_of_In, Hmem]. apply in_map_iff. exists (cn l v). split; [done|]. by apply list_elem_of_In.
Qed.

End DataSccs.
