(* ===== verification/Pdg.v ===== *)
(** * The program dependence graph of the linker

    [src/cali-linker/passes/PDG.h] and [PDG.cpp]: nodes for the values of the
    program and for the memory they point to or contain, edges for structure
    ([Deref], [Part]), data flow and calls, and the operations that grow the
    graph and merge its nodes.

    LLVM is a parameter: the class [Llvm] has the values and types of a module
    and the queries that the passes make.  A pointer that may be null is an
    [option].  An exception is the outcome [Throw]; an index outside a vector
    and a null pointer that is followed are [Undef]; recursion over the graph
    takes fuel and ends in [NoFuel] when it is used up. *)

From S2P Require Import Prelude Graph.

(** ** What the passes ask of LLVM *)

Class Llvm := {
  value : Type;
  value_eq_dec :: EqDecision value;
  value_countable :: Countable value;
  ty : Type;
  ty_eq_dec :: EqDecision ty;
  ty_countable :: Countable ty;
  (** values *)
  isa_Function : value -> bool;
  isa_Instruction : value -> bool;
  isa_GlobalVariable : value -> bool;
  isa_ConstantData : value -> bool;
  isa_BitCastOperator : value -> bool;
  isa_CallInst : value -> bool;
  isa_InvokeInst : value -> bool;
  isInlineAsm : value -> bool;
  is_add_or_sub : value -> bool;
  isConstant : value -> bool;
  getType : value -> ty;
  getOperand : value -> nat -> option value;
  (** instructions and calls *)
  getFunction : value -> option value;
  called_function : value -> option value;
  getCalledValue : value -> option value;
  arg_operands : value -> list (option value);
  getNumUses : value -> Z;
  (** functions *)
  getName : value -> string;
  isVarArg : value -> bool;
  isDeclaration : value -> bool;
  arg_size : value -> Z;
  users : value -> list value;
  instructions : value -> list value;
  (** types *)
  isArrayTy : ty -> bool;
  getArrayElementType : ty -> ty;
  isPointerTy : ty -> bool;
  getPointerElementType : ty -> ty;
  isStructTy : ty -> bool;
  getStructNumElements : ty -> nat;
  getStructElementType : ty -> nat -> ty;
  isIntegerTy : ty -> bool;
  getIntegerBitWidth : ty -> Z;
  isFunctionTy : ty -> bool;
  isEmptyTy : ty -> bool;
  isFloatingPointTy : ty -> bool;
  voidTy : ty }.

(** ** Nodes and edges *)

Section Data.
Context `{Llvm}.

Record PDGNode := mkNode {
  n_function : option value;
  n_instruction : option value;
  n_type : option ty;
  n_subnode : bool;
  n_dummy : bool;
  n_source : bool;
  n_ipcsink : bool;
  n_reaches_ipc_sink : bool;
  n_ipcfunction : bool;
  n_constant : bool;
  n_filedescriptor : bool;
  n_influenced_by_shared : bool;
  n_source_type : Z }.

Definition node0 : PDGNode :=
  mkNode None None None false false false false false false false false false 0.

Definition put_function (f : option value) (n : PDGNode) : PDGNode :=
  mkNode f (n_instruction n) (n_type n) (n_subnode n) (n_dummy n) (n_source n) (n_ipcsink n) (n_reaches_ipc_sink n)
    (n_ipcfunction n) (n_constant n) (n_filedescriptor n) (n_influenced_by_shared n) (n_source_type n).
Definition put_source (b : bool) (t : Z) (n : PDGNode) : PDGNode :=
  mkNode (n_function n) (n_instruction n) (n_type n) (n_subnode n) (n_dummy n) b (n_ipcsink n) (n_reaches_ipc_sink n)
    (n_ipcfunction n) (n_constant n) (n_filedescriptor n) (n_influenced_by_shared n) t.
Definition put_ipcsink (b : bool) (n : PDGNode) : PDGNode :=
  mkNode (n_function n) (n_instruction n) (n_type n) (n_subnode n) (n_dummy n) (n_source n) b (n_reaches_ipc_sink n)
    (n_ipcfunction n) (n_constant n) (n_filedescriptor n) (n_influenced_by_shared n) (n_source_type n).
Definition put_reaches (b : bool) (n : PDGNode) : PDGNode :=
  mkNode (n_function n) (n_instruction n) (n_type n) (n_subnode n) (n_dummy n) (n_source n) (n_ipcsink n) b
    (n_ipcfunction n) (n_constant n) (n_filedescriptor n) (n_influenced_by_shared n) (n_source_type n).
Definition put_fd (b : bool) (n : PDGNode) : PDGNode :=
  mkNode (n_function n) (n_instruction n) (n_type n) (n_subnode n) (n_dummy n) (n_source n) (n_ipcsink n) (n_reaches_ipc_sink n)
    (n_ipcfunction n) (n_constant n) b (n_influenced_by_shared n) (n_source_type n).
Definition put_influenced (b : bool) (n : PDGNode) : PDGNode :=
  mkNode (n_function n) (n_instruction n) (n_type n) (n_subnode n) (n_dummy n) (n_source n) (n_ipcsink n) (n_reaches_ipc_sink n)
    (n_ipcfunction n) (n_constant n) (n_filedescriptor n) b (n_source_type n).

End Data.

Inductive PDGEdgeType :=
| Control | Data | Equals | Part | Deref | Param | Return | Invocation
| Summary_Data | Summary_Equals | Summary_Invocation.

#[export] Instance PDGEdgeType_eq_dec : EqDecision PDGEdgeType.
Proof. solve_decision. Defined.

Record PDGEdge := mkPEdge { e_type : PDGEdgeType; e_index : Z }.

#[export] Instance PDGEdge_eq_dec : EqDecision PDGEdge.
Proof. solve_decision. Defined.

(** Structural edges: what a node points to, and its members. *)
Definition is_deref (e : edge PDGEdge) : bool := bool_decide (e_type (eprop e) = Deref).
Definition is_part (e : edge PDGEdge) : bool := bool_decide (e_type (eprop e) = Part).
Definition is_structural (e : edge PDGEdge) : bool := is_deref e || is_part e.

(** ** [std::set<Vertex>]: in ascending order *)

Fixpoint vset_insert (v : nat) (s : list nat) : list nat :=
  match s with
  | [] => [v]
  | w :: s' => if (v <? w)%nat then v :: s else if (v =? w)%nat then s else w :: vset_insert v s'
  end.
Definition vset_erase (v : nat) (s : list nat) : list nat := List.filter (fun w => negb (w =? v)%nat) s.

(** ** The graph and what its operations return *)

Section Pdg.
Context `{Llvm}.

Abbreviation pgraph := (graph PDGNode PDGEdge).

Record PDG := mkPDG {
  p_graph : pgraph;
  value_to_vertex : gmap value nat;
  structClusters : gmap ty Z;
  structClusterToKnownFDFields : gmap Z (gset Z);
  max_parts : Z;
  subnode_limit : Z;
  united_nodes : gset (nat * nat);
  function_to_vertices : gmap (option value) (list nat) }.

(** The constructor; [limits] are those of the configuration. *)
Definition new_PDG (limits : option (Z * Z)) : PDG :=
  let '(parts, depth) := default (32, 5) limits in
  mkPDG empty_graph ∅ ∅ ∅ parts depth ∅ ∅.

Inductive outcome (A : Type) :=
| Ok (a : A) (p : PDG)
| Throw (what : string)
| Undef
| NoFuel.
Arguments Ok {A}.
Arguments Throw {A}.
Arguments Undef {A}.
Arguments NoFuel {A}.

Definition PM (A : Type) : Type := PDG -> outcome A.

#[export] Instance PM_ret : MRet PM := fun A a p => Ok a p.
#[export] Instance PM_bind : MBind PM := fun A B k m p =>
  match m p with
  | Ok a p => k a p
  | Throw w => Throw w
  | Undef => Undef
  | NoFuel => NoFuel
  end.

Definition ask {A} (f : PDG -> A) : PM A := fun p => Ok (f p) p.
Definition modify (f : PDG -> PDG) : PM unit := fun p => Ok tt (f p).
Definition throw {A} (w : string) : PM A := fun _ => Throw w.
Definition no_fuel {A} : PM A := fun _ => NoFuel.
Definition force {A} (o : option A) : PM A := fun p => match o with Some a => Ok a p | None => Undef end.

Fixpoint for_each {A} (l : list A) (f : A -> PM unit) : PM unit :=
  match l with
  | [] => mret tt
  | a :: l => f a ;; for_each l f
  end.

Definition put_graph (g : pgraph) (p : PDG) : PDG :=
  mkPDG g (value_to_vertex p) (structClusters p) (structClusterToKnownFDFields p) (max_parts p) (subnode_limit p)
    (united_nodes p) (function_to_vertices p).
Definition put_values (m : gmap value nat) (p : PDG) : PDG :=
  mkPDG (p_graph p) m (structClusters p) (structClusterToKnownFDFields p) (max_parts p) (subnode_limit p)
    (united_nodes p) (function_to_vertices p).
Definition put_fd_fields (m : gmap Z (gset Z)) (p : PDG) : PDG :=
  mkPDG (p_graph p) (value_to_vertex p) (structClusters p) m (max_parts p) (subnode_limit p)
    (united_nodes p) (function_to_vertices p).
Definition put_united (s : gset (nat * nat)) (p : PDG) : PDG :=
  mkPDG (p_graph p) (value_to_vertex p) (structClusters p) (structClusterToKnownFDFields p) (max_parts p) (subnode_limit p)
    s (function_to_vertices p).
Definition put_index (m : gmap (option value) (list nat)) (p : PDG) : PDG :=
  mkPDG (p_graph p) (value_to_vertex p) (structClusters p) (structClusterToKnownFDFields p) (max_parts p) (subnode_limit p)
    (united_nodes p) m.

(** An operation of [BaseGraph], and the property of a vertex, read and written. *)
Definition on_graph {A} (f : pgraph -> option (A * pgraph)) : PM A := fun p =>
  match f (p_graph p) with Some (a, g) => Ok a (put_graph g p) | None => Undef end.
Definition on_graph_ (f : pgraph -> option pgraph) : PM unit := on_graph (fun g => pair tt <$> f g).

Definition node_of (g : pgraph) (v : nat) : option PDGNode := v_property <$> vertices g !! v.
Definition node (v : nat) : PM PDGNode := fun p => force (node_of (p_graph p) v) p.
Definition set_property (n : PDGNode) (x : vertex PDGNode PDGEdge) : vertex PDGNode PDGEdge :=
  mkVertex (v_out x) (v_in x) n (v_empty x).
Definition upd_node (v : nat) (f : PDGNode -> PDGNode) : PM unit :=
  on_graph_ (upd_vertex v (fun x => set_property (f (v_property x)) x)).

Definition outs_of (v : nat) : PM (list (edge PDGEdge)) := ask (fun p => out_edges (p_graph p) v).
Definition ins_of (v : nat) : PM (list (edge PDGEdge)) := ask (fun p => in_edges (p_graph p) v).

Definition pdg_add_edge (v1 v2 : nat) (t : PDGEdgeType) (i : Z) : PM unit := on_graph_ (add_edge v1 v2 (mkPEdge t i)).

(** [getVerticesForFunction] *)
Definition vertices_for (f : option value) (p : PDG) : list nat := default [] (function_to_vertices p !! f).

Definition pdg_add_vertex (n : PDGNode) : PM nat :=
  v ← on_graph (add_vertex n);
  modify (fun p => put_index (<[n_function n := vset_insert v (vertices_for (n_function n) p)]> (function_to_vertices p)) p) ;;
  mret v.

Definition pdg_remove_vertex (v : nat) : PM unit :=
  n ← node v;
  modify (fun p => put_index (<[n_function n := vset_erase v (vertices_for (n_function n) p)]> (function_to_vertices p)) p) ;;
  on_graph_ (remove_vertex v).

Definition updateFunction (v : nat) (f : option value) : PM unit :=
  n ← node v;
  modify (fun p => put_index (<[n_function n := vset_erase v (vertices_for (n_function n) p)]> (function_to_vertices p)) p) ;;
  upd_node v (put_function f) ;;
  modify (fun p => put_index (<[f := vset_insert v (vertices_for f p)]> (function_to_vertices p)) p).

(** ** Queries *)

Definition first_target (f : edge PDGEdge -> bool) (l : list (edge PDGEdge)) : option nat := target <$> List.find f l.

Definition getDerefOpt (g : pgraph) (v : nat) : option nat := first_target is_deref (out_edges g v).

Definition getDeref (v : nat) : PM nat :=
  o ← ask (fun p => getDerefOpt (p_graph p) v);
  match o with Some w => mret w | None => throw "Vertex can't be dereferenced" end.

Definition has_type (t : PDGEdgeType) (i : Z) (e : edge PDGEdge) : bool :=
  bool_decide (e_type (eprop e) = t) && (e_index (eprop e) =? i).

Definition getPartOpt (parts : Z) (g : pgraph) (v : nat) (index : Z) : option nat :=
  let index := if parts <? index then parts else index in
  first_target (has_type Part index) (out_edges g v).

Definition getParamOpt (g : pgraph) (v : nat) (index : Z) : option nat :=
  first_target (has_type Param index) (out_edges g v).

Definition getCallParamOpt (g : pgraph) (v : nat) (index : Z) : option nat :=
  source <$> List.find (has_type Param index) (in_edges g v).

Definition getReturnOpt (g : pgraph) (v : nat) : option nat :=
  first_target (fun e => bool_decide (e_type (eprop e) = Return)) (out_edges g v).

Definition getVertexOpt (x : value) (p : PDG) : option nat := value_to_vertex p !! x.

(** The queries on the current graph. *)
Definition deref_of (v : nat) : PM (option nat) := ask (fun p => getDerefOpt (p_graph p) v).
Definition part_of (v : nat) (i : Z) : PM (option nat) := ask (fun p => getPartOpt (max_parts p) (p_graph p) v i).

(** [getMemoryForSource]: case 2 falls through to the default. *)
Definition getMemoryForSource (src : nat) (p : PDG) : option nat :=
  let g := p_graph p in
  n ← node_of g src;
  if n_source_type n =? 1 then getDerefOpt g src
  else if n_source_type n =? 2 then
    v ← getCallParamOpt g src 0;
    v ← getDerefOpt g v;
    getDerefOpt g v
  else None.

(** ** Creating nodes *)

(** A part of the value of [parent]. *)
Definition subnode_of (n : PDGNode) (t : ty) (const : bool) : PDGNode :=
  mkNode (n_function n) None (Some t) true false false false false false const false false 0.

Definition is_constant_node (n : PDGNode) : bool :=
  n_constant n || match n_instruction n with Some i => isa_GlobalVariable i && isConstant i | None => false end.

Fixpoint createSubnodes (fuel : nat) (parent : nat) (limit : Z) : PM unit :=
  match fuel with
  | O => no_fuel
  | S k =>
      n ← node parent;
      t ← force (n_type n);
      let const := is_constant_node n in
      let t := if isArrayTy t then getArrayElementType t else t in
      if isPointerTy t then
        v ← pdg_add_vertex (subnode_of n (getPointerElementType t) const);
        pdg_add_edge parent v Deref 0 ;;
        if 0 <? limit then createSubnodes k v (limit - 1) else mret tt
      else if isStructTy t then
        for_each (seq 0 (getStructNumElements t)) (fun i =>
          let n' := subnode_of n (getStructElementType t i) const in
          parts ← ask max_parts;
          if Z.of_nat i <? parts then
            v ← pdg_add_vertex n';
            pdg_add_edge parent v Part (Z.of_nat i) ;;
            createSubnodes k v (limit - 1)
          else
            opt ← part_of parent (Z.of_nat i);
            v ← (match opt with Some v => mret v | None => pdg_add_vertex n' end);
            pdg_add_edge parent v Part parts ;;
            match opt with Some _ => mret tt | None => createSubnodes k v (limit - 1) end)
      else mret tt
  end.

(** The function of a new node: functions are contained in themselves. *)
Definition function_of (x : value) (f : option value) : option value :=
  let f := match f with None => if isa_Instruction x then getFunction x else None | Some f => Some f end in
  if isa_Function x then Some x else f.

Definition value_node (x : value) (f : option value) (dummy : bool) : PDGNode :=
  mkNode (function_of x f) (Some x) (Some (getType x)) false dummy false false false false false false false 0.

Definition createVertex (fuel : nat) (x : value) (f : option value) : PM nat :=
  v ← pdg_add_vertex (value_node x f false);
  modify (fun p => put_values (<[x := v]> (value_to_vertex p)) p) ;;
  limit ← ask subnode_limit;
  (if isa_Function x then mret tt else createSubnodes fuel v limit) ;;
  mret v.

Definition createDummyVertex (x : value) (f : option value) : PM nat := pdg_add_vertex (value_node x f true).

Definition getVertex (fuel : nat) (x : value) (f : option value) : PM nat :=
  o ← ask (getVertexOpt x);
  match o with
  | Some v =>
      n ← node v;
      (match f, n_function n with
       | Some _, None => updateFunction v f
       | _, _ => mret tt
       end) ;;
      mret v
  | None => createVertex fuel x f
  end.

(** ** Merging nodes *)

(** The smaller of two vertices stays: one with an instruction, or the one
    with the smaller index. *)
Definition swapLowerFirst (g : pgraph) (v1 v2 : nat) : nat * nat :=
  let ins v := match node_of g v with Some n => bool_decide (is_Some (n_instruction n)) | None => false end in
  if negb (ins v1) && (ins v2 || (v2 <? v1)%nat) then (v2, v1) else (v1, v2).

(** The loop around [old_to_new.insert]. *)
Fixpoint resolve_old (fuel : nat) (g : pgraph) (v1 v2 : nat) (m : gmap nat nat) : option (nat * nat) :=
  match fuel with
  | O => None
  | S k =>
      match m !! v2 with
      | None => Some (v1, v2)
      | Some v2 =>
          if (v1 =? v2)%nat then Some (v1, v2)
          else let '(v1, v2) := swapLowerFirst g v1 v2 in resolve_old k g v1 v2 m
      end
  end.

(** The attributes of the node that stays; the mark [reaches_ipc_sink] is
    assigned to itself. *)
Definition join_nodes (n1 n2 : PDGNode) : PDGNode :=
  let n := if negb (n_source n1) && n_source n2 then put_source (n_source n2) (n_source_type n2) n1 else n1 in
  let n := if negb (n_ipcsink n) && n_ipcsink n2 then put_ipcsink (n_ipcsink n2) n else n in
  let n := if negb (n_reaches_ipc_sink n) && n_reaches_ipc_sink n2 then put_reaches (n_reaches_ipc_sink n) n else n in
  if negb (n_filedescriptor n) && n_filedescriptor n2 then put_fd (n_filedescriptor n2) n else n.

(** The last edge that matches, as the loop over the edges of [v1] leaves it. *)
Definition last_target (f : edge PDGEdge -> bool) (l : list (edge PDGEdge)) : option nat :=
  foldl (fun acc e => if f e then Some (target e) else acc) None l.

Definition v1Part (parts : Z) (g : pgraph) (v1 : nat) (index : Z) : option nat :=
  if index <? 8 then last_target (has_type Part index) (out_edges g v1) else getPartOpt parts g v1 index.

(** The two loops over the edges of [v2]: pairs to unite, and edges to add. *)
Definition move_out (parts : Z) (g : pgraph) (v1 : nat) (e : edge PDGEdge) : list (nat * nat) + list (edge PDGEdge) :=
  let own := match e_type (eprop e) with
             | Deref => last_target is_deref (out_edges g v1)
             | Part => v1Part parts g v1 (e_index (eprop e))
             | _ => None
             end in
  match own with
  | Some v1s => inl [(v1s, target e)]
  | None => inr [mkEdge v1 (target e) (eprop e)]
  end.

Definition moved_pairs (parts : Z) (g : pgraph) (v1 v2 : nat) : list (nat * nat) :=
  concat (map (fun e => match move_out parts g v1 e with inl l => l | inr _ => [] end) (out_edges g v2)).
Definition moved_edges (parts : Z) (g : pgraph) (v1 v2 : nat) : list (edge PDGEdge) :=
  concat (map (fun e => match move_out parts g v1 e with inl _ => [] | inr l => l end) (out_edges g v2))
  ++ map (fun e => mkEdge (source e) v1 (eprop e)) (in_edges g v2).

Definition add_edges (l : list (edge PDGEdge)) : PM unit :=
  for_each l (fun e => on_graph_ (add_edge (source e) (target e) (eprop e))).

(** One pair whose vertices differ: [v2] is removed and [v1] takes its place. *)
Definition merge (v1 v2 : nat) : PM (list (nat * nat)) :=
  n2 ← node v2;
  upd_node v1 (fun n1 => join_nodes n1 n2) ;;
  (if bool_decide (is_Some (n_instruction n2)) then throw "Can't remove vertices with instruction" else mret tt) ;;
  parts ← ask max_parts;
  g ← ask p_graph;
  add_edges (moved_edges parts g v1 v2) ;;
  upd_node v2 (put_ipcsink false) ;;
  upd_node v2 (put_reaches false) ;;
  pdg_remove_vertex v2 ;;
  mret (moved_pairs parts g v1 v2).

(** [while (!Q.empty ())]; the queue grows at the end. *)
Fixpoint unite_loop (fuel : nat) (Q : list (nat * nat)) (m : gmap nat nat) : PM (gmap nat nat) :=
  match fuel with
  | O => no_fuel
  | S k =>
      match Q with
      | [] => mret m
      | (v1, v2) :: Q =>
          if (v1 =? v2)%nat then unite_loop k Q m
          else
            g ← ask p_graph;
            let '(v1, v2) := swapLowerFirst g v1 v2 in
            match resolve_old (S (size m)) g v1 v2 m with
            | None => no_fuel
            | Some (v1, v2) =>
                if (v1 =? v2)%nat then unite_loop k Q m
                else
                  pairs ← merge v1 v2;
                  unite_loop k (Q ++ pairs) (<[v2 := v1]> m)
            end
      end
  end.

(** When the nodes cannot be one. *)
Definition keep_apart (n1 n2 : PDGNode) : bool :=
  (bool_decide (is_Some (n_instruction n1)) && bool_decide (is_Some (n_instruction n2)))
  || negb (bool_decide (n_function n1 = n_function n2)) || n_constant n1 || n_constant n2.

(** [addSubnodeEdges], its loop over the edges of [v1] (which may change while
    it runs), and [uniteSubnodes]. *)
Fixpoint addSubnodeEdges (fuel : nat) (v1 v2 : nat) (constantLevels : Z) {struct fuel} : PM unit :=
  match fuel with
  | O => no_fuel
  | S k =>
      if (v1 =? v2)%nat then mret tt
      else
        n2 ← node v2;
        if n_constant n2 then mret tt
        else pdg_add_edge v1 v2 Data 0 ;; join_loop k 0 v1 v2 constantLevels
  end
with join_loop (fuel : nat) (i v1 v2 : nat) (constantLevels : Z) {struct fuel} : PM unit :=
  match fuel with
  | O => no_fuel
  | S k =>
      es ← outs_of v1;
      match es !! i with
      | None => mret tt
      | Some e =>
          let v1s := target e in
          (match e_type (eprop e) with
           | Deref =>
               o ← deref_of v2;
               match o with
               | Some v2s =>
                   if (v1s =? v2s)%nat then mret tt
                   else if constantLevels <=? 0 then uniteSubnodes k v1s v2s
                   else addSubnodeEdges k v1s v2s (constantLevels - 1)
               | None => mret tt
               end
           | Part =>
               o ← part_of v2 (e_index (eprop e));
               match o with
               | Some v2s =>
                   if negb (v1 =? v1s)%nat || negb (v2 =? v2s)%nat then addSubnodeEdges k v1s v2s constantLevels
                   else mret tt
               | None => mret tt
               end
           | _ => mret tt
           end) ;;
          join_loop k (S i) v1 v2 constantLevels
      end
  end
with uniteSubnodes (fuel : nat) (v1 v2 : nat) {struct fuel} : PM unit :=
  match fuel with
  | O => no_fuel
  | S k =>
      n1 ← node v1;
      n2 ← node v2;
      if keep_apart n1 n2 then
        let '(v1, v2) := if (v2 <? v1)%nat then (v2, v1) else (v1, v2) in
        seen ← ask united_nodes;
        if bool_decide ((v1, v2) ∈ seen) then mret tt
        else
          modify (fun p => put_united ({[(v1, v2)]} ∪ united_nodes p) p) ;;
          addSubnodeEdges k v1 v2 0 ;;
          addSubnodeEdges k v2 v1 0
      else unite_loop k [(v1, v2)] ∅ ;; mret tt
  end.

(** ** Removing functions; struct fields that hold file descriptors *)

(** The set that is cleared at the end is a copy. *)
Definition removeFunction (f : option value) : PM unit :=
  set ← ask (vertices_for f);
  for_each set (fun v =>
    n ← node v;
    (match n_instruction n with
     | Some i => modify (fun p => if bool_decide (value_to_vertex p !! i = Some v)
                                  then put_values (delete i (value_to_vertex p)) p else p)
     | None => mret tt
     end) ;;
    on_graph_ (remove_vertex v)).

Definition note_fd_field (cluster index : Z) (m : gmap Z (gset Z)) : gmap Z (gset Z) :=
  <[cluster := {[index]} ∪ default ∅ (m !! cluster)]> m.

Definition checkIfFDMarkerIsInteresting (v : nat) : PM unit :=
  es ← ins_of v;
  for_each es (fun e =>
    if is_part e then
      n ← node (source e);
      match n_type n with
      | Some st =>
          if isStructTy st then
            modify (fun p => match structClusters p !! st with
                             | Some c => put_fd_fields (note_fd_field c (e_index (eprop e)) (structClusterToKnownFDFields p)) p
                             | None => p
                             end)
          else mret tt
      | None => mret tt
      end
    else mret tt).

End Pdg.

Arguments Ok {_ A}.
Arguments Throw {_ A}.
Arguments Undef {_ A}.
Arguments NoFuel {_ A}.
