(* ===== verification/PdgReach.v ===== *)
(** * Reachability on the program dependence graph

    [src/cali-linker/passes/]: [PDGUtilities] with the propagation of the marks
    [reaches_ipc_sink] and [filedescriptor], the graph routines of
    [PDGReachabilityPass] (summaries of functions, calls) and
    [PDGSharedReachabilityPass].

    The callbacks of a search may change the graph's properties, so the
    breadth-first searches are here with the graph and the visitor's own data
    [A] as state. *)

From S2P Require Import Prelude Graph Pdg.

Section Reach.
Context `{Llvm}.
Abbreviation pgraph := (graph PDGNode PDGEdge).

(** ** Searches whose visitor has state *)

Section Visit.
Context {A : Type}.
Context (discover : nat -> A -> PM (bool * A)) (wanted : nat -> PM bool).

Definition on_colors {B} (o : option B) : PM B := force o.

Fixpoint visit_scan (check : bool) (cands : list nat) (cm : list Z) (q : list nat) (a : A)
  : PM (bool * list Z * list nat * A) :=
  match cands with
  | [] => mret (false, cm, q, a)
  | v :: cands =>
      c ← on_colors (color_get v cm);
      if check && negb (c =? WHITE) then visit_scan check cands cm q a
      else
        cm ← on_colors (color_put_fast v GRAY cm);
        w ← wanted v;
        if w : bool then mret (true, cm, q, a)
        else
          '(d, a) ← discover v a;
          visit_scan check cands cm (if d : bool then q ++ [v] else q) a
  end.

Fixpoint visit_loop (fuel : nat) (next : pgraph -> nat -> list nat) (cm : list Z) (q : list nat) (a : A)
  : PM (bool * list Z * A) :=
  match fuel with
  | O => no_fuel
  | S k =>
      match q with
      | [] => mret (false, cm, a)
      | u :: q =>
          g ← ask p_graph;
          '(b, cm, q, a) ← visit_scan true (next g u) cm q a;
          if b : bool then mret (true, cm, a)
          else
            cm ← on_colors (color_put_fast u BLACK cm);
            visit_loop k next cm q a
      end
  end.

(** Whether a wanted vertex was found, the colours, and the visitor's data. *)
Definition visit (next : pgraph -> nat -> list nat) (sources : list nat) (cm : list Z) (a : A) : PM (bool * list Z * A) :=
  match sources with
  | [] => mret (false, cm, a)
  | _ =>
      '(b, cm, q, a) ← visit_scan false sources (colors_init cm) [] a;
      if b : bool then mret (true, cm, a)
      else
        n ← ask (fun p => capacity (p_graph p));
        visit_loop (S (n + length sources)) next cm q a
  end.

End Visit.

Definition not_wanted (v : nat) : PM bool := mret false.

Definition edge_type_in (l : list PDGEdgeType) (e : edge PDGEdge) : bool := bool_decide (e_type (eprop e) ∈ l).

(** Ends of the in-edges, and of the out-edges, of the given types. *)
Definition back_along (l : list PDGEdgeType) (g : pgraph) (u : nat) : list nat :=
  map source (List.filter (edge_type_in l) (in_edges g u)).
Definition forth_along (l : list PDGEdgeType) (g : pgraph) (u : nat) : list nat :=
  map target (List.filter (edge_type_in l) (out_edges g u)).

(** ** Sources: flagged nodes of the given functions *)

Fixpoint filter_nodes (f : option value) (flag : PDGNode -> bool) (l : list nat) : PM (list nat) :=
  match l with
  | [] => mret []
  | v :: l =>
      n ← node v;
      rest ← filter_nodes f flag l;
      mret (if bool_decide (n_function n = f) && flag n then v :: rest else rest)
  end.

Fixpoint collect_sources (functions : list (option value)) (flag : PDGNode -> bool) : PM (list nat) :=
  match functions with
  | [] => mret []
  | f :: fs =>
      l ← ask (vertices_for f);
      a ← filter_nodes f flag l;
      b ← collect_sources fs flag;
      mret (a ++ b)
  end.

(** [!f || functions.find (f) != functions.end ()] *)
Definition in_scope (functions : list (option value)) (n : PDGNode) : bool :=
  match n_function n with None => true | Some f => bool_decide (Some f ∈ functions) end.

(** ** [calculateSinkReachability] *)

Definition marked_sink (n : PDGNode) : bool := n_ipcsink n || n_reaches_ipc_sink n.

Definition discover_sink (functions : list (option value)) (v : nat) (a : unit) : PM (bool * unit) :=
  upd_node v (put_reaches true) ;;
  n ← node v;
  mret (in_scope functions n, a).

Definition calculateSinkReachability (functions : list (option value)) (cm : list Z) : PM (nat * list Z) :=
  sources ← collect_sources functions marked_sink;
  '(_, cm, _) ← visit (discover_sink functions) not_wanted (back_along [Data; Part]) sources cm tt;
  mret (length sources, cm).

(** ** [calculateFDReachability] *)

Definition isFileDescriptorType (t : option ty) : bool :=
  match t with Some t => isIntegerTy t && (16 <=? getIntegerBitWidth t) | None => false end.

Definition discover_fd (functions : list (option value)) (heuristic : bool) (v : nat) (a : unit) : PM (bool * unit) :=
  n ← node v;
  if match n_instruction n with Some i => is_add_or_sub i | None => false end then mret (false, a)
  else if isFileDescriptorType (n_type n) then
    upd_node v (put_fd true) ;;
    (if heuristic && n_subnode n then checkIfFDMarkerIsInteresting v else mret tt) ;;
    mret (in_scope functions n, a)
  else mret (false, a).

(** The fields of a struct node that are known to hold descriptors. *)
Definition mark_fd_fields (v : nat) : PM unit :=
  n ← node v;
  match n_type n with
  | Some t =>
      if isStructTy t then
        fields ← ask (fun p => match structClusters p !! t with
                               | Some c => default ∅ (structClusterToKnownFDFields p !! c)
                               | None => ∅
                               end);
        for_each (elements fields) (fun i =>
          o ← part_of v i;
          match o with Some w => upd_node w (put_fd true) | None => mret tt end)
      else mret tt
  | None => mret tt
  end.

Definition calculateFDReachability (functions : list (option value)) (cm : list Z) (heuristic : bool) : PM (nat * list Z) :=
  n ← ask (fun p => capacity (p_graph p));
  (if heuristic then for_each (seq 0 n) mark_fd_fields else mret tt) ;;
  sources ← collect_sources functions n_filedescriptor;
  '(_, cm, _) ← visit (discover_fd functions heuristic) not_wanted (forth_along [Data]) sources cm tt;
  mret (length sources, cm).

(** ** File descriptor functions *)

Definition isFileDescriptorFunction (f : option value) : bool :=
  match f with
  | None => false
  | Some f => bool_decide (getName f ∈ ["open"%string; "openat"%string; "socket"%string; "dup"%string])
  end.

Definition isFileDescriptorParamFunction (f : option value) : Z :=
  match f with
  | None => -1
  | Some f =>
      if bool_decide (getName f ∈ ["close"%string; "read"%string; "write"%string; "fstat"%string; "dup"%string]) then 0
      else if bool_decide (getName f = "__fxstat"%string) then 1
      else -1
  end.

Definition isFileDescriptorPtrFunction (f : option value) : bool :=
  match f with None => false | Some f => bool_decide (getName f = "pipe"%string) end.

(** ** Marking what a pointer reaches as shared *)

Fixpoint markAsShared (fuel : nat) (v : nat) : PM unit :=
  match fuel with
  | O => no_fuel
  | S k =>
      n ← node v;
      if n_ipcsink n then mret tt
      else
        upd_node v (put_ipcsink true) ;;
        es ← outs_of v;
        for_each es (fun e => if is_structural e then markAsShared k (target e) else mret tt)
  end.

Fixpoint markAsPointerToShared (fuel : nat) (v : nat) : PM unit :=
  match fuel with
  | O => no_fuel
  | S k =>
      es ← outs_of v;
      for_each es (fun e =>
        if is_deref e then markAsShared k (target e)
        else if is_part e then markAsPointerToShared k (target e)
        else mret tt)
  end.

(** [PDGReachabilityPass::markSubnodesReachingIpc] *)
Fixpoint markSubnodesReachingIpc (fuel : nat) (root : nat) : PM unit :=
  match fuel with
  | O => no_fuel
  | S k =>
      n ← node root;
      if n_reaches_ipc_sink n then mret tt
      else
        upd_node root (put_reaches true) ;;
        es ← outs_of root;
        for_each es (fun e => if is_structural e then markSubnodesReachingIpc k (target e) else mret tt)
  end.

(** ** Signature nodes *)

(** [nodes.insert (v).second] *)
Fixpoint collectSubnodesForFunction (fuel : nat) (v : nat) (f : option value) (nodes : list nat) : PM (list nat) :=
  match fuel with
  | O => no_fuel
  | S k =>
      if bool_decide (v ∈ nodes) then mret nodes
      else
        es ← outs_of v;
        (fix go es nodes :=
           match es with
           | [] => mret nodes
           | e :: es =>
               if is_structural e then
                 n ← node (target e);
                 if bool_decide (n_function n = f) then
                   nodes ← collectSubnodesForFunction k (target e) f nodes;
                   go es nodes
                 else go es nodes
               else go es nodes
           end) es (vset_insert v nodes)
  end.

Definition collectFunctionSignatureNodes (fuel : nat) (f : value) (nodes : list nat) : PM (list nat) :=
  v ← getVertex fuel f None;
  es ← outs_of v;
  (fix go es nodes :=
     match es with
     | [] => mret nodes
     | e :: es =>
         if edge_type_in [Return; Param] e then
           nodes ← collectSubnodesForFunction fuel (target e) (Some f) nodes;
           go es nodes
         else go es nodes
     end) es nodes.

(** ** Summary edges *)

(** Outside of the signature nodes, a search stays in the component. *)
Definition stays_inside (functions : list (option value)) (start : nat) (nodes : list nat) (v : nat) (n : PDGNode) : bool :=
  (v =? start)%nat || bool_decide (v ∈ nodes) || in_scope functions n.

Definition discover_data (functions : list (option value)) (start : nat) (nodes : list nat) (v : nat) (new_edges : list nat)
  : PM (bool * list nat) :=
  n ← node v;
  mret (stays_inside functions start nodes v n,
        if negb (v =? start)%nat && bool_decide (v ∈ nodes) then new_edges ++ [v] else new_edges).

(** [DataSummaryVisitor::finished] *)
Definition finished_data (fuel : nat) (start : nat) (new_edges : list nat) : PM unit :=
  derefStart ← deref_of start;
  for_each new_edges (fun t =>
    pdg_add_edge start t Summary_Data 0 ;;
    match derefStart with
    | Some d =>
        n ← node d;
        if n_reaches_ipc_sink n then mret tt
        else
          o ← deref_of t;
          match o with
          | Some dt =>
              nt ← node dt;
              if n_reaches_ipc_sink nt || n_ipcsink nt then markAsShared fuel d else mret tt
          | None => mret tt
          end
    | None => mret tt
    end).

Definition discover_invocation (functions : list (option value)) (start : nat) (nodes : list nat) (v : nat) (new_edges : list nat)
  : PM (bool * list nat) :=
  n ← node v;
  es ← outs_of v;
  mret (stays_inside functions start nodes v n,
        if negb (v =? start)%nat && bool_decide (v ∈ nodes)
        then new_edges ++ map target (List.filter (edge_type_in [Invocation]) es) else new_edges).

Definition finished_invocation (start : nat) (new_edges : list nat) : PM unit :=
  for_each new_edges (fun t => pdg_add_edge start t Summary_Invocation 0).

(** The two searches from one signature node. *)
Definition summarize (fuel : nat) (strongFPAnalysis : bool) (functions : list (option value)) (nodes : list nat)
    (v : nat) (cm : list Z) : PM (list Z) :=
  '(_, cm, new_edges) ← visit (discover_data functions v nodes) not_wanted (forth_along [Data; Summary_Data; Part]) [v] cm [];
  finished_data fuel v new_edges ;;
  if strongFPAnalysis then
    n ← node v;
    t ← force (n_type n);
    if isPointerTy t || isFunctionTy t then
      '(_, cm, new_edges) ← visit (discover_invocation functions v nodes) not_wanted (forth_along [Data]) [v] cm [];
      finished_invocation v new_edges ;;
      mret cm
    else mret cm
  else mret cm.

Fixpoint summarize_all (fuel : nat) (strongFPAnalysis : bool) (functions : list (option value)) (nodes todo : list nat)
    (cm : list Z) : PM (list Z) :=
  match todo with
  | [] => mret cm
  | v :: todo =>
      cm ← summarize fuel strongFPAnalysis functions nodes v cm;
      summarize_all fuel strongFPAnalysis functions nodes todo cm
  end.

End Reach.
