(* ===== verification/PdgPass.v ===== *)
(** * The passes that spread marks over the program dependence graph

    [src/cali-linker/passes/PDGReachabilityPass.cpp]: calls are instantiated
    with the summaries of the functions they call, components of the call graph
    are taken callees first; [PDGSharedReachabilityPass.cpp]: which values can
    be influenced through shared memory.

    A [std::set<Function *>] is ordered by addresses; here it is the list of
    the functions in any order.  A loop over edges sees the edges that were
    there when it started. *)

From S2P Require Import Prelude Graph Pdg PdgReach.

(** ** [std::map<Vertex, Vertex>], by ascending keys *)

Definition vmap : Type := list (nat * nat).

Fixpoint vmap_find (k : nat) (m : vmap) : option nat :=
  match m with
  | [] => None
  | (k', v) :: m => if (k =? k')%nat then Some v else vmap_find k m
  end.

Fixpoint vmap_insert (k v : nat) (m : vmap) : vmap :=
  match m with
  | [] => [(k, v)]
  | (k', v') :: m' =>
      if (k <? k')%nat then (k, v) :: m
      else if (k =? k')%nat then (k, v) :: m' else (k', v') :: vmap_insert k v m'
  end.

Section Pass.
Context `{Llvm}.
Abbreviation pgraph := (graph PDGNode PDGEdge).

Record config := mkConfig { strongFDAnalysis : bool; strongFPAnalysis : bool }.

(** ** Calls *)

Definition isIgnoredOperand (x : option value) : bool :=
  match x with None => true | Some x => isa_ConstantData x end.

Definition getCalledFunction (call : value) : option value :=
  match called_function call with
  | Some f => Some f
  | None =>
      op ← getCalledValue call;
      if isa_BitCastOperator op then
        op2 ← getOperand op 0;
        if isa_Function op2 then Some op2 else None
      else None
  end.

(** [DataDrivenSCCPass::considerCall] *)
Definition small_argument (x : value) : bool :=
  let t := getType x in
  isEmptyTy t || (isIntegerTy t && (getIntegerBitWidth t =? 1)) || (isIntegerTy t && (getIntegerBitWidth t =? 8))
  || isFloatingPointTy t.

Definition considerCall (call : value) (needsFunction : bool) : bool :=
  if needsFunction && bool_decide (getCalledFunction call = None) then false
  else
    let t := getType call in
    let hasReturn := (0 <? getNumUses call) && (isStructTy t || isPointerTy t) in
    let hasMeaningfulArgs := existsb (fun x => match x with
                                               | Some a => negb (isIgnoredOperand x) && negb (small_argument a)
                                               | None => false
                                               end) (arg_operands call) in
    hasReturn || hasMeaningfulArgs.

Fixpoint for_args_from (i : Z) (l : list (option value)) (f : Z -> value -> PM unit) : PM unit :=
  match l with
  | [] => mret tt
  | x :: l =>
      (match x with Some a => if isIgnoredOperand x then mret tt else f i a | None => mret tt end) ;;
      for_args_from (i + 1) l f
  end.

(** The loop over the arguments that are not ignored, with their numbers. *)
Definition for_args (call : value) (f : Z -> value -> PM unit) : PM unit := for_args_from 0 (arg_operands call) f.

Definition markIpcCall (fuel : nat) (call : value) : PM unit :=
  v ← getVertex fuel call None;
  for_args call (fun i a =>
    v2 ← getVertex fuel a None;
    pdg_add_edge v2 v Param i ;;
    markAsPointerToShared fuel v2).

(** ** Matching a signature with a call *)

Fixpoint matchSubnodes (fuel : nat) (m : vmap) (key val : nat) : PM vmap :=
  match fuel with
  | O => no_fuel
  | S k =>
      match vmap_find key m with
      | None =>
          es ← outs_of key;
          (fix go es m :=
             match es with
             | [] => mret m
             | e :: es =>
                 o ← (match e_type (eprop e) with
                      | Deref => deref_of val
                      | Part => part_of val (e_index (eprop e))
                      | _ => mret None
                      end);
                 match o with
                 | Some v => m ← matchSubnodes k m (target e) v; go es m
                 | None => go es m
                 end
             end) es (vmap_insert key val m)
      | Some old =>
          addSubnodeEdges k old val 0 ;;
          addSubnodeEdges k val old 0 ;;
          mret m
      end
  end.

(** The parameters and the return value of [f] against the call; [vararg] is
    what is done with an argument beyond the declared ones. *)
Fixpoint match_args (fuel : nat) (vararg : nat -> nat -> PM unit) (vFunc : nat) (f : value) (function : option value)
    (i : Z) (args : list (option value)) (m : vmap) : PM vmap :=
  match args with
  | [] => mret m
  | x :: args =>
      m ← (match x with
           | Some a =>
               if isIgnoredOperand x then mret m
               else
                 let extra := isVarArg f && (arg_size f <=? i) in
                 o ← ask (fun p => getParamOpt (p_graph p) vFunc (if extra then arg_size f else i));
                 match o with
                 | Some param =>
                     va ← getVertex fuel a function;
                     m ← matchSubnodes fuel m param va;
                     (if extra then vararg param va else mret tt) ;;
                     mret m
                 | None => mret m
                 end
           | None => mret m
           end);
      match_args fuel vararg vFunc f function (i + 1) args m
  end.

Definition match_call (fuel : nat) (vararg : nat -> nat -> PM unit) (call f : value) (function : option value) : PM vmap :=
  vCall ← getVertex fuel call None;
  vFunc ← getVertex fuel f None;
  m ← match_args fuel vararg vFunc f function 0 (arg_operands call) [];
  ret ← ask (fun p => getReturnOpt (p_graph p) vFunc);
  match ret with
  | Some r => matchSubnodes fuel m r vCall
  | None => mret m
  end.

(** ** Instantiating a call *)

(** An invocation of a function pointer that the callee got as an argument: a
    dummy call node with the matching parameter edges. *)
Definition copy_invocation (call : value) (m : vmap) (second : nat) (e : edge PDGEdge) : PM unit :=
  dummy ← createDummyVertex call (getFunction call);
  pdg_add_edge second dummy Invocation 0 ;;
  es ← ins_of (target e);
  for_each es (fun e2 =>
    if edge_type_in [Param] e2 then
      match vmap_find (source e2) m with
      | Some w => pdg_add_edge w dummy Param (e_index (eprop e2))
      | None => mret tt
      end
    else mret tt).

Definition copy_summary (call : value) (m : vmap) (first second : nat) : PM unit :=
  n1 ← node first;
  (if n_reaches_ipc_sink n1 || n_ipcsink n1 then upd_node second (put_reaches true) else mret tt) ;;
  n2 ← node second;
  n1 ← node first;
  (if n_filedescriptor n1 && isFileDescriptorType (n_type n2) then upd_node second (put_fd true) else mret tt) ;;
  es ← outs_of first;
  for_each es (fun e =>
    (if edge_type_in [Summary_Equals; Summary_Data] e then
       match vmap_find (target e) m with
       | Some d => pdg_add_edge second d (if edge_type_in [Summary_Equals] e then Equals else Data) 0
       | None => mret tt
       end
     else mret tt) ;;
    (if edge_type_in [Invocation; Summary_Invocation] e then copy_invocation call m second e else mret tt)).

Definition hint_reaching (fuel : nat) (param arg : nat) : PM unit :=
  n ← node param;
  if n_reaches_ipc_sink n then markSubnodesReachingIpc fuel arg else mret tt.

(** Calls inside a component: direct edges. *)
Definition direct_edges (fuel : nat) (call f : value) (function : option value) : PM unit :=
  vCall ← getVertex fuel call None;
  vFunc ← getVertex fuel f None;
  (fix go i args :=
     match args with
     | [] => mret tt
     | x :: args =>
         o ← ask (fun p => getParamOpt (p_graph p) vFunc i);
         (match o, x with
          | Some param, Some a =>
              if isIgnoredOperand x then mret tt
              else
                va ← getVertex fuel a function;
                addSubnodeEdges fuel va param 1
          | _, _ => mret tt
          end) ;;
         go (i + 1) args
     end) 0 (arg_operands call) ;;
  ret ← ask (fun p => getReturnOpt (p_graph p) vFunc);
  match ret with Some r => addSubnodeEdges fuel r vCall 0 | None => mret tt end.

Definition ends_with (suffix s : string) : bool :=
  let n := String.length s in
  let k := String.length suffix in
  (k <=? n)%nat && String.eqb (String.substring (n - k) k s) suffix.

(** The contents of one block flow into another. *)
Definition copy_memory (fuel : nat) (srcMemory dstMemory : option nat) : PM unit :=
  match srcMemory, dstMemory with
  | Some a, Some b => addSubnodeEdges fuel a b 0
  | _, _ => mret tt
  end.

(** The loop over the first members of [std::string]; [counter] turns more. *)
Fixpoint unite_string (fuel : nat) (counter : nat) (result : nat) (str : option nat) : PM unit :=
  match str with
  | None => mret tt
  | Some s =>
      mem ← deref_of s;
      (match mem with Some m => uniteSubnodes fuel result m | None => mret tt end) ;;
      next ← part_of s 0;
      match counter with
      | O => mret tt
      | S c => unite_string fuel c result next
      end
  end.

Definition operand (call : value) (i : nat) : PM value := x ← force (arg_operands call !! i); force x.

Definition addKnownFunctionSummary (fuel : nat) (f call : value) : PM bool :=
  if String.prefix "llvm.memcpy." (getName f) then
    src ← operand call 1;
    from ← getVertex fuel src None;
    srcMemory ← deref_of from;
    dst ← operand call 0;
    to ← getVertex fuel dst None;
    dstMemory ← deref_of to;
    copy_memory fuel srcMemory dstMemory ;;
    mret true
  else if String.eqb (getName f) "realloc" then
    src ← operand call 0;
    from ← getVertex fuel src None;
    srcMemory ← deref_of from;
    to ← getVertex fuel call None;
    dstMemory ← deref_of to;
    copy_memory fuel srcMemory dstMemory ;;
    mret true
  else if ends_with "basic_stringIcSt11char_traitsIcESaIcEE5c_strEv" (getName f) then
    to ← getVertex fuel call None;
    resultMemory ← deref_of to;
    match resultMemory with
    | None => mret false
    | Some result =>
        arg ← operand call 0;
        from ← getVertex fuel arg None;
        str ← deref_of from;
        match str with
        | None => mret false
        | Some s =>
            some_union ← part_of s 2;
            (match some_union with
             | Some u =>
                 data_from_union ← part_of u 1;
                 match data_from_union with Some d => uniteSubnodes fuel result d | None => mret tt end
             | None => mret tt
             end) ;;
            unite_string fuel 5 result (Some s) ;;
            mret false
        end
    end
  else mret false.

(** The lambda [handleCallTarget]. *)
Definition handleCallTarget (fuel : nat) (functions : list (option value)) (function : option value) (call : value)
    (calledFunction : option value) : PM unit :=
  match calledFunction with
  | None => mret tt
  | Some f =>
      known ← addKnownFunctionSummary fuel f call;
      (if known : bool then mret tt
       else if bool_decide (Some f ∈ functions) then direct_edges fuel call f function
       else
         m ← match_call fuel (hint_reaching fuel) call f function;
         for_each m (fun '(first, second) => copy_summary call m first second)) ;;
      v ← getVertex fuel f None;
      n ← node v;
      if n_ipcfunction n then markIpcCall fuel call else mret tt
  end.

(** [possible]: the targets that [DataDrivenSCCPass] lists for an indirect
    call.  The result is whether the call is indirect. *)
Definition handleCall (fuel : nat) (c : config) (possible : value -> list value) (functions : list (option value))
    (function : option value) (call : value) : PM bool :=
  let calledFunction := getCalledFunction call in
  handleCallTarget fuel functions function call calledFunction ;;
  match calledFunction with
  | Some _ => mret false
  | None =>
      (if strongFPAnalysis c then
         for_each (possible call) (fun f =>
           if String.eqb (getName f) "" then mret tt
           else
             v ← getVertex fuel f None;
             n ← node v;
             match n_function n with
             | None => mret tt
             | Some _ => handleCallTarget fuel functions function call (Some f)
             end)
       else mret tt) ;;
      mret true
  end.

(** ** Indirect calls that may reach another context *)

Definition next_ipc (g : pgraph) (u : nat) : list nat := back_along [Data; Part] g u ++ forth_along [Deref] g u.

Definition discover_all (v : nat) (a : unit) : PM (bool * unit) := mret (true, a).
Definition is_ipcfunction (v : nat) : PM bool := n ← node v; mret (n_ipcfunction n).

Fixpoint calculateIpcFunctionCalls (fuel : nat) (calls : list value) (cm : list Z) : PM (list Z) :=
  match calls with
  | [] => mret cm
  | call :: calls =>
      x ← force (getCalledValue call);
      s ← getVertex fuel x None;
      '(found, cm, _) ← visit discover_all is_ipcfunction next_ipc [s] cm tt;
      (if found : bool then markIpcCall fuel call else mret tt) ;;
      calculateIpcFunctionCalls fuel calls cm
  end.

(** ** Summaries of a component *)

(** A call from outside of the component needs the summary. *)
Definition summary_needed (functions : list (option value)) (f : value) : bool :=
  existsb (fun u => (isa_CallInst u || isa_InvokeInst u) && bool_decide (getCalledFunction u = Some f)
                    && considerCall u true && negb (bool_decide (getFunction u ∈ functions))) (users f).

Fixpoint signature_nodes (fuel : nat) (functions : list (option value)) (fs : list value) (nodes : list nat) : PM (list nat) :=
  match fs with
  | [] => mret nodes
  | f :: fs =>
      nodes ← (if summary_needed functions f then collectFunctionSignatureNodes fuel f nodes else mret nodes);
      signature_nodes fuel functions fs nodes
  end.

Definition calculateSummaryEdges (fuel : nat) (c : config) (scc : list value) (cm : list Z) : PM (list Z) :=
  let functions := Some <$> scc in
  nodes ← signature_nodes fuel functions scc [];
  summarize_all fuel (strongFPAnalysis c) functions nodes nodes cm.

(** ** [runOnSCC], [runOnGlobal], [runOnModule] *)

(** The calls of one function; the indirect ones are returned. *)
Fixpoint handle_calls (fuel : nat) (c : config) (possible : value -> list value) (functions : list (option value))
    (function : value) (l : list value) : PM (list value * list value) :=
  match l with
  | [] => mret ([], [])
  | ins :: l =>
      if isa_CallInst ins then
        b ← handleCall fuel c possible functions (Some function) ins;
        '(calls, invokes) ← handle_calls fuel c possible functions function l;
        mret (if b : bool then ins :: calls else calls, invokes)
      else if isa_InvokeInst ins then
        b ← handleCall fuel c possible functions (Some function) ins;
        '(calls, invokes) ← handle_calls fuel c possible functions function l;
        mret (calls, if b : bool then ins :: invokes else invokes)
      else handle_calls fuel c possible functions function l
  end.

Definition vararg_node (fuel : nat) (f : value) : PM (list nat) :=
  if isVarArg f then
    vf ← getVertex fuel f None;
    v ← pdg_add_vertex (mkNode (Some f) None (Some voidTy) true false false false false false false false false 0);
    pdg_add_edge vf v Param (arg_size f) ;;
    mret [v]
  else mret [].

Fixpoint instantiate (fuel : nat) (c : config) (possible : value -> list value) (functions : list (option value)) (fs : list value)
  : PM (list nat * list value * list value) :=
  match fs with
  | [] => mret ([], [], [])
  | f :: fs =>
      '(calls, invokes) ← handle_calls fuel c possible functions f (instructions f);
      nodes ← vararg_node fuel f;
      '(nodes', calls', invokes') ← instantiate fuel c possible functions fs;
      mret (nodes ++ nodes', calls ++ calls', invokes ++ invokes')
  end.

Definition runOnSCC (fuel : nat) (c : config) (possible : value -> list value) (scc : list value) : PM (list Z) :=
  let functions := Some <$> scc in
  '(varargNodes, calls, invokes) ← instantiate fuel c possible functions scc;
  n ← ask (fun p => capacity (p_graph p));
  cm ← calculateIpcFunctionCalls fuel calls (colors_new n);
  cm ← calculateIpcFunctionCalls fuel invokes cm;
  '(k, cm) ← calculateSinkReachability functions cm;
  (if (0 <? k)%nat then for_each varargNodes (fun v => upd_node v (put_reaches true)) else mret tt) ;;
  '(_, cm) ← calculateFDReachability functions cm (strongFDAnalysis c);
  calculateSummaryEdges fuel c scc cm.

Definition runOnGlobal (c : config) : PM (list Z) :=
  n ← ask (fun p => capacity (p_graph p));
  '(_, cm) ← calculateSinkReachability [None] (colors_new n);
  '(_, cm) ← calculateFDReachability [None] cm (strongFDAnalysis c);
  mret cm.

Fixpoint run_sccs (run : list value -> list Z -> PM (list Z)) (sccs : list (list value)) (cm : list Z) : PM (list Z) :=
  match sccs with
  | [] => mret cm
  | scc :: sccs => cm ← run scc cm; run_sccs run sccs cm
  end.

Definition reachability_runOnModule (fuel : nat) (c : config) (possible : value -> list value) (sccs : list (list value)) : PM unit :=
  cm ← runOnGlobal c;
  cm ← run_sccs (fun scc _ => runOnSCC fuel c possible scc) sccs cm;
  (if strongFDAnalysis c then
     run_sccs (fun scc cm => '(_, cm) ← calculateFDReachability (Some <$> scc) cm true; mret cm) sccs cm
   else mret cm) ;;
  runOnGlobal c ;;
  mret tt.

(** ** [PDGSharedReachabilityPass] *)

Definition marked_shared (n : PDGNode) : bool := n_ipcsink n || n_reaches_ipc_sink n || n_influenced_by_shared n.

Definition discover_influence (functions : list (option value)) (v : nat) (a : unit) : PM (bool * unit) :=
  upd_node v (put_influenced true) ;;
  n ← node v;
  mret (in_scope functions n, a).

Definition calculateReachability (functions : list (option value)) (cm : list Z) : PM (nat * list Z) :=
  sources ← collect_sources functions marked_shared;
  '(_, cm, _) ← visit (discover_influence functions) not_wanted (forth_along [Data; Part; Deref; Summary_Data]) sources cm tt;
  mret (length sources, cm).

(** What happens to arguments beyond the declared ones.  Whether a mark was
    new is only collected in a variable. *)
Definition vararg_influence (toCaller : bool) (param arg : nat) : PM unit :=
  np ← node param;
  na ← node arg;
  if toCaller && n_influenced_by_shared np then upd_node arg (put_influenced true)
  else if negb toCaller && n_influenced_by_shared na then upd_node param (put_influenced true)
  else mret tt.

(** The loop over the matching. *)
Definition copy_influence (toCaller : bool) (m : vmap) : PM unit :=
  for_each m (fun '(first, second) =>
    let '(from, to) := if toCaller then (first, second) else (second, first) in
    n ← node from;
    if marked_shared n then upd_node to (put_influenced true) else mret tt).

Definition propagateCallInfluence (fuel : nat) (call : value) (toCaller : bool) : PM unit :=
  match getCalledFunction call with
  | Some f =>
      m ← match_call fuel (vararg_influence toCaller) call f (getFunction call);
      copy_influence toCaller m
  | None => mret tt
  end.

Definition considerFunction (functionBehavior : gmap string string) (f : value) : bool :=
  if isDeclaration f then false
  else if String.eqb (getName f) "free" then false
  else negb (bool_decide (functionBehavior !! getName f = Some "free"%string)).

(** Both directions of [propagateInfluence...Callers]. *)
Definition propagate_calls (fuel : nat) (behavior : gmap string string) (toCaller : bool) (fs : list value) : PM unit :=
  for_each fs (fun f =>
    if considerFunction behavior f then
      for_each (users f) (fun u =>
        if (isa_CallInst u || isa_InvokeInst u) && bool_decide (getCalledFunction u = Some f)
        then propagateCallInfluence fuel u toCaller
        else mret tt)
    else mret tt).

(** The marks are collected in a variable, and [false] is returned. *)
Definition propagateInfluenceFromCallers (fuel : nat) (behavior : gmap string string) (fs : list value) : PM bool :=
  propagate_calls fuel behavior false fs ;;
  mret false.

Definition shared_upwards (fuel : nat) (behavior : gmap string string) (scc : list value) (cm : list Z) : PM (list Z) :=
  '(_, cm) ← calculateReachability (Some <$> scc) cm;
  propagate_calls fuel behavior true scc ;;
  mret cm.

Definition shared_downwards (fuel : nat) (behavior : gmap string string) (scc : list value) (cm : list Z) : PM (list Z) :=
  b ← propagateInfluenceFromCallers fuel behavior scc;
  if b : bool then '(_, cm) ← calculateReachability (Some <$> scc) cm; mret cm
  else mret cm.

(** [warnForPossiblyDangerousActions]: the number of warnings. *)
Definition dangerous (p : PDG) (ins : value) : bool :=
  ((isa_CallInst ins && negb (isInlineAsm ins)) || isa_InvokeInst ins)
  && match getCalledValue ins with
     | Some x =>
         negb (isa_Function x)
         && match getVertexOpt x p ≫= node_of (p_graph p) with Some n => n_influenced_by_shared n | None => false end
     | None => false
     end.

Definition warnings (fs : list value) (p : PDG) : nat :=
  length (List.filter (dangerous p) (concat (map instructions (List.filter (fun f => negb (isDeclaration f)) fs)))).

Definition shared_runOnModule (fuel : nat) (behavior : gmap string string) (module_functions : list value) (sccs : list (list value))
  : PM nat :=
  n ← ask (fun p => capacity (p_graph p));
  cm ← run_sccs (shared_upwards fuel behavior) sccs (colors_new n);
  run_sccs (shared_downwards fuel behavior) (rev sccs) cm ;;
  ask (warnings module_functions).

End Pass.
