(* ===== verification/DataScc.v ===== *)
(** * The call graph and the struct types of a module

    [src/cali-linker/passes/DataDrivenSCCPass.cpp]: struct types that differ in
    a numeric suffix are grouped and the groups split where the members differ;
    function pointers are matched with the functions they may call; the graph of
    the calls that transfer data is cut into components, callees first.

    A container that is ordered by pointers is a list in the order of
    [address]. *)

From S2P Require Import Prelude Graph Scc Pdg PdgReach PdgPass.

(** ** More queries *)

Class LlvmTypes `{Llvm} := {
  address : ty -> Z;
  getStructName : ty -> string;
  isVoidTy : ty -> bool;
  isFloatTy : ty -> bool;
  isDoubleTy : ty -> bool;
  isa_ICmpInst : value -> bool;
  (** function types *)
  getFunctionType : value -> ty;
  ft_isVarArg : ty -> bool;
  getNumParams : ty -> nat;
  getParamType : ty -> nat -> ty;
  getReturnType : ty -> ty }.

(** ** Outcomes: a value, undefined behaviour, or out of fuel *)

Inductive run (A : Type) :=
| Done (a : A)
| Bad
| Spent.
Arguments Done {A}.
Arguments Bad {A}.
Arguments Spent {A}.

#[export] Instance run_ret : MRet run := fun A => Done.
#[export] Instance run_bind_inst : MBind run := fun A B k m =>
  match m with Done a => k a | Bad => Bad | Spent => Spent end.

Definition or_bad {A} (o : option A) : run A := match o with Some a => Done a | None => Bad end.

(** ** Struct types *)

Section Structs.
Context `{L : Llvm, !LlvmTypes}.

Definition suffix_char (c : Ascii.ascii) : bool :=
  Ascii.eqb c (Ascii.ascii_of_nat 46) || ((48 <=? Ascii.nat_of_ascii c)%nat && (Ascii.nat_of_ascii c <=? 57)%nat).

(** [str.substr (0, str.find_last_not_of (".0123456789") + 1)] *)
Fixpoint strip_suffix (s : string) : string :=
  match s with
  | EmptyString => EmptyString
  | String c s =>
      let r := strip_suffix s in
      if String.eqb r EmptyString && suffix_char c then EmptyString else String c r
  end.

(** [std::set<const StructType *>::insert] *)
Fixpoint set_insert (x : ty) (l : list ty) : list ty :=
  match l with
  | [] => [x]
  | y :: l' => if bool_decide (x = y) then l else if address x <? address y then x :: l else y :: set_insert x l'
  end.

(** Whether both are in the map, in the same cluster. *)
Definition same_cluster (equality : gmap ty Z) (t1 t2 : ty) : bool :=
  match equality !! t1, equality !! t2 with Some a, Some b => a =? b | _, _ => false end.

Definition member_equal (equality : gmap ty Z) (t1 t2 : ty) : bool :=
  if bool_decide (t1 = t2) then true
  else if isPointerTy t1 && isPointerTy t2
          && (isEmptyTy (getPointerElementType t1) || isEmptyTy (getPointerElementType t2)) then true
  else if isPointerTy t1 && isPointerTy t2
          && isStructTy (getPointerElementType t1) && isStructTy (getPointerElementType t2)
          && same_cluster equality (getPointerElementType t1) (getPointerElementType t2) then true
  else isStructTy t1 && isStructTy t2 && same_cluster equality t1 t2.

Definition struct_deep_equal (st1 st2 : ty) (equality : gmap ty Z) : bool :=
  if negb (getStructNumElements st1 =? getStructNumElements st2)%nat then false
  else forallb (fun i => member_equal equality (getStructElementType st1 i) (getStructElementType st2 i))
         (seq 0 (getStructNumElements st1)).

(** The loop over the identified struct types. *)
Fixpoint name_clusters (sts : list ty) (nameToCluster : gmap string nat) (structClusters : gmap ty Z) (clusters : list (list ty))
  : gmap ty Z * list (list ty) :=
  match sts with
  | [] => (structClusters, clusters)
  | st :: sts =>
      let str := strip_suffix (getStructName st) in
      match nameToCluster !! str with
      | Some i => name_clusters sts nameToCluster (<[st := Z.of_nat i]> structClusters) (alter (set_insert st) i clusters)
      | None =>
          let i := length clusters in
          name_clusters sts (<[str := i]> nameToCluster) (<[st := Z.of_nat i]> structClusters) (clusters ++ [[st]])
      end
  end.

(** One turn of the post-filter: what differs from the first member moves to
    a new cluster; the old set is not changed. *)
Definition split_cluster (i : nat) (structClusters : gmap ty Z) (clusters : list (list ty)) : gmap ty Z * list (list ty) :=
  match default [] (clusters !! i) with
  | [] => (structClusters, clusters)
  | ref :: rest =>
      match List.filter (fun st => negb (struct_deep_equal st ref structClusters)) rest with
      | [] => (structClusters, clusters)
      | moved =>
          let j := length clusters in
          (foldr (fun st m => <[st := Z.of_nat j]> m) structClusters moved, clusters ++ [foldr set_insert [] moved])
      end
  end.

Fixpoint post_filter (fuel : nat) (i : nat) (structClusters : gmap ty Z) (clusters : list (list ty)) : option (gmap ty Z) :=
  if (i <? length clusters)%nat then
    match fuel with
    | O => None
    | S k => let '(m, cs) := split_cluster i structClusters clusters in post_filter k (S i) m cs
    end
  else Some structClusters.

(** A cluster is split at most once per member. *)
Definition analyzeStructs (identified : list ty) : option (gmap ty Z) :=
  let '(m, cs) := name_clusters identified ∅ ∅ [] in
  post_filter (length identified) 0 m cs.

(** ** Which functions a call may reach *)

Definition isVoidPtr2 (t : ty) : bool :=
  isPointerTy t && isEmptyTy (getPointerElementType t) && isStructTy (getPointerElementType t).

(** The lambda [isCompatible]; a struct type without a cluster is undefined. *)
Fixpoint isCompatible (fuel : nat) (structClusters : gmap ty Z) (t1 t2 : ty) : run bool :=
  match fuel with
  | O => Spent
  | S k =>
      if isVoidTy t1 then Done (isVoidTy t2)
      else if isIntegerTy t1 then Done (isIntegerTy t2 && (getIntegerBitWidth t1 =? getIntegerBitWidth t2))
      else if isFloatTy t1 || isDoubleTy t1 then Done (isFloatTy t2 || isDoubleTy t2)
      else if isFunctionTy t1 then Done (isFunctionTy t2)
      else if isPointerTy t1 then
        if isPointerTy t2 then
          if isVoidPtr2 t1 || isVoidPtr2 t2 then Done true
          else isCompatible k structClusters (getPointerElementType t1) (getPointerElementType t2)
        else Done false
      else if isArrayTy t1 then
        if isArrayTy t2 then isCompatible k structClusters (getArrayElementType t1) (getArrayElementType t2) else Done false
      else if isStructTy t1 then
        if isStructTy t2 then
          match structClusters !! t1, structClusters !! t2 with
          | Some a, Some b => Done (a =? b)
          | _, _ => Bad
          end
        else Done false
      else Done true
  end.

Fixpoint params_compatible (fuel : nat) (structClusters : gmap ty Z) (callType functionType : ty) (l : list nat) : run bool :=
  match l with
  | [] => Done true
  | i :: l =>
      b ← isCompatible fuel structClusters (getParamType callType i) (getParamType functionType i);
      if b : bool then params_compatible fuel structClusters callType functionType l else Done false
  end.

Definition isCompatibleCallType (fuel : nat) (structClusters : gmap ty Z) (callType functionType : ty) : run bool :=
  if negb (ft_isVarArg callType) && (getNumParams callType <? getNumParams functionType)%nat then Done false
  else if negb (ft_isVarArg functionType) && (getNumParams functionType <? getNumParams callType)%nat then Done false
  else
    b ← isCompatible fuel structClusters (getReturnType callType) (getReturnType functionType);
    if b : bool then
      params_compatible fuel structClusters callType functionType (seq 0 (getNumParams callType `min` getNumParams functionType))
    else Done false.

(** The artifacts of the pointer analysis. *)
Record fp_state := mkFp {
  possibleInstructionTargets : gmap value (list value);
  possibleFunctionCalls : gmap value (list value) }.

Definition getPossibleIndirectCalls (function : value) (s : fp_state) : list value * fp_state :=
  match possibleFunctionCalls s !! function with
  | Some l => (l, s)
  | None => ([], mkFp (possibleInstructionTargets s) (<[function := []]> (possibleFunctionCalls s)))
  end.

(** The type of the called function, directly or behind a pointer. *)
Definition called_type (call : value) : option (option ty) :=
  x ← getCalledValue call;
  let type := getType x in
  Some (if isFunctionTy type then Some type
        else if isPointerTy type && isFunctionTy (getPointerElementType type) then Some (getPointerElementType type)
        else None).

(** The loop over the functions whose address is taken; the vectors are shared
    with the two maps, so that what is pushed is seen there. *)
Fixpoint match_targets (fuel : nat) (structClusters : gmap ty Z) (call : value) (ft : ty) (targets : list value) (s : fp_state)
  : run fp_state :=
  match targets with
  | [] => Done s
  | f :: targets =>
      b ← isCompatibleCallType fuel structClusters ft (getFunctionType f);
      let s := if b : bool then
                 let '(l, s) := getPossibleIndirectCalls f s in
                 mkFp (<[call := default [] (possibleInstructionTargets s !! call) ++ [f]]> (possibleInstructionTargets s))
                   (<[f := l ++ [call]]> (possibleFunctionCalls s))
               else s in
      match_targets fuel structClusters call ft targets s
  end.

Definition getPossibleIndirectFunctions (fuel : nat) (structClusters : gmap ty Z) (possibleIndirectCallTargets : list value)
    (call : value) (s : fp_state) : run (list value * fp_state) :=
  match possibleInstructionTargets s !! call with
  | Some l => Done (l, s)
  | None =>
      let s := mkFp (<[call := []]> (possibleInstructionTargets s)) (possibleFunctionCalls s) in
      o ← or_bad (called_type call);
      s ← (match o with
           | Some ft => match_targets fuel structClusters call ft possibleIndirectCallTargets s
           | None => Done s
           end);
      Done (default [] (possibleInstructionTargets s !! call), s)
  end.

(** ** The call graph *)

Record DataCallGraph := mkCallGraph { cg : graph value (); function_to_vertex : gmap value nat }.

Definition cg_getVertex (function : value) (G : DataCallGraph) : option (nat * DataCallGraph) :=
  match function_to_vertex G !! function with
  | Some v => Some (v, G)
  | None =>
      '(v, g) ← add_vertex function (cg G);
      Some (v, mkCallGraph g (<[function := v]> (function_to_vertex G)))
  end.

Definition cg_add_edge (v1 v2 : nat) (G : DataCallGraph) : option DataCallGraph :=
  g ← add_edge v1 v2 tt (cg G);
  Some (mkCallGraph g (function_to_vertex G)).

Record ContextConfig := mkContext { ignoredFunctions : list string; functionBehavior : gmap string string }.

(** [DataDrivenSCCPass::considerFunction] *)
Definition consider_function (cc : ContextConfig) (function : value) : bool :=
  negb (bool_decide (getName function ∈ ignoredFunctions cc))
  && negb (bool_decide (is_Some (functionBehavior cc !! getName function))).

Definition is_call (u : value) : bool := isa_CallInst u || isa_InvokeInst u.

(** The calls of [function], whose vertex is [v]. *)
Fixpoint add_callers (cc : ContextConfig) (function : value) (v : nat) (us : list value) (G : DataCallGraph) : option DataCallGraph :=
  match us with
  | [] => Some G
  | u :: us =>
      G ← (if is_call u && bool_decide (getCalledFunction u = Some function) && negb (isDeclaration function) && considerCall u true then
             caller ← getFunction u;
             if consider_function cc caller then '(v1, G) ← cg_getVertex caller G; cg_add_edge v1 v G else Some G
           else Some G);
      add_callers cc function v us G
  end.

(** Whether the address of a function is taken. *)
Definition address_taken (function : value) : bool :=
  existsb (fun u => negb (isa_CallInst u || isa_InvokeInst u || isa_GlobalVariable u || isa_ICmpInst u)) (users function).

Definition possible_targets (c : config) (functions : list value) : list value :=
  if strongFPAnalysis c then List.filter address_taken functions else [].

Fixpoint direct_calls (cc : ContextConfig) (functions : list value) (G : DataCallGraph) : option DataCallGraph :=
  match functions with
  | [] => Some G
  | f :: fs =>
      G ← (if negb (isDeclaration f) && consider_function cc f then
             '(v, G) ← cg_getVertex f G;
             add_callers cc f v (users f) G
           else Some G);
      direct_calls cc fs G
  end.

(** [graph.add_edge (graph.getVertex (&f), graph.getVertex (f2), {})]: the
    vertex of [f] is looked up first. *)
Fixpoint add_targets (f : value) (targets : list value) (G : DataCallGraph) : option DataCallGraph :=
  match targets with
  | [] => Some G
  | f2 :: targets =>
      G ← (if isDeclaration f2 then Some G
           else '(v1, G) ← cg_getVertex f G; '(v2, G) ← cg_getVertex f2 G; cg_add_edge v1 v2 G);
      add_targets f targets G
  end.

Section Indirect.
Context (fuel : nat) (structClusters : gmap ty Z) (targets : list value).

Fixpoint indirect_calls_of (f : value) (l : list value) (G : DataCallGraph) (s : fp_state) : run (DataCallGraph * fp_state) :=
  match l with
  | [] => Done (G, s)
  | ins :: l =>
      '(G, s) ← (if is_call ins && bool_decide (getCalledFunction ins = None) && considerCall ins false then
                   '(fs, s) ← getPossibleIndirectFunctions fuel structClusters targets ins s;
                   G ← or_bad (add_targets f fs G);
                   Done (G, s)
                 else Done (G, s));
      indirect_calls_of f l G s
  end.

Fixpoint indirect_calls (cc : ContextConfig) (functions : list value) (G : DataCallGraph) (s : fp_state) : run (DataCallGraph * fp_state) :=
  match functions with
  | [] => Done (G, s)
  | f :: fs =>
      '(G, s) ← (if consider_function cc f then indirect_calls_of f (instructions f) G s else Done (G, s));
      indirect_calls cc fs G s
  end.

End Indirect.

(** One step of the search per vertex and edge. *)
Definition graph_work {VP EP} (g : graph VP EP) : nat := capacity g + length (concat (map v_out (vertices g))).

(** [DataDrivenSCCPass::runOnModule]: the lists of functions, the artifacts and
    the clusters; [fuel] bounds the depth of types. *)
Definition data_runOnModule (fuel : nat) (c : config) (cc : ContextConfig) (functions : list value) (identified : list ty)
  : run (list (list value) * fp_state * gmap ty Z) :=
  clusters ← or_bad (if strongFDAnalysis c || strongFPAnalysis c then analyzeStructs identified else Some ∅);
  G ← or_bad (direct_calls cc functions (mkCallGraph empty_graph ∅));
  '(G, s) ← indirect_calls fuel clusters (possible_targets c functions) cc functions G (mkFp ∅ ∅);
  ls ← or_bad (data_sccs tt (graph_work (cg G)) (cg G));
  dataSCCs ← or_bad (mapM (mapM (fun v => v_property <$> vertices (cg G) !! v)) ls);
  Done (dataSCCs, s, clusters).

End Structs.
