(* ===== verification/PdgCreate.v ===== *)
(** * Building the program dependence graph

    [src/cali-linker/passes/PDGCreationPass.cpp]: nodes for globals, functions,
    arguments and instructions, and the edges of each instruction. *)

From S2P Require Import Prelude Graph Pdg PdgReach PdgPass DataScc.

(** ** Instructions *)

(** [GEPOperator] and [BitCastOperator] include the instructions. *)
Class LlvmCode `{Llvm} := {
  operands : value -> list value;
  isa_GEPOperator : value -> bool;
  isa_LoadInst : value -> bool;
  isa_StoreInst : value -> bool;
  isa_ReturnInst : value -> bool;
  isa_BranchInst : value -> bool;
  isa_AllocaInst : value -> bool;
  isa_ExtractValueInst : value -> bool;
  isa_InsertValueInst : value -> bool;
  isa_BasicBlock : value -> bool;
  isa_Constant : value -> bool;
  isa_ConstantInt : value -> bool;
  getZExtValue : value -> Z;
  indices : value -> list Z;
  getReturnValue : value -> option value;
  args : value -> list value;
  unnamed_addr_global : value -> bool }.

Definition put_ipcfunction `{Llvm} (b : bool) (n : PDGNode) : PDGNode :=
  mkNode (n_function n) (n_instruction n) (n_type n) (n_subnode n) (n_dummy n) (n_source n) (n_ipcsink n) (n_reaches_ipc_sink n)
    b (n_constant n) (n_filedescriptor n) (n_influenced_by_shared n) (n_source_type n).

Section Create.
Context `{L : Llvm, !LlvmTypes, !LlvmCode}.

(** ** Which instructions matter *)

Definition debug_name (s : string) : bool := String.prefix "llvm.dbg." s || String.prefix "llvm.lifetime." s.

Definition lower_char (c : Ascii.ascii) : Ascii.ascii :=
  let n := Ascii.nat_of_ascii c in if (65 <=? n)%nat && (n <=? 90)%nat then Ascii.ascii_of_nat (n + 32) else c.
Fixpoint lower_case (s : string) : string := match s with EmptyString => EmptyString | String c s => String (lower_char c) (lower_case s) end.

Definition isIgnoredInstruction (x : value) : bool :=
  match (if is_call x then called_function x else None) with
  | Some f => debug_name (getName f)
  | None =>
      isa_BranchInst x
      || (isa_GlobalVariable x
          && ((isConstant x && unnamed_addr_global x)
              || (negb (String.eqb (getName x) "") && String.prefix "llvm." (lower_case (getName x)))))
  end.

Definition malloc_names : list string :=
  ["malloc"; "calloc"; "mmap"; "mmap64"; "realloc"; "getenv"; "strdup"]%string.
Definition memalign_names : list string := ["posix_memalign"; "vasprintf"; "asprintf"]%string.

Definition isMemorySource (x : value) (functionBehavior : gmap string string) : Z :=
  if isa_AllocaInst x || isa_GlobalVariable x then 1
  else
    match (if isa_CallInst x then called_function x else None) with
    | Some f =>
        let name := default (getName f) (functionBehavior !! getName f) in
        if bool_decide (name ∈ malloc_names) then 1
        else if bool_decide (name ∈ memalign_names) then 2 else 0
    | None => 0
    end.

(** ** The edges of one instruction *)

Definition op (x : value) (i : nat) : PM value := force (operands x !! i).

Definition is_zero (x : value) : bool := isa_ConstantInt x && (getZExtValue x =? 0).

Fixpoint contains (sub s : string) : bool :=
  String.prefix sub s || match s with EmptyString => false | String _ s => contains sub s end.

(** [c_str] on [std::string]: the memory in the union is the memory behind the
    first member of the first member. *)
Definition specialGEPHandling (fuel : nat) (ins : value) (memVertex : nat) : PM unit :=
  match operands ins with
  | [x0; x1; x2; x3] =>
      if is_zero x1 && is_zero x2 && is_zero x3 then
        let t := getPointerElementType (getType x0) in
        if isStructTy t && String.prefix "class.std::" (getStructName t) && contains "::basic_string" (getStructName t) then
          some_union ← part_of memVertex 2;
          data_from_union ← (match some_union with Some u => part_of u 1 | None => mret None end);
          match data_from_union with
          | Some data =>
              v1 ← part_of memVertex 0;
              v2 ← (match v1 with Some v1 => part_of v1 0 | None => mret None end);
              mem ← (match v2 with Some v2 => deref_of v2 | None => mret None end);
              match mem with
              | Some mem => if (mem =? data)%nat then mret tt else uniteSubnodes fuel mem data
              | None => mret tt
              end
          | None => mret tt
          end
        else mret tt
      else mret tt
  | _ => mret tt
  end.

(** The member that the indices of a GEP lead to. *)
Fixpoint gep_target (ops : list value) (target : nat) (targetType : option ty) : PM nat :=
  match ops with
  | [] => mret target
  | x :: ops =>
      t ← force targetType;
      if isArrayTy t then gep_target ops target (Some (getArrayElementType t))
      else if isa_ConstantInt x then
        o ← part_of target (u32 (getZExtValue x));
        match o with
        | Some component =>
            n ← node component;
            gep_target ops component (n_type n)
        | None => mret target
        end
      else mret target
  end.

Definition gep_edges (fuel : nat) (v : nat) (ins : value) : PM unit :=
  x ← op ins 0;
  sourceVertex ← getVertex fuel x None;
  if (length (operands ins) <? 3)%nat then addSubnodeEdges fuel sourceVertex v 0
  else
    pdg_add_edge sourceVertex v Data 0 ;;
    sourceMemVertex ← deref_of sourceVertex;
    memV ← deref_of v;
    match sourceMemVertex, memV with
    | Some sourceMem, Some mem =>
        specialGEPHandling fuel ins sourceMem ;;
        n ← node sourceMem;
        target ← gep_target (drop 2 (operands ins)) sourceMem (n_type n);
        if (target =? sourceMem)%nat then uniteSubnodes fuel sourceVertex v else uniteSubnodes fuel target mem
    | _, _ => mret tt
    end.

Definition bitcast_edges (fuel : nat) (v : nat) (ins : value) : PM unit :=
  x ← op ins 0;
  sourceVertex ← getVertex fuel x None;
  let t := getType x in
  let t' := getType ins in
  let to_first :=
    isPointerTy t && isPointerTy t'
    && isStructTy (getPointerElementType t) && (0 <? getStructNumElements (getPointerElementType t))%nat
    && bool_decide (getStructElementType (getPointerElementType t) 0 = getPointerElementType t') in
  sourceMem ← (if to_first then deref_of sourceVertex else mret None);
  memV ← (if to_first then deref_of v else mret None);
  element ← (match sourceMem, memV with Some m, Some _ => part_of m 0 | _, _ => mret None end);
  match memV, element with
  | Some mem, Some e => pdg_add_edge sourceVertex v Data 0 ;; uniteSubnodes fuel mem e
  | _, _ => uniteSubnodes fuel sourceVertex v
  end.

(** [getPartOpt] along the indices; [None] when a member is missing. *)
Fixpoint parts_along (v : nat) (l : list Z) : PM (option nat) :=
  match l with
  | [] => mret (Some v)
  | i :: l =>
      o ← part_of v i;
      match o with Some w => parts_along w l | None => mret None end
  end.

(** The parameter edges, and the edge from the called pointer. *)
Definition call_edges (fuel : nat) (v : nat) (call : value) : PM unit :=
  for_args call (fun i a => v2 ← getVertex fuel a None; pdg_add_edge v2 v Param i) ;;
  called ← force (getCalledValue call);
  if isa_Function called || isIgnoredOperand (Some called) then mret tt
  else v2 ← getVertex fuel called None; pdg_add_edge v2 v Invocation 0.

Definition fd_marks (fuel : nat) (v : nat) (call : value) : PM unit :=
  let cf := getCalledFunction call in
  if isFileDescriptorFunction cf then upd_node v (put_fd true)
  else if 0 <=? isFileDescriptorParamFunction cf then
    arg ← force (arg_operands call !! Z.to_nat (isFileDescriptorParamFunction cf));
    match arg with
    | Some a => if isIgnoredOperand arg then mret tt else v2 ← getVertex fuel a None; upd_node v2 (put_fd true)
    | None => mret tt
    end
  else if isFileDescriptorPtrFunction cf then
    a ← operand call 0;
    va ← getVertex fuel a None;
    o ← deref_of va;
    match o with Some d => upd_node d (put_fd true) | None => mret tt end
  else mret tt.

Definition other_edges (fuel : nat) (v : nat) (ins : value) : PM unit :=
  for_each (operands ins) (fun x =>
    if isa_BasicBlock x || isa_Constant x then mret tt
    else v2 ← getVertex fuel x None; addSubnodeEdges fuel v2 v 0).

Definition insert_edges (fuel : nat) (v : nat) (ins : value) : PM bool :=
  if isa_InsertValueInst ins then
    x ← op ins 0;
    v0 ← getVertex fuel x None;
    addSubnodeEdges fuel v0 v 0 ;;
    o ← parts_along v (indices ins);
    match o with
    | Some v2 => x1 ← op ins 1; v1 ← getVertex fuel x1 None; addSubnodeEdges fuel v1 v2 0 ;; mret true
    | None => mret false
    end
  else mret false.

Definition extract_edges (fuel : nat) (v : nat) (ins : value) : PM bool :=
  if isa_ExtractValueInst ins then
    x ← op ins 0;
    v0 ← getVertex fuel x None;
    o ← parts_along v0 (indices ins);
    match o with Some v2 => addSubnodeEdges fuel v2 v 0 ;; mret true | None => mret false end
  else mret false.

(** An operand that is an address computation of its own. *)
Definition is_address (x : value) : bool := isa_GEPOperator x || isa_BitCastOperator x.

Fixpoint addEdges (fuel : nat) (v : nat) (ins : value) : PM unit :=
  match fuel with
  | O => no_fuel
  | S k =>
      for_each (operands ins) (fun x => if is_address x then vx ← getVertex k x None; addEdges k vx x else mret tt) ;;
      if isa_LoadInst ins then
        x ← op ins 0;
        ptr ← getVertex k x None;
        mem ← getDeref ptr;
        addSubnodeEdges k mem v 0 ;;
        if is_address x then addEdges k ptr x else mret tt
      else if isa_StoreInst ins then
        x ← op ins 0;
        if isIgnoredOperand (Some x) then mret tt
        else
          val ← getVertex k x None;
          y ← op ins 1;
          ptr ← getVertex k y None;
          mem ← getDeref ptr;
          addSubnodeEdges k val mem 0
      else if isa_CallInst ins then fd_marks k v ins ;; call_edges k v ins
      else if isa_InvokeInst ins then call_edges k v ins
      else if isa_GEPOperator ins then gep_edges k v ins
      else if isa_BitCastOperator ins then bitcast_edges k v ins
      else
        b ← extract_edges k v ins;
        if b : bool then mret tt
        else
          b ← insert_edges k v ins;
          if b : bool then mret tt else other_edges k v ins
  end.

(** ** [PDGCreationPass::runOnModule] *)

Definition create_global (fuel : nat) (functionBehavior : gmap string string) (x : value) : PM unit :=
  if negb (isIgnoredInstruction x) && negb (isMemorySource x functionBehavior =? 0) then
    v ← getVertex fuel x None;
    upd_node v (put_source true 1)
  else mret tt.

Fixpoint create_params (fuel : nat) (f : value) (vFunc : nat) (i : Z) (l : list value) : PM unit :=
  match l with
  | [] => mret tt
  | a :: l =>
      v ← getVertex fuel a (Some f);
      pdg_add_edge vFunc v Param i ;;
      create_params fuel f vFunc (i + 1) l
  end.

Definition create_instruction (fuel : nat) (functionBehavior : gmap string string) (f : value) (vFunc : nat) (ins : value) : PM unit :=
  if isIgnoredInstruction ins then mret tt
  else if isa_ReturnInst ins then
    match getReturnValue ins with
    | Some x => v ← getVertex fuel x (Some f); pdg_add_edge vFunc v Return 0
    | None => mret tt
    end
  else
    v ← getVertex fuel ins (Some f);
    let t := isMemorySource ins functionBehavior in
    upd_node v (put_source (negb (t =? 0)) t) ;;
    addEdges fuel v ins.

Definition create_function (fuel : nat) (functionBehavior : gmap string string) (externalSymbols : list string) (f : value) : PM unit :=
  vFunc ← getVertex fuel f None;
  create_params fuel f vFunc 0 (args f) ;;
  (if bool_decide (getName f ∈ externalSymbols) then upd_node vFunc (put_ipcfunction true) else mret tt) ;;
  for_each (instructions f) (create_instruction fuel functionBehavior f vFunc).

Definition put_clusters (m : gmap ty Z) (p : PDG) : PDG :=
  mkPDG (p_graph p) (value_to_vertex p) m (structClusterToKnownFDFields p) (max_parts p) (subnode_limit p)
    (united_nodes p) (function_to_vertices p).

Definition creation_runOnModule (fuel : nat) (functionBehavior : gmap string string) (externalSymbols : list string)
    (clusters : gmap ty Z) (globals functions : list value) : PM unit :=
  modify (put_clusters clusters) ;;
  for_each globals (create_global fuel functionBehavior) ;;
  for_each functions (create_function fuel functionBehavior externalSymbols).

End Create.
