(* ===== verification/PdgProps.v ===== *)
(** * Marks on the program dependence graph

    A search that marks what it discovers computes a closure: the mark
    [reaches_ipc_sink] of [calculateSinkReachability] is on exactly the nodes
    from which data flows to a sink. *)

From S2P Require Import Prelude Graph GraphProps SearchProps Pdg PdgReach.

Section Marks.
Context `{Llvm}.
Abbreviation pgraph := (graph PDGNode PDGEdge).
Implicit Types (p : PDG) (g : pgraph) (f : PDGNode -> PDGNode).

(** ** The monad *)

Lemma run_bind {A B} (m : PM A) (k : A -> PM B) p a p' : m p = Ok a p' -> (m ≫= k) p = k a p'.
Proof. unfold mbind, PM_bind. by intros ->. Qed.

Lemma bind_inv {A B} (m : PM A) (k : A -> PM B) p b p' :
  (m ≫= k) p = Ok b p' -> exists a p1, m p = Ok a p1 /\ k a p1 = Ok b p'.
Proof. unfold mbind, PM_bind. destruct (m p) as [a p1| | |]; try done. eauto. Qed.

(** ** Changing properties only *)

Definition mark_vertex f (x : vertex PDGNode PDGEdge) : vertex PDGNode PDGEdge := set_property (f (v_property x)) x.
Definition mark_node f (v : nat) p : PDG := put_graph (put_vertices (alter (mark_vertex f) v (vertices (p_graph p))) (p_graph p)) p.
Definition mark_all f (ds : list nat) p : PDG := foldl (fun p v => mark_node f v p) p ds.

Lemma upd_node_mark v f p : (v < capacity (p_graph p))%nat -> upd_node v f p = Ok tt (mark_node f v p).
Proof.
  intros Hv. unfold upd_node, on_graph_, on_graph, upd_vertex, mark_node.
  destruct (lookup_lt_is_Some_2 _ _ Hv) as [x Hx]. rewrite Hx. cbn [mbind option_bind fmap option_fmap option_map].
  do 3 f_equal. apply list_eq. intros i. destruct (decide (i = v)) as [->|Hn].
  - rewrite list_lookup_insert_eq by done. by rewrite list_lookup_alter_eq, Hx.
  - by rewrite list_lookup_insert_ne, list_lookup_alter_ne by done.
Qed.

Lemma mark_capacity f v p : capacity (p_graph (mark_node f v p)) = capacity (p_graph p).
Proof. apply length_alter. Qed.

Lemma mark_edges f v p u :
  out_edges (p_graph (mark_node f v p)) u = out_edges (p_graph p) u /\ in_edges (p_graph (mark_node f v p)) u = in_edges (p_graph p) u.
Proof.
  unfold out_edges, in_edges, mark_node. cbn [p_graph put_graph vertices put_vertices].
  destruct (decide (u = v)) as [->|Hn]; [rewrite list_lookup_alter_eq|rewrite list_lookup_alter_ne by done; done].
  by destruct (vertices (p_graph p) !! v).
Qed.

Lemma mark_node_of f v p u :
  node_of (p_graph (mark_node f v p)) u = (if decide (u = v) then f <$> node_of (p_graph p) u else node_of (p_graph p) u).
Proof.
  unfold node_of, mark_node. cbn [p_graph put_graph vertices put_vertices]. case_decide as Hn.
  - subst. rewrite list_lookup_alter_eq. by destruct (vertices (p_graph p) !! v).
  - by rewrite list_lookup_alter_ne.
Qed.

Lemma mark_vacant f v p u : vacant (vertices (p_graph (mark_node f v p))) u = vacant (vertices (p_graph p)) u.
Proof.
  unfold vacant, mark_node. cbn [p_graph put_graph vertices put_vertices].
  destruct (decide (u = v)) as [->|Hn]; [rewrite list_lookup_alter_eq|by rewrite list_lookup_alter_ne].
  by destruct (vertices (p_graph p) !! v).
Qed.

(** [p'] is [p] with [f] applied to the nodes of [S], and nothing else. *)
Record only_marks f (S : nat -> Prop) p p' : Prop := {
  om_cap : capacity (p_graph p') = capacity (p_graph p);
  om_out : forall u, out_edges (p_graph p') u = out_edges (p_graph p) u;
  om_in : forall u, in_edges (p_graph p') u = in_edges (p_graph p) u;
  om_vacant : forall u, vacant (vertices (p_graph p')) u = vacant (vertices (p_graph p)) u;
  om_in_S : forall u, S u -> node_of (p_graph p') u = f <$> node_of (p_graph p) u;
  om_not_S : forall u, ~ S u -> node_of (p_graph p') u = node_of (p_graph p) u;
  om_values : value_to_vertex p' = value_to_vertex p;
  om_index : function_to_vertices p' = function_to_vertices p;
  om_united : united_nodes p' = united_nodes p;
  om_clusters : structClusters p' = structClusters p;
  om_fields : structClusterToKnownFDFields p' = structClusterToKnownFDFields p;
  om_limits : max_parts p' = max_parts p /\ subnode_limit p' = subnode_limit p }.

Context (f : PDGNode -> PDGNode) (f_idem : forall n, f (f n) = f n).

Lemma only_marks_all ds p : only_marks f (fun v => v ∈ ds) p (mark_all f ds p).
Proof using f_idem.
  revert p. induction ds as [|v ds IH]; intros p; [|change (mark_all f (v :: ds) p) with (mark_all f ds (mark_node f v p))].
  - split; try done. by intros u []%not_elem_of_nil.
  - destruct (IH (mark_node f v p)) as [H1 H2 H3 H4 H5 H6 H7 H8 H9 H10 H11 H12]. split; try done.
    + rewrite H1. apply mark_capacity.
    + intros u. rewrite H2. apply mark_edges.
    + intros u. rewrite H3. apply mark_edges.
    + intros u. rewrite H4. apply mark_vacant.
    + intros u Hu. destruct (decide (u ∈ ds)) as [Hd|Hd].
      * rewrite H5, mark_node_of by done. case_decide; [|done]. destruct (node_of (p_graph p) u); simpl; by rewrite ?f_idem.
      * apply elem_of_cons in Hu as [->|Hu]; [|done]. rewrite H6, mark_node_of by done. by rewrite decide_True.
    + intros u Hu. rewrite not_elem_of_cons in Hu. destruct Hu as [Hn Hd]. rewrite H6, mark_node_of by done. by rewrite decide_False.
Qed.

Lemma only_marks_ext S S' p p' : (forall u, S u <-> S' u) -> only_marks f S p p' -> only_marks f S' p p'.
Proof using Type.
  intros HS [H1 H2 H3 H4 H5 H6 H7 H8 H9 H10 H11 H12]. split; try done; intros u Hu; [apply H5|apply H6]; by rewrite HS.
Qed.

End Marks.

(** ** A search with state does what the search without does *)

Section Visit.
Context `{Llvm} {A : Type}.
Context (discover : nat -> A -> PM (bool * A)) (wanted : nat -> PM bool) (next : graph PDGNode PDGEdge -> nat -> list nat).
Context (d w : nat -> bool) (acc : nat -> A -> A) (nx : nat -> list nat) (n : nat) (st : list nat -> PDG).

(** [st ds]: the state when [ds] have been discovered. *)
Context (Hd : forall ds v a, (forall u, u ∈ ds -> (u < n)%nat) -> (v < n)%nat ->
  discover v a (st ds) = Ok (d v, acc v a) (st (ds ++ [v]))).
Context (Hw : forall ds v, (forall u, u ∈ ds -> (u < n)%nat) -> (v < n)%nat -> wanted v (st ds) = Ok (w v) (st ds)).
Context (Hnx : forall ds u, (forall u, u ∈ ds -> (u < n)%nat) -> next (p_graph (st ds)) u = nx u).
Context (Hcap : forall ds, (forall u, u ∈ ds -> (u < n)%nat) -> capacity (p_graph (st ds)) = n).
Context (nx_lt : forall u v, (u < n)%nat -> v ∈ nx u -> (v < n)%nat).

Abbreviation below := (fun ds : list nat => forall u, u ∈ ds -> (u < n)%nat).

Lemma below_snoc ds v : below ds -> (v < n)%nat -> below (ds ++ [v]).
Proof using Type. intros H1 H2 u [Hu| ->%list_elem_of_singleton]%elem_of_app; auto. Qed.

Lemma below_app ds ds' : below ds -> below ds' -> below (ds ++ ds').
Proof using Type. intros H1 H2 u [Hu|Hu]%elem_of_app; auto. Qed.

Definition gather (a : A) (ds : list nat) : A := foldl (fun a v => acc v a) a ds.

(** A scan that was not stopped colours exactly what it discovers. *)
Lemma visit_scan_run check cands cm q a ds b cm' q' :
  cm_ok n cm -> below cands -> below ds -> scan d w check cands cm q = Some (b, cm', q') ->
  exists ds', visit_scan discover wanted check cands cm q a (st ds) = Ok (b, cm', q', gather a ds') (st (ds ++ ds'))
    /\ below ds' /\ cm_ok n cm' /\ (forall v, v ∈ ds' -> v ∈ cands)
    /\ (b = false -> forall v, colour cm' v <> 0 <-> colour cm v <> 0 \/ v ∈ ds').
Proof using Hd Hw.
  revert cm q a ds. induction cands as [|v cands IH]; intros cm q a ds Hcm Hc Hds; cbn [scan visit_scan].
  { intros [= <- <- <-]. exists []. rewrite app_nil_r. split; [done|]. split; [by intros u []%not_elem_of_nil|]. split; [done|].
    split; [done|]. intros _ v. rewrite elem_of_nil. tauto. }
  assert (v < n)%nat as Hv by (apply Hc; left). assert (below cands) as Hc' by (intros u Hu; apply Hc; by right).
  rewrite (color_get_colour n) by done. cbn [mbind option_bind]. unfold on_colors. rewrite (run_bind _ _ _ _ _ (eq_refl : force (Some (colour cm v)) (st ds) = _)).
  destruct (check && negb (colour cm v =? WHITE)) eqn:Ec.
  { intros E. destruct (IH cm q a ds Hcm Hc' Hds E) as (ds' & -> & ? & ? & ? & ?). exists ds'. split_and!; try done. intros u Hu. right. auto. }
  destruct (color_put_fast_spec n cm v GRAY Hcm Hv ltac:(done)) as (cm1 & -> & Hcm1 & Hcol). cbn [mbind option_bind].
  rewrite (run_bind _ _ _ _ _ (eq_refl : force (Some cm1) (st ds) = _)), (run_bind _ _ _ _ _ (Hw ds v Hds Hv)).
  destruct (w v).
  { intros [= <- <- <-]. exists []. rewrite app_nil_r. split; [done|]. split; [by intros u []%not_elem_of_nil|]. split; [done|].
    split; [by intros u []%not_elem_of_nil|done]. }
  intros E. rewrite (run_bind _ _ _ _ _ (Hd ds v a Hds Hv)).
  destruct (IH cm1 (if d v then q ++ [v] else q) (acc v a) (ds ++ [v]) Hcm1 Hc' (below_snoc _ _ Hds Hv) E) as (ds' & -> & Hb & Hcm' & Hi & Hcol').
  exists (v :: ds'). rewrite <- app_assoc. split; [done|]. split; [intros u [->|Hu]%elem_of_cons; auto|]. split; [done|].
  split; [intros u [->|Hu]%elem_of_cons; [left|right; auto]|].
  intros Hb0 u. rewrite (Hcol' Hb0), Hcol, elem_of_cons. destruct (decide (u = v)) as [->|Hne]; [|tauto].
  assert (Z.lor (colour cm v) GRAY <> 0); [|tauto]. intros [_ E2]%Z.lor_eq_0_iff. done.
Qed.

Lemma visit_loop_run fuel cm q a ds :
  cm_ok n cm -> below q -> (forall v, v ∈ q -> colour cm v <> 0) -> below ds ->
  match bfs_loop d w fuel nx cm q with
  | Stuck => True
  | Found cm' => exists ds', visit_loop discover wanted fuel next cm q a (st ds) = Ok (true, cm', gather a ds') (st (ds ++ ds'))
                             /\ below ds' /\ cm_ok n cm'
  | Done cm' => exists ds', visit_loop discover wanted fuel next cm q a (st ds) = Ok (false, cm', gather a ds') (st (ds ++ ds'))
                            /\ below ds' /\ cm_ok n cm' /\ forall v, colour cm' v <> 0 <-> colour cm v <> 0 \/ v ∈ ds'
  end.
Proof using Hd Hw Hnx nx_lt.
  revert cm q a ds. induction fuel as [|k IH]; intros cm q a ds Hcm Hq Hqc Hds; [done|]. cbn [bfs_loop visit_loop].
  destruct q as [|u q].
  { exists []. rewrite app_nil_r. split; [done|]. split; [by intros v []%not_elem_of_nil|]. split; [done|]. intros v. rewrite elem_of_nil. tauto. }
  assert (u < n)%nat as Hu by (apply Hq; left). assert (below q) as Hq' by (intros v Hv; apply Hq; by right).
  rewrite (run_bind (ask p_graph) _ (st ds) (p_graph (st ds)) (st ds) eq_refl), Hnx by done.
  destruct (scan d w true (nx u) cm q) as [[[b cm1] q1]|] eqn:E; [|done].
  destruct (visit_scan_run true (nx u) cm q a ds b cm1 q1 Hcm ltac:(intros v; by apply nx_lt) Hds E) as (ds1 & Ev & Hb1 & Hcm1 & Hi1 & Hcol1).
  rewrite (run_bind _ _ _ _ _ Ev). destruct b.
  { exists ds1. by split. }
  destruct (color_put_fast_spec n cm1 u BLACK Hcm1 Hu ltac:(done)) as (cm2 & -> & Hcm2 & Hcol2).
  unfold on_colors. rewrite (run_bind _ _ _ _ _ (eq_refl : force (Some cm2) (st (ds ++ ds1)) = _)).
  destruct (scan_spec d w n true (nx u) cm q) as (r & Er & Hr); [done|intros v; by apply nx_lt|done|]. rewrite E in Er. injection Er as <-.
  destruct Hr as (added & -> & _ & Hc1 & Ha & _).
  assert (below (q ++ added)) as Hq1 by (apply below_app; [done|]; intros v Hv; apply (nx_lt u); [done|]; by apply Ha).
  assert (forall v, v ∈ q ++ added -> colour cm2 v <> 0) as Hqc2.
  { intros v Hv. rewrite Hcol2. assert (colour cm1 v <> 0) as H1.
    - rewrite Hc1. case_decide as Hx; [done|]. apply elem_of_app in Hv as [Hv|Hv]; [apply Hqc; by right|]. intros E0. apply Hx. split; [done|by apply Ha].
    - case_decide as E1; [|done]. subst. by intros [E2 _]%Z.lor_eq_0_iff. }
  specialize (IH cm2 (q ++ added) (gather a ds1) (ds ++ ds1) Hcm2 Hq1 Hqc2 (below_app _ _ Hds Hb1)).
  assert (forall v, colour cm2 v <> 0 <-> colour cm1 v <> 0) as Hcol2'.
  { intros v. rewrite Hcol2. destruct (decide (v = u)) as [->|]; [|tauto].
    assert (colour cm1 u <> 0) by (rewrite (Hcol1 eq_refl); left; apply Hqc; left).
    assert (Z.lor (colour cm1 u) BLACK <> 0); [|tauto]. by intros [E2 _]%Z.lor_eq_0_iff. }
  destruct (bfs_loop d w k nx cm2 (q ++ added)) as [cm'|cm'|]; [|..|done].
  - destruct IH as (ds2 & -> & Hb2 & Hc). exists (ds1 ++ ds2). unfold gather. rewrite foldl_app, <- app_assoc. split; [done|].
    split; [by apply below_app|done].
  - destruct IH as (ds2 & -> & Hb2 & Hc & Hcol). exists (ds1 ++ ds2). unfold gather. rewrite foldl_app, <- app_assoc. split; [done|].
    split; [by apply below_app|]. split; [done|]. intros v. rewrite Hcol, Hcol2', (Hcol1 eq_refl), elem_of_app. tauto.
Qed.

(** The whole search: it finds a wanted vertex, or it discovers exactly what is
    reached, and the visitor's data gathers that. *)
Lemma visit_run sources cm a :
  (n <= 4 * length cm)%nat -> below sources ->
  exists b cm' ds, visit discover wanted next sources cm a (st []) = Ok (b, cm', gather a ds) (st ds) /\ below ds
    /\ (n <= 4 * length cm')%nat
    /\ if b : bool then exists v, reached d (fun u v => v ∈ nx u) sources v /\ w v = true
       else forall v, v ∈ ds <-> reached d (fun u v => v ∈ nx u) sources v.
Proof using Hd Hw Hnx Hcap nx_lt.
  intros Hn Hs. destruct sources as [|s0 rest] eqn:Es.
  { exists false, cm, []. split; [done|]. split; [by intros u []%not_elem_of_nil|]. split; [done|]. intros v. rewrite elem_of_nil. split; [done|].
    induction 1 as [u []%not_elem_of_nil|]; done. }
  rewrite <- Es in *.
  assert (visit discover wanted next sources cm a (st []) = ('(b, cm1, q1, a1) ← visit_scan discover wanted false sources (colors_init cm) [] a;
    if b : bool then mret (true, cm1, a1)
    else n ← ask (fun p => capacity (p_graph p)); visit_loop discover wanted (S (n + length sources)) next cm1 q1 a1) (st [])) as -> by (by subst).
  pose proof (colors_init_ok n cm Hn) as Hcm0.
  destruct (scan_spec d w n false sources (colors_init cm) []) as ([[b cm1] q1] & E & Hr); [done..|by intros _ v; rewrite colour_init; left|].
  destruct (visit_scan_run false sources (colors_init cm) [] a [] b cm1 q1 Hcm0 Hs ltac:(by intros u []%not_elem_of_nil) E)
    as (ds1 & Ev & Hb1 & Hcm1 & Hi1 & Hcol1). rewrite (run_bind _ _ _ _ _ Ev). cbn [app] in *. destruct b.
  { exists true, cm1, ds1. split; [done|]. split; [done|]. split; [by apply Hcm1|]. destruct Hr as (v & ? & ?). exists v. by split; [constructor|]. }
  destruct (bfs_inv_start _ _ nx _ _ _ _ _ Hn Hs Hr) as [Hinv Hm].
  pose proof (bfs_loop_spec d w nx n nx_lt sources (S (n + length sources)) cm1 q1 Hinv ltac:(lia)) as Hx.
  destruct Hr as (added & -> & _ & Hc1 & Ha & _).
  rewrite (run_bind (ask _) _ (st ds1) n (st ds1)) by (unfold ask; by rewrite Hcap).
  pose proof (visit_loop_run (S (n + length sources)) cm1 added (gather a ds1) ds1 Hcm1) as HL.
  assert (below added) as Hba by (intros v Hv; apply Hs; by apply Ha).
  specialize (HL Hba). assert (forall v, v ∈ added -> colour cm1 v <> 0) as Hac.
  { intros v Hv. rewrite Hc1, decide_True; [done|]. split; [apply colour_init|by apply Ha]. }
  specialize (HL Hac Hb1). cbn [app] in *.
  destruct (bfs_loop d w (S (n + length sources)) nx cm1 added) as [cm'|cm'|] eqn:EL; [|..|done].
  - destruct HL as (ds2 & -> & Hb2 & Hc). exists true, cm', (ds1 ++ ds2). unfold gather. rewrite foldl_app. split; [done|].
    split; [by apply below_app|]. split; [apply Hc|done].
  - destruct HL as (ds2 & -> & Hb2 & Hc & Hcol). exists false, cm', (ds1 ++ ds2). unfold gather. rewrite foldl_app. split; [done|].
    split; [by apply below_app|]. split; [apply Hc|]. intros v. rewrite elem_of_app.
    assert (colour cm' v <> 0 <-> v ∈ ds1 \/ v ∈ ds2) as <- by (rewrite Hcol, (Hcol1 eq_refl), colour_init; tauto).
    split; [intros Hv; by apply (bi_reached _ _ _ _ _ _ _ Hx)|]. intros Hv. destruct (bfs_inv_end _ _ _ _ _ _ v Hx) as (B & G & _).
    destruct (d v) eqn:Ed; [rewrite (proj2 B)|rewrite (proj2 G)]; done.
Qed.


End Visit.

(** ** Collecting the sources *)

Section Spread.
Context `{Llvm}.
Abbreviation pgraph := (graph PDGNode PDGEdge).
Implicit Types (p : PDG) (g : pgraph).

(** The index by functions knows every live node; entries of removed nodes may
    be left in it. *)
Record index_ok p : Prop := {
  ix_complete : forall v n, live (p_graph p) v -> node_of (p_graph p) v = Some n -> v ∈ vertices_for (n_function n) p;
  ix_range : forall f v, v ∈ vertices_for f p -> (v < capacity (p_graph p))%nat }.

Lemma node_some g v : (v < capacity g)%nat -> exists n, node_of g v = Some n.
Proof. intros Hv. unfold node_of. destruct (lookup_lt_is_Some_2 _ _ Hv) as [x ->]. by exists (v_property x). Qed.

Lemma node_Ok v n p : node_of (p_graph p) v = Some n -> node v p = Ok n p.
Proof. unfold node. by intros ->. Qed.

Lemma filter_nodes_run f flag l p :
  (forall v, v ∈ l -> (v < capacity (p_graph p))%nat) ->
  exists l', filter_nodes f flag l p = Ok l' p
    /\ forall v, v ∈ l' <-> v ∈ l /\ exists n, node_of (p_graph p) v = Some n /\ n_function n = f /\ flag n = true.
Proof.
  induction l as [|v l IH]; intros Hl; cbn [filter_nodes].
  - exists []. split; [done|]. intros v. rewrite elem_of_nil. tauto.
  - destruct (node_some (p_graph p) v) as [n Hn]; [apply Hl; left|]. rewrite (run_bind _ _ _ _ _ (node_Ok _ _ _ Hn)).
    destruct IH as (l' & E & Hin); [intros u Hu; apply Hl; by right|]. rewrite (run_bind _ _ _ _ _ E).
    eexists. split; [reflexivity|]. intros u. case_bool_decide as Hf; destruct (flag n) eqn:Efl; cbn [andb]; rewrite ?elem_of_cons, Hin;
      (split; [naive_solver|]); intros [[->|Hu] (n0 & Hn0 & Hf0 & Hx)]; first [by left|by exfalso; congruence|naive_solver].
Qed.

Lemma collect_sources_run functions flag p :
  index_ok p ->
  exists l, collect_sources functions flag p = Ok l p
    /\ forall v, v ∈ l <-> exists n, node_of (p_graph p) v = Some n /\ n_function n ∈ functions /\ v ∈ vertices_for (n_function n) p
                                     /\ flag n = true.
Proof.
  intros Hix. induction functions as [|f fs IH]; cbn [collect_sources].
  - exists []. split; [done|]. intros v. setoid_rewrite elem_of_nil. naive_solver.
  - rewrite (run_bind (ask _) _ p (vertices_for f p) p eq_refl).
    destruct (filter_nodes_run f flag (vertices_for f p) p) as (a & Ea & Ha); [apply (ix_range _ Hix)|]. rewrite (run_bind _ _ _ _ _ Ea).
    destruct IH as (b & Eb & Hb). rewrite (run_bind _ _ _ _ _ Eb). eexists. split; [reflexivity|].
    intros v. rewrite elem_of_app, Ha, Hb. setoid_rewrite elem_of_cons. naive_solver.
Qed.

(** ** A mark that spreads along edges *)

Definition back_edge (types : list PDGEdgeType) g (u v : nat) : Prop :=
  exists e, has_edge g e /\ e_type (eprop e) ∈ types /\ target e = u /\ source e = v.
Definition forth_edge (types : list PDGEdgeType) g (u v : nat) : Prop :=
  exists e, has_edge g e /\ e_type (eprop e) ∈ types /\ source e = u /\ target e = v.

(** From the flagged nodes of the functions, along edges that start in the
    functions or in nodes of no function. *)
Inductive spread (flag : PDGNode -> bool) (functions : list (option value)) (adj : nat -> nat -> Prop) p : nat -> Prop :=
| spread_from v n : node_of (p_graph p) v = Some n -> n_function n ∈ functions -> v ∈ vertices_for (n_function n) p -> flag n = true ->
    spread flag functions adj p v
| spread_along u v n : spread flag functions adj p u -> node_of (p_graph p) u = Some n -> in_scope functions n = true -> adj u v ->
    spread flag functions adj p v.

Lemma edge_ends_lt g e : wired (vertices g) -> has_edge g e -> (source e < capacity g)%nat /\ (target e < capacity g)%nat.
Proof.
  intros W He. unfold has_edge in He. pose proof (proj1 (wi_mirror _ W e) He) as Hi. unfold out_edges in He. unfold ins in Hi. split.
  - destruct (vertices g !! source e) eqn:E; [by eapply lookup_lt_Some|]. by apply not_elem_of_nil in He.
  - destruct (vertices g !! target e) eqn:E; [by eapply lookup_lt_Some|]. by apply not_elem_of_nil in Hi.
Qed.

Lemma forth_along_spec types g u v : wired (vertices g) -> v ∈ forth_along types g u <-> forth_edge types g u v.
Proof.
  intros L. unfold forth_along, forth_edge, has_edge. rewrite elem_map_filter. unfold edge_type_in. setoid_rewrite bool_decide_eq_true.
  split; intros (e & He & Hx & Ht).
  - exists e. pose proof (wi_out_source _ L u e He) as <-. done.
  - destruct Ht as [<- <-]. by exists e.
Qed.

Lemma back_along_spec types g u v : wired (vertices g) -> v ∈ back_along types g u <-> back_edge types g u v.
Proof.
  intros L. unfold back_along, back_edge, has_edge. rewrite elem_map_filter. unfold edge_type_in. setoid_rewrite bool_decide_eq_true.
  split; intros (e & He & Hx & Ht).
  - exists e. pose proof (wi_in_target _ L u e He) as <-. split; [by apply (wi_mirror _ L)|done].
  - destruct Ht as [<- <-]. exists e. split; [by apply (wi_mirror _ L)|done].
Qed.

(** The visitor that marks with [f] and stays in the functions. *)
Definition discover_mark (f : PDGNode -> PDGNode) (functions : list (option value)) (v : nat) (a : unit) : PM (bool * unit) :=
  upd_node v f ;; n ← node v; mret (in_scope functions n, a).

Definition scope_of functions p (v : nat) : bool :=
  match node_of (p_graph p) v with Some n => in_scope functions n | None => false end.

Context (f : PDGNode -> PDGNode) (f_idem : forall n, f (f n) = f n) (f_fun : forall n, n_function (f n) = n_function n).
Context (functions : list (option value)) (next : pgraph -> nat -> list nat).
Context (next_ext : forall g g' u, (forall u, out_edges g' u = out_edges g u) -> (forall u, in_edges g' u = in_edges g u) -> next g' u = next g u).

Lemma spread_run sources cm p (adj : nat -> nat -> Prop) :
  (forall u v, v ∈ next (p_graph p) u <-> adj u v) -> (forall u v, adj u v -> (v < capacity (p_graph p))%nat) ->
  (capacity (p_graph p) <= 4 * length cm)%nat -> (forall s, s ∈ sources -> (s < capacity (p_graph p))%nat) ->
  exists cm' p', visit (discover_mark f functions) not_wanted next sources cm tt p = Ok (false, cm', tt) p'
    /\ (capacity (p_graph p) <= 4 * length cm')%nat
    /\ only_marks f (reached (scope_of functions p) adj sources) p p'
    /\ forall v, reached (scope_of functions p) adj sources v \/ ~ reached (scope_of functions p) adj sources v.
Proof using f_idem f_fun next_ext.
  intros Hadj Hlt Hcm Hs. pose proof (fun ds => only_marks_all f f_idem ds p) as Hom.
  destruct (visit_run (discover_mark f functions) not_wanted next (scope_of functions p) (fun _ => false) (fun _ a => a)
    (next (p_graph p)) (capacity (p_graph p)) (fun ds => mark_all f ds p)) with (sources := sources) (cm := cm) (a := tt)
    as (b & cm' & ds & E & Hb & Hcm' & Hr); try done.
  - intros ds v a Hds Hv. unfold discover_mark. rewrite (run_bind _ _ _ tt (mark_node f v (mark_all f ds p))).
    2: { apply upd_node_mark. by rewrite (om_cap _ _ _ _ (Hom ds)). }
    replace (mark_node f v (mark_all f ds p)) with (mark_all f (ds ++ [v]) p) by (unfold mark_all; by rewrite foldl_app).
    destruct (node_some (p_graph p) v Hv) as [n Hn]. unfold scope_of. rewrite Hn.
    rewrite (run_bind _ _ _ (f n) (mark_all f (ds ++ [v]) p)).
    2: { apply node_Ok. rewrite (om_in_S _ _ _ _ (Hom (ds ++ [v]))); [by rewrite Hn|]. apply elem_of_app. right. by apply list_elem_of_singleton. }
    unfold in_scope. by rewrite f_fun.
  - intros ds u _. apply next_ext; [apply (om_out _ _ _ _ (Hom ds))|apply (om_in _ _ _ _ (Hom ds))].
  - intros ds _. apply (om_cap _ _ _ _ (Hom ds)).
  - intros u v _ Hv. apply (Hlt u v). by apply Hadj.
  - destruct b; [destruct Hr as (v & _ & [=])|]. exists cm', (mark_all f ds p). split.
    { unfold gather in E. destruct (foldl _ tt ds). done. }
    assert (forall u, u ∈ ds <-> reached (scope_of functions p) adj sources u) as Hds by (intros u; rewrite Hr; by apply reached_ext).
    split; [done|]. split; [by eapply only_marks_ext; [|apply Hom]|]. intros u. rewrite <- Hds. destruct (decide (u ∈ ds)); tauto.
Qed.

(** Collecting the sources and searching from them. *)
Lemma spread_exact flag cm p (adj : nat -> nat -> Prop) :
  index_ok p -> (capacity (p_graph p) <= 4 * length cm)%nat ->
  (forall u v, v ∈ next (p_graph p) u <-> adj u v) -> (forall u v, adj u v -> (v < capacity (p_graph p))%nat) ->
  exists k cm' p', (sources ← collect_sources functions flag;
    '(_, cm, _) ← visit (discover_mark f functions) not_wanted next sources cm tt;
    mret (length sources, cm)) p = Ok (k, cm') p'
    /\ (capacity (p_graph p) <= 4 * length cm')%nat /\ only_marks f (spread flag functions adj p) p p'
    /\ forall v, spread flag functions adj p v \/ ~ spread flag functions adj p v.
Proof using f_idem f_fun next_ext.
  intros Hix Hcm Hadj Hlt. destruct (collect_sources_run functions flag p Hix) as (sources & Es & Hs).
  destruct (spread_run sources cm p adj) as (cm' & p' & E & Hcm' & Hom & Hdec); [done..| |].
  { intros s Hin. apply Hs in Hin as (n & Hn & _ & Hi & _). by apply (ix_range _ Hix) in Hi. }
  exists (length sources), cm', p'. split; [by rewrite (run_bind _ _ _ _ _ Es), (run_bind _ _ _ _ _ E)|]. split; [done|].
  assert (forall v, reached (scope_of functions p) adj sources v <-> spread flag functions adj p v) as Heq.
  2: { split; [by eapply only_marks_ext; [|exact Hom]|]. intros v. by rewrite <- Heq. }
  intros v. split.
  - induction 1 as [s Hin|u v Hu IH Hd Ha].
    + apply Hs in Hin as (n & Hn & Hf & Hi & Hfl). by apply (spread_from _ _ _ _ s n).
    + unfold scope_of in Hd. destruct (node_of (p_graph p) u) as [n|] eqn:En; [|done]. by apply (spread_along _ _ _ _ u v n).
  - induction 1 as [u n Hn Hf Hi Hfl|u w n Hu IH Hn Hsc Ha].
    + constructor. apply Hs. by exists n.
    + apply (reached_step _ _ _ u); [done|unfold scope_of; by rewrite Hn|done].
Qed.

End Spread.
