(* ===== verification/PdgOk.v ===== *)
(** * Consistency of the program dependence graph

    Every operation and every pass, whatever it is applied to, keeps the
    adjacency lists mirrored and the index by functions complete. *)

From S2P Require Import Prelude Graph GraphProps SearchProps Pdg PdgReach PdgPass DataScc PdgCreate PdgProps.

(** ** Properties of vertices under the operations of [BaseGraph] *)

Section Properties.
Context {VP EP : Type} `{EqDecision EP}.
Implicit Types (g : graph VP EP).

Definition props g : list VP := v_property <$> vertices g.

Lemma upd_vertex_props v f g g' :
  (forall x, v_property (f x) = v_property x) -> upd_vertex v f g = Some g' -> props g' = props g.
Proof.
  unfold upd_vertex, props. intros Hf E. destruct (vertices g !! v) as [x|] eqn:Hx; [|done]. injection E as <-.
  cbn [vertices put_vertices]. rewrite list_fmap_insert, Hf. apply list_insert_id. by rewrite list_lookup_fmap, Hx.
Qed.

Lemma remove_out_props e g b g' : remove_out e g = Some (b, g') -> props g' = props g.
Proof.
  unfold remove_out. destruct (vertices g !! source e) as [x|]; [|done]. cbn [mbind option_bind]. destruct (uv_remove e (v_out x)) as [c l].
  destruct (upd_vertex (source e) (put_out l) g) as [g1|] eqn:E; [|done]. intros [= <- <-]. by apply upd_vertex_props in E.
Qed.

Lemma remove_in_props e g b g' : remove_in e g = Some (b, g') -> props g' = props g.
Proof.
  unfold remove_in. destruct (vertices g !! target e) as [x|]; [|done]. cbn [mbind option_bind]. destruct (uv_remove e (v_in x)) as [c l].
  destruct (upd_vertex (target e) (put_in l) g) as [g1|] eqn:E; [|done]. intros [= <- <-]. by apply upd_vertex_props in E.
Qed.

Lemma remove_all_props rem l g g' :
  (forall e g b g', rem e g = Some (b, g') -> props g' = props g) -> remove_all rem l g = Some g' -> props g' = props g.
Proof.
  intros Hr. revert g. induction l as [|e l IH]; intros g; cbn [remove_all]; [by intros [= ->]|].
  destruct (rem e g) as [[b g1]|] eqn:E; [|done]. cbn [mbind option_bind]. intros E2. apply IH in E2. apply Hr in E. congruence.
Qed.

Lemma remove_vertex_props v g g' : remove_vertex v g = Some g' -> props g' = props g.
Proof.
  unfold remove_vertex. destruct (vertices g !! v) as [x|]; [|done]. cbn [mbind option_bind]. set (n := u64 _).
  destruct (remove_all remove_out (v_in x) (put_edge_size n g)) as [g1|] eqn:E1; [|done]. cbn [mbind option_bind].
  destruct (vertices g1 !! v) as [x1|]; [|done]. cbn [mbind option_bind].
  destruct (remove_all remove_in (v_out x1) g1) as [g2|] eqn:E2; [|done]. cbn [mbind option_bind].
  destruct (upd_vertex v _ g2) as [g3|] eqn:E3; [|done]. intros [= <-]. apply upd_vertex_props in E3; [|done].
  apply remove_all_props in E1; [|apply remove_out_props]. apply remove_all_props in E2; [|apply remove_in_props].
  change (props (mkGraph _ _ _ (vertices g3))) with (props g3). by rewrite E3, E2, E1.
Qed.

Lemma add_edge_props v1 v2 q g g' : add_edge v1 v2 q g = Some g' -> props g' = props g.
Proof.
  unfold add_edge, add_edge_with. destruct (vertices g !! v1) as [x|]; [|done]. cbn [mbind option_bind].
  destruct (uv_insert _ (v_out x)) as [b1 l1]. destruct (upd_vertex v1 (put_out l1) g) as [g1|] eqn:E1; [|done]. cbn [mbind option_bind].
  apply upd_vertex_props in E1; [|done]. destruct b1; [|by intros [= <-]]. destruct (vertices g1 !! v2) as [y|]; [|done]. cbn [mbind option_bind].
  destruct (uv_insert _ (v_in y)) as [b2 l2]. destruct (upd_vertex v2 (put_in l2) g1) as [g2|] eqn:E2; [|done]. cbn [mbind option_bind].
  apply upd_vertex_props in E2; [|done]. destruct b2; intros [= <-]; [change (props (put_edge_size _ g2)) with (props g2)|]; congruence.
Qed.

Lemma props_lookup g v : v_property <$> vertices g !! v = props g !! v.
Proof. unfold props. by rewrite list_lookup_fmap. Qed.

(** *** The lists after each operation, without conditions on its arguments *)

Lemma add_edge_wired v1 v2 q g g' :
  wired (vertices g) -> add_edge v1 v2 q g = Some g' ->
  wired (vertices g') /\ same_frame g g' /\ forall e, has_edge g' e <-> has_edge g e \/ e = mkEdge v1 v2 q.
Proof.
  intros W E. set (e := mkEdge v1 v2 q).
  assert (is_Some (vertices g !! v1)) as H1.
  { unfold add_edge, add_edge_with in E. by destruct (vertices g !! v1). }
  destruct (decide (e ∈ out_edges g v1)) as [Hin|Hin].
  { rewrite add_edge_present in E by done. injection E as <-. split; [done|]. split; [done|]. intros e'. split; [by left|]. by intros [?| ->]. }
  assert (is_Some (vertices g !! v2)) as H2.
  { destruct H1 as [x Hx]. unfold add_edge, add_edge_with in E. rewrite Hx in E. cbn [mbind option_bind] in E. unfold uv_insert in E at 1.
    unfold out_edges in Hin. rewrite Hx in Hin. fold e in E. rewrite decide_False in E by done. rewrite (upd_vertex_some _ _ _ x Hx) in E.
    cbn [mbind option_bind vertices put_vertices] in E. destruct (<[v1:=_]> (vertices g) !! v2) as [y|] eqn:Ey; [|done].
    apply lookup_lt_is_Some_2. apply lookup_lt_Some in Ey. by rewrite length_insert in Ey. }
  destruct (add_edge_with_new uv_insert v1 v2 q g) as (g'' & E' & F & _ & _ & O & I); try done.
  { intros l Hl. unfold uv_insert. by rewrite decide_False. }
  unfold add_edge in E. rewrite E in E'. injection E' as <-. fold e in O, I. destruct W as [Ho Hi Hs Ht Hm].
  assert (e ∉ ins (vertices g) v2) as Hni by (intros Hx; apply Hin, Hm, Hx). split; [split|split; [done|]].
  - intros v. rewrite O. case_decide; [|done]. subst. by apply NoDup_snoc.
  - intros v. rewrite I. case_decide; [|done]. subst. by apply NoDup_snoc.
  - intros v e'. rewrite O. case_decide; [|apply Hs]. subst. rewrite elem_of_app, list_elem_of_singleton. intros [?| ->]; [by apply Hs|done].
  - intros v e'. rewrite I. case_decide; [|apply Ht]. subst. rewrite elem_of_app, list_elem_of_singleton. intros [?| ->]; [by apply Ht|done].
  - intros e'. rewrite O, I. specialize (Hm e'). destruct (decide (e' = e)) as [->|Hn].
    + rewrite !decide_True by done. rewrite !elem_of_app, !list_elem_of_singleton. naive_solver.
    + repeat case_decide; rewrite ?elem_of_app, ?list_elem_of_singleton; naive_solver.
  - intros e'. unfold has_edge. rewrite !outs_edges, O. case_decide as Hx; [by rewrite elem_of_app, list_elem_of_singleton|].
    split; [by left|]. intros [?| ->]; [done|]. by destruct Hx.
Qed.

Lemma remove_vertex_wired v g g' :
  wired (vertices g) -> remove_vertex v g = Some g' ->
  wired (vertices g') /\ capacity g' = capacity g
  /\ (forall u, vacant (vertices g') u = if decide (u = v) then true else vacant (vertices g) u)
  /\ forall e, has_edge g' e <-> has_edge g e /\ source e <> v /\ target e <> v.
Proof.
  intros W E. assert (is_Some (vertices g !! v)) as H1 by (unfold remove_vertex in E; by destruct (vertices g !! v)).
  destruct (remove_vertex_adj v g W H1) as (g'' & l & E' & _ & _ & Hl & Hv & No & Ni & O & I & _). rewrite E in E'. injection E' as <-.
  split; [split|].
  - done.
  - done.
  - intros u e [He _]%O. by apply (wi_out_source _ W).
  - intros u e [He _]%I. by apply (wi_in_target _ W).
  - intros e. by rewrite O, I, (wi_mirror _ W).
  - split; [done|]. split; [done|]. intros e. unfold has_edge. by rewrite !outs_edges, O.
Qed.

Lemma wired_ext (vs vs' : list (vertex VP EP)) :
  (forall u, outs vs' u = outs vs u) -> (forall u, ins vs' u = ins vs u) -> wired vs -> wired vs'.
Proof.
  intros O I [H1 H2 H3 H4 H5]. split.
  - intros u. by rewrite O.
  - intros u. by rewrite I.
  - intros u e. rewrite O. apply H3.
  - intros u e. rewrite I. apply H4.
  - intros e. rewrite O, I. apply H5.
Qed.

(** A vertex that is used again keeps the edges it has. *)
Lemma add_vertex_wired n g v g' :
  add_vertex n g = Some (v, g') ->
  (forall u, outs (vertices g') u = outs (vertices g) u) /\ (forall u, ins (vertices g') u = ins (vertices g) u)
  /\ (forall u, vacant (vertices g') u = if decide (u = v) then false else vacant (vertices g) u)
  /\ (forall u, props g' !! u = if decide (u = v) then Some n else props g !! u)
  /\ (capacity g <= capacity g')%nat /\ (v < capacity g')%nat.
Proof.
  unfold add_vertex. destruct (take_free (capacity g) (free_vertices g)) as [[w|] fr].
  - destruct (vertices g !! w) as [x|] eqn:Hx; [|done]. cbn [mbind option_bind]. intros [= <- <-]. pose proof (lookup_lt_Some _ _ _ Hx) as Hlt.
    unfold outs, ins, vacant, props, capacity. cbn [vertices]. rewrite length_insert. split_and!; [..|done|done].
    all: intros u; rewrite ?list_lookup_fmap; destruct (decide (u = w)) as [->|];
      [rewrite list_lookup_insert_eq by done; by rewrite ?Hx|by rewrite list_lookup_insert_ne by done].
  - intros [= <- <-]. unfold outs, ins, vacant, props, capacity. cbn [vertices]. rewrite length_app. cbn [length]. split_and!; [..|lia|lia].
    all: intros u; rewrite ?list_lookup_fmap; destruct (decide (u = length (vertices g))) as [->|];
      [rewrite list_lookup_middle by done; by rewrite ?lookup_ge_None_2 by done|].
    all: destruct (decide (u < length (vertices g))%nat); [by rewrite lookup_app_l|].
    all: by rewrite !lookup_ge_None_2 by (rewrite ?length_app; cbn [length]; lia).
Qed.

End Properties.

(** ** The invariant *)

Lemma elem_vset_insert u v s : u ∈ vset_insert v s <-> u = v \/ u ∈ s.
Proof.
  induction s as [| w s IH]; cbn [vset_insert]; [by rewrite list_elem_of_singleton, elem_of_nil; naive_solver|].
  destruct (Nat.ltb_spec v w); [by rewrite elem_of_cons|]. destruct (Nat.eqb_spec v w) as [->|]; rewrite !elem_of_cons; naive_solver.
Qed.

Lemma elem_vset_erase u v s : u ∈ vset_erase v s <-> u ∈ s /\ u <> v.
Proof.
  unfold vset_erase. rewrite !list_elem_of_In, filter_In, negb_true_iff, Nat.eqb_neq. done.
Qed.

Section Invariant.
Context `{Llvm}.
Implicit Types (p : PDG).

Record pdg_wf p : Prop := {
  wf_wired : wired (vertices (p_graph p));
  wf_index : index_ok p;
  wf_values : forall x v, value_to_vertex p !! x = Some v -> (v < capacity (p_graph p))%nat }.

Definition keeps {A} (m : PM A) : Prop := forall p a p', pdg_wf p -> m p = Ok a p' -> pdg_wf p'.

Lemma new_PDG_wf limits : pdg_wf (new_PDG limits).
Proof.
  unfold new_PDG. destruct (default (32, 5) limits) as [parts depth]. split.
  - apply lists_ok_wired, (go_lists _ empty_graph_ok).
  - split; [by intros v n (x & Hx & _)|]. intros f v. unfold vertices_for. cbn. by intros []%not_elem_of_nil.
  - done.
Qed.

Lemma keep_ret {A} (a : A) : keeps (mret a).
Proof. by intros p b p' Hw [= <- <-]. Qed.

Lemma keep_bind {A B} (m : PM A) (k : A -> PM B) : keeps m -> (forall a, keeps (k a)) -> keeps (m ≫= k).
Proof. intros Hm Hk p b p' Hw (a & p1 & E1 & E2)%bind_inv. by apply (Hk a p1 b p' (Hm p a p1 Hw E1)). Qed.

Lemma keeps_ask {A} (f : PDG -> A) : keeps (ask f).
Proof. by intros p b p' Hw [= <- <-]. Qed.

Lemma keeps_throw {A} w : keeps (A := A) (throw w).
Proof. by intros p b p' Hw [=]. Qed.

Lemma keeps_no_fuel {A} : keeps (A := A) no_fuel.
Proof. by intros p b p' Hw [=]. Qed.

Lemma keeps_force {A} (o : option A) : keeps (force o).
Proof. intros p b p' Hw. unfold force. by destruct o; intros [= <- <-]. Qed.

Lemma keeps_node v : keeps (node v).
Proof. intros p b p'. apply keeps_force. Qed.

Lemma keeps_for_each {A} (l : list A) (f : A -> PM unit) : (forall a, keeps (f a)) -> keeps (for_each l f).
Proof. intros Hf. induction l as [|a l IH]; cbn [for_each]; [apply keep_ret|]. by apply keep_bind. Qed.

(** Changes outside of graph, index and values. *)
Lemma keep_modify (f : PDG -> PDG) :
  (forall p, p_graph (f p) = p_graph p /\ function_to_vertices (f p) = function_to_vertices p
             /\ forall x v, value_to_vertex (f p) !! x = Some v -> value_to_vertex p !! x = Some v) ->
  keeps (modify f).
Proof.
  intros Hf p a p' [Hw [Hc Hr] Hv] [= _ <-]. destruct (Hf p) as (Hg & Hi & Hx). unfold vertices_for in *. split.
  - by rewrite Hg.
  - split; unfold vertices_for; rewrite Hg, Hi; done.
  - intros x v. rewrite Hg. intros E. by eapply Hv, Hx.
Qed.

Lemma node_props (g : graph PDGNode PDGEdge) v : node_of g v = props g !! v.
Proof. apply props_lookup. Qed.

Lemma live_lt' (g : graph PDGNode PDGEdge) v : live g v -> (v < capacity g)%nat.
Proof. intros (x & Hx & _). by eapply lookup_lt_Some. Qed.

Lemma keeps_add_edge v1 v2 t i : keeps (pdg_add_edge v1 v2 t i).
Proof.
  intros p a p' [Hw [Hc Hr] Hv]. unfold pdg_add_edge, on_graph_, on_graph.
  destruct (add_edge v1 v2 (mkPEdge t i) (p_graph p)) as [g'|] eqn:E; [|done]. intros [= _ <-].
  pose proof (add_edge_props _ _ _ _ _ E) as Hp. destruct (add_edge_wired _ _ _ _ _ Hw E) as (Hw' & (_ & _ & Hlen & Hvac) & _).
  assert (capacity g' = capacity (p_graph p)) as Hcap by done. split; [done|split|]; cbn [p_graph put_graph value_to_vertex].
  - intros v n. rewrite live_vacant, Hvac, <- live_vacant, node_props, Hp, <- node_props. apply Hc.
  - rewrite Hcap. apply Hr.
  - rewrite Hcap. done.
Qed.

Lemma keeps_upd_node v f : (forall n, n_function (f n) = n_function n) -> keeps (upd_node v f).
Proof.
  intros Hf p a p' [Hw [Hc Hr] Hv] E.
  assert (v < capacity (p_graph p))%nat as Hlt.
  { unfold upd_node, on_graph_, on_graph, upd_vertex in E. destruct (vertices (p_graph p) !! v) eqn:Ex; [by eapply lookup_lt_Some|done]. }
  rewrite upd_node_mark in E by done. injection E as _ <-. split; [|split|].
  - eapply wired_ext; [..|exact Hw]; intros u; apply (mark_edges f v p u).
  - intros u n. rewrite live_vacant, mark_vacant, <- live_vacant, mark_node_of. intros Hl. case_decide; [|by apply Hc].
    destruct (node_of (p_graph p) u) as [n0|] eqn:E0; [|done]. cbn. intros [= <-]. rewrite Hf. by apply Hc.
  - intros f' u. rewrite mark_capacity. apply Hr.
  - intros x u. rewrite mark_capacity. apply Hv.
Qed.

Lemma add_vertex_wf n p v p' :
  pdg_wf p -> pdg_add_vertex n p = Ok v p' -> pdg_wf p' /\ (v < capacity (p_graph p'))%nat.
Proof.
  intros [Hw [Hc Hr] Hv]. unfold pdg_add_vertex, on_graph, mbind, PM_bind. destruct (add_vertex n (p_graph p)) as [[w g']|] eqn:E; [|done].
  cbn [modify]. intros [= -> <-]. destruct (add_vertex_wired _ _ _ _ E) as (O & I & V & P & Hle & Hlt). split; [|done].
  assert (forall f u, u ∈ vertices_for f (put_index (<[n_function n := vset_insert v (vertices_for (n_function n) (put_graph g' p))]> (function_to_vertices p))
    (put_graph g' p)) <-> u ∈ vertices_for f p \/ f = n_function n /\ u = v) as Hix.
  { intros f u. unfold vertices_for. cbn [function_to_vertices put_index put_graph]. destruct (decide (f = n_function n)) as [->|Hn].
    - rewrite lookup_insert_eq. cbn [default from_option]. unfold id. rewrite elem_vset_insert. naive_solver.
    - rewrite lookup_insert_ne by done. naive_solver. }
  split; [|split|].
  - by eapply wired_ext; [..|exact Hw].
  - intros u m. cbn [p_graph put_index put_graph]. rewrite live_vacant, V, node_props, P, Hix. destruct (decide (u = v)) as [->|Hne].
    + intros _ [= ->]. by right.
    + rewrite <- live_vacant, <- node_props. intros. left. by apply Hc.
  - intros f u. cbn [p_graph put_index put_graph]. rewrite Hix. intros [Hu|[_ ->]]; [|done]. apply Hr in Hu. lia.
  - intros x u Hx. apply Hv in Hx. cbn [p_graph put_index put_graph]. lia.
Qed.

Lemma keeps_add_vertex n : keeps (pdg_add_vertex n).
Proof. intros p v p' Hw E. by apply (add_vertex_wf n p v p'). Qed.

(** Removing a vertex, and taking it out of one entry of the index. *)
Lemma remove_wf v p g' :
  pdg_wf p -> remove_vertex v (p_graph p) = Some g' -> pdg_wf (put_graph g' p).
Proof.
  intros [Hw [Hc Hr] Hv] E. destruct (remove_vertex_wired _ _ _ Hw E) as (Hw' & Hcap & V & _). pose proof (remove_vertex_props _ _ _ E) as P.
  split; [done|split|]; cbn [p_graph put_graph value_to_vertex]; rewrite ?Hcap; [|done|done].
  intros u n. rewrite live_vacant, V, node_props, P, <- node_props. case_decide; [done|]. rewrite <- live_vacant. apply Hc.
Qed.

Lemma keeps_remove v : keeps (on_graph_ (remove_vertex v)).
Proof.
  intros p a p' Hw. unfold on_graph_, on_graph. destruct (remove_vertex v (p_graph p)) as [g'|] eqn:E; [|done]. intros [= _ <-].
  by apply (remove_wf v).
Qed.

Lemma keeps_remove_vertex v : keeps (pdg_remove_vertex v).
Proof.
  intros p a p' Hw0. unfold pdg_remove_vertex. intros (n & p1 & E1 & E2)%bind_inv.
  unfold node in E1. destruct (node_of (p_graph p) v) as [n0|] eqn:En; [|done]. injection E1 as <- <-.
  apply bind_inv in E2 as (? & p2 & [= _ <-] & E2). unfold on_graph_, on_graph in E2. cbn [p_graph put_index] in E2.
  destruct (remove_vertex v (p_graph p)) as [g'|] eqn:E; [|done]. injection E2 as _ <-.
  destruct (remove_wf v p g' Hw0 E) as [Hw [Hc Hr] Hv]. destruct (remove_vertex_wired _ _ _ (wf_wired _ Hw0) E) as (_ & _ & V & _).
  assert (forall f u, u ∈ vertices_for f (put_graph g' (put_index (<[n_function n0 := vset_erase v (vertices_for (n_function n0) p)]> (function_to_vertices p)) p))
    <-> u ∈ vertices_for f p /\ ~ (f = n_function n0 /\ u = v)) as Hix.
  { intros f u. unfold vertices_for. cbn [function_to_vertices put_index put_graph]. destruct (decide (f = n_function n0)) as [->|Hn].
    - rewrite lookup_insert_eq. cbn [default from_option]. unfold id. rewrite elem_vset_erase. naive_solver.
    - rewrite lookup_insert_ne by done. naive_solver. }
  split; [done|split|done]; cbn [p_graph put_graph].
  - intros u m Hl Hm. rewrite Hix. split; [by apply Hc|]. intros [_ ->]. rewrite live_vacant, V, decide_True in Hl by done. done.
  - intros f u. rewrite Hix. intros [Hu _]. by apply (Hr f).
Qed.

Lemma keeps_updateFunction v f : keeps (updateFunction v f).
Proof.
  intros p a p' [Hw [Hc Hr] Hv]. unfold updateFunction. intros (n & p1 & E1 & E2)%bind_inv.
  unfold node in E1. destruct (node_of (p_graph p) v) as [n0|] eqn:En; [|done]. injection E1 as <- <-.
  apply bind_inv in E2 as (? & p2 & [= _ <-] & E2). apply bind_inv in E2 as (? & p3 & E3 & [= _ <-]).
  assert (v < capacity (p_graph p))%nat as Hlt.
  { unfold node_of in En. destruct (vertices (p_graph p) !! v) eqn:Ex; [by eapply lookup_lt_Some|done]. }
  rewrite upd_node_mark in E3 by done. injection E3 as _ <-.
  set (p1 := put_index _ p) in *. set (p2 := mark_node _ v p1) in *.
  assert (forall h u, u ∈ vertices_for h (put_index (<[f:=vset_insert v (vertices_for f p2)]> (function_to_vertices p2)) p2)
    <-> (u ∈ vertices_for h p /\ ~ (h = n_function n0 /\ u = v)) \/ h = f /\ u = v) as Hix.
  { assert (forall h u, u ∈ vertices_for h p2 <-> u ∈ vertices_for h p /\ ~ (h = n_function n0 /\ u = v)) as H2.
    { intros h u. change (vertices_for h p2) with (vertices_for h p1). unfold vertices_for, p1. cbn [function_to_vertices put_index].
      destruct (decide (h = n_function n0)) as [->|Hn].
      - rewrite lookup_insert_eq. cbn [default from_option]. unfold id. rewrite elem_vset_erase. naive_solver.
      - rewrite lookup_insert_ne by done. naive_solver. }
    intros h u. unfold vertices_for at 1. cbn [function_to_vertices put_index]. destruct (decide (h = f)) as [->|Hn].
    - rewrite lookup_insert_eq. cbn [default from_option]. unfold id. rewrite elem_vset_insert, H2. naive_solver.
    - rewrite lookup_insert_ne by done. fold (vertices_for h p2). rewrite H2. naive_solver. }
  assert (capacity (p_graph p2) = capacity (p_graph p)) as Hcap by (unfold p2; rewrite mark_capacity; done).
  split; [|split|]; cbn [p_graph put_index].
  - eapply wired_ext; [..|exact Hw]; intros u; apply (mark_edges (put_function f) v p1 u).
  - intros u m. rewrite Hix. unfold p2. rewrite live_vacant, mark_vacant, mark_node_of. cbn [p_graph p1 put_index].
    destruct (decide (u = v)) as [->|Hne].
    + intros _. rewrite En. intros [= <-]. by right.
    + rewrite <- live_vacant. intros Hl Hm. left. split; [by apply Hc|]. by intros [_ ?].
  - intros h u. rewrite Hcap, Hix. intros [[Hu _]|[_ ->]]; [by apply (Hr h)|done].
  - intros y u. rewrite Hcap. apply Hv.
Qed.

End Invariant.

(** ** Automation: a program keeps the invariant when its parts do *)

Create HintDb pdg.
#[export] Hint Resolve keep_ret keeps_ask keeps_throw keeps_no_fuel keeps_force keeps_node keeps_add_edge keeps_add_vertex
  keeps_remove keeps_remove_vertex keeps_updateFunction : pdg.

Ltac keeps :=
  repeat first
    [ progress intros
    | solve [eauto with pdg]
    | apply keep_bind
    | apply keeps_for_each
    | apply keeps_upd_node; by intros
    | match goal with |- keeps (match ?x with _ => _ end) => destruct x end ].

Section Operations.
Context `{Llvm}.

Lemma keeps_createSubnodes fuel parent limit : keeps (createSubnodes fuel parent limit).
Proof. revert parent limit. induction fuel; cbn [createSubnodes]; keeps. Qed.
#[local] Hint Resolve keeps_createSubnodes : pdg.

Lemma keeps_createVertex fuel x f : keeps (createVertex fuel x f).
Proof.
  intros p a p' Hw. unfold createVertex. intros (v & p1 & E1 & E2)%bind_inv. destruct (add_vertex_wf _ _ _ _ Hw E1) as [[Hw1 Hi Hv] Hlt].
  apply bind_inv in E2 as (? & p2 & [= _ <-] & E2).
  assert (pdg_wf (put_values (<[x := v]> (value_to_vertex p1)) p1)) as Hw2.
  { split; [exact Hw1|by destruct Hi; split|]. intros y u. cbn. rewrite lookup_insert_Some. intros [[_ <-]|[_ ?]]; [done|by eapply Hv]. }
  revert E2. match goal with |- ?m _ = _ -> _ => assert (keeps m) as Hk by keeps end. by apply Hk.
Qed.
#[local] Hint Resolve keeps_createVertex : pdg.

Lemma keeps_createDummyVertex x f : keeps (createDummyVertex x f).
Proof. unfold createDummyVertex. keeps. Qed.

Lemma keeps_getVertex fuel x f : keeps (getVertex fuel x f).
Proof. unfold getVertex. keeps. Qed.

Lemma keeps_getDeref v : keeps (getDeref v).
Proof. unfold getDeref. keeps. Qed.

Lemma join_function n1 n2 : n_function (join_nodes n1 n2) = n_function n1.
Proof. unfold join_nodes. by repeat (match goal with |- context [if ?b then _ else _] => destruct b end). Qed.

Lemma keeps_add_edges l : keeps (add_edges l).
Proof. unfold add_edges. keeps. destruct a as [u v [t i]]. apply keeps_add_edge. Qed.

Lemma keeps_merge v1 v2 : keeps (merge v1 v2).
Proof. unfold merge. pose proof keeps_add_edges. keeps. apply keeps_upd_node. intros. apply join_function. Qed.

Lemma keeps_unite_loop fuel Q m : keeps (unite_loop fuel Q m).
Proof. revert Q m. pose proof keeps_merge. induction fuel; cbn [unite_loop]; keeps. Qed.
#[local] Hint Resolve keeps_unite_loop : pdg.

(** The three functions that call each other. *)
Lemma keeps_structure fuel :
  (forall v1 v2 c, keeps (addSubnodeEdges fuel v1 v2 c)) /\ (forall i v1 v2 c, keeps (join_loop fuel i v1 v2 c))
  /\ (forall v1 v2, keeps (uniteSubnodes fuel v1 v2)).
Proof.
  induction fuel as [|k (IH1 & IH2 & IH3)]; [split_and!; intros; apply keeps_no_fuel|]. split_and!.
  - cbn [addSubnodeEdges]. keeps.
  - cbn [join_loop]. keeps.
  - cbn [uniteSubnodes]. keeps. by apply keep_modify.
Qed.

Lemma keeps_addSubnodeEdges fuel v1 v2 c : keeps (addSubnodeEdges fuel v1 v2 c).
Proof. apply keeps_structure. Qed.

Lemma keeps_uniteSubnodes fuel v1 v2 : keeps (uniteSubnodes fuel v1 v2).
Proof. apply keeps_structure. Qed.

Lemma keeps_removeFunction f : keeps (removeFunction f).
Proof.
  unfold removeFunction. keeps. apply keep_modify. intros p. case_bool_decide; split_and!; try done.
  intros x w. cbn. rewrite lookup_delete_Some. by intros [_ ?].
Qed.

Lemma keeps_checkIfFD v : keeps (checkIfFDMarkerIsInteresting v).
Proof. unfold checkIfFDMarkerIsInteresting. keeps. apply keep_modify. intros p. by destruct (structClusters p !! _). Qed.

End Operations.

#[export] Hint Resolve keeps_createVertex keeps_createDummyVertex keeps_getVertex keeps_getDeref keeps_addSubnodeEdges keeps_uniteSubnodes
  keeps_removeFunction keeps_checkIfFD : pdg.

Section Passes.
Context `{Llvm}.

Lemma keeps_visit {A} (discover : nat -> A -> PM (bool * A)) wanted next sources cm a :
  (forall v a, keeps (discover v a)) -> (forall v, keeps (wanted v)) -> keeps (visit discover wanted next sources cm a).
Proof.
  intros Hd Hw. assert (forall check cands cm q a, keeps (visit_scan discover wanted check cands cm q a)) as Hs.
  { intros check cands. induction cands; cbn [visit_scan]; unfold on_colors; keeps. }
  assert (forall fuel cm q a, keeps (visit_loop discover wanted fuel next cm q a)) as Hl.
  { intros fuel. induction fuel; cbn [visit_loop]; unfold on_colors; keeps. }
  unfold visit. keeps.
Qed.

Lemma keeps_not_wanted v : keeps (not_wanted v).
Proof. apply keep_ret. Qed.
#[local] Hint Resolve keeps_not_wanted keeps_visit : pdg.

Lemma keeps_collect_sources functions flag : keeps (collect_sources functions flag).
Proof.
  assert (forall f l, keeps (filter_nodes f flag l)) as Hf by (intros f l; induction l; cbn [filter_nodes]; keeps).
  induction functions; cbn [collect_sources]; keeps.
Qed.
#[local] Hint Resolve keeps_collect_sources : pdg.

Lemma keeps_sink functions cm : keeps (calculateSinkReachability functions cm).
Proof. unfold calculateSinkReachability, discover_sink. keeps. apply keeps_visit; keeps. Qed.

Lemma keeps_fd functions cm h : keeps (calculateFDReachability functions cm h).
Proof. unfold calculateFDReachability, discover_fd, mark_fd_fields, part_of. keeps. apply keeps_visit; keeps. Qed.

Lemma keeps_shared functions cm : keeps (calculateReachability functions cm).
Proof. unfold calculateReachability, discover_influence. keeps. apply keeps_visit; keeps. Qed.

Lemma keeps_markAsShared fuel v : keeps (markAsShared fuel v).
Proof. revert v. induction fuel; cbn [markAsShared]; unfold outs_of; keeps. Qed.
#[local] Hint Resolve keeps_markAsShared : pdg.

Lemma keeps_markAsPointerToShared fuel v : keeps (markAsPointerToShared fuel v).
Proof. revert v. induction fuel; cbn [markAsPointerToShared]; unfold outs_of; keeps. Qed.

Lemma keeps_markSubnodes fuel v : keeps (markSubnodesReachingIpc fuel v).
Proof. revert v. induction fuel; cbn [markSubnodesReachingIpc]; unfold outs_of; keeps. Qed.
#[local] Hint Resolve keeps_markAsPointerToShared keeps_markSubnodes : pdg.


Lemma keeps_collectSubnodes fuel v f nodes : keeps (collectSubnodesForFunction fuel v f nodes).
Proof.
  revert v nodes. induction fuel as [|k IH]; intros v nodes; cbn [collectSubnodesForFunction]; unfold outs_of; keeps.
  generalize (vset_insert v nodes). induction a as [|e es IHe]; keeps.
Qed.
#[local] Hint Resolve keeps_collectSubnodes : pdg.

Lemma keeps_collectSignature fuel f nodes : keeps (collectFunctionSignatureNodes fuel f nodes).
Proof.
  unfold collectFunctionSignatureNodes, outs_of. keeps. revert nodes. induction a0 as [|e es IHe]; keeps.
Qed.
#[local] Hint Resolve keeps_collectSignature : pdg.

Lemma keeps_summaries fuel c scc cm : keeps (calculateSummaryEdges fuel c scc cm).
Proof.
  assert (forall functions start nodes v l, keeps (discover_data functions start nodes v l)) by (unfold discover_data; keeps).
  assert (forall functions start nodes v l, keeps (discover_invocation functions start nodes v l)) by (unfold discover_invocation, outs_of; keeps).
  assert (forall start l, keeps (finished_data fuel start l)) by (unfold finished_data, deref_of; keeps).
  assert (forall start l, keeps (finished_invocation start l)) by (unfold finished_invocation; keeps).
  assert (forall functions nodes v cm, keeps (summarize fuel (strongFPAnalysis c) functions nodes v cm)).
  { intros. unfold summarize. keeps. }
  assert (forall functions nodes todo cm, keeps (summarize_all fuel (strongFPAnalysis c) functions nodes todo cm)).
  { intros functions nodes todo. induction todo; cbn [summarize_all]; keeps. }
  assert (forall functions fs nodes, keeps (signature_nodes fuel functions fs nodes)).
  { intros functions fs. induction fs; cbn [signature_nodes]; keeps. }
  unfold calculateSummaryEdges. keeps.
Qed.

Lemma keeps_for_args call f : (forall i a, keeps (f i a)) -> keeps (for_args call f).
Proof. intros Hf. unfold for_args. generalize 0. induction (arg_operands call); intros; cbn [for_args_from]; keeps. Qed.

Lemma keeps_markIpcCall fuel call : keeps (markIpcCall fuel call).
Proof. unfold markIpcCall. keeps. apply keeps_for_args. keeps. Qed.
#[local] Hint Resolve keeps_markIpcCall : pdg.

Lemma keeps_matchSubnodes fuel m key val : keeps (matchSubnodes fuel m key val).
Proof.
  revert m key val. induction fuel as [|k IH]; intros m key val; cbn [matchSubnodes]; unfold outs_of; keeps.
  generalize (vmap_insert key val m). unfold deref_of, part_of. induction a as [|e es IHe]; keeps.
Qed.
#[local] Hint Resolve keeps_matchSubnodes : pdg.

Lemma keeps_match_call fuel vararg call f function :
  (forall u v, keeps (vararg u v)) -> keeps (match_call fuel vararg call f function).
Proof.
  intros Hv. assert (forall vFunc i args m, keeps (match_args fuel vararg vFunc f function i args m)).
  { intros vFunc i args. revert i. induction args; cbn [match_args]; keeps. }
  unfold match_call. keeps.
Qed.
#[local] Hint Resolve keeps_match_call : pdg.

Lemma keeps_copy_summary call m u v : keeps (copy_summary call m u v).
Proof. unfold copy_summary, copy_invocation, outs_of, ins_of. keeps. Qed.
#[local] Hint Resolve keeps_copy_summary : pdg.

Lemma keeps_direct_edges fuel call f function : keeps (direct_edges fuel call f function).
Proof.
  unfold direct_edges. keeps. generalize 0. induction (arg_operands call); keeps.
Qed.
#[local] Hint Resolve keeps_direct_edges : pdg.

Lemma keeps_known fuel f call : keeps (addKnownFunctionSummary fuel f call).
Proof.
  assert (forall counter result str, keeps (unite_string fuel counter result str)).
  { intros counter. induction counter; intros result [s|]; cbn [unite_string]; unfold deref_of, part_of; keeps. }
  unfold addKnownFunctionSummary, copy_memory, operand, deref_of, part_of. keeps.
Qed.
#[local] Hint Resolve keeps_known : pdg.

Lemma keeps_handleCall fuel c possible functions function call : keeps (handleCall fuel c possible functions function call).
Proof.
  assert (forall u v, keeps (hint_reaching fuel u v)) by (unfold hint_reaching; keeps).
  assert (forall o, keeps (handleCallTarget fuel functions function call o)).
  { intros [f|]; unfold handleCallTarget; keeps. }
  unfold handleCall. keeps.
Qed.
#[local] Hint Resolve keeps_handleCall : pdg.

Lemma keeps_run_sccs run sccs cm : (forall scc cm, keeps (run scc cm)) -> keeps (run_sccs run sccs cm).
Proof. intros Hr. revert cm. induction sccs; intros; cbn [run_sccs]; keeps. Qed.

Lemma keeps_ipc_calls fuel calls cm : keeps (calculateIpcFunctionCalls fuel calls cm).
Proof.
  assert (forall v a, keeps (discover_all v a)) by (unfold discover_all; keeps).
  assert (forall v, keeps (is_ipcfunction v)) by (unfold is_ipcfunction; keeps).
  revert cm. induction calls; intros; cbn [calculateIpcFunctionCalls]; keeps.
Qed.

Lemma keeps_runOnSCC fuel c possible scc : keeps (runOnSCC fuel c possible scc).
Proof.
  pose proof keeps_ipc_calls. pose proof keeps_sink. pose proof keeps_fd. pose proof keeps_summaries.
  assert (forall functions f l, keeps (handle_calls fuel c possible functions f l)).
  { intros functions f l. induction l; cbn [handle_calls]; keeps. }
  assert (forall f, keeps (vararg_node fuel f)) by (unfold vararg_node; keeps).
  assert (forall functions fs, keeps (instantiate fuel c possible functions fs)).
  { intros functions fs. induction fs; cbn [instantiate]; keeps. }
  unfold runOnSCC. keeps.
Qed.

Lemma keeps_reachability fuel c possible sccs : keeps (reachability_runOnModule fuel c possible sccs).
Proof.
  pose proof keeps_runOnSCC. pose proof keeps_sink. pose proof keeps_fd.
  assert (keeps (runOnGlobal c)) by (unfold runOnGlobal; keeps).
  unfold reachability_runOnModule. keeps; apply keeps_run_sccs; keeps.
Qed.

Lemma keeps_shared_pass fuel behavior fs sccs : keeps (shared_runOnModule fuel behavior fs sccs).
Proof.
  pose proof keeps_shared.
  assert (forall b u v, keeps (vararg_influence b u v)) by (unfold vararg_influence; keeps).
  assert (forall b m, keeps (copy_influence b m)) by (unfold copy_influence; keeps).
  assert (forall call b, keeps (propagateCallInfluence fuel call b)).
  { intros call b. unfold propagateCallInfluence. keeps. }
  assert (forall b scc, keeps (propagate_calls fuel behavior b scc)) by (unfold propagate_calls; keeps).
  unfold shared_runOnModule. keeps; apply keeps_run_sccs; unfold shared_upwards, shared_downwards, propagateInfluenceFromCallers; keeps.
Qed.

End Passes.

(** ** Creation *)

Section Creation.
Context `{L : Llvm, !LlvmTypes, !LlvmCode}.

Lemma keeps_specialGEP fuel ins v : keeps (specialGEPHandling fuel ins v).
Proof. unfold specialGEPHandling. keeps. Qed.

Lemma keeps_gep_target ops target t : keeps (gep_target ops target t).
Proof. revert target t. induction ops; cbn [gep_target]; keeps. Qed.

Lemma keeps_parts_along v l : keeps (parts_along v l).
Proof. revert v. induction l; cbn [parts_along]; keeps. Qed.

#[local] Hint Resolve keeps_specialGEP keeps_gep_target keeps_parts_along : pdg.

Lemma keeps_call_edges fuel v call : keeps (call_edges fuel v call).
Proof. unfold call_edges. keeps. apply keeps_for_args; keeps. Qed.

Lemma keeps_gep_edges fuel v ins : keeps (gep_edges fuel v ins).
Proof. unfold gep_edges, op. keeps. Qed.

Lemma keeps_bitcast_edges fuel v ins : keeps (bitcast_edges fuel v ins).
Proof. unfold bitcast_edges, op. keeps. Qed.

Lemma keeps_fd_marks fuel v call : keeps (fd_marks fuel v call).
Proof. unfold fd_marks, operand. keeps. Qed.

Lemma keeps_member_edges fuel v ins : keeps (extract_edges fuel v ins) /\ keeps (insert_edges fuel v ins) /\ keeps (other_edges fuel v ins).
Proof. unfold extract_edges, insert_edges, other_edges, op. split; [|split]; keeps. Qed.

#[local] Hint Resolve keeps_call_edges keeps_gep_edges keeps_bitcast_edges keeps_fd_marks : pdg.

Lemma keeps_addEdges fuel v ins : keeps (addEdges fuel v ins).
Proof.
  revert v ins. induction fuel as [|k IH]; intros v ins; cbn [addEdges]; [keeps|].
  destruct (keeps_member_edges k v ins) as (? & ? & ?). unfold op. keeps.
Qed.

#[local] Hint Resolve keeps_addEdges : pdg.

Lemma keeps_create_params fuel f vFunc i l : keeps (create_params fuel f vFunc i l).
Proof. revert i. induction l; cbn [create_params]; keeps. Qed.

#[local] Hint Resolve keeps_create_params : pdg.

Lemma keeps_creation fuel behavior symbols clusters globals functions :
  keeps (creation_runOnModule fuel behavior symbols clusters globals functions).
Proof.
  unfold creation_runOnModule, create_global, create_function, create_instruction. keeps. apply keep_modify. done.
Qed.

End Creation.

(** ** Everything that can be done to a graph *)

Section Reachable.
Context `{L : Llvm, !LlvmTypes, !LlvmCode}.

Inductive pdg_op :=
| GetVertex (x : value) (f : option value)
| CreateDummyVertex (x : value) (f : option value)
| AddEdge (v1 v2 : nat) (t : PDGEdgeType) (i : Z)
| AddSubnodeEdges (v1 v2 : nat) (constantLevels : Z)
| UniteSubnodes (v1 v2 : nat)
| UpdateFunction (v : nat) (f : option value)
| RemoveFunction (f : option value)
| MarkAsShared (v : nat)
| MarkAsPointerToShared (v : nat)
| SinkReachability (functions : list (option value)) (cm : list Z)
| FDReachability (functions : list (option value)) (cm : list Z) (heuristic : bool)
| ReachabilityPass (c : config) (possible : value -> list value) (sccs : list (list value))
| SharedReachabilityPass (behavior : gmap string string) (fs : list value) (sccs : list (list value))
| CreationPass (behavior : gmap string string) (symbols : list string) (clusters : gmap ty Z) (globals functions : list value).

Definition ignore {A} (m : PM A) : PM unit := m ;; mret tt.

Definition run_op (fuel : nat) (op : pdg_op) : PM unit :=
  match op with
  | GetVertex x f => ignore (getVertex fuel x f)
  | CreateDummyVertex x f => ignore (createDummyVertex x f)
  | AddEdge v1 v2 t i => pdg_add_edge v1 v2 t i
  | AddSubnodeEdges v1 v2 c => addSubnodeEdges fuel v1 v2 c
  | UniteSubnodes v1 v2 => uniteSubnodes fuel v1 v2
  | UpdateFunction v f => updateFunction v f
  | RemoveFunction f => removeFunction f
  | MarkAsShared v => markAsShared fuel v
  | MarkAsPointerToShared v => markAsPointerToShared fuel v
  | SinkReachability functions cm => ignore (calculateSinkReachability functions cm)
  | FDReachability functions cm h => ignore (calculateFDReachability functions cm h)
  | ReachabilityPass c possible sccs => reachability_runOnModule fuel c possible sccs
  | SharedReachabilityPass behavior fs sccs => ignore (shared_runOnModule fuel behavior fs sccs)
  | CreationPass behavior symbols clusters globals functions => creation_runOnModule fuel behavior symbols clusters globals functions
  end.

Lemma keeps_run_op fuel op : keeps (run_op fuel op).
Proof.
  pose proof keeps_sink. pose proof keeps_fd. pose proof keeps_markAsShared. pose proof keeps_markAsPointerToShared.
  pose proof keeps_reachability. pose proof keeps_shared_pass. pose proof keeps_creation. destruct op; cbn [run_op]; unfold ignore; keeps.
Qed.

(** Graphs that the linker can have at some time. *)
Inductive pdg_reachable (limits : option (Z * Z)) : PDG -> Prop :=
| reach_new : pdg_reachable limits (new_PDG limits)
| reach_op fuel op p p' : pdg_reachable limits p -> run_op fuel op p = Ok tt p' -> pdg_reachable limits p'.

Lemma reachable_wf limits p : pdg_reachable limits p -> pdg_wf p.
Proof. induction 1 as [|fuel op p p' _ IH E]; [apply new_PDG_wf|]. by apply (keeps_run_op fuel op p tt). Qed.

(** C15: whatever sequence of operations and passes built the program
    dependence graph, its adjacency lists are free of duplicates and mirror each
    other (an edge is in the list of its source exactly when it is in the list of
    its target), every node that is in use is listed in the index under its
    function, so that no propagation over the nodes of a function can miss it,
    and values lead to vertices that exist. *)
Theorem pdg_stays_consistent (limits : option (Z * Z)) (p : PDG) :
  pdg_reachable limits p ->
  (forall u, NoDup (out_edges (p_graph p) u) /\ NoDup (in_edges (p_graph p) u))
  /\ (forall u e, e ∈ out_edges (p_graph p) u <-> source e = u /\ e ∈ in_edges (p_graph p) (target e))
  /\ (forall v n, live (p_graph p) v -> node_of (p_graph p) v = Some n -> v ∈ vertices_for (n_function n) p)
  /\ (forall x v, value_to_vertex p !! x = Some v -> (v < capacity (p_graph p))%nat).
Proof.
  intros [W [Hc Hr] Hv]%reachable_wf. split; [|split; [|done]].
  - intros u. split; [apply (wi_out_nodup _ W)|apply (wi_in_nodup _ W)].
  - intros u e. split.
    + intros He. pose proof (wi_out_source _ W u e He) as <-. split; [done|]. by apply (wi_mirror _ W).
    + intros [<- He]. by apply (wi_mirror _ W).
Qed.

End Reachable.
