(* ===== verification/PdgMarks.v ===== *)
(** * What the marks mean

    [calculateSinkReachability] and [calculateReachability] compute closures;
    [markAsShared] marks everything that a pointer structurally reaches. *)

From S2P Require Import Prelude Graph GraphProps SearchProps Pdg PdgReach PdgPass DataScc PdgCreate PdgProps PdgOk.

Section Closures.
Context `{Llvm}.
Implicit Types (p : PDG).

(** A node of the functions that has the mark hands it on. *)
Lemma spread_closed f functions flag (adj : nat -> nat -> Prop) p p' u v n :
  (forall n, n_function (f n) = n_function n) ->
  only_marks f (spread flag functions adj p) p p' -> spread flag functions adj p u \/ ~ spread flag functions adj p u ->
  index_ok p -> live (p_graph p) u ->
  node_of (p_graph p') u = Some n -> n_function n ∈ functions -> flag n = true -> adj u v -> spread flag functions adj p v.
Proof.
  intros Hfun Hom Hdec Hix Hl Hn Hin Hm Ha.
  assert (forall m, n_function m = n_function n -> in_scope functions m = true) as Hsc.
  { intros m Em. unfold in_scope. rewrite Em. destruct (n_function n); [by apply bool_decide_eq_true|done]. }
  destruct Hdec as [Hs|Hs].
  - rewrite (om_in_S _ _ _ _ Hom u Hs) in Hn. destruct (node_of (p_graph p) u) as [n0|] eqn:E; [|done]. injection Hn as <-.
    apply (spread_along _ _ _ _ u v n0); [done|done| |done]. apply Hsc. by rewrite Hfun.
  - rewrite (om_not_S _ _ _ _ Hom u Hs) in Hn. destruct Hs. apply (spread_from _ _ _ _ u n); [done..| |done]. by apply (ix_complete _ Hix).
Qed.

Lemma marked_node f S p p' v n0 :
  only_marks f S p p' -> S v -> node_of (p_graph p) v = Some n0 -> node_of (p_graph p') v = Some (f n0).
Proof. intros Hom Hs Hn. by rewrite (om_in_S _ _ _ _ Hom v Hs), Hn. Qed.


(** C27: [PDGSharedReachabilityPass] propagates inside a component exactly: the
    mark [influenced_by_shared] is set on the nodes that data, members and
    memory of a shared or influenced node of the functions flow to, and on no
    others, and it is closed on the functions. *)
Theorem shared_reachability_exact (p : PDG) (functions : list (option value)) (cm : list Z) :
  pdg_wf p -> (capacity (p_graph p) <= 4 * length cm)%nat ->
  let types := [Data; Part; Deref; Summary_Data] in
  exists k cm' p', calculateReachability functions cm p = Ok (k, cm') p'
    /\ only_marks (put_influenced true) (spread marked_shared functions (forth_edge types (p_graph p)) p) p p'
    /\ forall e n, has_edge (p_graph p) e -> e_type (eprop e) ∈ types -> live (p_graph p) (source e) ->
         node_of (p_graph p') (source e) = Some n -> n_function n ∈ functions -> marked_shared n = true ->
         exists m, node_of (p_graph p') (target e) = Some m /\ n_influenced_by_shared m = true.
Proof.
  intros [W Hix _] Hcm types.
  destruct (spread_exact (put_influenced true) ltac:(done) ltac:(done) functions (forth_along types)
    ltac:(intros g g' u Ho _; unfold forth_along; by rewrite Ho) marked_shared cm p (forth_edge types (p_graph p)))
    as (k & cm' & p' & E & _ & Hom & Hdec); [done|done|intros; by apply forth_along_spec| |].
  { intros u v (e & He & _ & _ & <-). by apply (edge_ends_lt _ e W). }
  exists k, cm', p'. split; [exact E|]. split; [done|]. intros e n He Ht Hl Hn Hf Hm.
  destruct (node_some (p_graph p) (target e)) as [m0 Hm0]; [by apply (edge_ends_lt _ e W)|].
  exists (put_influenced true m0). split; [|done]. eapply marked_node; [exact Hom| |done].
  eapply (spread_closed _ _ _ _ _ _ (source e) (target e) n); [|exact Hom|apply Hdec|done|done|exact Hn|done|done|]; [done|]. by exists e.
Qed.

End Closures.

(** ** Marking structure *)

Section Structure.
Context `{Llvm}.
Context (get : PDGNode -> bool) (f : PDGNode -> PDGNode).
Context (get_f : forall n, get (f n) = true) (f_idem : forall n, f (f n) = f n).

(** [markAsShared] and [markSubnodesReachingIpc] are this with their marks. *)
Fixpoint mark_sub (fuel : nat) (v : nat) : PM unit :=
  match fuel with
  | O => no_fuel
  | S k =>
      n ← node v;
      if get n then mret tt
      else
        upd_node v f ;;
        es ← outs_of v;
        for_each es (fun e => if is_structural e then mark_sub k (target e) else mret tt)
  end.

Context (p : PDG) (W : wired (vertices (p_graph p))).

Definition child (u w : nat) : Prop := exists e, has_edge (p_graph p) e /\ is_structural e = true /\ source e = u /\ target e = w.
Definition unmarked (u : nat) : Prop := exists n, node_of (p_graph p) u = Some n /\ get n = false.
Definition has_mark (ds : list nat) (u : nat) : Prop := (exists n, node_of (p_graph p) u = Some n /\ get n = true) \/ u ∈ ds.

(** What [v] reaches through nodes without the mark. *)
Inductive below_unmarked (v : nat) : nat -> Prop :=
| bu_here : unmarked v -> below_unmarked v v
| bu_child u w : below_unmarked v u -> child u w -> unmarked w -> below_unmarked v w.

Lemma below_unmarked_cons v u w : unmarked v -> child v u -> below_unmarked u w -> below_unmarked v w.
Proof using Type.
  intros Hv Hc. induction 1 as [Hu|x y _ IH Hxy Hy]; [|by eapply bu_child]. apply (bu_child v v); [by constructor|done|done].
Qed.

Definition open_at (ds : list nat) (u : nat) : bool :=
  match node_of (p_graph p) u with Some n => negb (get n) && bool_decide (u ∉ ds) | None => false end.
Definition unmarked_count (ds : list nat) : nat := length (List.filter (open_at ds) (seq 0 (capacity (p_graph p)))).

Lemma count_shrinks ds ds' : (unmarked_count (ds ++ ds') <= unmarked_count ds)%nat.
Proof using Type.
  apply filter_mono. intros u _. unfold open_at. destruct (node_of (p_graph p) u); [|done]. rewrite !andb_true_iff, !bool_decide_eq_true.
  intros [? Hn]. split; [done|]. rewrite elem_of_app in Hn. tauto.
Qed.

Lemma count_drops ds v : (v < capacity (p_graph p))%nat -> open_at ds v = true -> (unmarked_count (ds ++ [v]) < unmarked_count ds)%nat.
Proof using Type.
  intros Hv Ho. apply (filter_drop _ _ _ v); [apply elem_of_seq; lia|done| |].
  - unfold open_at. destruct (node_of (p_graph p) v); [|done]. rewrite bool_decide_false; [by rewrite andb_false_r|].
    intros Hn. apply Hn, elem_of_app. right. by apply list_elem_of_singleton.
  - intros u _. unfold open_at. destruct (node_of (p_graph p) u); [|done]. rewrite !andb_true_iff, !bool_decide_eq_true.
    intros [? Hn]. split; [done|]. rewrite elem_of_app in Hn. tauto.
Qed.

Lemma has_mark_app ds ds' u : has_mark ds u -> has_mark (ds ++ ds') u.
Proof using Type. intros [?|?]; [by left|right; apply elem_of_app; by left]. Qed.

(** A run of a marking program from the state where [ds] have been marked:
    what is marked lies below [roots], and is closed. *)
Definition marks (m : PM unit) (ds : list nat) (roots : nat -> Prop) : Prop :=
  exists ds', m (mark_all f ds p) = Ok tt (mark_all f (ds ++ ds') p)
    /\ (forall u, u ∈ ds' -> exists r, roots r /\ below_unmarked r u)
    /\ (forall r, roots r -> has_mark (ds ++ ds') r)
    /\ (forall u w, u ∈ ds' -> child u w -> has_mark (ds ++ ds') w).

Lemma marks_nothing ds (roots : nat -> Prop) : (forall r, roots r -> has_mark ds r) -> marks (mret tt) ds roots.
Proof using Type.
  intros Hr. exists []. rewrite app_nil_r. split_and!; [done|by intros u []%not_elem_of_nil|done|by intros u w []%not_elem_of_nil].
Qed.

Lemma marks_edges (k : nat) (es : list (edge PDGEdge)) :
  (forall v ds, (v < capacity (p_graph p))%nat -> (unmarked_count ds < k)%nat -> marks (mark_sub k v) ds (eq v)) ->
  (forall e, e ∈ es -> (target e < capacity (p_graph p))%nat) ->
  forall ds, (unmarked_count ds < k)%nat ->
  marks (for_each es (fun e => if is_structural e then mark_sub k (target e) else mret tt)) ds
    (fun r => exists e, e ∈ es /\ is_structural e = true /\ target e = r).
Proof using Type.
  intros Hrec. induction es as [|e es IH]; intros Hlt ds Hk; cbn [for_each].
  { apply marks_nothing. by intros r (e & []%not_elem_of_nil & _). }
  assert (marks (if is_structural e then mark_sub k (target e) else mret tt) ds (fun r => is_structural e = true /\ target e = r)) as H1.
  { destruct (is_structural e).
    - destruct (Hrec (target e) ds) as (ds1 & E & Hb & Hr & Hc); [apply Hlt; left|done|]. exists ds1. split_and!; [done| |naive_solver|done].
      intros u Hu. destruct (Hb u Hu) as (r & <- & ?). by exists (target e).
    - apply marks_nothing. by intros r [? _]. }
  destruct H1 as (ds1 & E1 & Hb1 & Hr1 & Hc1).
  destruct (IH ltac:(intros e' He'; apply Hlt; by right) (ds ++ ds1)) as (ds2 & E2 & Hb2 & Hr2 & Hc2).
  { pose proof (count_shrinks ds ds1). lia. }
  exists (ds1 ++ ds2). rewrite (run_bind _ _ _ _ _ E1), E2, app_assoc. split; [done|]. split; [|split].
  - intros u [Hu|Hu]%elem_of_app; [destruct (Hb1 u Hu) as (r & [? <-] & ?)|destruct (Hb2 u Hu) as (r & (e' & ? & ? & <-) & ?)].
    + exists (target e). split; [|done]. exists e. by split; [left|].
    + exists (target e'). split; [|done]. exists e'. by split; [right|].
  - intros r (e' & [->|He']%elem_of_cons & Hs & <-); [apply has_mark_app; by apply Hr1|]. apply Hr2. by exists e'.
  - intros u w [Hu|Hu]%elem_of_app Hw; [apply has_mark_app; by apply (Hc1 u)|by apply (Hc2 u)].
Qed.

Lemma mark_sub_marks k v ds :
  (v < capacity (p_graph p))%nat -> (unmarked_count ds < k)%nat -> marks (mark_sub k v) ds (eq v).
Proof using W get_f f_idem.
  revert v ds. induction k as [|k IH]; intros v ds Hv Hk; [lia|]. pose proof (only_marks_all f f_idem ds p) as Hom.
  destruct (node_some (p_graph p) v Hv) as [n Hn].
  assert (exists m, node_of (p_graph (mark_all f ds p)) v = Some m /\ (get m = true -> has_mark ds v)
    /\ (get m = false -> open_at ds v = true)) as (m & Hm & Hm1 & Hm2).
  { destruct (decide (v ∈ ds)) as [Hd|Hd].
    - rewrite (om_in_S _ _ _ _ Hom v Hd), Hn. exists (f n). split; [done|]. split; [by right|]. by rewrite get_f.
    - rewrite (om_not_S _ _ _ _ Hom v Hd), Hn. exists n. split; [done|]. split; [intros; left; by exists n|]. intros Hg. unfold open_at. rewrite Hn, Hg. by apply bool_decide_eq_true. }
  cbn [mark_sub]. destruct (get m) eqn:Eg.
  { destruct (marks_nothing ds (eq v)) as (ds' & E & Hx); [intros r <-; by apply Hm1|]. exists ds'. split; [|done].
    rewrite (run_bind _ _ _ _ _ (node_Ok _ _ _ Hm)), Eg. done. }
  specialize (Hm2 eq_refl). pose proof (count_drops ds v Hv Hm2) as Hdrop.
  assert (unmarked v /\ v ∉ ds) as [Hu Hnd].
  { unfold open_at in Hm2. rewrite Hn in Hm2. apply andb_true_iff in Hm2 as [Hg Hd]. apply bool_decide_eq_true in Hd. split; [|done].
    exists n. split; [done|]. by destruct (get n). }
  destruct (marks_edges k (out_edges (p_graph p) v)) with (ds := ds ++ [v]) as (ds' & E & Hb & Hr & Hc); [done| |lia|].
  { intros e He. pose proof (wi_out_source _ W v e He) as Hs. apply (edge_ends_lt _ e W). unfold has_edge. by rewrite Hs. }
  exists (v :: ds'). change (v :: ds') with ([v] ++ ds'). rewrite app_assoc. split; [|split; [|split]].
  - rewrite (run_bind _ _ _ _ _ (node_Ok _ _ _ Hm)), Eg.
    rewrite (run_bind _ _ _ tt (mark_all f (ds ++ [v]) p)).
    2: { rewrite upd_node_mark by (by rewrite (om_cap _ _ _ _ Hom)). unfold mark_all. by rewrite foldl_app. }
    rewrite (run_bind _ _ _ (out_edges (p_graph p) v) (mark_all f (ds ++ [v]) p)); [exact E|].
    unfold outs_of, ask. by rewrite (om_out _ _ _ _ (only_marks_all f f_idem (ds ++ [v]) p)).
  - intros u [->%list_elem_of_singleton|Hd]%elem_of_app; [exists v; split; [done|by constructor]|].
    destruct (Hb u Hd) as (r & (e & He & Hs & <-) & Hbu). exists v. split; [done|]. apply (below_unmarked_cons v (target e)); [done| |done].
    pose proof (wi_out_source _ W v e He) as Hsv. exists e. unfold has_edge. by rewrite Hsv.
  - intros r <-. right. rewrite !elem_of_app, list_elem_of_singleton. tauto.
  - intros u w [->%list_elem_of_singleton|Hd]%elem_of_app Hw; [|by apply (Hc u)].
    destruct Hw as (e & He & Hs & Hsv & <-). apply Hr. exists e. split; [|done]. unfold has_edge in He. by rewrite Hsv in He.
Qed.

(** From a state without marks of this run: exactly the nodes below. *)
Lemma mark_sub_exact fuel v :
  (v < capacity (p_graph p))%nat -> (capacity (p_graph p) < fuel)%nat ->
  exists p', mark_sub fuel v p = Ok tt p' /\ only_marks f (below_unmarked v) p p'
    /\ (forall u, below_unmarked v u \/ ~ below_unmarked v u).
Proof using W get_f f_idem.
  intros Hv Hf. destruct (mark_sub_marks fuel v []) as (ds & E & Hb & Hr & Hc); [done| |].
  { unfold unmarked_count. pose proof (List.filter_length_le (open_at []) (seq 0 (capacity (p_graph p)))). rewrite length_seq in *. lia. }
  cbn [app] in *. assert (forall u, u ∈ ds <-> below_unmarked v u) as Hds.
  { assert (forall u, has_mark ds u -> unmarked u -> u ∈ ds) as Hx by (intros u [(n & ? & ?)|?] (n' & ? & ?); [congruence|done]).
    intros u. split; [intros Hu; by destruct (Hb u Hu) as (r & <- & ?)|].
    induction 1 as [Hu|x y _ IH Hxy Hy]; [apply Hx; [by apply Hr|done]|]. apply Hx; [by apply (Hc x)|done]. }
  exists (mark_all f ds p). split; [done|]. split; [by eapply only_marks_ext; [|apply only_marks_all]|].
  intros u. rewrite <- Hds. destruct (decide (u ∈ ds)); tauto.
Qed.

End Structure.

Section Shared.
Context `{Llvm}.
Implicit Types (p : PDG).

Definition is_sink p (u : nat) : Prop := exists n, node_of (p_graph p) u = Some n /\ n_ipcsink n = true.

(** What a shared node points to or contains is shared. *)
Definition structure_closed p : Prop := forall u w, child p u w -> is_sink p u -> is_sink p w.

Lemma markAsShared_sub fuel v : markAsShared fuel v = mark_sub n_ipcsink (put_ipcsink true) fuel v.
Proof. reflexivity. Qed.

Lemma markSubnodes_sub fuel v : markSubnodesReachingIpc fuel v = mark_sub n_reaches_ipc_sink (put_reaches true) fuel v.
Proof. reflexivity. Qed.

(** C20: [markAsShared] returns within one unit of fuel more than there are
    vertices, also on cyclic structures, and marks exactly the nodes that [v]
    reaches along [Deref] and [Part] edges through nodes without the mark.  If
    the marks were closed under structure before, they are afterwards, and all
    the memory and members that [v] reaches are marked as shared. *)
Theorem mark_shared_exact (p : PDG) (v fuel : nat) :
  pdg_wf p -> (v < capacity (p_graph p))%nat -> (capacity (p_graph p) < fuel)%nat ->
  exists p', markAsShared fuel v p = Ok tt p'
    /\ only_marks (put_ipcsink true) (below_unmarked n_ipcsink p v) p p'
    /\ (structure_closed p -> structure_closed p' /\ forall w, rtc (child p) v w -> is_sink p' w).
Proof.
  intros [W _ _] Hv Hf. rewrite markAsShared_sub.
  destruct (mark_sub_exact n_ipcsink (put_ipcsink true) ltac:(done) ltac:(done) p W fuel v Hv Hf) as (p' & E & Hom & Hdec).
  exists p'. split; [done|]. split; [done|]. intros Hcl.
  assert (forall u, below_unmarked n_ipcsink p v u -> is_sink p' u) as Hnew.
  { intros u Hu. assert (unmarked n_ipcsink p u) as (n & Hn & _) by (by destruct Hu). exists (put_ipcsink true n).
    split; [|done]. by eapply marked_node. }
  assert (forall u, is_sink p u -> is_sink p' u) as Hold.
  { intros u (n & Hn & Hs). destruct (Hdec u) as [Hu|Hu]; [by apply Hnew|]. exists n. by rewrite (om_not_S _ _ _ _ Hom u Hu). }
  assert (forall u, (u < capacity (p_graph p))%nat -> unmarked n_ipcsink p u \/ is_sink p u) as Hcase.
  { intros u Hu. destruct (node_some _ _ Hu) as [n Hn]. destruct (n_ipcsink n) eqn:Es; [right|left]; by exists n. }
  assert (forall u w, child p u w -> is_sink p' u -> is_sink p' w) as Hcl'.
  { intros u w Hc (n & Hn & Hs). destruct (Hdec u) as [Hu|Hu].
    - destruct Hc as (e & He & Hst & <- & <-). destruct (Hcase (target e)) as [Hw|Hw]; [by apply (edge_ends_lt _ e W)| |by apply Hold].
      apply Hnew, (bu_child _ _ _ (source e)); [done|by exists e|done].
    - apply Hold, (Hcl u); [done|]. exists n. by rewrite <- (om_not_S _ _ _ _ Hom u Hu). }
  split.
  - intros u w (e & He & Hst & Hs & Ht) Hu. apply (Hcl' u); [|done]. exists e. split; [|done]. unfold has_edge in *. by rewrite (om_out _ _ _ _ Hom) in He.
  - intros w Hw. assert (is_sink p' v) as Hsv by (destruct (Hcase v Hv); [apply Hnew; by constructor|by apply Hold]).
    clear -Hw Hsv Hcl'. induction Hw as [|x y z Hxy _ IH]; [done|]. apply IH. by apply (Hcl' x).
Qed.

(** Reading the results of runs. *)
Definition mark_at (get : PDGNode -> bool) (v : nat) p : option bool := get <$> node_of (p_graph p) v.
Definition removed p (v : nat) : bool := vacant (vertices (p_graph p)) v.
Definition after {A} (m : PM A) p : PDG := match m p with Ok _ p' => p' | _ => p end.
Definition result (m : PM unit) : PDG := after m (new_PDG None).

End Shared.

(** ** A small module *)

(** Values below 100 are instructions of the functions 100, 101, ...; their
    last digit is their type: [i32], a pointer to it, a pair of both, a pointer
    to the pair. *)
Definition toy : Llvm := {|
  value := nat; ty := nat;
  isa_Function := fun x => (100 <=? x)%nat; isa_Instruction := fun x => (x <? 100)%nat;
  isa_GlobalVariable := fun _ => false; isa_ConstantData := fun _ => false; isa_BitCastOperator := fun _ => false;
  isa_CallInst := fun _ => false; isa_InvokeInst := fun _ => false; isInlineAsm := fun _ => false;
  is_add_or_sub := fun _ => false; isConstant := fun _ => false;
  getType := fun x => (x mod 10)%nat; getOperand := fun _ _ => None;
  getFunction := fun x => Some (100 + x / 10)%nat; called_function := fun _ => None; getCalledValue := fun _ => None;
  arg_operands := fun _ => []; getNumUses := fun _ => 0;
  getName := fun _ => ""%string; isVarArg := fun _ => false; isDeclaration := fun _ => false; arg_size := fun _ => 0;
  users := fun _ => []; instructions := fun _ => [];
  isArrayTy := fun _ => false; getArrayElementType := fun t => t;
  isPointerTy := fun t => (t =? 2)%nat || (t =? 4)%nat; getPointerElementType := fun t => (t - 1)%nat;
  isStructTy := fun t => (t =? 3)%nat; getStructNumElements := fun _ => 2%nat; getStructElementType := fun _ i => S i;
  isIntegerTy := fun t => (t =? 1)%nat; getIntegerBitWidth := fun _ => 32; isFunctionTy := fun _ => false;
  isEmptyTy := fun _ => false; isFloatingPointTy := fun _ => false; voidTy := 0%nat |}.

#[local] Existing Instance toy.

Definition toy_types : LlvmTypes := {|
  address := fun t => Z.of_nat t; getStructName := fun _ => ""%string; isVoidTy := fun _ => false; isFloatTy := fun _ => false;
  isDoubleTy := fun _ => false; isa_ICmpInst := fun _ => false; getFunctionType := fun _ => 0%nat; ft_isVarArg := fun _ => false;
  getNumParams := fun _ => 0%nat; getParamType := fun _ _ => 0%nat; getReturnType := fun _ => 0%nat |}.

Definition toy_code : LlvmCode := {|
  operands := fun _ => []; isa_GEPOperator := fun _ => false; isa_LoadInst := fun _ => false; isa_StoreInst := fun _ => false;
  isa_ReturnInst := fun _ => false; isa_BranchInst := fun _ => false; isa_AllocaInst := fun _ => false;
  isa_ExtractValueInst := fun _ => false; isa_InsertValueInst := fun _ => false; isa_BasicBlock := fun _ => false;
  isa_Constant := fun _ => false; isa_ConstantInt := fun _ => false; getZExtValue := fun _ => 0; indices := fun _ => [];
  getReturnValue := fun _ => None; args := fun _ => []; unnamed_addr_global := fun _ => false |}.

#[local] Existing Instances toy_types toy_code.

(** Two pointers of two functions, and data that flows from the memory of the
    first (vertex 1) to that of the second (vertex 3), which is shared. *)
Definition toy_program : PM unit :=
  getVertex (H := toy) 10 12%nat (Some 101%nat) ;;
  getVertex (H := toy) 10 22%nat (Some 101%nat) ;;
  pdg_add_edge 1 3 Data 0 ;;
  markAsPointerToShared 10 2.

Definition toy_pdg : PDG := result toy_program.

Lemma toy_wf : pdg_wf toy_pdg.
Proof.
  assert (keeps toy_program) as Hk by (unfold toy_program; keeps; apply keeps_markAsPointerToShared).
  apply (Hk (new_PDG None) tt); [apply new_PDG_wf|]. vm_compute. reflexivity.
Qed.


Lemma shared_reachability_exact_witness :
  let run := calculateReachability [Some 101%nat] (colors_new 4) in
  (exists k cm' p', run toy_pdg = Ok (k, cm') p') /\ mark_at n_influenced_by_shared 3 (after run toy_pdg) = Some true.
Proof.
  split; [|vm_compute; reflexivity].
  destruct (shared_reachability_exact toy_pdg [Some 101%nat] (colors_new 4) toy_wf) as (k & cm' & p' & E & _); [vm_compute; lia|].
  exists k, cm', p'. exact E.
Defined.

Lemma mark_shared_exact_witness :
  (exists p', markAsShared 5 0 toy_pdg = Ok tt p' /\ only_marks (put_ipcsink true) (below_unmarked n_ipcsink toy_pdg 0) toy_pdg p')
  /\ mark_at n_ipcsink 1 (after (markAsShared 5 0) toy_pdg) = Some true.
Proof.
  split; [|vm_compute; reflexivity].
  destruct (mark_shared_exact toy_pdg 0 5 toy_wf) as (p' & E & Hom & _); [vm_compute; lia|vm_compute; lia|].
  exists p'. split; [exact E|exact Hom].
Defined.

Lemma toy_reachable : pdg_reachable None toy_pdg.
Proof.
  apply (reach_op None 10 (MarkAsPointerToShared 2) (result (getVertex (H := toy) 10 12%nat (Some 101%nat) ;;
    getVertex (H := toy) 10 22%nat (Some 101%nat) ;; pdg_add_edge 1 3 Data 0))); [|vm_compute; reflexivity].
  apply (reach_op None 10 (AddEdge 1 3 Data 0) (result (getVertex (H := toy) 10 12%nat (Some 101%nat) ;;
    ignore (getVertex (H := toy) 10 22%nat (Some 101%nat))))); [|vm_compute; reflexivity].
  apply (reach_op None 10 (GetVertex (L := toy) 22%nat (Some 101%nat)) (result (ignore (getVertex (H := toy) 10 12%nat (Some 101%nat)))));
    [|vm_compute; reflexivity].
  apply (reach_op None 10 (GetVertex (L := toy) 12%nat (Some 101%nat)) (new_PDG None)); [constructor|vm_compute; reflexivity].
Qed.

Lemma pdg_stays_consistent_witness :
  (forall u e, e ∈ out_edges (p_graph toy_pdg) u <-> source e = u /\ e ∈ in_edges (p_graph toy_pdg) (target e))
  /\ length (out_edges (p_graph toy_pdg) 1) = 1%nat.
Proof. split; [|vm_compute; reflexivity]. apply (pdg_stays_consistent None toy_pdg toy_reachable). Defined.
