(* ===== verification/PdgSummary.v ===== *)
(** * Summaries of functions

    [calculateSummaryEdges] runs one search per signature node and adds an edge
    to every signature node it meets; later searches follow the edges of
    earlier ones.  All the same the edges are the data flow of the graph before
    them.  With [strongFPAnalysis] a second search adds edges to the calls that a
    pointer flows to. *)

From S2P Require Import Prelude Graph GraphProps SearchProps Pdg PdgReach PdgPass PdgProps PdgOk PdgMarks.

Section Summary.
Context `{Llvm}.
Implicit Types (p q : PDG).

(** [q] is [p] with the edges [E] added, and perhaps other marks. *)
Record like p (E : edge PDGEdge -> Prop) q : Prop := {
  lk_wired : wired (vertices (p_graph q));
  lk_cap : capacity (p_graph q) = capacity (p_graph p);
  lk_fun : forall v, n_function <$> node_of (p_graph q) v = n_function <$> node_of (p_graph p) v;
  lk_type : forall v, n_type <$> node_of (p_graph q) v = n_type <$> node_of (p_graph p) v;
  lk_edges : forall e, has_edge (p_graph q) e <-> has_edge (p_graph p) e \/ E e }.

Lemma like_refl p : wired (vertices (p_graph p)) -> like p (fun _ => False) p.
Proof. intros W. split; [done..|]. intros e. tauto. Qed.

Lemma like_trans p q r E1 E2 : like p E1 q -> like q E2 r -> like p (fun e => E1 e \/ E2 e) r.
Proof.
  intros [W1 C1 F1 T1 H1] [W2 C2 F2 T2 H2]. split; [done|congruence|intros v; by rewrite F2|intros v; by rewrite T2|]. intros e. rewrite H2, H1. tauto.
Qed.

Lemma like_ext p q E E' : (forall e, E e <-> E' e) -> like p E q -> like p E' q.
Proof. intros HE [W C F T He]. split; [done..|]. intros e. by rewrite He, HE. Qed.

Lemma like_marks f S p q :
  wired (vertices (p_graph p)) -> (forall n, n_function (f n) = n_function n /\ n_type (f n) = n_type n) -> only_marks f S p q ->
  (forall v, S v \/ ~ S v) -> like p (fun _ => False) q.
Proof.
  intros W Hf Hom Hdec. split.
  - eapply wired_ext; [..|exact W]; intros u; [apply (om_out _ _ _ _ Hom)|apply (om_in _ _ _ _ Hom)].
  - apply (om_cap _ _ _ _ Hom).
  - intros v. destruct (Hdec v) as [Hv|Hv]; [rewrite (om_in_S _ _ _ _ Hom v Hv)|by rewrite (om_not_S _ _ _ _ Hom v Hv)].
    destruct (node_of (p_graph p) v) as [n|]; [|done]. cbn. by rewrite (proj1 (Hf n)).
  - intros v. destruct (Hdec v) as [Hv|Hv]; [rewrite (om_in_S _ _ _ _ Hom v Hv)|by rewrite (om_not_S _ _ _ _ Hom v Hv)].
    destruct (node_of (p_graph p) v) as [n|]; [|done]. cbn. by rewrite (proj2 (Hf n)).
  - intros e. unfold has_edge. rewrite (om_out _ _ _ _ Hom). tauto.
Qed.

(** An edge between existing vertices is added and leaves the nodes alone. *)
Lemma add_edge_run u v (q : PDGEdge) p :
  wired (vertices (p_graph p)) -> (u < capacity (p_graph p))%nat -> (v < capacity (p_graph p))%nat ->
  exists g', add_edge u v q (p_graph p) = Some g' /\ wired (vertices g') /\ same_frame (p_graph p) g'
    /\ (forall w, node_of g' w = node_of (p_graph p) w) /\ forall e, has_edge g' e <-> has_edge (p_graph p) e \/ e = mkEdge u v q.
Proof.
  intros W Hu Hv. assert (exists g', add_edge u v q (p_graph p) = Some g') as [g' E].
  { destruct (decide (mkEdge u v q ∈ out_edges (p_graph p) u)) as [Hin|Hin].
    - exists (p_graph p). apply add_edge_present; [by apply lookup_lt_is_Some_2|done].
    - destruct (add_edge_with_new uv_insert u v q (p_graph p)) as (g' & E & _); [|done|by apply lookup_lt_is_Some_2..|done|by exists g'].
      intros l Hl. unfold uv_insert. by rewrite decide_False. }
  exists g'. destruct (add_edge_wired _ _ _ _ _ W E) as (W' & Hfr & He). split_and!; try done.
  intros w. by rewrite !node_props, (add_edge_props _ _ _ _ _ E).
Qed.

Lemma add_edge_like u v t i p :
  wired (vertices (p_graph p)) -> (u < capacity (p_graph p))%nat -> (v < capacity (p_graph p))%nat ->
  exists q, pdg_add_edge u v t i p = Ok tt q /\ like p (fun e => e = mkEdge u v (mkPEdge t i)) q.
Proof.
  intros W Hu Hv. destruct (add_edge_run u v (mkPEdge t i) p W Hu Hv) as (g' & E & W' & (_ & _ & Hl & _) & Hn & He).
  exists (put_graph g' p). split; [unfold pdg_add_edge, on_graph_, on_graph; by rewrite E|].
  split; [done|done| | |done]; intros w; cbn [p_graph put_graph]; by rewrite Hn.
Qed.

Lemma find_deref_lt p v d :
  wired (vertices (p_graph p)) -> getDerefOpt (p_graph p) v = Some d -> (d < capacity (p_graph p))%nat.
Proof.
  intros W. unfold getDerefOpt, first_target. destruct (List.find is_deref (out_edges (p_graph p) v)) as [e|] eqn:E; [|done].
  intros [= <-]. apply find_some in E as [Hin _]. apply list_elem_of_In in Hin. apply (edge_ends_lt _ e W).
  unfold has_edge. by rewrite (wi_out_source _ W v e Hin).
Qed.

(** ** One search *)

Section One.
Context (functions : list (option value)) (nodes : list nat) (start : nat).

Definition inside p (v : nat) : bool :=
  match node_of (p_graph p) v with Some n => bool_decide (v ∈ nodes) || in_scope functions n | None => false end.

Definition note (v : nat) (l : list nat) : list nat := if negb (v =? start)%nat && bool_decide (v ∈ nodes) then l ++ [v] else l.

Lemma elem_notes ds l t : t ∈ gather note l ds <-> t ∈ l \/ t ∈ ds /\ t <> start /\ t ∈ nodes.
Proof.
  revert l. induction ds as [|v ds IH]; intros l; [change (t ∈ gather note l []) with (t ∈ l); rewrite elem_of_nil; tauto|].
  change (gather note l (v :: ds)) with (gather note (note v l) ds). rewrite IH, elem_of_cons. unfold note.
  destruct (Nat.eqb_spec v start), (bool_decide_reflect (v ∈ nodes)); cbn [negb andb];
    rewrite ?elem_of_app, ?list_elem_of_singleton; naive_solver.
Qed.

(** The edges of the function pointers that [v] calls. *)
Definition note_calls p (v : nat) (l : list nat) : list nat :=
  if negb (v =? start)%nat && bool_decide (v ∈ nodes) then l ++ forth_along [Invocation] (p_graph p) v else l.

Lemma elem_note_calls p ds l t :
  t ∈ gather (note_calls p) l ds <-> t ∈ l \/ exists v, v ∈ ds /\ v <> start /\ v ∈ nodes /\ t ∈ forth_along [Invocation] (p_graph p) v.
Proof.
  revert l. induction ds as [|v ds IH]; intros l.
  { change (t ∈ gather (note_calls p) l []) with (t ∈ l). split; [by left|]. intros [?|(v & []%not_elem_of_nil & _)]. done. }
  change (gather (note_calls p) l (v :: ds)) with (gather (note_calls p) (note_calls p v l) ds). rewrite IH. setoid_rewrite elem_of_cons. unfold note_calls.
  destruct (Nat.eqb_spec v start), (bool_decide_reflect (v ∈ nodes)); cbn [negb andb]; rewrite ?elem_of_app; naive_solver.
Qed.

(** A search from [start] that stays inside, whatever it notes. *)
Lemma search_from types (discover : nat -> list nat -> PM (bool * list nat)) (acc : nat -> list nat -> list nat) p cm :
  wired (vertices (p_graph p)) -> (start < capacity (p_graph p))%nat -> (capacity (p_graph p) <= 4 * length cm)%nat ->
  (forall v n a, node_of (p_graph p) v = Some n -> discover v a p = Ok (inside p v, acc v a) p) ->
  exists cm' ds, visit discover not_wanted (forth_along types) [start] cm [] p = Ok (false, cm', gather acc [] ds) p
    /\ (capacity (p_graph p) <= 4 * length cm')%nat
    /\ forall t, t ∈ ds <-> reached (inside p) (forth_edge types (p_graph p)) [start] t.
Proof.
  intros W Hs Hcm Hd.
  destruct (visit_run discover not_wanted (forth_along types) (inside p) (fun _ => false)
    acc (forth_along types (p_graph p)) (capacity (p_graph p)) (fun _ => p)) with (sources := [start]) (cm := cm) (a := @nil nat)
    as (b & cm' & ds & E & Hb & Hcm' & Hr); try done.
  - intros ds v a _ Hv. destruct (node_some _ _ Hv) as [n Hn]. by apply (Hd v n).
  - intros u v _ (e & He & _ & _ & <-)%forth_along_spec; [|done]. by apply (edge_ends_lt _ e W).
  - by intros s ->%list_elem_of_singleton.
  - destruct b; [destruct Hr as (v & _ & [=])|]. exists cm', ds. split; [done|]. split; [done|]. intros t. rewrite Hr.
    apply reached_ext. intros u v. by apply forth_along_spec.
Qed.

Lemma stays_inside_eq p v n : start ∈ nodes -> node_of (p_graph p) v = Some n -> stays_inside functions start nodes v n = inside p v.
Proof.
  intros Hin Hn. unfold inside, stays_inside. rewrite Hn. destruct (Nat.eqb_spec v start) as [->|]; [|done]. by rewrite bool_decide_true.
Qed.

Abbreviation flow p := (reached (inside p) (forth_edge [Data; Summary_Data; Part] (p_graph p)) [start]).

Lemma search_data p cm :
  wired (vertices (p_graph p)) -> start ∈ nodes -> (start < capacity (p_graph p))%nat -> (capacity (p_graph p) <= 4 * length cm)%nat ->
  exists cm' l, visit (discover_data functions start nodes) not_wanted (forth_along [Data; Summary_Data; Part]) [start] cm [] p
      = Ok (false, cm', l) p
    /\ (capacity (p_graph p) <= 4 * length cm')%nat /\ forall t, t ∈ l <-> flow p t /\ t <> start /\ t ∈ nodes.
Proof.
  intros W Hin Hs Hcm.
  destruct (search_from [Data; Summary_Data; Part] (discover_data functions start nodes) note p cm W Hs Hcm) as (cm' & ds & E & Hc & Hds).
  { intros v n a Hn. unfold discover_data. rewrite (run_bind _ _ _ _ _ (node_Ok _ _ _ Hn)), (stays_inside_eq p v n Hin Hn). done. }
  exists cm', (gather note [] ds). split; [done|]. split; [done|]. intros t. rewrite elem_notes, elem_of_nil, Hds. tauto.
Qed.

Lemma search_calls p cm :
  wired (vertices (p_graph p)) -> start ∈ nodes -> (start < capacity (p_graph p))%nat -> (capacity (p_graph p) <= 4 * length cm)%nat ->
  exists cm' l, visit (discover_invocation functions start nodes) not_wanted (forth_along [Data]) [start] cm [] p = Ok (false, cm', l) p
    /\ (capacity (p_graph p) <= 4 * length cm')%nat
    /\ forall t, t ∈ l <-> exists v, reached (inside p) (forth_edge [Data] (p_graph p)) [start] v /\ v <> start /\ v ∈ nodes
         /\ forth_edge [Invocation] (p_graph p) v t.
Proof.
  intros W Hin Hs Hcm.
  destruct (search_from [Data] (discover_invocation functions start nodes) (note_calls p) p cm W Hs Hcm) as (cm' & ds & E & Hc & Hds).
  { intros v n a Hn. unfold discover_invocation. rewrite (run_bind _ _ _ _ _ (node_Ok _ _ _ Hn)), <- (stays_inside_eq p v n Hin Hn). done. }
  exists cm', (gather (note_calls p) [] ds). split; [done|]. split; [done|]. intros t. rewrite elem_note_calls, elem_of_nil.
  setoid_rewrite Hds. setoid_rewrite (forth_along_spec _ _ _ _ W). naive_solver.
Qed.

Lemma finished_invocation_like p l :
  wired (vertices (p_graph p)) -> (start < capacity (p_graph p))%nat -> (forall t, t ∈ l -> (t < capacity (p_graph p))%nat) ->
  exists q, finished_invocation start l p = Ok tt q
    /\ like p (fun e => exists t, t ∈ l /\ e = mkEdge start t (mkPEdge Summary_Invocation 0)) q.
Proof.
  intros W Hs Hl. unfold finished_invocation. revert p W Hs Hl. induction l as [|t l IH]; intros p W Hs Hl; cbn [for_each].
  { exists p. split; [done|]. eapply like_ext; [|by apply like_refl]. intros e. split; [done|]. by intros (t & []%not_elem_of_nil & _). }
  destruct (add_edge_like start t Summary_Invocation 0 p W Hs) as (q & E & Hq); [apply Hl; left|]. rewrite (run_bind _ _ _ _ _ E).
  pose proof (lk_cap _ _ _ Hq) as Hc. destruct (IH q (lk_wired _ _ _ Hq)) as (r & Er & Hr); [by rewrite Hc|intros u Hu; rewrite Hc; apply Hl; by right|].
  exists r. split; [done|]. eapply like_ext; [|eapply like_trans; [exact Hq|exact Hr]]. intros e. setoid_rewrite elem_of_cons. naive_solver.
Qed.

Lemma finish_one fuel p d t :
  wired (vertices (p_graph p)) -> (start < capacity (p_graph p))%nat -> (t < capacity (p_graph p))%nat -> (capacity (p_graph p) < fuel)%nat ->
  (forall d0, d = Some d0 -> (d0 < capacity (p_graph p))%nat) ->
  exists q, (pdg_add_edge start t Summary_Data 0 ;;
    match d with
    | Some d =>
        n ← node d;
        if n_reaches_ipc_sink n then mret tt
        else o ← deref_of t;
          match o with
          | Some dt => nt ← node dt; if n_reaches_ipc_sink nt || n_ipcsink nt then markAsShared fuel d else mret tt
          | None => mret tt
          end
    | None => mret tt
    end) p = Ok tt q /\ like p (fun e => e = mkEdge start t (mkPEdge Summary_Data 0)) q.
Proof.
  intros W Hs Ht Hf Hd. destruct (add_edge_like start t Summary_Data 0 p W Hs Ht) as (q & E & Hq). rewrite (run_bind _ _ _ _ _ E).
  destruct d as [d|]; [|by exists q]. specialize (Hd d eq_refl). rewrite <- (lk_cap _ _ _ Hq) in Hd, Hf.
  destruct (node_some _ _ Hd) as [n Hn]. rewrite (run_bind _ _ _ _ _ (node_Ok _ _ _ Hn)). destruct (n_reaches_ipc_sink n); [by exists q|].
  rewrite (run_bind (deref_of t) _ q (getDerefOpt (p_graph q) t) q eq_refl). destruct (getDerefOpt (p_graph q) t) as [dt|] eqn:Edt; [|by exists q].
  destruct (node_some (p_graph q) dt) as [nt Hnt]; [by eapply find_deref_lt; [apply (lk_wired _ _ _ Hq)|]|].
  rewrite (run_bind _ _ _ _ _ (node_Ok _ _ _ Hnt)). destruct (n_reaches_ipc_sink nt || n_ipcsink nt); [|by exists q].
  destruct (mark_sub_exact n_ipcsink (put_ipcsink true) ltac:(done) ltac:(done) q (lk_wired _ _ _ Hq) fuel d Hd Hf) as (r & Er & Hom & Hdec).
  exists r. split; [exact Er|]. eapply like_ext; [|eapply like_trans; [exact Hq|eapply like_marks; [apply (lk_wired _ _ _ Hq)| |exact Hom|exact Hdec]; done]].
  intros e. cbv beta. tauto.
Qed.

Lemma finished_data_like fuel p l :
  wired (vertices (p_graph p)) -> (start < capacity (p_graph p))%nat -> (forall t, t ∈ l -> (t < capacity (p_graph p))%nat) ->
  (capacity (p_graph p) < fuel)%nat ->
  exists q, finished_data fuel start l p = Ok tt q
    /\ like p (fun e => exists t, t ∈ l /\ e = mkEdge start t (mkPEdge Summary_Data 0)) q.
Proof.
  intros W Hs Hl Hf. unfold finished_data. rewrite (run_bind (deref_of start) _ p (getDerefOpt (p_graph p) start) p eq_refl).
  assert (forall d, getDerefOpt (p_graph p) start = Some d -> (d < capacity (p_graph p))%nat) as Hd by (intros d; by apply find_deref_lt).
  revert Hd. generalize (getDerefOpt (p_graph p) start) as o. intros o Hd.
  revert p W Hs Hl Hf Hd. induction l as [|t l IH]; intros p W Hs Hl Hf Hd; cbn [for_each].
  { exists p. split; [done|]. eapply like_ext; [|by apply like_refl]. intros e. split; [done|]. by intros (t & []%not_elem_of_nil & _). }
  destruct (finish_one fuel p o t W Hs) as (q & E & Hq); [apply Hl; left|done|done|]. rewrite (run_bind _ _ _ _ _ E).
  pose proof (lk_cap _ _ _ Hq) as Hc.
  destruct (IH q (lk_wired _ _ _ Hq)) as (r & Er & Hr); [by rewrite Hc|intros u Hu; rewrite Hc; apply Hl; by right|by rewrite Hc|by rewrite Hc|].
  exists r. split; [done|]. eapply like_ext; [|eapply like_trans; [exact Hq|exact Hr]]. intros e. setoid_rewrite elem_of_cons. naive_solver.
Qed.

End One.

(** ** All searches *)

Section All.
Context (functions : list (option value)) (nodes : list nat).

(** Data flows from [s] to [t] through nodes of the functions, nodes of no
    function and signature nodes. *)
Definition summary_flow p (s t : nat) : Prop :=
  reached (inside functions nodes p) (forth_edge [Data; Summary_Data; Part] (p_graph p)) [s] t.

Lemma reached_trans d adj (s u t : nat) :
  reached d adj [s] u -> d u = true -> reached d adj [u] t -> reached d adj [s] t.
Proof.
  intros Hu Hd. induction 1 as [x ->%list_elem_of_singleton|x y _ IH Hx Ha]; [done|]. by apply (reached_step _ _ _ x).
Qed.

Lemma inside_like p q E v : like p E q -> inside functions nodes q v = inside functions nodes p v.
Proof.
  intros Hq. pose proof (lk_fun _ _ _ Hq v) as Hv. unfold inside, in_scope.
  destruct (node_of (p_graph q) v) as [m|], (node_of (p_graph p) v) as [n|]; try done. injection Hv as ->. done.
Qed.

Definition summary_edge p (e : edge PDGEdge) : Prop :=
  exists s t, s ∈ nodes /\ t ∈ nodes /\ s <> t /\ summary_flow p s t /\ e = mkEdge s t (mkPEdge Summary_Data 0).

(** A pointer or function flows from [s] to the signature node [w] along data
    edges alone, and [w] is called at [t]. *)
Definition pointer_node p (s : nat) : Prop :=
  exists n ty, node_of (p_graph p) s = Some n /\ n_type n = Some ty /\ isPointerTy ty || isFunctionTy ty = true.

Definition call_flow p (s w : nat) : Prop :=
  reached (inside functions nodes p) (forth_edge [Data] (p_graph p)) [s] w.

Definition call_edge p (e : edge PDGEdge) : Prop :=
  exists s w t, s ∈ nodes /\ w ∈ nodes /\ w <> s /\ pointer_node p s /\ call_flow p s w /\ forth_edge [Invocation] (p_graph p) w t
    /\ e = mkEdge s t (mkPEdge Summary_Invocation 0).

(** Only these edges have been added. *)
Definition summarizing p (E : edge PDGEdge -> Prop) : Prop := forall e, E e -> summary_edge p e \/ call_edge p e.

(** Shortcuts do not change the flow. *)
Lemma flow_like p q E s t : like p E q -> summarizing p E -> summary_flow q s t <-> summary_flow p s t.
Proof.
  intros Hq HE. unfold summary_flow. split.
  - induction 1 as [x Hx|u v _ IH Hd (e & He & Ht & <- & <-)]; [by constructor|]. rewrite (inside_like _ _ _ _ Hq) in Hd.
    apply (lk_edges _ _ _ Hq) in He as [He|[(a & b & _ & _ & _ & Hab & ->)|(a & w & b & _ & _ & _ & _ & _ & _ & ->)]%HE].
    + apply (reached_step _ _ _ (source e)); [done|done|]. by exists e.
    + by apply (reached_trans _ _ _ a).
    + set_unfold in Ht. naive_solver.
  - induction 1 as [x Hx|u v _ IH Hd (e & He & Ht & <- & <-)]; [by constructor|].
    apply (reached_step _ _ _ (source e)); [done|by rewrite (inside_like _ _ _ _ Hq)|]. exists e. split; [|done]. apply (lk_edges _ _ _ Hq). by left.
Qed.

(** Edges of the original types are the original edges. *)
Lemma forth_like p q E types u v :
  like p E q -> summarizing p E -> Summary_Data ∉ types -> Summary_Invocation ∉ types ->
  forth_edge types (p_graph q) u v <-> forth_edge types (p_graph p) u v.
Proof.
  intros Hq HE H1 H2. unfold forth_edge. split; intros (e & He & Ht & Hends); exists e; (split; [|done]).
  - apply (lk_edges _ _ _ Hq) in He as [He|[(a & b & _ & _ & _ & _ & ->)|(a & w & b & _ & _ & _ & _ & _ & _ & ->)]%HE]; [done|by destruct H1|by destruct H2].
  - apply (lk_edges _ _ _ Hq). by left.
Qed.

Lemma call_flow_like p q E s w : like p E q -> summarizing p E -> call_flow q s w <-> call_flow p s w.
Proof.
  intros Hq HE. unfold call_flow. split; induction 1 as [x Hx|u v _ IH Hd Ha]; try by constructor.
  - rewrite (inside_like _ _ _ _ Hq) in Hd. apply (reached_step _ _ _ u); [done|done|].
    apply (forth_like _ _ _ [Data] _ _ Hq HE) in Ha; [done|set_solver..].
  - apply (reached_step _ _ _ u); [done|by rewrite (inside_like _ _ _ _ Hq)|]. apply (forth_like _ _ _ [Data] _ _ Hq HE); [set_solver..|done].
Qed.

Context (fuel : nat) (strong : bool).

(** With the stronger analysis every signature node has a type. *)
Definition typed_nodes p : Prop := strong = true -> forall v, v ∈ nodes -> exists n ty, node_of (p_graph p) v = Some n /\ n_type n = Some ty.

Definition new_edge p (e : edge PDGEdge) : Prop := summary_edge p e \/ strong = true /\ call_edge p e.

Lemma node_type_like p q E v ty : like p E q -> (exists n, node_of (p_graph q) v = Some n /\ n_type n = Some ty)
  <-> exists n, node_of (p_graph p) v = Some n /\ n_type n = Some ty.
Proof.
  intros Hq. pose proof (lk_type _ _ _ Hq v) as Hv.
  split; intros (n & E0 & Hn); rewrite E0 in Hv; cbn in Hv;
    [destruct (node_of (p_graph p) v) as [n'|]|destruct (node_of (p_graph q) v) as [n'|]]; try done; injection Hv as Hv; exists n'; (split; [done|congruence]).
Qed.

(** The search for calls, if there is one. *)
Lemma calls_like p q E v cm :
  like p E q -> summarizing p E -> typed_nodes p -> v ∈ nodes -> (v < capacity (p_graph p))%nat -> (capacity (p_graph p) <= 4 * length cm)%nat ->
  exists cm' r, (if strong then
      n ← node v;
      t ← force (n_type n);
      if isPointerTy t || isFunctionTy t then
        '(_, cm, new_edges) ← visit (discover_invocation functions v nodes) not_wanted (forth_along [Data]) [v] cm [];
        finished_invocation v new_edges ;;
        mret cm
      else mret cm
    else mret cm) q = Ok cm' r
    /\ (capacity (p_graph p) <= 4 * length cm')%nat /\ like q (fun e => strong = true /\ call_edge p e /\ source e = v) r.
Proof.
  intros Hq HE Hty Hv Hlt Hcm. pose proof (lk_wired _ _ _ Hq) as W. pose proof (lk_cap _ _ _ Hq) as Hc.
  assert (like q (fun _ => False) q) as Hrefl by (by apply like_refl).
  destruct strong eqn:Es; [|exists cm, q; split; [done|]; split; [done|]; eapply like_ext; [|exact Hrefl]; naive_solver].
  destruct (Hty Es v Hv) as (n0 & ty & Hn0 & Hty0). destruct (proj2 (node_type_like p q E v ty Hq)) as (n & Hn & Hnt); [by exists n0|].
  rewrite (run_bind _ _ _ _ _ (node_Ok _ _ _ Hn)). rewrite (run_bind (force (n_type n)) _ q ty q) by (unfold force; by rewrite Hnt).
  destruct (isPointerTy ty || isFunctionTy ty) eqn:Ept.
  - destruct (search_calls functions nodes v q cm W Hv) as (cm1 & l & E1 & Hcm1 & Hl); [by rewrite Hc|by rewrite Hc|].
    rewrite (run_bind _ _ _ _ _ E1). destruct (finished_invocation_like v q l W) as (r & E2 & Hr); [by rewrite Hc| |].
    { intros t (w & _ & _ & _ & e & He & _ & _ & <-)%Hl. by apply (edge_ends_lt _ e W). }
    rewrite (run_bind _ _ _ _ _ E2). exists cm1, r. split; [done|]. split; [by rewrite <- Hc|]. eapply like_ext; [|exact Hr]. intros e. cbv beta. split.
    + intros (t & (w & Hw & Hne & Hin & Ht)%Hl & ->). split; [done|]. split; [|done]. exists v, w, t. split_and!; try done.
      * by exists n0, ty.
      * by apply (call_flow_like _ _ _ _ _ Hq HE).
      * apply (forth_like _ _ _ [Invocation] _ _ Hq HE) in Ht; [done|set_solver..].
    + intros (_ & (s & w & t & _ & Hin & Hne & _ & Hw & Ht & ->) & <-). exists t. split; [|done]. apply Hl. exists w. split_and!; try done.
      * by apply (call_flow_like _ _ _ _ _ Hq HE).
      * apply (forth_like _ _ _ [Invocation] _ _ Hq HE); [set_solver..|done].
  - exists cm, q. split; [done|]. split; [done|]. eapply like_ext; [|exact Hrefl]. intros e. split; [done|].
    intros (_ & (s & w & t & _ & _ & _ & (n' & ty' & Hn' & Hty' & Hp) & _ & _ & ->) & <-). cbn [source] in *. congruence.
Qed.

Lemma summarize_like p q E v cm :
  like p E q -> summarizing p E -> typed_nodes p -> v ∈ nodes -> (forall u, u ∈ nodes -> (u < capacity (p_graph p))%nat) ->
  (capacity (p_graph p) <= 4 * length cm)%nat -> (capacity (p_graph p) < fuel)%nat ->
  exists cm' r, summarize fuel strong functions nodes v cm q = Ok cm' r
    /\ (capacity (p_graph p) <= 4 * length cm')%nat /\ like p (fun e => E e \/ new_edge p e /\ source e = v) r.
Proof.
  intros Hq HE Hty Hv Hn Hcm Hf. pose proof (lk_wired _ _ _ Hq) as W. pose proof (lk_cap _ _ _ Hq) as Hc.
  destruct (search_data functions nodes v q cm W Hv) as (cm1 & l & E1 & Hcm1 & Hl); [rewrite Hc; by apply Hn|by rewrite Hc|].
  destruct (finished_data_like v fuel q l W) as (r1 & E2 & Hr1).
  { rewrite Hc. by apply Hn. } { intros t (_ & _ & Ht)%Hl. rewrite Hc. by apply Hn. } { by rewrite Hc. }
  assert (like p (fun e => E e \/ summary_edge p e /\ source e = v) r1) as Hpr1.
  { eapply like_ext; [|eapply like_trans; [exact Hq|exact Hr1]]. intros e. cbv beta. apply Logic.or_iff_compat_l. split.
    - intros (t & (Hfl & Hne & Ht)%Hl & ->). split; [|done]. exists v, t. split_and!; try done. by apply (flow_like _ _ _ _ _ Hq HE).
    - intros [(s & t & _ & Ht & Hne & Hfl & ->) <-]. exists t. split; [|done]. apply Hl. split; [by apply (flow_like _ _ _ _ _ Hq HE)|done]. }
  destruct (calls_like p r1 _ v cm1 Hpr1) as (cm2 & r & E3 & Hcm2 & Hr); [intros e [He|[He _]]; [by apply HE|by left]|done|done|by apply Hn|by rewrite <- Hc|].
  exists cm2, r. split; [|split; [done|]].
  - unfold summarize. rewrite (run_bind _ _ _ _ _ E1). cbv beta iota. rewrite (run_bind _ _ _ _ _ E2). exact E3.
  - eapply like_ext; [|eapply like_trans; [exact Hpr1|exact Hr]]. intros e. unfold new_edge. tauto.
Qed.

Lemma summarize_all_like p todo cm q E :
  like p E q -> summarizing p E -> typed_nodes p -> (forall v, v ∈ todo -> v ∈ nodes) ->
  (forall v, v ∈ nodes -> (v < capacity (p_graph p))%nat) -> (capacity (p_graph p) <= 4 * length cm)%nat -> (capacity (p_graph p) < fuel)%nat ->
  exists cm' r, summarize_all fuel strong functions nodes todo cm q = Ok cm' r
    /\ like p (fun e => E e \/ new_edge p e /\ source e ∈ todo) r.
Proof.
  revert q cm E. induction todo as [|v todo IH]; intros q cm E Hq HE Hty Hin Hn Hcm Hf; cbn [summarize_all].
  { exists cm, q. split; [done|]. eapply like_ext; [|exact Hq]. intros e. rewrite elem_of_nil. tauto. }
  destruct (summarize_like p q E v cm Hq HE Hty) as (cm1 & r1 & E1 & Hcm1 & Hr1); [apply Hin; left|done..|]. rewrite (run_bind _ _ _ _ _ E1).
  destruct (IH r1 cm1 _ Hr1) as (cm' & r & Er & Hr); [|done|intros u Hu; apply Hin; by right|done..|].
  { intros e [He|[[He|[_ He]] _]]; [by apply HE|by left|by right]. }
  exists cm', r. split; [done|]. eapply like_ext; [|exact Hr]. intros e. cbv beta. rewrite elem_of_cons. tauto.
Qed.

End All.

(** C8: the summaries that callers of a component use are exact, with and
    without [strongFPAnalysis].  For any set of signature nodes, which have types
    if the option is on, the searches of [calculateSummaryEdges] return, keep
    all edges and add a [Summary_Data] edge from one signature node to another
    exactly when data flows between them in the graph before, through nodes of
    the component, nodes of no function and signature nodes, although later
    searches run on the edges of earlier ones; with the option they also add a
    [Summary_Invocation] edge from a signature node of pointer or function type
    to [t] exactly when the value flows along data edges to another signature
    node that is called at [t]. *)
Theorem summary_edges_exact (p : PDG) (strong : bool) (functions : list (option value)) (nodes : list nat) (cm : list Z) (fuel : nat) :
  pdg_wf p -> (forall v, v ∈ nodes -> (v < capacity (p_graph p))%nat) -> typed_nodes nodes strong p ->
  (capacity (p_graph p) <= 4 * length cm)%nat -> (capacity (p_graph p) < fuel)%nat ->
  exists cm' p', summarize_all fuel strong functions nodes nodes cm p = Ok cm' p'
    /\ forall e, has_edge (p_graph p') e <-> has_edge (p_graph p) e
         \/ (exists s t, s ∈ nodes /\ t ∈ nodes /\ s <> t /\ summary_flow functions nodes p s t /\ e = mkEdge s t (mkPEdge Summary_Data 0))
         \/ strong = true /\ exists s w t, s ∈ nodes /\ w ∈ nodes /\ w <> s /\ pointer_node p s /\ call_flow functions nodes p s w
              /\ forth_edge [Invocation] (p_graph p) w t /\ e = mkEdge s t (mkPEdge Summary_Invocation 0).
Proof.
  intros [W _ _] Hn Hty Hcm Hf.
  destruct (summarize_all_like functions nodes fuel strong p nodes cm p (fun _ => False)) as (cm' & p' & E & Hp'); [by apply like_refl|by intros e []|done..|].
  exists cm', p'. split; [done|]. intros e. rewrite (lk_edges _ _ _ Hp'). apply Logic.or_iff_compat_l. unfold new_edge, summary_edge, call_edge. split; [naive_solver|].
  intros [(s & t & Hs & Hx)|(-> & s & w & t & Hs & Hx)]; right; (split; [|by destruct_and!; subst e]); [left; by exists s, t|right; split; [done|]; by exists s, w, t].
Qed.

End Summary.

#[local] Existing Instance toy.

(** The flow 0 -> 2 -> 4 of a pointer that is called at 3, summarised between
    the ends. *)
Definition chain_program : PM unit :=
  getVertex (H := toy) 10 12%nat (Some 101%nat) ;;
  getVertex (H := toy) 10 22%nat (Some 101%nat) ;;
  getVertex (H := toy) 10 32%nat (Some 101%nat) ;;
  pdg_add_edge 0 2 Data 0 ;;
  pdg_add_edge 2 4 Data 0 ;;
  pdg_add_edge 4 3 Invocation 0.

Definition chain_pdg : PDG := result chain_program.

Lemma chain_wf : pdg_wf chain_pdg.
Proof.
  assert (keeps chain_program) as Hk by (unfold chain_program; keeps).
  apply (Hk (new_PDG None) tt); [apply new_PDG_wf|]. vm_compute. reflexivity.
Qed.

Lemma summary_edges_exact_witness :
  let run := summarize_all 10 true [Some 101%nat] [0%nat; 4%nat] [0%nat; 4%nat] (colors_new 6) in
  (exists cm' p', run chain_pdg = Ok cm' p')
  /\ out_edges (p_graph (after run chain_pdg)) 0
     = [mkEdge 0%nat 1%nat (mkPEdge Deref 0); mkEdge 0%nat 2%nat (mkPEdge Data 0);
        mkEdge 0%nat 4%nat (mkPEdge Summary_Data 0); mkEdge 0%nat 3%nat (mkPEdge Summary_Invocation 0)].
Proof.
  split; [|vm_compute; reflexivity].
  assert (forall v, v ∈ [0%nat; 4%nat] -> v = 0%nat \/ v = 4%nat) as Hv by set_solver.
  destruct (summary_edges_exact chain_pdg true [Some 101%nat] [0%nat; 4%nat] (colors_new 6) 10 chain_wf) as (cm' & p' & E & _).
  - intros v [->| ->]%Hv; vm_compute; lia.
  - intros _ v [->| ->]%Hv; do 2 eexists; (split; [vm_compute; reflexivity|reflexivity]).
  - vm_compute. lia.
  - vm_compute. lia.
  - exists cm', p'. exact E.
Defined.
