(* ===== verification/PdgUnite.v ===== *)
(** * Merging nodes

    [uniteSubnodes] merges two nodes and, where both point to or contain
    something, the nodes below.  Every run ends; what it does to the data flow
    is a quotient of the graph. *)

From S2P Require Import Prelude Graph GraphProps SearchProps Pdg PdgReach PdgPass PdgProps PdgOk PdgMarks PdgSummary.

(** ** Counting edges *)

Section Edges.
Context {VP EP : Type} `{EqDecision EP}.
Implicit Types (g : graph VP EP).

Definition all_edges g : list (edge EP) := concat (map v_out (vertices g)).

Lemma length_all g : length (all_edges g) = edge_total (vertices g).
Proof. unfold all_edges, edge_total. induction (vertices g) as [|x l IH]; [done|]. cbn. rewrite length_app. lia. Qed.

Lemma elem_all g e : wired (vertices g) -> e ∈ all_edges g <-> has_edge g e.
Proof.
  intros W. unfold all_edges, has_edge, out_edges. rewrite list_elem_of_In, in_concat. split.
  - intros (l & Hl & He). apply in_map_iff in Hl as (x & <- & Hx). apply list_elem_of_In, list_elem_of_lookup in Hx as [v Hv].
    apply list_elem_of_In in He. assert (e ∈ outs (vertices g) v) as Ho by (unfold outs; by rewrite Hv).
    pose proof (wi_out_source _ W v e Ho) as ->. by rewrite Hv.
  - destruct (vertices g !! source e) as [x|] eqn:Hx; [|by intros []%not_elem_of_nil]. intros He. exists (v_out x).
    split; [|by apply list_elem_of_In]. apply in_map_iff. exists x. split; [done|]. apply list_elem_of_In. by eapply list_elem_of_lookup_2.
Qed.

Lemma NoDup_concat_out (vs : list (vertex VP EP)) k :
  (forall i x, vs !! i = Some x -> NoDup (v_out x) /\ forall e, e ∈ v_out x -> source e = (k + i)%nat) -> NoDup (concat (map v_out vs)).
Proof.
  revert k. induction vs as [|x vs IH]; intros k Hv; cbn; [constructor|]. apply list.NoDup_app. split_and!.
  - by apply (Hv 0%nat x).
  - intros e He He2. apply list_elem_of_In, in_concat in He2 as (l & Hl & He2). apply in_map_iff in Hl as (y & <- & Hy).
    apply list_elem_of_In, list_elem_of_lookup in Hy as [i Hi]. apply list_elem_of_In in He2.
    pose proof (proj2 (Hv 0%nat x eq_refl) e He) as H1. pose proof (proj2 (Hv (S i) y Hi) e He2) as H2. lia.
  - apply (IH (S k)). intros i y Hi. destruct (Hv (S i) y Hi) as [Hn Hs]. split; [done|]. intros e He. rewrite (Hs e He). lia.
Qed.

Lemma NoDup_all g : wired (vertices g) -> NoDup (all_edges g).
Proof.
  intros W. apply (NoDup_concat_out _ 0). intros i x Hx. assert (outs (vertices g) i = v_out x) as Ho by (unfold outs; by rewrite Hx).
  rewrite <- Ho. split; [apply (wi_out_nodup _ W)|]. intros e He. by apply (wi_out_source _ W) in He.
Qed.

End Edges.

(** ** One merge *)

Section Merge.
Context `{Llvm}.
Abbreviation pgraph := (graph PDGNode PDGEdge).
Implicit Types (p q : PDG) (g : pgraph).

Definition conflict (parts : Z) g (v1 : nat) (e : edge PDGEdge) : bool :=
  match move_out parts g v1 e with inl _ => true | inr _ => false end.

Lemma conflict_structural parts g v1 e : conflict parts g v1 e = true -> is_structural e = true.
Proof.
  unfold conflict, move_out, is_structural, is_deref, is_part. destruct (e_type (eprop e)); try done.
Qed.

Lemma moved_ext parts g g' v1 v2 :
  (forall u, out_edges g' u = out_edges g u) -> (forall u, in_edges g' u = in_edges g u) ->
  moved_pairs parts g' v1 v2 = moved_pairs parts g v1 v2 /\ moved_edges parts g' v1 v2 = moved_edges parts g v1 v2.
Proof.
  intros O I. unfold moved_pairs, moved_edges, move_out, v1Part, getPartOpt. by rewrite !O, !I.
Qed.

Lemma length_pairs parts g v1 v2 :
  length (moved_pairs parts g v1 v2) = length (List.filter (conflict parts g v1) (out_edges g v2)).
Proof.
  unfold moved_pairs, conflict. induction (out_edges g v2) as [|e l IH]; [done|]. cbn. rewrite length_app, IH.
  unfold move_out. by destruct (match e_type (eprop e) with Deref => _ | _ => _ end).
Qed.

Lemma elem_moved parts g v1 v2 e' :
  e' ∈ moved_edges parts g v1 v2 <->
  (exists e, e ∈ out_edges g v2 /\ conflict parts g v1 e = false /\ e' = mkEdge v1 (target e) (eprop e))
  \/ exists e, e ∈ in_edges g v2 /\ e' = mkEdge (source e) v1 (eprop e).
Proof.
  unfold moved_edges. rewrite elem_of_app, !list_elem_of_In, in_concat, in_map_iff. apply Morphisms_Prop.or_iff_morphism.
  - split.
    + intros (l & Hl & He). apply in_map_iff in Hl as (e & <- & Hin). exists e. rewrite list_elem_of_In. unfold conflict, move_out in *.
      destruct (match e_type (eprop e) with Deref => _ | _ => _ end); [done|]. destruct He as [<-|[]]. done.
    + intros (e & Hin%list_elem_of_In & Hc & ->). eexists. split; [apply in_map_iff; by exists e|]. unfold conflict, move_out in *.
      destruct (match e_type (eprop e) with Deref => _ | _ => _ end); [done|]. by left.
  - setoid_rewrite list_elem_of_In. naive_solver.
Qed.

Lemma last_target_in f l t : last_target f l = Some t -> exists e, e ∈ l /\ f e = true /\ target e = t.
Proof.
  unfold last_target. assert (forall acc, foldl (fun acc e => if f e then Some (target e) else acc) acc l = Some t ->
    acc = Some t \/ exists e, e ∈ l /\ f e = true /\ target e = t) as Hx.
  { induction l as [|e l IH]; intros acc; cbn; [by left|]. intros [Ha|(e' & ? & ?)]%IH.
    - destruct (f e) eqn:Ef; [injection Ha as <-; right; exists e; by split; [left|]|by left].
    - right. exists e'. by split; [right|]. }
  intros [?|?]%Hx; done.
Qed.

(** Queued pairs are below the pair that is merged. *)
Lemma pairs_below parts g v1 v2 a b :
  (a, b) ∈ moved_pairs parts g v1 v2 ->
  (exists e, e ∈ out_edges g v1 /\ is_structural e = true /\ target e = a)
  /\ exists e, e ∈ out_edges g v2 /\ is_structural e = true /\ target e = b.
Proof.
  unfold moved_pairs. rewrite list_elem_of_In, in_concat. intros (l & Hl & Hab). apply in_map_iff in Hl as (e & <- & He).
  apply list_elem_of_In in He. unfold is_structural, is_part, is_deref.
  unfold move_out in Hab. destruct (match e_type (eprop e) with Deref => _ | _ => _ end) as [v1s|] eqn:Eo; [|done].
  destruct Hab as [[= <- <-]|[]].
  assert (forall i e1, has_type Part i e1 = true -> bool_decide (e_type (eprop e1) = Part) = true) as Hp by (by intros i e1 [? _]%andb_true_iff).
  split; [|exists e; by destruct (e_type (eprop e))].
  destruct (e_type (eprop e)); try done.
  - assert (exists e1, e1 ∈ out_edges g v1 /\ has_type Part (if e_index (eprop e) <? 8 then e_index (eprop e) else
      if parts <? e_index (eprop e) then parts else e_index (eprop e)) e1 = true /\ target e1 = v1s) as (e1 & Hin & Ht & <-).
    2: { exists e1. by rewrite (Hp _ _ Ht), orb_true_r. }
    unfold v1Part in Eo. destruct (e_index (eprop e) <? 8); [by apply last_target_in|].
    unfold getPartOpt, first_target in Eo. destruct (List.find _ (out_edges g v1)) as [e1|] eqn:Ef; [|done].
    injection Eo as <-. apply find_some in Ef as [Hin Ht]. exists e1. by rewrite list_elem_of_In.
  - apply last_target_in in Eo as (e1 & Hin & Ht & <-). exists e1. unfold is_deref in Ht. by rewrite Ht.
Qed.

Lemma add_edges_run l p :
  wired (vertices (p_graph p)) ->
  (forall e, e ∈ l -> (source e < capacity (p_graph p))%nat /\ (target e < capacity (p_graph p))%nat) ->
  exists g', add_edges l p = Ok tt (put_graph g' p) /\ wired (vertices g') /\ capacity g' = capacity (p_graph p)
    /\ (forall u, node_of g' u = node_of (p_graph p) u) /\ (forall u, vacant (vertices g') u = vacant (vertices (p_graph p)) u)
    /\ free_vertices g' = free_vertices (p_graph p) /\ forall e, has_edge g' e <-> has_edge (p_graph p) e \/ e ∈ l.
Proof.
  revert p. induction l as [|e l IH]; intros p W Hl.
  { exists (p_graph p). split; [by destruct p|]. split_and!; try done. intros e. rewrite elem_of_nil. tauto. }
  destruct (Hl e) as [Hs Ht]; [left|]. destruct (add_edge_run (source e) (target e) (eprop e) p W Hs Ht) as (g1 & E1 & W1 & (_ & F1 & Hc1 & V1) & N1 & H1).
  destruct (IH (put_graph g1 p) W1) as (g2 & E2 & W2 & C2 & N2 & V2 & F2 & H2).
  { intros e' He'. cbn [p_graph put_graph]. unfold capacity. rewrite Hc1. apply Hl. by right. }
  exists g2. unfold add_edges in *. cbn [for_each]. rewrite (run_bind _ _ p tt (put_graph g1 p)) by (unfold on_graph_, on_graph; by rewrite E1).
  rewrite E2. split; [done|]. cbn [p_graph put_graph] in *. split_and!; [done|by rewrite C2|intros u; by rewrite N2|intros u; by rewrite V2|by rewrite F2|].
  intros e'. rewrite H2, H1, elem_of_cons. destruct e as [s t x]. tauto.
Qed.

(** The effect of a merge on edges and nodes. *)
Record merged (v1 v2 : nat) (n1 n2 : PDGNode) p q : Prop := {
  mg_wired : wired (vertices (p_graph q));
  mg_cap : capacity (p_graph q) = capacity (p_graph p);
  mg_parts : max_parts q = max_parts p;
  mg_edges : forall e, has_edge (p_graph q) e <->
    (has_edge (p_graph p) e \/ e ∈ moved_edges (max_parts p) (p_graph p) v1 v2) /\ source e <> v2 /\ target e <> v2;
  mg_nodes : forall u, node_of (p_graph q) u =
    if decide (u = v2) then Some (put_reaches false (put_ipcsink false n2))
    else if decide (u = v1) then Some (join_nodes n1 n2) else node_of (p_graph p) u;
  mg_vacant : forall u, vacant (vertices (p_graph q)) u = if decide (u = v2) then true else vacant (vertices (p_graph p)) u;
  mg_free : free_vertices (p_graph q) = v2 :: free_vertices (p_graph p) }.

Lemma node_lt g v n : node_of g v = Some n -> (v < capacity g)%nat.
Proof. unfold node_of. destruct (vertices g !! v) eqn:E; [|done]. intros _. by eapply lookup_lt_Some. Qed.

Lemma merge_throws p v1 v2 n2 :
  node_of (p_graph p) v2 = Some n2 -> (v1 < capacity (p_graph p))%nat -> is_Some (n_instruction n2) ->
  merge v1 v2 p = Throw "Can't remove vertices with instruction".
Proof.
  intros Hn2 Hv1 Hi. unfold merge. rewrite (run_bind _ _ _ _ _ (node_Ok _ _ _ Hn2)).
  rewrite (run_bind _ _ _ _ _ (upd_node_mark v1 (fun n1 => join_nodes n1 n2) p Hv1)). rewrite bool_decide_true by done. done.
Qed.

Lemma merge_run p v1 v2 n1 n2 :
  wired (vertices (p_graph p)) -> v1 <> v2 -> node_of (p_graph p) v1 = Some n1 -> node_of (p_graph p) v2 = Some n2 ->
  n_instruction n2 = None ->
  exists q, merge v1 v2 p = Ok (moved_pairs (max_parts p) (p_graph p) v1 v2) q /\ merged v1 v2 n1 n2 p q.
Proof.
  intros W Hne Hn1 Hn2 Hi. pose proof (node_lt _ _ _ Hn1) as Hv1. pose proof (node_lt _ _ _ Hn2) as Hv2.
  set (p1 := mark_node (fun n1 => join_nodes n1 n2) v1 p).
  assert (forall u, out_edges (p_graph p1) u = out_edges (p_graph p) u) as O1 by (intros u; apply mark_edges).
  assert (forall u, in_edges (p_graph p1) u = in_edges (p_graph p) u) as I1 by (intros u; apply mark_edges).
  assert (wired (vertices (p_graph p1))) as W1 by (eapply wired_ext; [exact O1|exact I1|exact W]).
  assert (capacity (p_graph p1) = capacity (p_graph p)) as C1 by apply mark_capacity.
  destruct (moved_ext (max_parts p) _ _ v1 v2 O1 I1) as [Hmp Hme].
  destruct (add_edges_run (moved_edges (max_parts p) (p_graph p) v1 v2) p1 W1) as (g2 & E2 & W2 & C2 & N2 & V2 & F2 & H2).
  { rewrite C1. intros e [(e0 & He0 & _ & ->)|(e0 & He0 & ->)]%elem_moved; cbn.
    - split; [done|]. apply (edge_ends_lt _ e0 W). unfold has_edge. by rewrite (wi_out_source _ W v2 e0 He0).
    - split; [|done]. apply (edge_ends_lt _ e0 W). apply (wi_mirror _ W). by rewrite (wi_in_target _ W v2 e0 He0). }
  set (p2 := put_graph g2 p1). assert (v2 < capacity (p_graph p2))%nat as Hv2' by (cbn; lia).
  set (p3 := mark_node (put_ipcsink false) v2 p2). assert (v2 < capacity (p_graph p3))%nat as Hv3 by (unfold p3; by rewrite mark_capacity).
  set (p4 := mark_node (put_reaches false) v2 p3).
  assert (wired (vertices (p_graph p4))) as W4.
  { eapply wired_ext; [intros u; apply (mark_edges (put_reaches false) v2 p3 u)|intros u; apply (mark_edges (put_reaches false) v2 p3 u)|].
    eapply wired_ext; [intros u; apply (mark_edges (put_ipcsink false) v2 p2 u)|intros u; apply (mark_edges (put_ipcsink false) v2 p2 u)|done]. }
  assert (forall u, node_of (p_graph p4) u = if decide (u = v2) then Some (put_reaches false (put_ipcsink false n2))
    else if decide (u = v1) then Some (join_nodes n1 n2) else node_of (p_graph p) u) as N4.
  { intros u. unfold p4, p3. rewrite !mark_node_of. cbn [p_graph p2 put_graph]. rewrite N2. unfold p1. rewrite mark_node_of.
    destruct (decide (u = v2)) as [->|]; [rewrite decide_False, Hn2 by done; done|]. destruct (decide (u = v1)) as [->|]; [by rewrite Hn1|done]. }
  assert (v2 < capacity (p_graph p4))%nat as Hv4 by (unfold p4; by rewrite mark_capacity).
  destruct (remove_vertex_adj v2 (p_graph p4) W4) as (g5 & l5 & E5 & _ & F5 & _); [by apply lookup_lt_is_Some_2|].
  destruct (remove_vertex_wired _ _ _ W4 E5) as (W5 & C5 & V5 & H5). pose proof (remove_vertex_props _ _ _ E5) as P5.
  exists (put_graph g5 (put_index (<[n_function n2 := vset_erase v2 (vertices_for (n_function n2) p4)]> (function_to_vertices p4)) p4)). split.
  - unfold merge. rewrite (run_bind _ _ _ _ _ (node_Ok _ _ _ Hn2)).
    rewrite (run_bind _ _ _ _ _ (upd_node_mark v1 (fun n1 => join_nodes n1 n2) p Hv1)). fold p1.
    rewrite bool_decide_false by (rewrite Hi; by intros []). rewrite (run_bind (mret tt) _ p1 tt p1 eq_refl).
    rewrite (run_bind (ask max_parts) _ p1 (max_parts p) p1 eq_refl), (run_bind (ask p_graph) _ p1 (p_graph p1) p1 eq_refl).
    rewrite Hme, Hmp, (run_bind _ _ _ _ _ E2). fold p2. rewrite (run_bind _ _ _ _ _ (upd_node_mark v2 (put_ipcsink false) p2 Hv2')). fold p3.
    rewrite (run_bind _ _ _ _ _ (upd_node_mark v2 (put_reaches false) p3 Hv3)). fold p4.
    rewrite (run_bind _ _ p4 tt (put_graph g5 (put_index (<[n_function n2 := vset_erase v2 (vertices_for (n_function n2) p4)]> (function_to_vertices p4)) p4))); [done|].
    unfold pdg_remove_vertex. rewrite (run_bind _ _ p4 (put_reaches false (put_ipcsink false n2)) p4).
    2: { apply node_Ok. by rewrite N4, decide_True. }
    unfold mbind, PM_bind, modify, on_graph_, on_graph. cbn [p_graph put_index n_function put_reaches put_ipcsink]. by rewrite E5.
  - split; cbn [p_graph put_graph put_index max_parts].
    + done.
    + rewrite C5. unfold p4, p3. rewrite !mark_capacity. cbn. by rewrite C2.
    + done.
    + intros e. rewrite H5. assert (has_edge (p_graph p4) e <-> has_edge g2 e) as ->.
      { unfold has_edge, p4, p3. by rewrite !(proj1 (mark_edges _ _ _ _)). }
      rewrite H2. unfold has_edge at 1. by rewrite O1.
    + intros u. by rewrite node_props, P5, <- node_props, N4.
    + intros u. rewrite V5. case_decide; [done|]. unfold p4, p3. rewrite !mark_vacant. cbn. rewrite V2. apply mark_vacant.
    + by rewrite F5; cbn; rewrite F2.
Qed.

End Merge.

(** ** Quotients of the data flow *)

Section Quotient.
Context `{Llvm}.
Abbreviation pgraph := (graph PDGNode PDGEdge).
Implicit Types (p q : PDG) (g : pgraph) (s : nat -> nat).

Definition redirect (v1 v2 u : nat) : nat := if decide (u = v2) then v1 else u.
Definition image s (e : edge PDGEdge) : edge PDGEdge := mkEdge (s (source e)) (s (target e)) (eprop e).

(** [q] is the quotient of [p] by [s]: flow edges between different classes are
    kept, no edge is invented, marks go to the representatives, and nodes of
    values represent themselves. *)
Record quotient s p q : Prop := {
  qu_flow : forall e, has_edge (p_graph p) e -> is_structural e = false -> s (source e) <> s (target e) -> has_edge (p_graph q) (image s e);
  qu_back : forall e', has_edge (p_graph q) e' -> exists e, has_edge (p_graph p) e /\ image s e = e';
  qu_sink : forall v, is_sink p v -> is_sink q (s v);
  qu_value : forall v n, node_of (p_graph p) v = Some n -> is_Some (n_instruction n) -> s v = v;
  qu_instruction : forall v, n_instruction <$> node_of (p_graph q) v = n_instruction <$> node_of (p_graph p) v;
  qu_vacant : forall v, s v = v -> vacant (vertices (p_graph q)) v = vacant (vertices (p_graph p)) v }.

Lemma quotient_id p : quotient id p p.
Proof.
  split; try done.
  - intros [a b x] He _ _. done.
  - intros [a b x] He. by exists (mkEdge a b x).
Qed.

Lemma quotient_trans s1 s2 p q r :
  quotient s1 p q -> quotient s2 q r -> (forall v, s2 (s1 v) = v -> s1 v = v) -> quotient (fun v => s2 (s1 v)) p r.
Proof.
  intros [F1 B1 S1 V1 I1 C1] [F2 B2 S2 V2 I2 C2] Hfix. split.
  - intros e He Hs Hne. apply (F2 (image s1 e)); [|done|done]. apply F1; [done|done|]. by intros E; rewrite E in Hne.
  - intros e' (e1 & (e & He & <-)%B1 & <-)%B2. by exists e.
  - intros v Hv. by apply S2, S1.
  - intros v n Hn Hi. rewrite (V1 v n Hn Hi). pose proof (I1 v) as E. rewrite Hn in E. destruct (node_of (p_graph q) v) as [m|] eqn:Em; [|done].
    injection E as E. apply (V2 v m Em). by rewrite E.
  - intros v. by rewrite I2.
  - intros v Hv. pose proof (Hfix v Hv) as H1. rewrite H1 in Hv. rewrite (C2 v Hv). by apply C1.
Qed.

Lemma join_attributes n1 n2 :
  n_ipcsink (join_nodes n1 n2) = n_ipcsink n1 || n_ipcsink n2 /\ n_instruction (join_nodes n1 n2) = n_instruction n1
  /\ n_reaches_ipc_sink (join_nodes n1 n2) = n_reaches_ipc_sink n1.
Proof.
  unfold join_nodes. destruct (negb (n_source n1) && n_source n2);
    cbn [put_source n_ipcsink n_reaches_ipc_sink n_filedescriptor n_instruction];
    destruct (n_ipcsink n1) eqn:E1, (n_ipcsink n2); cbn [negb andb orb put_ipcsink put_source n_ipcsink n_reaches_ipc_sink n_filedescriptor n_instruction];
    destruct (n_reaches_ipc_sink n1) eqn:E2, (n_reaches_ipc_sink n2);
    cbn [negb andb put_reaches put_ipcsink put_source n_ipcsink n_reaches_ipc_sink n_filedescriptor n_instruction];
    destruct (n_filedescriptor n1), (n_filedescriptor n2); by split_and!.
Qed.

Context (p q : PDG) (v1 v2 : nat) (n1 n2 : PDGNode).
Context (W : wired (vertices (p_graph p))) (Hne : v1 <> v2) (Hn1 : node_of (p_graph p) v1 = Some n1) (Hn2 : node_of (p_graph p) v2 = Some n2).
Context (Hi : n_instruction n2 = None) (Hm : merged v1 v2 n1 n2 p q).

Abbreviation dropped := (fun e => bool_decide (source e = v2) && conflict (max_parts p) (p_graph p) v1 e).

Lemma merged_back e' : has_edge (p_graph q) e' -> exists e, has_edge (p_graph p) e /\ dropped e = false /\ image (redirect v1 v2) e = e'.
Proof using W Hm.
  intros (He & Hs & Ht)%(mg_edges _ _ _ _ _ _ Hm). unfold image, redirect. destruct He as [He|[(e & He & Hc & ->)|(e & He & ->)]%elem_moved].
  - exists e'. rewrite bool_decide_false by done. rewrite !decide_False by done. by destruct e'.
  - pose proof (wi_out_source _ W v2 e He) as Es. exists e. cbn in Ht. rewrite Hc, andb_false_r, decide_True, decide_False by done.
    split; [unfold has_edge; by rewrite Es|done].
  - pose proof (wi_in_target _ W v2 e He) as Et. exists e. cbn in Hs. rewrite bool_decide_false, decide_False, decide_True by done.
    split; [|done]. apply (wi_mirror _ W). by rewrite Et.
Qed.

Lemma merged_quotient : quotient (redirect v1 v2) p q.
Proof using W Hne Hn1 Hn2 Hi Hm.
  destruct (join_attributes n1 n2) as (Hjs & Hji & _). split.
  - intros e He Hst Hx. apply (mg_edges _ _ _ _ _ _ Hm). unfold image, redirect in *. cbn [source target]. split.
    + destruct (decide (source e = v2)) as [Es|Es], (decide (target e = v2)) as [Et|Et]; [done|..].
      * right. apply elem_moved. left. exists e. split; [unfold has_edge in He; by rewrite Es in He|]. split; [|done].
        destruct (conflict _ _ _ e) eqn:Ec; [|done]. apply conflict_structural in Ec. congruence.
      * right. apply elem_moved. right. exists e. split; [|done]. apply (wi_mirror _ W) in He. by rewrite Et in He.
      * left. by destruct e.
    + by repeat case_decide.
  - intros e' (e & He & _ & Hx)%merged_back. by exists e.
  - intros v (n & Hn & Hs). unfold is_sink, redirect. setoid_rewrite (mg_nodes _ _ _ _ _ _ Hm). destruct (decide (v = v2)) as [->|Hv].
    + rewrite decide_False, decide_True by done. exists (join_nodes n1 n2). split; [done|]. rewrite Hn2 in Hn. injection Hn as <-.
      by rewrite Hjs, Hs, orb_true_r.
    + rewrite decide_False by done. destruct (decide (v = v1)) as [->|]; [|by exists n]. exists (join_nodes n1 n2). split; [done|].
      rewrite Hn1 in Hn. injection Hn as <-. by rewrite Hjs, Hs.
  - intros v n Hn [i Hv]. unfold redirect. rewrite decide_False; [done|]. intros ->. congruence.
  - intros v. rewrite (mg_nodes _ _ _ _ _ _ Hm). destruct (decide (v = v2)) as [->|]; [by rewrite Hn2|].
    destruct (decide (v = v1)) as [->|]; [|done]. rewrite Hn1. cbn. by rewrite Hji.
  - intros v Hv. rewrite (mg_vacant _ _ _ _ _ _ Hm). unfold redirect in Hv. destruct (decide (v = v2)) as [->|]; [by destruct Hne|done].
Qed.

(** Every pair that is queued costs an edge. *)
Lemma merged_shrinks :
  (edge_total (vertices (p_graph q)) + length (moved_pairs (max_parts p) (p_graph p) v1 v2) <= edge_total (vertices (p_graph p)))%nat.
Proof using W Hne Hm.
  rewrite length_pairs, <- !length_all.
  pose proof (List.filter_length dropped (all_edges (p_graph p))) as Hsplit.
  assert (length (all_edges (p_graph q)) <= length (List.filter (fun e => negb (dropped e)) (all_edges (p_graph p))))%nat as H1.
  { rewrite <- (length_map (image (redirect v1 v2)) (List.filter _ _)). apply NoDup_incl_length; [apply NoDup_ListNoDup, NoDup_all, (mg_wired _ _ _ _ _ _ Hm)|].
    intros e' He'. apply list_elem_of_In, elem_all, merged_back in He' as (e & He & Hd & Hx); [|apply (mg_wired _ _ _ _ _ _ Hm)].
    apply in_map_iff. exists e. split; [done|]. apply filter_In. rewrite Hd. split; [|done]. by apply list_elem_of_In, elem_all. }
  assert (length (List.filter (conflict (max_parts p) (p_graph p) v1) (out_edges (p_graph p) v2))
    <= length (List.filter dropped (all_edges (p_graph p))))%nat as H2; [|lia].
  apply NoDup_incl_length.
  - apply List.NoDup_filter, NoDup_ListNoDup, (wi_out_nodup _ W).
  - intros e (He & Hc)%filter_In. apply list_elem_of_In in He. pose proof (wi_out_source _ W v2 e He) as Es. apply filter_In.
    rewrite Hc, bool_decide_true by done. split; [|done]. apply list_elem_of_In, elem_all; [done|]. unfold has_edge. by rewrite Es.
Qed.

End Quotient.

(** ** The loop *)

Section Loop.
Context `{Llvm}.
Abbreviation pgraph := (graph PDGNode PDGEdge).
Implicit Types (p q : PDG) (g : pgraph) (m : gmap nat nat).

Definition has_instruction g (v : nat) : bool :=
  match node_of g v with Some n => bool_decide (is_Some (n_instruction n)) | None => false end.

(** The order in which vertices survive. *)
Definition rank g (v : nat) : nat := if has_instruction g v then 0%nat else S v.

Lemma swap_spec g v1 v2 a b :
  v1 <> v2 -> swapLowerFirst g v1 v2 = (a, b) ->
  (a = v1 /\ b = v2 \/ a = v2 /\ b = v1) /\ ((rank g a < rank g b)%nat \/ rank g a = 0%nat /\ rank g b = 0%nat).
Proof.
  intros Hne. unfold swapLowerFirst. fold (has_instruction g v1) (has_instruction g v2). unfold rank.
  destruct (has_instruction g v1) eqn:E1, (has_instruction g v2) eqn:E2; cbn [negb andb orb];
    [| | |destruct (Nat.ltb_spec v2 v1)]; intros [= <- <-]; rewrite ?E1, ?E2; split; auto with lia.
  all: lia.
Qed.

(** The vertices that a run deals with: those below the pair it starts with. *)
Section Below.
Context (R : nat -> Prop) (cap : nat) (R_lt : forall u, R u -> (u < cap)%nat).

Definition closed_below p : Prop := forall e, has_edge (p_graph p) e -> is_structural e = true -> R (source e) -> R (target e).

(** The map of replaced vertices leads to smaller ones. *)
Definition descends g m : Prop := forall k v, m !! k = Some v -> (rank g v < rank g k)%nat /\ R v.

Definition keys_up_to g m (r : nat) : nat := length (List.filter (fun k => (rank g k <=? r)%nat) (map_to_list m).*1).

Lemma keys_drop g m k r : is_Some (m !! k) -> (r < rank g k)%nat -> (keys_up_to g m r < keys_up_to g m (rank g k))%nat.
Proof.
  intros [v Hv] Hr. apply (filter_drop _ _ _ k).
  - apply list_elem_of_fmap. exists (k, v). split; [done|]. by apply elem_of_map_to_list.
  - by apply Nat.leb_le.
  - by apply Nat.leb_gt.
  - intros y _ Hy%Nat.leb_le. apply Nat.leb_le. lia.
Qed.

Lemma keys_le g m r : (keys_up_to g m r <= size m)%nat.
Proof. unfold keys_up_to. etransitivity; [apply List.filter_length_le|]. by rewrite length_fmap, length_map_to_list. Qed.

Lemma resolve_run g m fuel v1 v2 :
  descends g m -> R v1 -> R v2 -> v1 <> v2 -> (rank g v1 < rank g v2)%nat \/ rank g v1 = 0%nat /\ rank g v2 = 0%nat ->
  (keys_up_to g m (rank g v2) < fuel)%nat ->
  exists a b, resolve_old fuel g v1 v2 m = Some (a, b) /\ R a /\ R b
    /\ (a = b \/ a <> b /\ ((rank g a < rank g b)%nat \/ rank g a = 0%nat /\ rank g b = 0%nat)).
Proof.
  intros Hd. revert v1 v2. induction fuel as [|k IH]; intros v1 v2 H1 H2 Hne Hr Hf; [lia|]. cbn [resolve_old].
  destruct (m !! v2) as [w|] eqn:Ew; [|exists v1, v2; naive_solver].
  destruct (Hd v2 w Ew) as [Hwr Hwc]. destruct (Nat.eqb_spec v1 w) as [->|Hnw]; [exists w, w; naive_solver|].
  destruct (swapLowerFirst g v1 w) as [a b] eqn:Es. destruct (swap_spec g v1 w a b Hnw Es) as [Hab Hrab].
  assert (rank g b < rank g v2)%nat as Hb by (destruct Hab as [[-> ->]|[-> ->]]; lia).
  pose proof (keys_drop g m v2 (rank g b) ltac:(by eexists) Hb). apply IH; try lia; destruct Hab as [[-> ->]|[-> ->]]; lia || done.
Qed.

(** Ranks depend on the instructions only. *)
Lemma rank_ext g g' v : n_instruction <$> node_of g' v = n_instruction <$> node_of g v -> rank g' v = rank g v.
Proof.
  unfold rank, has_instruction. destruct (node_of g v) as [n|], (node_of g' v) as [n'|]; try done. by intros [= ->].
Qed.

Definition strictly_down g (s : nat -> nat) : Prop := forall v, s v <> v -> (rank g (s v) < rank g v)%nat.

Record loop_inv p0 p m (s : nat -> nat) : Prop := {
  li_wired : wired (vertices (p_graph p));
  li_cap : capacity (p_graph p) = cap;
  li_quotient : quotient s p0 p;
  li_down : strictly_down (p_graph p) s;
  li_map : descends (p_graph p) m;
  li_closed : closed_below p }.

Lemma merged_closed p q v1 v2 n1 n2 :
  wired (vertices (p_graph p)) -> merged v1 v2 n1 n2 p q -> R v1 -> R v2 -> closed_below p -> closed_below q.
Proof.
  intros W Hm H1 H2 Hc e' (e & He & _ & <-)%(merged_back p q v1 v2 n1 n2 W Hm) Hst. cbn [image source target]. unfold redirect.
  intros Hs. destruct (decide (target e = v2)); [done|]. apply Hc; [done|exact Hst|]. by destruct (decide (source e = v2)) as [->|].
Qed.

Lemma loop_step p0 p m s v1 v2 n1 n2 q :
  loop_inv p0 p m s -> v1 <> v2 -> R v1 -> R v2 -> (rank (p_graph p) v1 < rank (p_graph p) v2)%nat ->
  node_of (p_graph p) v1 = Some n1 -> node_of (p_graph p) v2 = Some n2 -> n_instruction n2 = None -> merged v1 v2 n1 n2 p q ->
  loop_inv p0 q (<[v2 := v1]> m) (fun v => redirect v1 v2 (s v)).
Proof.
  intros [W C Q D M B] Hne H1 H2 Hr Hn1 Hn2 Hi Hm. pose proof (merged_quotient p q v1 v2 n1 n2 W Hne Hn1 Hn2 Hi Hm) as Q2.
  assert (forall v, rank (p_graph q) v = rank (p_graph p) v) as Hrk by (intros v; apply rank_ext, (qu_instruction _ _ _ Q2)).
  assert (forall v, redirect v1 v2 (s v) <> v -> (rank (p_graph p) (redirect v1 v2 (s v)) < rank (p_graph p) v)%nat) as Hd.
  { intros v Hv. unfold redirect in *. destruct (decide (s v = v2)) as [E|E]; [|by apply D]. destruct (decide (v = v2)) as [->|]; [done|].
    pose proof (D v ltac:(congruence)) as Hx. rewrite E in Hx. lia. }
  split.
  - apply (mg_wired _ _ _ _ _ _ Hm).
  - by rewrite (mg_cap _ _ _ _ _ _ Hm).
  - eapply (quotient_trans s (redirect v1 v2)); [exact Q|exact Q2|]. intros v Hv. destruct (decide (s v = v)) as [|Hx]; [done|].
    unfold redirect in Hv. destruct (decide (s v = v2)) as [E|E]; [|done]. pose proof (D v Hx) as Hy. rewrite E in Hy. subst v. lia.
  - intros v Hv. rewrite !Hrk. by apply Hd.
  - intros k v. rewrite lookup_insert_Some. intros [[<- <-]|[_ Hkv]]; rewrite !Hrk; [done|by apply M].
  - by apply (merged_closed p q v1 v2 n1 n2).
Qed.

Lemma rank_zero g v : rank g v = 0%nat <-> has_instruction g v = true.
Proof. unfold rank. by destruct (has_instruction g v). Qed.

(** Two nodes of values below the pair: what the exception reports. *)
Definition two_values p0 : Prop :=
  exists u1 u2, u1 <> u2 /\ R u1 /\ R u2 /\ has_instruction (p_graph p0) u1 = true /\ has_instruction (p_graph p0) u2 = true.

Lemma quotient_rank s p0 p v : quotient s p0 p -> rank (p_graph p) v = rank (p_graph p0) v.
Proof. intros Q. apply rank_ext, (qu_instruction _ _ _ Q). Qed.

(** Merging a pair: an exception, or the invariant and a smaller graph. *)
Lemma merge_step p0 p m s x y :
  loop_inv p0 p m s -> R x -> R y -> x <> y ->
  (rank (p_graph p) x < rank (p_graph p) y)%nat \/ rank (p_graph p) x = 0%nat /\ rank (p_graph p) y = 0%nat ->
  (exists w, merge x y p = Throw w /\ two_values p0)
  \/ exists l q, merge x y p = Ok l q /\ loop_inv p0 q (<[y := x]> m) (fun v => redirect x y (s v))
       /\ (forall a b, (a, b) ∈ l -> R a /\ R b)
       /\ (edge_total (vertices (p_graph q)) + length l <= edge_total (vertices (p_graph p)))%nat.
Proof using R_lt.
  intros Hli Hx Hy Hxne Hrxy. pose proof (li_wired _ _ _ _ Hli) as W. pose proof (li_cap _ _ _ _ Hli) as C.
  destruct (node_some (p_graph p) x) as [n1 Hn1]; [rewrite C; by apply R_lt|].
  destruct (node_some (p_graph p) y) as [n2 Hn2]; [rewrite C; by apply R_lt|].
  assert (has_instruction (p_graph p) y = bool_decide (is_Some (n_instruction n2))) as Hhi by (unfold has_instruction; by rewrite Hn2).
  destruct (n_instruction n2) as [i|] eqn:Ei.
  { left. eexists. split; [apply (merge_throws p x y n2 Hn2); [rewrite C; by apply R_lt|by rewrite Ei]|].
    assert (rank (p_graph p) y = 0%nat) as Hy0 by (by rewrite rank_zero, Hhi, bool_decide_true).
    exists x, y. rewrite <- !rank_zero, <- !(quotient_rank s p0 p _ (li_quotient _ _ _ _ Hli)). split_and!; try done. lia. }
  destruct (merge_run p x y n1 n2 W Hxne Hn1 Hn2 Ei) as (q & Em & Hm).
  assert (rank (p_graph p) x < rank (p_graph p) y)%nat as Hrk.
  { destruct Hrxy as [|[_ Hz]]; [done|]. apply rank_zero in Hz. rewrite Hhi, bool_decide_false in Hz; [done|]. by intros []. }
  right. exists (moved_pairs (max_parts p) (p_graph p) x y), q. split; [done|].
  split; [by eapply (loop_step p0 p m s x y n1 n2 q)|]. split; [|by eapply (merged_shrinks p q x y n1 n2)].
  assert (forall v e, R v -> e ∈ out_edges (p_graph p) v -> is_structural e = true -> R (target e)) as Hcl.
  { intros v e Hv He Hst. pose proof (wi_out_source _ W v e He) as Es. apply (li_closed _ _ _ _ Hli); [|done|by rewrite Es].
    unfold has_edge. by rewrite Es. }
  intros a b ((e1 & He1 & Hs1 & <-) & e2 & He2 & Hs2 & <-)%pairs_below. split; [exact (Hcl x e1 Hx He1 Hs1)|exact (Hcl y e2 Hy He2 Hs2)].
Qed.

Lemma unite_loop_run p0 fuel Q m s p :
  loop_inv p0 p m s -> (forall a b, (a, b) ∈ Q -> R a /\ R b) -> (edge_total (vertices (p_graph p)) + length Q < fuel)%nat ->
  (exists w, unite_loop fuel Q m p = Throw w /\ two_values p0)
  \/ exists m' q s', unite_loop fuel Q m p = Ok m' q /\ loop_inv p0 q m' s' /\ forall u v, s u = s v -> s' u = s' v.
Proof using R_lt.
  revert Q m s p. induction fuel as [|k IH]; intros Q m s p Hli HQ Hf; [lia|]. cbn [unite_loop].
  destruct Q as [|[v1 v2] Q]; [right; by exists m, p, s|]. cbn [length] in Hf.
  assert (forall a b, (a, b) ∈ Q -> R a /\ R b) as HQ' by (intros a b Hab; apply HQ; by right).
  destruct (HQ v1 v2) as [H1 H2]; [left|]. destruct (Nat.eqb_spec v1 v2) as [->|Hne]; [apply (IH _ _ s); [done|done|lia]|].
  rewrite (run_bind (ask p_graph) _ p (p_graph p) p eq_refl).
  destruct (swapLowerFirst (p_graph p) v1 v2) as [a b] eqn:Es. destruct (swap_spec _ _ _ _ _ Hne Es) as [Hab Hrab].
  destruct (resolve_run (p_graph p) m (S (size m)) a b (li_map _ _ _ _ Hli)) as (x & y & -> & Hx & Hy & Hxy);
    [destruct Hab as [[-> ->]|[-> ->]]; done..|done|pose proof (keys_le (p_graph p) m (rank (p_graph p) b)); lia|].
  destruct (Nat.eqb_spec x y) as [->|Hxne]; [apply (IH _ _ s); [done|done|lia]|]. destruct Hxy as [?|(_ & Hrxy)]; [done|].
  destruct (merge_step p0 p m s x y Hli Hx Hy Hxne Hrxy) as [(w & Hw & Htv)|(l & q & Em & Hli' & Hl & Hlen)].
  { left. exists w. split; [|done]. unfold mbind, PM_bind. by rewrite Hw. }
  rewrite (run_bind _ _ _ _ _ Em). destruct (IH (Q ++ l) _ _ q Hli') as [Hthrow|(m' & r & s' & E & Hl' & Hs)].
  - intros c d [Hcd|Hcd]%elem_of_app; [by apply HQ'|by apply Hl].
  - rewrite length_app. lia.
  - by left.
  - right. exists m', r, s'. split; [done|]. split; [done|]. intros u v Huv. apply Hs. by rewrite Huv.
Qed.

(** From the initial pair: its members end with one representative. *)
Lemma unite_pair_run p v1 v2 fuel :
  wired (vertices (p_graph p)) -> capacity (p_graph p) = cap -> closed_below p -> R v1 -> R v2 ->
  (edge_total (vertices (p_graph p)) + 1 < fuel)%nat ->
  (exists w, unite_loop fuel [(v1, v2)] ∅ p = Throw w /\ two_values p)
  \/ exists m' q s, unite_loop fuel [(v1, v2)] ∅ p = Ok m' q /\ s v1 = s v2 /\ quotient s p q.
Proof using R_lt.
  intros W Hcap Hcl H1 H2 Hf. destruct fuel as [|k]; [lia|]. cbn [unite_loop].
  destruct (Nat.eqb_spec v1 v2) as [->|Hne]; [right; destruct k; [lia|]; exists ∅, p, id; split; [done|split; [done|apply quotient_id]]|].
  rewrite (run_bind (ask p_graph) _ p (p_graph p) p eq_refl). destruct (swapLowerFirst (p_graph p) v1 v2) as [a b] eqn:Es.
  destruct (swap_spec _ _ _ _ _ Hne Es) as [Hab Hr].
  assert (resolve_old (S (size (∅ : gmap nat nat))) (p_graph p) a b ∅ = Some (a, b)) as -> by (cbn [resolve_old]; by rewrite lookup_empty).
  assert (a <> b) as Hab' by (destruct Hab as [[-> ->]|[-> ->]]; done). destruct (Nat.eqb_spec a b); [done|].
  assert (loop_inv p p ∅ id) as Hli.
  { split; [done|done|apply quotient_id|by intros v| |done]. intros i v. by rewrite lookup_empty. }
  destruct (merge_step p p ∅ id a b Hli) as [(w & Hw & Htv)|(l & q & Em & Hli' & Hl & Hlen)];
    [destruct Hab as [[-> ->]|[-> ->]]; done..|done|done| |].
  { left. exists w. split; [|done]. unfold mbind, PM_bind. by rewrite Hw. }
  rewrite (run_bind _ _ _ _ _ Em). destruct (unite_loop_run p k ([] ++ l) _ _ q Hli') as [?|(m' & r & s & E & Hli2 & Hs)]; [done|cbn [app]; lia|by left|].
  right. exists m', r, s. split; [done|]. split; [|apply (li_quotient _ _ _ _ Hli2)]. apply Hs. unfold redirect.
  destruct Hab as [[-> ->]|[-> ->]]; cbn [id]; unfold id; repeat case_decide; congruence.
Qed.

End Below.

(** What the two nodes point to or contain, themselves included. *)
Definition below p (v1 v2 u : nat) : Prop := rtc (child p) v1 u \/ rtc (child p) v2 u.

Lemma below_lt p v1 v2 u :
  wired (vertices (p_graph p)) -> (v1 < capacity (p_graph p))%nat -> (v2 < capacity (p_graph p))%nat -> below p v1 v2 u ->
  (u < capacity (p_graph p))%nat.
Proof.
  intros W H1 H2. assert (forall v, (v < capacity (p_graph p))%nat -> rtc (child p) v u -> (u < capacity (p_graph p))%nat) as Hx.
  { intros v Hv Hr. induction Hr as [|x y z (e & He & _ & _ & <-) _ IH]; [done|]. apply IH, (edge_ends_lt _ e W), He. }
  intros [Hu|Hu]; [exact (Hx v1 H1 Hu)|exact (Hx v2 H2 Hu)].
Qed.

Lemma below_closed p v1 v2 : closed_below (below p v1 v2) p.
Proof.
  intros e He Hst Hs. assert (child p (source e) (target e)) as Hc by (by exists e).
  destruct Hs; [left|right]; (eapply rtc_r; [done|done]).
Qed.

(** C11: [uniteSubnodes] on nodes that may be one ends, with fuel for one turn
    per edge.  It throws only when the nodes of two values are below the pair,
    so that a node of a value would have to go; otherwise it returns a quotient
    of the graph in which the two nodes have the same representative.  All data
    flow, call and parameter edges between different classes go over to the
    representatives, no edge is invented, IPC sinks stay IPC sinks, and the nodes
    of values represent themselves. *)
Theorem unite_quotient (p : PDG) (v1 v2 : nat) (n1 n2 : PDGNode) (fuel : nat) :
  pdg_wf p -> node_of (p_graph p) v1 = Some n1 -> node_of (p_graph p) v2 = Some n2 -> keep_apart n1 n2 = false ->
  (edge_total (vertices (p_graph p)) + 2 < fuel)%nat ->
  (exists w, uniteSubnodes fuel v1 v2 p = Throw w /\ two_values (below p v1 v2) p)
  \/ exists q s, uniteSubnodes fuel v1 v2 p = Ok tt q /\ s v1 = s v2 /\ quotient s p q.
Proof.
  intros [W _ _] Hn1 Hn2 Hk Hf. destruct fuel as [|fuel]; [lia|]. cbn [uniteSubnodes].
  rewrite (run_bind _ _ _ _ _ (node_Ok _ _ _ Hn1)), (run_bind _ _ _ _ _ (node_Ok _ _ _ Hn2)), Hk.
  destruct (unite_pair_run (below p v1 v2) (capacity (p_graph p))
    (fun u => below_lt p v1 v2 u W (node_lt _ _ _ Hn1) (node_lt _ _ _ Hn2)) p v1 v2 fuel) as [(w & Hw & Htv)|(m' & q & s & E & Hs & Hq)];
    [done|done|apply below_closed|left; apply rtc_refl|right; apply rtc_refl|lia|..].
  - left. exists w. split; [|done]. unfold mbind, PM_bind. by rewrite Hw.
  - right. exists q, s. by rewrite (run_bind _ _ _ _ _ E).
Qed.

End Loop.

(** ** Examples *)

#[local] Existing Instance toy.

Definition plain_node : PDGNode :=
  mkNode (H := toy) (Some 101%nat) None (Some 1%nat) true false false false false false false false false 0.

Definition add_plain : PM unit := pdg_add_vertex plain_node ;; mret tt.

Definition copies (k : nat) : PM unit := for_each (seq 0 k) (fun _ => add_plain).

Lemma keeps_copies k : keeps (copies k).
Proof. unfold copies, add_plain. keeps. Qed.

(** Two pairs 0 = {2, 3} and 1 = {4, 5}, and data that flows from 6 to 5. *)
Definition two_pairs_program : PM unit :=
  copies 7 ;;
  pdg_add_edge 0 2 Part 0 ;; pdg_add_edge 0 3 Part 1 ;;
  pdg_add_edge 1 4 Part 0 ;; pdg_add_edge 1 5 Part 1 ;;
  pdg_add_edge 6 5 Data 0.

Definition two_pairs : PDG := result two_pairs_program.

Lemma two_pairs_wf : pdg_wf two_pairs.
Proof.
  assert (keeps two_pairs_program) as Hk by (pose proof keeps_copies; unfold two_pairs_program; keeps).
  apply (Hk (new_PDG None) tt); [apply new_PDG_wf|]. vm_compute. reflexivity.
Qed.

Lemma unite_quotient_witness :
  ((exists w, uniteSubnodes 10 0 1 two_pairs = Throw w /\ two_values (below two_pairs 0 1) two_pairs)
   \/ exists q s, uniteSubnodes 10 0 1 two_pairs = Ok tt q /\ s 0%nat = s 1%nat /\ quotient s two_pairs q)
  /\ in_edges (p_graph (after (uniteSubnodes 10 0 1) two_pairs)) 3
     = [mkEdge 0%nat 3%nat (mkPEdge Part 1); mkEdge 6%nat 3%nat (mkPEdge Data 0)].
Proof.
  split; [|vm_compute; reflexivity].
  apply (unite_quotient two_pairs 0 1 plain_node plain_node 10 two_pairs_wf); [vm_compute; reflexivity..|vm_compute; lia].
Defined.



(** ** What goes wrong *)

Section Wrong.
Context `{Llvm}.
Implicit Types (p q : PDG) (m : gmap nat nat).

(** One turn of the loop for a pair in order, whose second vertex has not been
    replaced; nobody asks whether the first one has. *)
Lemma unite_turn k Q m p a b na nb :
  wired (vertices (p_graph p)) -> (a < b)%nat -> node_of (p_graph p) a = Some na -> node_of (p_graph p) b = Some nb ->
  n_instruction nb = None -> m !! b = None ->
  exists q, merged a b na nb p q
    /\ unite_loop (S k) ((a, b) :: Q) m p = unite_loop k (Q ++ moved_pairs (max_parts p) (p_graph p) a b) (<[b := a]> m) q.
Proof.
  intros W Hlt Ha Hb Hi Hm. destruct (merge_run p a b na nb W ltac:(lia) Ha Hb Hi) as (q & Em & Hq). exists q. split; [done|].
  cbn [unite_loop]. destruct (Nat.eqb_spec a b); [lia|]. rewrite (run_bind (ask p_graph) _ p (p_graph p) p eq_refl).
  assert (has_instruction (p_graph p) b = false) as Hno.
  { unfold has_instruction. rewrite Hb, Hi. apply bool_decide_eq_false. by intros []. }
  unfold swapLowerFirst. fold (has_instruction (p_graph p) a) (has_instruction (p_graph p) b). rewrite Hno, (proj2 (Nat.ltb_ge b a)), andb_false_r by lia.
  cbn [resolve_old]. rewrite Hm. cbv beta iota. destruct (Nat.eqb_spec a b); [lia|]. by rewrite (run_bind _ _ _ _ _ Em).
Qed.


Lemma no_pairs parts g (a b : nat) : out_edges g b = [] -> moved_pairs parts g a b = [].
Proof. intros E. unfold moved_pairs. by rewrite E. Qed.



(** The mark [reaches_ipc_sink] of the node that is removed is lost: the code
    assigns the mark of the other node to itself. *)
Lemma unite_drops_mark (p : PDG) (v1 v2 : nat) (n1 n2 : PDGNode) (fuel : nat) :
  pdg_wf p -> (v1 < v2)%nat -> node_of (p_graph p) v1 = Some n1 -> node_of (p_graph p) v2 = Some n2 -> keep_apart n1 n2 = false ->
  n_instruction n2 = None -> out_edges (p_graph p) v2 = [] ->
  n_reaches_ipc_sink n1 = false -> n_reaches_ipc_sink n2 = true -> (3 <= fuel)%nat ->
  exists q, uniteSubnodes fuel v1 v2 p = Ok tt q /\ removed q v2 = true /\ mark_at n_reaches_ipc_sink v1 q = Some false.
Proof.
  intros [W _ _] Hlt Hn1 Hn2 Hk Hi2 Ho Hr1 Hr2 Hf. destruct fuel as [|[|[|fuel]]]; try lia.
  destruct (unite_turn (S fuel) [] ∅ p v1 v2 n1 n2 W Hlt Hn1 Hn2 Hi2) as (q & Hm & E); [done|]. rewrite (no_pairs _ _ v1 v2 Ho) in E. exists q. split.
  - cbn [uniteSubnodes]. rewrite (run_bind _ _ _ _ _ (node_Ok _ _ _ Hn1)), (run_bind _ _ _ _ _ (node_Ok _ _ _ Hn2)), Hk.
    assert (unite_loop (S (S fuel)) [(v1, v2)] ∅ p = Ok (<[v2 := v1]> ∅) q) as E' by (by rewrite E). by rewrite (run_bind _ _ _ _ _ E').
  - destruct (join_attributes n1 n2) as (_ & _ & Hj). unfold removed, mark_at.
    rewrite (mg_vacant _ _ _ _ _ _ Hm), (mg_nodes _ _ _ _ _ _ Hm), decide_True, decide_False, decide_True by lia. split; [done|]. cbn. by rewrite Hj, Hr1.
Qed.

End Wrong.



(** [PDGSpecializationPass] removes a dead function twice, since the index of
    its vertices is not cleared; its vertex is then free twice, and two new nodes
    become one. *)
Lemma remove_function_twice :
  let q := after (removeFunction (Some 101%nat) ;; removeFunction (H := toy) (Some 101%nat)) (result (copies 1)) in
  vertices_for (Some 101%nat) q = [0%nat]
  /\ exists q1 q2, pdg_add_vertex plain_node q = Ok 0%nat q1 /\ pdg_add_vertex plain_node q1 = Ok 0%nat q2.
Proof.
  intros q. split; [vm_compute; reflexivity|]. exists (after add_plain q), (after add_plain (after add_plain q)). split; vm_compute; reflexivity.
Qed.
