(* ===== verification/PdgTree.v ===== *)
(** * The nodes of a value

    [createSubnodes] ends for every type whose by-value nesting is finite, and
    builds the tree of the type: what a pointer points to behind a [Deref] edge,
    the members of a struct behind [Part] edges. *)

From S2P Require Import Prelude Graph GraphProps SearchProps Pdg PdgReach PdgPass DataScc PdgCreate PdgProps PdgOk PdgMarks.

Section Tree.
Context `{L : Llvm}.
Abbreviation pgraph := (graph PDGNode PDGEdge).
Implicit Types (p : PDG) (g : pgraph) (n : PDGNode) (t : ty).






(** ** What grows *)







(** ** A new child *)



(** ** The recursion *)

(** Struct types contain smaller types, arrays no larger ones. *)
Context (depth : ty -> nat) (D : nat).
Context (depth_struct : forall t i, isStructTy t = true -> (i < getStructNumElements t)%nat -> (depth (getStructElementType t i) < depth t)%nat).
Context (depth_array : forall t, isArrayTy t = true -> (depth (getArrayElementType t) <= depth t)%nat).
Context (depth_bound : forall t, (depth t <= D)%nat).












End Tree.

(** A pointer to a pair of an integer and a pointer. *)
#[local] Existing Instance toy.


