(* ===== verification/StructProps.v ===== *)
(** * Clusters of struct types

    [analyzeStructs] ends with a cluster for every identified struct type;
    types of one cluster have the same name up to the suffix and the same shape
    as one of them. *)

From S2P Require Import Prelude Graph Scc Pdg PdgReach PdgPass DataScc.

Section StructProps.
Context `{L : Llvm, !LlvmTypes}.
Implicit Types (st : ty) (m : gmap ty Z) (cs : list (list ty)).

Lemma elem_set_insert x y l : y ∈ set_insert x l <-> y = x \/ y ∈ l.
Proof.
  induction l as [|z l IH]; cbn; [by rewrite list_elem_of_singleton, elem_of_nil; naive_solver|].
  case_bool_decide as Hx; [subst; rewrite elem_of_cons; naive_solver|].
  destruct (address x <? address z); rewrite !elem_of_cons; [done|]. rewrite IH. tauto.
Qed.

Lemma length_set_insert x l : (length (set_insert x l) <= S (length l))%nat.
Proof.
  induction l as [|z l IH]; cbn; [lia|]. case_bool_decide; cbn; [lia|]. destruct (address x <? address z); cbn; lia.
Qed.

Lemma elem_set_of st l : st ∈ foldr set_insert [] l <-> st ∈ l.
Proof. induction l as [|x l IH]; cbn; [done|]. by rewrite elem_set_insert, IH, elem_of_cons. Qed.

Lemma length_set_of (l : list ty) : (length (foldr set_insert [] l) <= length l)%nat.
Proof. induction l as [|x l IH]; cbn; [lia|]. pose proof (length_set_insert x (foldr set_insert [] l)). lia. Qed.

Lemma lookup_move st j l m :
  foldr (fun st m => <[st := j]> m) m l !! st = if decide (st ∈ l) then Some j else m !! st.
Proof.
  induction l as [|x l IH]; cbn; [by rewrite decide_False by (by intros []%not_elem_of_nil)|].
  destruct (decide (st = x)) as [->|Hne]; [by rewrite lookup_insert_eq, decide_True by left|].
  rewrite lookup_insert_ne, IH by done. apply decide_ext. rewrite elem_of_cons. naive_solver.
Qed.

(** ** Grouping by name *)

Definition base_name st : string := strip_suffix (getStructName st).

Record named (names : gmap string nat) m cs : Prop := {
  nm_names : forall s i, names !! s = Some i -> (i < length cs)%nat;
  nm_inj : forall s s' i, names !! s = Some i -> names !! s' = Some i -> s = s';
  nm_members : forall i l, cs !! i = Some l -> l <> [] /\ forall st, st ∈ l <-> m !! st = Some (Z.of_nat i);
  nm_cluster : forall st c, m !! st = Some c -> exists i, c = Z.of_nat i /\ names !! base_name st = Some i }.

Definition members_from (i : nat) cs : nat := sum_list (length <$> drop i cs).

Lemma members_alter f i cs : (forall l, length (f l) <= S (length l))%nat -> (members_from 0 (alter f i cs) <= S (members_from 0 cs))%nat.
Proof.
  intros Hf. unfold members_from. rewrite !drop_0. revert i. induction cs as [|l cs IH]; intros [|i]; cbn; try lia.
  - specialize (Hf l). lia.
  - specialize (IH i). lia.
Qed.

Lemma name_clusters_run sts names m cs :
  named names m cs ->
  exists names' m' cs', name_clusters sts names m cs = (m', cs') /\ named names' m' cs'
    /\ (forall st, is_Some (m' !! st) <-> is_Some (m !! st) \/ st ∈ sts)
    /\ (members_from 0 cs' <= members_from 0 cs + length sts)%nat.
Proof.
  revert names m cs. induction sts as [|st sts IH]; intros names m cs Hnm; cbn [name_clusters].
  { exists names, m, cs. split_and!; try done; [|lia]. intros st. rewrite elem_of_nil. tauto. }
  fold (base_name st). destruct Hnm as [N I M C].
  assert (forall m' names' cs', (forall x, is_Some (m' !! x) <-> x = st \/ is_Some (m !! x)) ->
    (members_from 0 cs' <= S (members_from 0 cs))%nat -> named names' m' cs' ->
    exists n2 m2 cs2, name_clusters sts names' m' cs' = (m2, cs2) /\ named n2 m2 cs2
      /\ (forall x, is_Some (m2 !! x) <-> is_Some (m !! x) \/ x ∈ st :: sts)
      /\ (members_from 0 cs2 <= members_from 0 cs + length (st :: sts))%nat) as Hgo.
  { intros m' names' cs' Hm' Hlen Hnm'. destruct (IH names' m' cs' Hnm') as (n2 & m2 & cs2 & E & Hn & Hd & Hs).
    exists n2, m2, cs2. split_and!; try done; [|cbn; lia]. intros x. rewrite Hd, Hm', elem_of_cons. tauto. }
  destruct (names !! base_name st) as [i|] eqn:Ei; apply Hgo.
  - intros x. rewrite lookup_insert_is_Some. destruct (decide (st = x)); naive_solver.
  - apply members_alter, length_set_insert.
  - split.
    + intros s j Hj. rewrite length_alter. by eapply N.
    + done.
    + intros j l Hl. destruct (decide (i = j)) as [<-|Hij].
      * rewrite list_lookup_alter_eq in Hl. destruct (cs !! i) as [l0|] eqn:El; [|done]. injection Hl as <-. destruct (M i l0 El) as [Hne Hm].
        split; [intros Hn; apply (not_elem_of_nil st); rewrite <- Hn; apply elem_set_insert; by left|].
        intros x. rewrite elem_set_insert, Hm. destruct (decide (st = x)) as [<-|]; [rewrite lookup_insert_eq; naive_solver|].
        rewrite lookup_insert_ne by done. naive_solver.
      * rewrite list_lookup_alter_ne in Hl by done. destruct (M j l Hl) as [Hne Hm]. split; [done|]. intros x. rewrite Hm.
        destruct (decide (st = x)) as [<-|]; [|by rewrite lookup_insert_ne]. rewrite lookup_insert_eq. split.
        -- intros (k & Hk & Hn)%C. rewrite Ei in Hn. injection Hn as <-. lia.
        -- intros [= Hk]. lia.
    + intros x c. destruct (decide (st = x)) as [<-|]; [rewrite lookup_insert_eq; intros [= <-]; by exists i|].
      rewrite lookup_insert_ne by done. apply C.
  - intros x. rewrite lookup_insert_is_Some. destruct (decide (st = x)); naive_solver.
  - unfold members_from. rewrite !drop_0, fmap_app, sum_list_with_app. cbn. lia.
  - assert (m !! st = None) as Hst.
    { destruct (m !! st) eqn:Em; [|done]. apply C in Em as (i & _ & Hi). by rewrite Hi in Ei. }
    split.
    + intros s j. rewrite lookup_insert_Some, length_app. cbn. intros [[_ <-]|[_ Hj%N]]; lia.
    + intros s s' j. rewrite !lookup_insert_Some. intros [[<- <-]|[_ Hs]] [[<- Hj]|[_ Hs']]; [done|by apply N in Hs'; lia|by apply N in Hs; lia|].
      by eapply I.
    + intros j l Hl. apply lookup_app_Some in Hl as [Hl|[Hge Hl]].
      * destruct (M j l Hl) as [Hne Hm]. split; [done|]. intros x. rewrite Hm. apply lookup_lt_Some in Hl.
        destruct (decide (st = x)) as [<-|]; [|by rewrite lookup_insert_ne]. rewrite lookup_insert_eq, Hst. split; [done|]. intros [= Hx]. lia.
      * apply list_lookup_singleton_Some in Hl as [Hj <-]. split; [done|]. intros x. rewrite list_elem_of_singleton.
        replace j with (length cs) by lia. destruct (decide (st = x)) as [<-|Hx]; [rewrite lookup_insert_eq; naive_solver|].
        rewrite lookup_insert_ne by done. split; [by intros ->|]. intros (i & Hi & Hn%N)%C. lia.
    + intros x c. destruct (decide (st = x)) as [<-|]; [rewrite lookup_insert_eq; intros [= <-]; eexists; by rewrite lookup_insert_eq|].
      rewrite lookup_insert_ne by done. intros (i & -> & Hi)%C. exists i. split; [done|]. rewrite lookup_insert_ne; [done|].
      intros E. by rewrite E, Hi in Ei.
Qed.

(** ** Splitting *)

Definition same_kind (t1 t2 : ty) : Prop :=
  t1 = t2 \/ isPointerTy t1 = true /\ isPointerTy t2 = true \/ isStructTy t1 = true /\ isStructTy t2 = true.

(** As many members, of the same kinds. *)
Definition same_shape st1 st2 : Prop :=
  getStructNumElements st1 = getStructNumElements st2
  /\ forall i, (i < getStructNumElements st1)%nat -> same_kind (getStructElementType st1 i) (getStructElementType st2 i).

Lemma same_shape_refl st : same_shape st st.
Proof. split; [done|]. by left. Qed.

Lemma member_equal_kind m t1 t2 : member_equal m t1 t2 = true -> same_kind t1 t2.
Proof.
  unfold member_equal, same_kind. case_bool_decide; [by left|].
  destruct (isPointerTy t1), (isPointerTy t2), (isStructTy t1), (isStructTy t2); cbn; try done; auto.
Qed.

Lemma deep_equal_shape m st1 st2 : struct_deep_equal st1 st2 m = true -> same_shape st1 st2.
Proof.
  unfold struct_deep_equal. destruct (Nat.eqb_spec (getStructNumElements st1) (getStructNumElements st2)) as [E|]; [|done]. cbn [negb].
  rewrite forallb_forall. intros Hall. split; [done|]. intros i Hi. apply (member_equal_kind m), Hall, in_seq. lia.
Qed.

Lemma deep_equal_refl m st : struct_deep_equal st st m = true.
Proof.
  unfold struct_deep_equal. rewrite Nat.eqb_refl. cbn. apply forallb_forall. intros i _. unfold member_equal. by rewrite bool_decide_true.
Qed.

Record split_ok (i : nat) m cs : Prop := {
  sp_base : forall j l, cs !! j = Some l -> l <> [] /\ forall a b, a ∈ l -> b ∈ l -> base_name a = base_name b;
  sp_todo : forall j l, (i <= j)%nat -> cs !! j = Some l -> forall st, st ∈ l <-> m !! st = Some (Z.of_nat j);
  sp_cluster : forall st c, m !! st = Some c -> exists j l, c = Z.of_nat j /\ cs !! j = Some l /\ st ∈ l;
  sp_done : forall j, (j < i)%nat -> exists ref, m !! ref = Some (Z.of_nat j)
    /\ forall st, m !! st = Some (Z.of_nat j) -> same_shape st ref }.

Lemma named_split_ok names m cs : named names m cs -> split_ok 0 m cs.
Proof.
  intros [N I M C]. split.
  - intros j l Hl. destruct (M j l Hl) as [Hne Hm]. split; [done|]. intros a b Ha%Hm Hb%Hm.
    apply C in Ha as (i & Hi & Ha). apply C in Hb as (k & Hk & Hb). assert (i = k) as -> by lia. by eapply I.
  - intros j l _ Hl. by apply M.
  - intros st c Hc. pose proof Hc as (i & -> & Hi%N)%C. apply lookup_lt_is_Some_2 in Hi as [l Hl]. exists i, l. split; [done|]. split; [done|]. by apply (M i l Hl).
  - intros j Hj. lia.
Qed.

Lemma members_step i l cs : cs !! i = Some l -> members_from i cs = (length l + members_from (S i) cs)%nat.
Proof. intros Hl. unfold members_from. by rewrite (drop_S _ _ _ Hl). Qed.

(** What is left in a cluster has the shape of its first member. *)
Lemma split_kept i ref rest m cs m' :
  split_ok i m cs -> cs !! i = Some (ref :: rest) ->
  (forall st, m' !! st = Some (Z.of_nat i) <->
     m !! st = Some (Z.of_nat i) /\ st ∉ List.filter (fun st => negb (struct_deep_equal st ref m)) rest) ->
  m' !! ref = Some (Z.of_nat i) /\ forall st, m' !! st = Some (Z.of_nat i) -> same_shape st ref.
Proof.
  intros Hok Hl Hm'. pose proof (sp_todo _ _ _ Hok i _ ltac:(lia) Hl) as Hin. split.
  - apply Hm'. split; [apply Hin; left|]. rewrite list_elem_of_In, filter_In, deep_equal_refl. by intros [_ ?].
  - intros st (Hst%Hin & Hn)%Hm'. apply elem_of_cons in Hst as [->|Hst]; [apply same_shape_refl|].
    apply (deep_equal_shape m). destruct (struct_deep_equal st ref m) eqn:E; [done|]. destruct Hn.
    apply list_elem_of_In, filter_In. split; [by apply list_elem_of_In|by rewrite E].
Qed.

Lemma split_cluster_run i m cs :
  split_ok i m cs -> (i < length cs)%nat ->
  exists m' cs', split_cluster i m cs = (m', cs') /\ split_ok (S i) m' cs'
    /\ (forall st, is_Some (m' !! st) <-> is_Some (m !! st)) /\ (members_from (S i) cs' < members_from i cs)%nat.
Proof.
  intros Hok Hi. apply lookup_lt_is_Some_2 in Hi as [l Hl]. unfold split_cluster. rewrite Hl. cbn [default id from_option].
  pose proof Hok as [B T C D]. destruct (B i l Hl) as [Hne Hbase]. destruct l as [|ref rest]; [done|]. unfold id. cbv beta iota.
  pose proof (members_step i _ cs Hl) as Hlen. cbn [length] in Hlen.
  pose proof (split_kept i ref rest m cs) as Hkept. remember (List.filter (fun st => negb (struct_deep_equal st ref m)) rest) as moved eqn:Emoved.
  assert (forall st, st ∈ moved -> st ∈ rest) as Hmv by (intros st; rewrite Emoved; intros [? _]%list_elem_of_In%filter_In; by apply list_elem_of_In).
  assert (length moved <= length rest)%nat as Hml by (rewrite Emoved; apply List.filter_length_le). clear Emoved.
  assert (forall st, st ∈ moved -> m !! st = Some (Z.of_nat i)) as Hmi by (intros st Hst%Hmv; apply (T i _ ltac:(lia) Hl); by right).
  destruct moved as [|x moved'] eqn:Emv.
  { exists m, cs. split; [done|]. split; [split|split; [done|lia]]; try done.
    - intros j l Hj. apply T. lia.
    - intros j Hj. destruct (decide (j = i)) as [->|]; [|apply D; lia]. exists ref. apply Hkept; [done|done|]. intros st. rewrite elem_of_nil. tauto. }
  rewrite <- Emv in *. set (j := length cs). set (m' := foldr _ m moved). exists m', (cs ++ [foldr set_insert [] moved]).
  split; [done|]. assert (forall st, m' !! st = if decide (st ∈ moved) then Some (Z.of_nat j) else m !! st) as Hm' by (intros st; apply lookup_move).
  assert (forall st k, m !! st = Some (Z.of_nat k) -> (k < j)%nat) as Hlt.
  { intros st k (k' & l & Hk & Hl' & _)%C. assert (k = k') as -> by lia. by eapply lookup_lt_Some. }
  split; [split|split].
  - intros k l [Hk|[_ Hk]]%lookup_app_Some; [by apply (B k)|]. apply list_lookup_singleton_Some in Hk as [_ <-]. split.
    + intros Hn. apply (not_elem_of_nil x). rewrite <- Hn, elem_set_of, Emv. left.
    + intros a b Ha%elem_set_of%Hmv Hb%elem_set_of%Hmv. apply Hbase; by right.
  - intros k l Hk [Hkl|[Hge Hkl]]%lookup_app_Some st; rewrite Hm'.
    + rewrite (T k l) by (done || lia). pose proof (lookup_lt_Some _ _ _ Hkl). destruct (decide (st ∈ moved)) as [Hst|]; [|done].
      rewrite (Hmi st Hst). split; intros [= Hx]; lia.
    + apply list_lookup_singleton_Some in Hkl as [Hkl <-]. rewrite elem_set_of. replace k with j by lia.
      destruct (decide (st ∈ moved)); [done|]. split; [done|]. intros Hst%Hlt. lia.
  - intros st c. rewrite Hm'. destruct (decide (st ∈ moved)) as [Hst|Hst].
    + intros [= <-]. exists j, (foldr set_insert [] moved). split; [done|]. split; [by apply list_lookup_middle|by apply elem_set_of].
    + intros (k & l & -> & Hk & Hin)%C. exists k, l. split; [done|]. split; [by apply lookup_app_l_Some|done].
  - intros k Hk. assert (forall st, m' !! st = Some (Z.of_nat k) <-> m !! st = Some (Z.of_nat k) /\ st ∉ moved) as Hmk.
    { intros st. rewrite Hm'. destruct (decide (st ∈ moved)) as [Hst|]; [|tauto]. pose proof (Hmi st Hst) as Hs. pose proof (Hlt st i Hs).
      split; [intros [= ?]; lia|tauto]. }
    destruct (decide (k = i)) as [->|]; [exists ref; by apply Hkept|]. destruct (D k ltac:(lia)) as (r & Hr & Hs).
    exists r. split; [|intros st [? _]%Hmk; by apply Hs]. apply Hmk. split; [done|]. intros Hm%Hmi. rewrite Hr in Hm. injection Hm. lia.
  - intros st. rewrite Hm'. destruct (decide (st ∈ moved)) as [Hst|]; [rewrite (Hmi st Hst); naive_solver|done].
  - unfold members_from. rewrite drop_app_le by (apply lookup_lt_Some in Hl; lia). rewrite fmap_app, sum_list_with_app. cbn.
    pose proof (length_set_of moved). unfold members_from in Hlen. lia.
Qed.

Lemma post_filter_run fuel i m cs :
  split_ok i m cs -> (members_from i cs <= fuel)%nat ->
  exists m' n cs', post_filter fuel i m cs = Some m' /\ split_ok n m' cs' /\ (length cs' <= n)%nat /\ forall st, is_Some (m' !! st) <-> is_Some (m !! st).
Proof.
  revert i m cs. induction fuel as [|k IH]; intros i m cs Hok Hf; cbn [post_filter]; destruct (Nat.ltb_spec i (length cs)) as [Hi|Hi];
    try (by exists m, i, cs).
  - destruct (split_cluster_run i m cs Hok Hi) as (? & ? & _ & _ & _ & ?). lia.
  - destruct (split_cluster_run i m cs Hok Hi) as (m1 & cs1 & -> & Hok1 & Hd1 & Hlt).
    destruct (IH (S i) m1 cs1 Hok1 ltac:(lia)) as (m' & n & cs' & E & Hok' & Hn & Hd). exists m', n, cs'. split_and!; try done.
    intros st. by rewrite Hd.
Qed.

Lemma analyze_total (identified : list ty) :
  exists m, analyzeStructs identified = Some m /\ forall st, is_Some (m !! st) <-> st ∈ identified.
Proof.
  unfold analyzeStructs. destruct (name_clusters_run identified ∅ ∅ []) as (names & m0 & cs0 & -> & Hnm & Hd0 & Hlen).
  { split; [done|done|by intros i l|done]. }
  destruct (post_filter_run (length identified) 0 m0 cs0 (named_split_ok _ _ _ Hnm)) as (m & n & cs & E & _ & _ & Hd); [cbn in Hlen; lia|].
  exists m. split; [done|]. intros st. rewrite Hd, Hd0, lookup_empty. split; [intros [[? ?]|?]; done|by right].
Qed.

(** C21: [analyzeStructs] ends, with at most one split per struct type, and
    groups the types: every identified struct type and no other has a cluster;
    types in one cluster have the same name up to the numeric suffix; and each
    cluster has a member whose number of members and kinds of members (the same
    type, both pointers, or both structs) all others share. *)
Theorem struct_clusters_sound (identified : list ty) :
  exists m, analyzeStructs identified = Some m
    /\ (forall st, is_Some (m !! st) <-> st ∈ identified)
    /\ (forall a b c, m !! a = Some c -> m !! b = Some c -> base_name a = base_name b)
    /\ forall a c, m !! a = Some c -> exists ref, m !! ref = Some c /\ forall st, m !! st = Some c -> same_shape st ref.
Proof.
  unfold analyzeStructs. destruct (name_clusters_run identified ∅ ∅ []) as (names & m0 & cs0 & -> & Hnm & Hd0 & Hlen).
  { split; [done|done|by intros i l|done]. }
  destruct (post_filter_run (length identified) 0 m0 cs0 (named_split_ok _ _ _ Hnm)) as (m & n & cs & E & [B T C D] & Hn & Hd); [cbn in Hlen; lia|].
  exists m. split; [done|]. split; [|split].
  - intros st. rewrite Hd, Hd0, lookup_empty. split; [intros [[? ?]|?]; done|by right].
  - intros a b c (j & l & -> & Hl & Ha)%C (k & l' & Hk & Hl' & Hb)%C. assert (j = k) as -> by lia. simplify_eq. by apply (B k l).
  - intros a c (j & l & -> & Hl & Ha)%C. apply D. apply lookup_lt_Some in Hl. lia.
Qed.

End StructProps.
