(* ===== verification/DataSccProps.v ===== *)
(** * The components of the call graph

    [DataDrivenSCCPass] on a module: the graph it builds has exactly the calls
    that transfer data, and the lists of functions it keeps are the strong
    components of that relation, callees first. *)

From S2P Require Import Prelude Graph GraphProps SearchProps Scc Tarjan SccProps Condense Pdg PdgReach PdgPass PdgProps PdgOk DataScc StructProps.

Lemma or_exists {A} (P P' : Prop) (Q Q' : A -> Prop) :
  (P \/ exists x, Q x) \/ (P' \/ exists x, Q' x) <-> (P \/ P') \/ exists x, Q x \/ Q' x.
Proof. firstorder. Qed.

Section Grow.
Context `{L : Llvm, !LlvmTypes}.
Implicit Types (G : DataCallGraph) (f : value).

(** ** The call graph as a relation on functions *)

Record cg_ok G : Prop := {
  cgo_graph : graph_ok (cg G);
  cgo_free : free_vertices (cg G) = [];
  cgo_map : forall f v, function_to_vertex G !! f = Some v <-> v_property <$> vertices (cg G) !! v = Some f }.

Definition known G f : Prop := is_Some (function_to_vertex G !! f).
Definition cg_calls G f1 f2 : Prop :=
  exists v1 v2, function_to_vertex G !! f1 = Some v1 /\ function_to_vertex G !! f2 = Some v2 /\ has_edge (cg G) (mkEdge v1 v2 tt).

(** [G'] is [G] with the functions [K] and the calls [C]. *)
Record grown G (K : value -> Prop) (C : value -> value -> Prop) G' : Prop := {
  gr_ok : cg_ok G';
  gr_sub : function_to_vertex G ⊆ function_to_vertex G';
  gr_known : forall f, known G' f <-> known G f \/ K f;
  gr_calls : forall f1 f2, cg_calls G' f1 f2 <-> cg_calls G f1 f2 \/ C f1 f2 }.

Lemma grown_refl G : cg_ok G -> grown G (fun _ => False) (fun _ _ => False) G.
Proof. intros Hok. split; [done|done|tauto|tauto]. Qed.

Lemma grown_trans G K C G1 K' C' G2 :
  grown G K C G1 -> grown G1 K' C' G2 -> grown G (fun f => K f \/ K' f) (fun f1 f2 => C f1 f2 \/ C' f1 f2) G2.
Proof.
  intros [O1 S1 K1 C1] [O2 S2 K2 C2]. split; [done|by etransitivity|..].
  - intros f. rewrite K2, K1. tauto.
  - intros f1 f2. rewrite C2, C1. tauto.
Qed.

Lemma grown_ext G K C K' C' G' :
  (forall f, K f <-> K' f) -> (forall f1 f2, C f1 f2 <-> C' f1 f2) -> grown G K C G' -> grown G K' C' G'.
Proof.
  intros HK HC [O S K1 C1]. split; [done|done|..].
  - intros f. by rewrite K1, HK.
  - intros f1 f2. by rewrite C1, HC.
Qed.

Lemma cg_live G v : cg_ok G -> (v < capacity (cg G))%nat -> live (cg G) v.
Proof.
  intros [O F _] Hv. apply lookup_lt_is_Some_2 in Hv as [x Hx]. exists x. split; [done|].
  destruct (v_empty x) eqn:E; [|done]. exfalso. apply (not_elem_of_nil v). rewrite <- F. apply (go_free _ O). by exists x.
Qed.

Lemma vertex_lt G f v : cg_ok G -> function_to_vertex G !! f = Some v -> (v < capacity (cg G))%nat.
Proof. intros O Hf%(cgo_map _ O). destruct (vertices (cg G) !! v) eqn:E; [|done]. by eapply lookup_lt_Some. Qed.

Lemma vertex_inj G f f' v : cg_ok G -> function_to_vertex G !! f = Some v -> function_to_vertex G !! f' = Some v -> f = f'.
Proof. intros O H1%(cgo_map _ O) H2%(cgo_map _ O). congruence. Qed.

Lemma cg_getVertex_run f G :
  cg_ok G ->
  exists v G', cg_getVertex f G = Some (v, G') /\ function_to_vertex G' !! f = Some v /\ grown G (fun f' => f' = f) (fun _ _ => False) G'.
Proof.
  intros Hok. unfold cg_getVertex. destruct (function_to_vertex G !! f) as [v|] eqn:Ef.
  { exists v, G. split; [done|]. split; [done|]. split; [done|done| |tauto].
    intros f'. split; [by left|]. intros [?| ->]; [done|]. by exists v. }
  pose proof Hok as [O F M]. destruct (add_vertex_refines f (cg G) O) as (v & g' & E & O' & Hn & Hl & He).
  unfold add_vertex in E. rewrite F in E. cbn [take_free] in E. injection E as <- <-.
  unfold add_vertex. rewrite F. cbn [take_free mbind option_bind].
  set (g' := mkGraph _ _ _ _) in *. exists (capacity (cg G)). eexists. split; [reflexivity|]. cbn [function_to_vertex].
  split; [by rewrite lookup_insert_eq|].
  assert (forall f' v', <[f := capacity (cg G)]> (function_to_vertex G) !! f' = Some v' <-> v_property <$> vertices g' !! v' = Some f') as Hmap.
  { intros f' v'. cbn [vertices g']. destruct (decide (v' = capacity (cg G))) as [->|Hv].
    - unfold capacity. rewrite list_lookup_middle by done. cbn. rewrite lookup_insert_Some. split; [|intros [= <-]; by left].
      intros [[-> _]|[_ Hx]]; [done|]. apply (vertex_lt _ _ _ Hok) in Hx. unfold capacity in Hx. lia.
    - rewrite lookup_insert_Some. assert ((vertices (cg G) ++ [mkVertex [] [] f false]) !! v' = vertices (cg G) !! v') as ->.
      { destruct (decide (v' < capacity (cg G))%nat); [by apply lookup_app_l|]. unfold capacity in *.
        rewrite !lookup_ge_None_2; [done|lia|rewrite length_app; cbn; lia]. }
      rewrite <- M. split; [intros [[_ ?]|[_ ?]]; done|]. intros Hx. right. split; [|done]. intros ->. by rewrite Ef in Hx. }
  split.
  - by split.
  - by apply insert_subseteq.
  - intros f'. unfold known. cbn [function_to_vertex]. rewrite lookup_insert_is_Some. destruct (decide (f = f')); naive_solver.
  - intros f1 f2. unfold cg_calls. cbn [cg function_to_vertex]. split.
    + intros (v1 & v2 & H1 & H2 & H3). left. apply He in H3. exists v1, v2.
      destruct (edge_ends_live _ _ (go_lists _ O) H3) as [L1 L2]. cbn [source target] in L1, L2. apply live_lt in L1, L2.
      apply lookup_insert_Some in H1 as [[_ H1]|[_ H1]]; [lia|]. apply lookup_insert_Some in H2 as [[_ H2]|[_ H2]]; [lia|]. done.
    + intros [(v1 & v2 & H1 & H2 & H3)|[]]. exists v1, v2. rewrite !lookup_insert_ne by (intros ->; congruence). split; [done|]. split; [done|]. by apply He.
Qed.

Lemma cg_add_edge_run f1 f2 v1 v2 G :
  cg_ok G -> function_to_vertex G !! f1 = Some v1 -> function_to_vertex G !! f2 = Some v2 ->
  exists G', cg_add_edge v1 v2 G = Some G' /\ grown G (fun _ => False) (fun a b => a = f1 /\ b = f2) G'.
Proof.
  intros Hok H1 H2. pose proof (cg_live _ _ Hok (vertex_lt _ _ _ Hok H1)) as L1. pose proof (cg_live _ _ Hok (vertex_lt _ _ _ Hok H2)) as L2.
  pose proof Hok as [O F M]. destruct (add_edge_refines v1 v2 tt (cg G) O L1 L2) as (g' & E & O' & Hl & He).
  unfold cg_add_edge. rewrite E. cbn [mbind option_bind]. eexists. split; [reflexivity|].
  destruct (add_edge_wired _ _ _ _ _ (lists_ok_wired _ (go_lists _ O)) E) as (_ & (_ & Hf & _) & _).
  pose proof (add_edge_props _ _ _ _ _ E) as Hp. split.
  - split; [done|cbn [cg]; congruence|]. intros f v. cbn [cg function_to_vertex]. by rewrite M, !props_lookup, Hp.
  - done.
  - intros f. unfold known. cbn. tauto.
  - intros a b. unfold cg_calls. cbn [cg function_to_vertex]. split.
    + intros (w1 & w2 & W1 & W2 & [Hw|Hw]%He); [left; by exists w1, w2|]. injection Hw as -> ->. right.
      split; [by apply (vertex_inj G _ _ v1 Hok)|by apply (vertex_inj G _ _ v2 Hok)].
    + intros [(w1 & w2 & W1 & W2 & Hw)|[-> ->]]; [exists w1, w2|exists v1, v2]; (split; [done|]; split; [done|]); apply He; auto.
Qed.

(** ** Direct calls *)

(** What LLVM guarantees for call instructions that are in a function. *)
Context (calls_inside : forall u, is_call u = true -> is_Some (getFunction u)).
Context (cc : ContextConfig).

(** [u] transfers data from its function [f1] to [f2]. *)
Definition direct_call (u f1 f2 : value) : Prop :=
  is_call u = true /\ getCalledFunction u = Some f2 /\ isDeclaration f2 = false /\ considerCall u true = true
  /\ getFunction u = Some f1 /\ consider_function cc f1 = true.

Lemma add_callers_run f v us G :
  cg_ok G -> function_to_vertex G !! f = Some v ->
  exists G', add_callers cc f v us G = Some G'
    /\ grown G (fun f1 => exists u, u ∈ us /\ direct_call u f1 f) (fun f1 f2 => f2 = f /\ exists u, u ∈ us /\ direct_call u f1 f) G'.
Proof using calls_inside.
  revert G. induction us as [|u us IH]; intros G Hok Hv; cbn [add_callers].
  { exists G. split; [done|]. eapply grown_ext; [| |by apply grown_refl].
    - intros f1. split; [done|]. by intros (u & []%not_elem_of_nil & _).
    - intros f1 f2. split; [done|]. by intros (_ & u & []%not_elem_of_nil & _). }
  assert (forall G1, grown G (fun f1 => direct_call u f1 f) (fun f1 f2 => f2 = f /\ direct_call u f1 f) G1 ->
    exists G', add_callers cc f v us G1 = Some G' /\ grown G (fun f1 => exists u', u' ∈ u :: us /\ direct_call u' f1 f)
      (fun f1 f2 => f2 = f /\ exists u', u' ∈ u :: us /\ direct_call u' f1 f) G') as Hgo.
  { intros G1 Hg1. destruct (IH G1 (gr_ok _ _ _ _ Hg1)) as (G' & E & Hg'); [by eapply lookup_weaken; [|apply (gr_sub _ _ _ _ Hg1)]|].
    exists G'. split; [done|]. eapply grown_ext; [| |eapply grown_trans; [exact Hg1|exact Hg']].
    - intros f1. setoid_rewrite elem_of_cons. naive_solver.
    - intros f1 f2. setoid_rewrite elem_of_cons. naive_solver. }
  assert (forall (b : Prop), (forall f1, ~ direct_call u f1 f) -> grown G (fun f1 => direct_call u f1 f) (fun f1 f2 => f2 = f /\ direct_call u f1 f) G) as Hno.
  { intros _ Hn. eapply grown_ext; [| |by apply grown_refl].
    - intros f1. split; [done|]. apply Hn.
    - intros f1 f2. split; [done|]. intros [_ ?]. by apply (Hn f1). }
  destruct (is_call u && bool_decide (getCalledFunction u = Some f) && negb (isDeclaration f) && considerCall u true) eqn:Eu.
  2: { cbn [mbind option_bind]. apply Hgo, (Hno True). intros f1 (H1 & H2 & H3 & H4 & _). rewrite H1, H3, H4, bool_decide_true in Eu by done. done. }
  apply andb_true_iff in Eu as [[[Hc Hf%bool_decide_eq_true]%andb_true_iff Hd%negb_true_iff]%andb_true_iff Hcc].
  destruct (calls_inside u Hc) as [caller Hcaller]. rewrite Hcaller. cbn [mbind option_bind].
  destruct (consider_function cc caller) eqn:Ec.
  2: { apply Hgo, (Hno True). intros f1 (_ & _ & _ & _ & H5 & H6). congruence. }
  destruct (cg_getVertex_run caller G Hok) as (v1 & G1 & -> & Hv1 & Hg1). cbn [mbind option_bind].
  destruct (cg_add_edge_run caller f v1 v G1 (gr_ok _ _ _ _ Hg1) Hv1) as (G2 & -> & Hg2); [by eapply lookup_weaken; [|apply (gr_sub _ _ _ _ Hg1)]|].
  cbn [mbind option_bind]. apply Hgo. unfold direct_call. eapply grown_ext; [| |eapply grown_trans; [exact Hg1|exact Hg2]].
  - intros f1. split; [intros [->|[]]; by split_and!|]. intros (_ & _ & _ & _ & H5 & _). left. congruence.
  - intros f1 f2. split; [intros [[]|[-> ->]]; by split_and!|]. intros (-> & _ & _ & _ & _ & H5 & _). right. split; [congruence|done].
Qed.

Definition defined (functions : list value) f : Prop := f ∈ functions /\ isDeclaration f = false /\ consider_function cc f = true.
Definition direct (functions : list value) f1 f2 : Prop := defined functions f2 /\ exists u, u ∈ users f2 /\ direct_call u f1 f2.

Lemma defined_nil f : ~ defined [] f.
Proof. by intros [[]%not_elem_of_nil _]. Qed.

Lemma defined_cons f fs x : defined (f :: fs) x <-> defined [f] x \/ defined fs x.
Proof. unfold defined. rewrite !elem_of_cons, elem_of_nil. tauto. Qed.

Lemma direct_cons f fs f1 f2 : direct (f :: fs) f1 f2 <-> direct [f] f1 f2 \/ direct fs f1 f2.
Proof. unfold direct. rewrite defined_cons. tauto. Qed.

Lemma direct_calls_run functions G :
  cg_ok G ->
  exists G', direct_calls cc functions G = Some G'
    /\ grown G (fun f => defined functions f \/ exists f2, direct functions f f2) (direct functions) G'.
Proof using calls_inside.
  revert G. induction functions as [|f fs IH]; intros G Hok; cbn [direct_calls].
  { exists G. split; [done|]. pose proof defined_nil as Hn. eapply grown_ext; [| |by apply grown_refl].
    - intros f. split; [done|]. intros [?|(f2 & ? & _)]; by eapply Hn.
    - intros f1 f2. split; [done|]. intros [? _]. by eapply Hn. }
  assert (forall G1, grown G (fun f1 => defined [f] f1 \/ exists f2, direct [f] f1 f2) (direct [f]) G1 ->
    exists G', direct_calls cc fs G1 = Some G' /\ grown G (fun f1 => defined (f :: fs) f1 \/ exists f2, direct (f :: fs) f1 f2) (direct (f :: fs)) G') as Hgo.
  { intros G1 Hg1. destruct (IH G1 (gr_ok _ _ _ _ Hg1)) as (G' & E & Hg'). exists G'. split; [done|].
    eapply grown_ext; [| |eapply grown_trans; [exact Hg1|exact Hg']].
    - intros f1. cbv beta. rewrite or_exists, <- defined_cons. apply Logic.or_iff_compat_l.
      split; intros (f2 & Hf2); exists f2; by apply direct_cons.
    - intros f1 f2. by rewrite direct_cons. }
  destruct (negb (isDeclaration f) && consider_function cc f) eqn:Ef.
  - apply andb_true_iff in Ef as [Hd%negb_true_iff Hc]. destruct (cg_getVertex_run f G Hok) as (v & G1 & -> & Hv & Hg1). cbn [mbind option_bind].
    destruct (add_callers_run f v (users f) G1 (gr_ok _ _ _ _ Hg1) Hv) as (G2 & -> & Hg2). cbn [mbind option_bind]. apply Hgo.
    assert (forall x, defined [f] x <-> x = f) as Hdef by (intros x; unfold defined; rewrite list_elem_of_singleton; naive_solver).
    eapply grown_ext; [| |eapply grown_trans; [exact Hg1|exact Hg2]]; unfold direct; setoid_rewrite Hdef.
    + intros f1. split; [intros [->|?]; [by left|right; by exists f]|]. intros [?|(f2 & -> & ?)]; [by left|by right].
    + intros f1 f2. split; [intros [[]|[-> ?]]; by split|]. intros [-> ?]. by right.
  - cbn [mbind option_bind]. apply Hgo. assert (forall f1, ~ defined [f] f1) as Hn.
    { intros f1 (Hf%list_elem_of_singleton & Hd & Hc). subst. by rewrite Hd, Hc in Ef. }
    eapply grown_ext; [| |by apply grown_refl].
    + intros f1. split; [done|]. intros [?|(f2 & ? & _)]; by eapply Hn.
    + intros f1 f2. split; [done|]. intros [? _]. by eapply Hn.
Qed.

(** ** Indirect calls *)

Context (calls_value : forall u, is_call u = true -> is_Some (getCalledValue u)).
Context (fuel : nat) (clusters : gmap ty Z) (targets : list value).
Context (types_known : forall u ft g, called_type u = Some (Some ft) -> g ∈ targets ->
  exists b, isCompatibleCallType fuel clusters ft (getFunctionType g) = Done b).

Definition may_call (u g : value) : Prop :=
  g ∈ targets /\ exists ft, called_type u = Some (Some ft) /\ isCompatibleCallType fuel clusters ft (getFunctionType g) = Done true.

(** The tables are exact, and inverse to each other. *)
Record fp_ok (s : fp_state) : Prop := {
  fp_targets : forall u l, possibleInstructionTargets s !! u = Some l -> forall g, g ∈ l <-> may_call u g;
  fp_mirror : forall u g, u ∈ default [] (possibleFunctionCalls s !! g) <-> g ∈ default [] (possibleInstructionTargets s !! u) }.

Definition inverse_tables (s : fp_state) : Prop :=
  forall u g, u ∈ default [] (possibleFunctionCalls s !! g) <-> g ∈ default [] (possibleInstructionTargets s !! u).

(** One push into both vectors. *)
Lemma push_inverse call g l s1 s :
  inverse_tables s -> getPossibleIndirectCalls g s = (l, s1) ->
  inverse_tables (mkFp (<[call := default [] (possibleInstructionTargets s1 !! call) ++ [g]]> (possibleInstructionTargets s1))
                    (<[g := l ++ [call]]> (possibleFunctionCalls s1)))
  /\ possibleInstructionTargets s1 = possibleInstructionTargets s.
Proof.
  intros Hinv E.
  assert (possibleInstructionTargets s1 = possibleInstructionTargets s /\ l = default [] (possibleFunctionCalls s !! g)
    /\ forall x, x <> g -> possibleFunctionCalls s1 !! x = possibleFunctionCalls s !! x) as (Et & -> & Ex).
  { unfold getPossibleIndirectCalls in E. destruct (possibleFunctionCalls s !! g) eqn:El; injection E as <- <-; [done|].
    split; [done|]. split; [done|]. intros x Hx. cbn. by rewrite lookup_insert_ne. }
  split; [|done]. rewrite Et. intros u x. cbn [possibleFunctionCalls possibleInstructionTargets].
  destruct (decide (x = g)) as [->|Hx], (decide (u = call)) as [->|Hu]; rewrite ?lookup_insert_eq, ?lookup_insert_ne, ?Ex by done; cbn [default];
    unfold id; rewrite ?elem_of_app, ?list_elem_of_singleton, ?(Hinv _ _); naive_solver.
Qed.

Lemma match_targets_run call ft ts s l0 :
  (forall g, g ∈ ts -> exists b, isCompatibleCallType fuel clusters ft (getFunctionType g) = Done b) ->
  inverse_tables s -> possibleInstructionTargets s !! call = Some l0 ->
  exists s' l, match_targets fuel clusters call ft ts s = Done s' /\ inverse_tables s' /\ possibleInstructionTargets s' !! call = Some l
    /\ (forall g, g ∈ l <-> g ∈ l0 \/ g ∈ ts /\ isCompatibleCallType fuel clusters ft (getFunctionType g) = Done true)
    /\ forall u, u <> call -> possibleInstructionTargets s' !! u = possibleInstructionTargets s !! u.
Proof.
  revert s l0. induction ts as [|g ts IH]; intros s l0 Hb Hinv Hl; cbn [match_targets].
  { exists s, l0. split_and!; try done. intros g. rewrite elem_of_nil. tauto. }
  destruct (Hb g) as [b Eb]; [left|]. rewrite Eb. unfold mbind, run_bind_inst. destruct b.
  - destruct (getPossibleIndirectCalls g s) as [l s1] eqn:E. destruct (push_inverse call g l s1 s Hinv E) as [Hinv' Et].
    set (s2 := mkFp _ _) in *. destruct (IH s2 (l0 ++ [g])) as (s' & l' & E' & Hi' & Hl' & Hg & Hu); [intros x Hx; apply Hb; by right|exact Hinv'| |].
    { cbn. by rewrite lookup_insert_eq, Et, Hl. }
    exists s', l'. split_and!; try done.
    + intros x. rewrite Hg, elem_of_app, list_elem_of_singleton, elem_of_cons. split; [|naive_solver]. intros [[?| ->]|?]; naive_solver.
    + intros u Hne. rewrite Hu by done. cbn. by rewrite lookup_insert_ne, Et by done.
  - destruct (IH s l0) as (s' & l' & E' & Hi' & Hl' & Hg & Hu); [intros x Hx; apply Hb; by right|done|done|].
    exists s', l'. split_and!; try done. intros x. rewrite Hg, elem_of_cons. split; [naive_solver|]. intros [?|[[->|?] Hx]]; [by left|congruence|by right].
Qed.

Lemma getPossible_run u s :
  fp_ok s -> is_call u = true ->
  exists l s', getPossibleIndirectFunctions fuel clusters targets u s = Done (l, s') /\ fp_ok s' /\ forall g, g ∈ l <-> may_call u g.
Proof using calls_value types_known.
  intros Hok Hu. unfold getPossibleIndirectFunctions. destruct (possibleInstructionTargets s !! u) as [l|] eqn:El.
  { exists l, s. split; [done|]. split; [done|]. by apply (fp_targets _ Hok). }
  destruct (calls_value u Hu) as [x Hx]. set (s0 := mkFp _ _).
  assert (inverse_tables s0) as Hinv.
  { intros w g. cbn. rewrite (fp_mirror _ Hok). destruct (decide (w = u)) as [->|]; [by rewrite lookup_insert_eq, El|by rewrite lookup_insert_ne]. }
  assert (possibleInstructionTargets s0 !! u = Some []) as Hs0 by (cbn; by rewrite lookup_insert_eq).
  assert (exists o, called_type u = Some o) as [o Eo] by (unfold called_type; rewrite Hx; cbn; by eexists).
  rewrite Eo. unfold or_bad, mbind, run_bind_inst.
  assert (exists s' l, (match o with Some ft => match_targets fuel clusters u ft targets s0 | None => Done s0 end) = Done s'
    /\ inverse_tables s' /\ possibleInstructionTargets s' !! u = Some l /\ (forall g, g ∈ l <-> may_call u g)
    /\ forall w, w <> u -> possibleInstructionTargets s' !! w = possibleInstructionTargets s0 !! w) as (s' & l & -> & Hi & Hl & Hg & Hw).
  { destruct o as [ft|].
    - destruct (match_targets_run u ft targets s0 []) as (s' & l & E & Hi & Hl & Hg & Hw); [intros g Hgt; by apply (types_known u)|done|done|].
      exists s', l. split_and!; try done. intros g. rewrite Hg, elem_of_nil. unfold may_call. rewrite Eo. naive_solver.
    - exists s0, []. split_and!; try done. intros g. rewrite elem_of_nil. unfold may_call. rewrite Eo. naive_solver. }
  exists l, s'. rewrite Hl. split; [done|]. split; [split; [|done]|done]. intros w lw. destruct (decide (w = u)) as [->|Hne].
  - rewrite Hl. intros [= <-]. done.
  - rewrite Hw by done. cbn. rewrite lookup_insert_ne by done. apply (fp_targets _ Hok).
Qed.

(** The functions at the ends of calls. *)
Definition ends (C : value -> value -> Prop) f : Prop := exists a b, C a b /\ (f = a \/ f = b).

Lemma grown_ends_trans G C G1 C' G2 :
  grown G (ends C) C G1 -> grown G1 (ends C') C' G2 -> grown G (ends (fun a b => C a b \/ C' a b)) (fun a b => C a b \/ C' a b) G2.
Proof.
  intros H1 H2. eapply grown_ext; [| |eapply grown_trans; [exact H1|exact H2]]; [|done]. intros f. unfold ends. split.
  - intros [(a & b & ? & ?)|(a & b & ? & ?)]; exists a, b; auto.
  - intros (a & b & [?|?] & ?); [left|right]; by exists a, b.
Qed.

Lemma grown_ends_ext G C C' G' : (forall a b, C a b <-> C' a b) -> grown G (ends C) C G' -> grown G (ends C') C' G'.
Proof. intros HC. apply grown_ext; [|done]. intros f. unfold ends. by setoid_rewrite HC. Qed.

Lemma grown_ends_none G C : cg_ok G -> (forall a b, ~ C a b) -> grown G (ends C) C G.
Proof.
  intros Hok Hn. eapply grown_ext; [| |by apply grown_refl].
  - intros f. split; [done|]. intros (a & b & Hab & _). by apply (Hn a b).
  - intros a b. split; [done|]. apply Hn.
Qed.

Lemma add_targets_run f ts G :
  cg_ok G ->
  exists G', add_targets f ts G = Some G' /\ grown G (ends (fun a b => a = f /\ b ∈ ts /\ isDeclaration b = false)) (fun a b => a = f /\ b ∈ ts /\ isDeclaration b = false) G'.
Proof.
  revert G. induction ts as [|g ts IH]; intros G Hok; cbn [add_targets].
  { exists G. split; [done|]. apply grown_ends_none; [done|]. by intros a b (_ & []%not_elem_of_nil & _). }
  assert (exists G1, (if isDeclaration g then Some G else '(v1, G) ← cg_getVertex f G; '(v2, G) ← cg_getVertex g G; cg_add_edge v1 v2 G) = Some G1
    /\ grown G (ends (fun a b => a = f /\ b = g /\ isDeclaration b = false)) (fun a b => a = f /\ b = g /\ isDeclaration b = false) G1) as (G1 & -> & Hg1).
  { destruct (isDeclaration g) eqn:Ed; [exists G; split; [done|]; apply grown_ends_none; [done|]; intros a b (_ & -> & ?); congruence|].
    destruct (cg_getVertex_run f G Hok) as (v1 & G1 & -> & Hv1 & H1). cbn [mbind option_bind].
    destruct (cg_getVertex_run g G1 (gr_ok _ _ _ _ H1)) as (v2 & G2 & -> & Hv2 & H2). cbn [mbind option_bind].
    destruct (cg_add_edge_run f g v1 v2 G2 (gr_ok _ _ _ _ H2)) as (G3 & -> & H3); [by eapply lookup_weaken; [|apply (gr_sub _ _ _ _ H2)]|done|].
    exists G3. split; [done|]. eapply grown_ext; [| |eapply grown_trans; [exact H1|eapply grown_trans; [exact H2|exact H3]]].
    - intros x. unfold ends. split; [intros [->|[->|[]]]; exists f, g; auto|]. intros (a & b & (-> & -> & _) & [->| ->]); auto.
    - intros a b. split; [intros [[]|[[]|[-> ->]]]; done|]. intros (-> & -> & _). auto. }
  cbn [mbind option_bind]. destruct (IH G1 (gr_ok _ _ _ _ Hg1)) as (G' & E & Hg'). exists G'. split; [done|].
  eapply grown_ends_ext; [|eapply grown_ends_trans; [exact Hg1|exact Hg']]. intros a b. cbv beta. rewrite elem_of_cons. tauto.
Qed.

Definition indirect_call (u g : value) : Prop :=
  is_call u = true /\ getCalledFunction u = None /\ considerCall u false = true /\ may_call u g /\ isDeclaration g = false.

Lemma indirect_calls_of_run f l G s :
  cg_ok G -> fp_ok s ->
  let C a b := a = f /\ exists u, u ∈ l /\ indirect_call u b in
  exists G' s', indirect_calls_of fuel clusters targets f l G s = Done (G', s') /\ grown G (ends C) C G' /\ fp_ok s'.
Proof using calls_value types_known.
  cbv zeta. revert G s. induction l as [|u l IH]; intros G s Hok Hs; cbn [indirect_calls_of].
  { exists G, s. split; [done|]. split; [|done]. apply grown_ends_none; [done|]. by intros a b (_ & u & []%not_elem_of_nil & _). }
  match goal with |- context [mbind _ ?m] => assert (exists G1 s1, m = Done (G1, s1)
    /\ grown G (ends (fun a b => a = f /\ indirect_call u b)) (fun a b => a = f /\ indirect_call u b) G1 /\ fp_ok s1) as (G1 & s1 & -> & Hg1 & Hs1) end.
  { destruct (is_call u && bool_decide (getCalledFunction u = None) && considerCall u false) eqn:Eu.
    2: { exists G, s. split; [done|]. split; [|done]. apply grown_ends_none; [done|]. intros a b (_ & H1 & H2 & H3 & _).
         by rewrite H1, H3, bool_decide_true in Eu. }
    apply andb_true_iff in Eu as [[Hc Hn%bool_decide_eq_true]%andb_true_iff Hcc].
    destruct (getPossible_run u s Hs Hc) as (ts & s1 & -> & Hs1 & Hts). destruct (add_targets_run f ts G Hok) as (G1 & E1 & Hg1).
    unfold mbind, run_bind_inst. rewrite E1. exists G1, s1. split; [done|]. split; [|done]. eapply grown_ends_ext; [|exact Hg1].
    intros a b. unfold indirect_call. rewrite Hts. tauto. }
  unfold mbind, run_bind_inst. destruct (IH G1 s1 (gr_ok _ _ _ _ Hg1) Hs1) as (G' & s' & E & Hg' & Hs'). exists G', s'. split; [done|]. split; [|done].
  eapply grown_ends_ext; [|eapply grown_ends_trans; [exact Hg1|exact Hg']]. intros a b. cbv beta. setoid_rewrite elem_of_cons. split.
  - intros [[-> ?]|(-> & w & ? & ?)]; (split; [done|]); [exists u|exists w]; auto.
  - intros (-> & w & [->|?] & ?); [by left|right; split; [done|]; by exists w].
Qed.

Definition indirect (functions : list value) f1 f2 : Prop :=
  f1 ∈ functions /\ consider_function cc f1 = true /\ exists u, u ∈ instructions f1 /\ indirect_call u f2.

Lemma indirect_calls_run functions G s :
  cg_ok G -> fp_ok s ->
  exists G' s', indirect_calls fuel clusters targets cc functions G s = Done (G', s')
    /\ grown G (ends (indirect functions)) (indirect functions) G' /\ fp_ok s'.
Proof using calls_value types_known.
  revert G s. induction functions as [|f fs IH]; intros G s Hok Hs; cbn [indirect_calls].
  { exists G, s. split; [done|]. split; [|done]. apply grown_ends_none; [done|]. by intros a b [[]%not_elem_of_nil _]. }
  match goal with |- context [mbind _ ?m] => assert (exists G1 s1, m = Done (G1, s1)
    /\ grown G (ends (indirect [f])) (indirect [f]) G1 /\ fp_ok s1) as (G1 & s1 & -> & Hg1 & Hs1) end.
  { destruct (consider_function cc f) eqn:Ec.
    - destruct (indirect_calls_of_run f (instructions f) G s Hok Hs) as (G1 & s1 & -> & Hg1 & Hs1). exists G1, s1. split; [done|]. split; [|done].
      eapply grown_ends_ext; [|exact Hg1]. intros a b. unfold indirect. rewrite list_elem_of_singleton. split.
      + by intros (-> & u & ? & ?); split_and!; [..|exists u].
      + by intros (-> & _ & ?).
    - exists G, s. split; [done|]. split; [|done]. apply grown_ends_none; [done|]. intros a b (->%list_elem_of_singleton & ? & _). congruence. }
  unfold mbind, run_bind_inst. destruct (IH G1 s1 (gr_ok _ _ _ _ Hg1) Hs1) as (G' & s' & E & Hg' & Hs'). exists G', s'. split; [done|]. split; [|done].
  eapply grown_ends_ext; [|eapply grown_ends_trans; [exact Hg1|exact Hg']]. intros a b. unfold indirect. rewrite !elem_of_cons, elem_of_nil. tauto.
Qed.

End Grow.

(** ** From vertices to functions *)

Lemma mapM_cons_Some {A B} (h : A -> option B) x l y k :
  h x = Some y -> mapM h l = Some k -> mapM h (x :: l) = Some (y :: k).
Proof. intros Hx Hl. change (mapM h (x :: l)) with (y ← h x; k ← mapM h l; Some (y :: k)). by rewrite Hx, Hl. Qed.

Section Names.
Context `{L : Llvm, !LlvmTypes}.
Context (G : DataCallGraph) (Hok : cg_ok G).

Definition names (v : nat) (f : value) : Prop := function_to_vertex G !! f = Some v.

Lemma succ_calls u v f : names u f -> v ∈ succs (cg G) u -> exists g, names v g /\ cg_calls G f g.
Proof using Hok.
  intros Hu Hv. unfold succs in Hv. apply list_elem_of_In, in_map_iff in Hv as ([s t []] & <- & He%list_elem_of_In). cbn [target].
  pose proof (lo_out_source _ (go_lists _ (cgo_graph _ Hok)) u _ ltac:(rewrite <- outs_edges; exact He)) as Es. cbn in Es. subst s.
  assert (has_edge (cg G) (mkEdge u t tt)) as Hhe by exact He.
  destruct (edge_ends_live _ _ (go_lists _ (cgo_graph _ Hok)) Hhe) as [_ (x & Hx & _)]. cbn [target] in Hx.
  assert (names t (v_property x)) as Ht by (apply (cgo_map _ Hok); by rewrite Hx). exists (v_property x). split; [done|]. by exists u, t.
Qed.

Lemma reach_calls u v f : names u f -> reach (succs (cg G)) u v -> exists g, names v g /\ rtc (cg_calls G) f g.
Proof using Hok.
  intros Hu Hr. revert f Hu. induction Hr as [u|u w v Hw _ IH]; intros f Hu; [by exists f|].
  destruct (succ_calls u w f Hu Hw) as (g & Hg & Hc). destruct (IH g Hg) as (h & Hh & Hr). exists h. split; [done|]. by eapply rtc_l.
Qed.

Lemma calls_reach u f g : names u f -> rtc (cg_calls G) f g -> exists v, names v g /\ reach (succs (cg G)) u v.
Proof using Hok.
  intros Hu Hr. revert u Hu. induction Hr as [f|f h g (v1 & v2 & H1 & H2 & He) _ IH]; intros u Hu; [by exists u|].
  assert (v1 = u) as -> by (unfold names in Hu; congruence). destruct (IH v2 H2) as (v & Hv & Hr). exists v. split; [done|].
  eapply rtc_l; [|exact Hr]. unfold succs. apply list_elem_of_In, in_map_iff. exists (mkEdge u v2 tt). split; [done|]. by apply list_elem_of_In.
Qed.

Lemma names_inj u v f g : names u f -> names v g -> u = v <-> f = g.
Proof using Hok. unfold names. intros Hu Hv. split; [intros ->; by eapply vertex_inj|intros ->; congruence]. Qed.

Lemma names_total v : (v < capacity (cg G))%nat -> exists f, names v f.
Proof using Hok.
  intros Hv. apply lookup_lt_is_Some_2 in Hv as [x Hx]. exists (v_property x). apply (cgo_map _ Hok). by rewrite Hx.
Qed.

(** The lists of vertices give lists of functions. *)
Lemma name_lists (ls : list (list nat)) :
  (forall v, v ∈ concat ls -> (v < capacity (cg G))%nat) ->
  exists fs, mapM (mapM (fun v => v_property <$> vertices (cg G) !! v)) ls = Some fs /\ Forall2 (Forall2 names) ls fs.
Proof using Hok.
  intros Hv. assert (forall l, (forall v, v ∈ l -> (v < capacity (cg G))%nat) ->
    exists fs, mapM (fun v => v_property <$> vertices (cg G) !! v) l = Some fs /\ Forall2 names l fs) as Hl.
  { intros l Hin. induction l as [|v l IH]; [exists []; by split; [|constructor]|].
    destruct IH as (fs & E & HF); [intros w Hw; apply Hin; by right|]. destruct (names_total v) as [f Hf]; [apply Hin; left|].
    exists (f :: fs). split; [|by constructor]. apply mapM_cons_Some; [by apply (cgo_map _ Hok)|done]. }
  induction ls as [|l ls IH]; [exists []; by split; [|constructor]|]. cbn [concat] in Hv.
  destruct (Hl l) as (f & Ef & Hf); [intros v Hin; apply Hv, elem_of_app; by left|].
  destruct IH as (fs & E & HF); [intros v Hin; apply Hv, elem_of_app; by right|].
  exists (f :: fs). split; [by apply mapM_cons_Some|by constructor].
Qed.

Lemma Forall2_names_elem ls fs : Forall2 names ls fs ->
  (forall f, f ∈ fs -> exists v, v ∈ ls /\ names v f) /\ (forall v, v ∈ ls -> exists f, f ∈ fs /\ names v f).
Proof.
  induction 1 as [|v f ls fs Hvf _ [IH1 IH2]]; [split; by intros ? []%not_elem_of_nil|]. split.
  - intros g [->|Hg]%elem_of_cons; [exists v; by split; [left|]|]. destruct (IH1 g Hg) as (w & ? & ?). exists w. by split; [right|].
  - intros w [->|Hw]%elem_of_cons; [exists f; by split; [left|]|]. destruct (IH2 w Hw) as (g & ? & ?). exists g. by split; [right|].
Qed.

Lemma names_elem ls fs v f : Forall2 names ls fs -> names v f -> v ∈ ls <-> f ∈ fs.
Proof using Hok.
  intros HF Hv. destruct (Forall2_names_elem ls fs HF) as [H1 H2]. split.
  - intros (g & Hg & Hn)%H2. by rewrite (proj1 (names_inj v v f g Hv Hn) eq_refl).
  - intros (w & Hw & Hn)%H1. by rewrite (proj2 (names_inj v w f f Hv Hn) eq_refl).
Qed.

Lemma names_nodup ls fs : Forall2 names ls fs -> NoDup ls -> NoDup fs.
Proof using Hok.
  induction 1 as [|v f ls fs Hvf HF IH]; intros Hnd; [constructor|]. apply list.NoDup_cons in Hnd as [Hv Hnd].
  apply list.NoDup_cons. split; [|by apply IH]. by rewrite <- (names_elem ls fs v f HF Hvf).
Qed.

Lemma names_concat ls fs : Forall2 (Forall2 names) ls fs -> Forall2 names (concat ls) (concat fs).
Proof. induction 1; cbn; [constructor|]. by apply Forall2_app. Qed.

(** The number of vertices is bounded by any list of the functions. *)
Lemma capacity_bound (l : list value) : (forall f, known G f -> f ∈ l) -> (capacity (cg G) <= length l)%nat.
Proof using Hok.
  intros Hk. unfold capacity. rewrite <- (length_fmap v_property (vertices (cg G))). apply NoDup_incl_length.
  - apply NoDup_ListNoDup, NoDup_alt. intros i j f Hi Hj. rewrite list_lookup_fmap in Hi, Hj. apply (cgo_map _ Hok) in Hi, Hj. congruence.
  - intros f Hf%list_elem_of_In. apply list_elem_of_lookup in Hf as [i Hi]. rewrite list_lookup_fmap in Hi. apply (cgo_map _ Hok) in Hi.
    apply list_elem_of_In, Hk. by exists i.
Qed.

End Names.

(** ** The pass *)

Section Pass.
Context `{L : Llvm, !LlvmTypes}.

Definition data_calls (fuel : nat) (clusters : gmap ty Z) (c : config) (cc : ContextConfig) (functions : list value) (f1 f2 : value) : Prop :=
  direct cc functions f1 f2 \/ indirect cc fuel clusters (possible_targets c functions) functions f1 f2.

Definition module_clusters (c : config) (identified : list ty) : gmap ty Z :=
  default ∅ (if strongFDAnalysis c || strongFPAnalysis c then analyzeStructs identified else Some ∅).

(** A type that the pointer analysis can compare: behind at most [fuel] pointers
    and arrays there is no struct, or one of the identified struct types
    (literal struct types are none). *)
Fixpoint plain_type (fuel : nat) (identified : list ty) (t : ty) : Prop :=
  match fuel with
  | O => False
  | S k => (isPointerTy t = true -> plain_type k identified (getPointerElementType t))
      /\ (isArrayTy t = true -> plain_type k identified (getArrayElementType t))
      /\ (isStructTy t = true -> t ∈ identified)
  end.

Definition plain_signature (fuel : nat) (identified : list ty) (ft : ty) : Prop :=
  plain_type fuel identified (getReturnType ft) /\ forall i, (i < getNumParams ft)%nat -> plain_type fuel identified (getParamType ft i).

Section Compare.
Context (clusters : gmap ty Z) (identified : list ty) (Hcl : forall st, st ∈ identified -> is_Some (clusters !! st)).

Lemma isCompatible_done fuel t1 t2 :
  plain_type fuel identified t1 -> plain_type fuel identified t2 -> exists b, isCompatible fuel clusters t1 t2 = Done b.
Proof using Hcl.
  revert t1 t2. induction fuel as [|k IH]; intros t1 t2; cbn [plain_type]; [done|]. intros (P1 & A1 & S1) (P2 & A2 & S2). cbn [isCompatible].
  repeat (match goal with |- context [if ?b then _ else _] => destruct b eqn:? end; try (by eexists)).
  - by apply IH; auto.
  - by apply IH; auto.
  - destruct (Hcl t1) as [a ->]; [auto|]. destruct (Hcl t2) as [b ->]; [auto|]. by eexists.
Qed.

Lemma comparable fuel ft gt :
  plain_signature fuel identified ft -> plain_signature fuel identified gt -> exists b, isCompatibleCallType fuel clusters ft gt = Done b.
Proof using Hcl.
  intros [R1 P1] [R2 P2]. unfold isCompatibleCallType. destruct (_ && _); [by eexists|]. destruct (_ && _); [by eexists|].
  destruct (isCompatible_done fuel _ _ R1 R2) as [b ->]. destruct b; [|by eexists]. cbn [mbind run_bind_inst].
  assert (forall i, i ∈ seq 0 (getNumParams ft `min` getNumParams gt) -> (i < getNumParams ft)%nat /\ (i < getNumParams gt)%nat) as Hseq
    by (intros i Hi%elem_of_seq; lia).
  revert Hseq. generalize (seq 0 (getNumParams ft `min` getNumParams gt)) as l. induction l as [|i l IH]; intros Hl; cbn [params_compatible]; [by eexists|].
  destruct (Hl i) as [H1 H2]; [left|]. destruct (isCompatible_done fuel _ _ (P1 i H1) (P2 i H2)) as [b ->]. cbn [mbind run_bind_inst].
  destruct b; [|by eexists]. apply IH. intros j Hj. apply Hl. by right.
Qed.

End Compare.

(** The functions and their users. *)
Definition module_size (functions : list value) : nat := length functions + sum_list (length ∘ users <$> functions).

Definition module_functions (functions : list value) : list value :=
  functions ++ concat (map (fun f => omap getFunction (users f)) functions).

Lemma length_module_functions functions : (length (module_functions functions) <= module_size functions)%nat.
Proof.
  unfold module_functions, module_size. rewrite length_app. apply Nat.add_le_mono_l. induction functions as [|f fs IH]; cbn; [lia|].
  rewrite length_app. assert (forall l, length (omap getFunction l) <= length l)%nat as Hl.
  { clear. induction l as [|x l IH]; cbn; [lia|]. destruct (getFunction x); cbn; lia. }
  pose proof (Hl (users f)). lia.
Qed.

Lemma target_in c functions g : g ∈ possible_targets c functions -> g ∈ functions.
Proof.
  unfold possible_targets. destruct (strongFPAnalysis c); [|by intros []%not_elem_of_nil]. rewrite !list_elem_of_In. by intros [? _]%filter_In.
Qed.

Lemma calls_in fuel clusters c cc functions f :
  defined cc functions f \/ ends (data_calls fuel clusters c cc functions) f -> f ∈ module_functions functions.
Proof.
  unfold module_functions. rewrite elem_of_app. intros [[? _]|(a & b & [Hab|Hab] & Hf)]; [by left|..].
  - destruct Hab as [[Hb _] (u & Hu & (_ & _ & _ & _ & Ha & _))]. destruct Hf as [->| ->]; [right|by left].
    apply list_elem_of_In, in_concat. exists (omap getFunction (users b)). split; [apply in_map_iff; exists b; split; [done|by apply list_elem_of_In]|].
    apply list_elem_of_In, list_elem_of_omap. by exists u.
  - destruct Hab as (Ha & _ & u & _ & (_ & _ & _ & [Hb _] & _)). left. destruct Hf as [->| ->]; [done|by eapply target_in].
Qed.

Lemma types_comparable fuel c functions identified :
  (strongFPAnalysis c = true -> forall u ft, called_type u = Some (Some ft) -> plain_signature fuel identified ft) ->
  (strongFPAnalysis c = true -> forall g, g ∈ functions -> address_taken g = true -> plain_signature fuel identified (getFunctionType g)) ->
  forall u ft g, called_type u = Some (Some ft) -> g ∈ possible_targets c functions ->
    exists b, isCompatibleCallType fuel (module_clusters c identified) ft (getFunctionType g) = Done b.
Proof.
  intros Hcalled Htaken u ft g Hu. unfold possible_targets, module_clusters. destruct (strongFPAnalysis c); [|by intros []%not_elem_of_nil].
  rewrite list_elem_of_In. intros [Hg%list_elem_of_In Ht]%filter_In. rewrite orb_true_r. destruct (analyze_total identified) as (m & -> & Hm). cbn [default].
  apply (comparable m identified); [intros st Hst; by apply Hm|by eapply Hcalled|by apply Htaken].
Qed.

Lemma edge_work (g : graph value ()) : graph_work g = (capacity g + edge_total (vertices g))%nat.
Proof.
  unfold graph_work, edge_total. f_equal. induction (vertices g) as [|x l IH]; [done|]. cbn. rewrite length_app, IH. done.
Qed.

(** The graph of the module. *)
Lemma call_graph_run fuel c cc functions clusters :
  (forall u, is_call u = true -> is_Some (getFunction u)) -> (forall u, is_call u = true -> is_Some (getCalledValue u)) ->
  (forall u ft g, called_type u = Some (Some ft) -> g ∈ possible_targets c functions ->
     exists b, isCompatibleCallType fuel clusters ft (getFunctionType g) = Done b) ->
  exists G1 G s, direct_calls cc functions (mkCallGraph empty_graph ∅) = Some G1
    /\ indirect_calls fuel clusters (possible_targets c functions) cc functions G1 (mkFp ∅ ∅) = Done (G, s)
    /\ cg_ok G /\ fp_ok fuel clusters (possible_targets c functions) s
    /\ (forall f, known G f <-> defined cc functions f \/ ends (data_calls fuel clusters c cc functions) f)
    /\ forall f1 f2, cg_calls G f1 f2 <-> data_calls fuel clusters c cc functions f1 f2.
Proof.
  intros Hin Hval Hty.
  assert (cg_ok (mkCallGraph empty_graph ∅)) as Hok0 by (split; [apply empty_graph_ok|done|]; intros f v; cbn; by rewrite lookup_empty).
  destruct (direct_calls_run Hin cc functions _ Hok0) as (G1 & E1 & Hg1).
  destruct (indirect_calls_run cc Hval fuel clusters (possible_targets c functions) Hty functions G1 (mkFp ∅ ∅) (gr_ok _ _ _ _ Hg1)) as (G & s & E2 & Hg2 & Hs).
  { split; [by intros u l|]. intros u g. cbn. rewrite !lookup_empty. cbn. by rewrite !elem_of_nil. }
  exists G1, G, s. split; [done|]. split; [done|]. split; [apply (gr_ok _ _ _ _ Hg2)|]. split; [done|]. split.
  - intros f. rewrite (gr_known _ _ _ _ Hg2), (gr_known _ _ _ _ Hg1). split.
    + intros [[[v Hv]|[?|(f2 & ?)]]|(a & b & ? & ?)]; [by cbn in Hv; rewrite lookup_empty in Hv|by left|right; exists f, f2; split; [by left|by left]|right; exists a, b; split; [by right|done]].
    + intros [?|(a & b & [Hab|Hab] & Hf)]; [left; right; by left| |right; by exists a, b].
      left. right. destruct Hf as [->| ->]; [right; by exists b|left; apply Hab].
  - intros f1 f2. rewrite (gr_calls _ _ _ _ Hg2), (gr_calls _ _ _ _ Hg1). unfold data_calls. split; [|tauto].
    intros [[(v1 & v2 & Hx & _)|?]|?]; [|by left|by right]. by cbn in Hx; rewrite lookup_empty in Hx.
Qed.

(** C16: [DataDrivenSCCPass] on a module.  Provided that call instructions have
    a function and a called value and, with [strongFPAnalysis], that the called
    types and those of the functions whose address is taken have no literal
    struct in them, the pass returns; every function of the call graph is in
    exactly one list: the defined functions that are considered and the ends of
    calls; a list is a strong component of the calls that transfer data, those
    whose instruction uses the function itself and those that a function pointer
    may make; and what a function calls so, also through others, is in its own
    list or in an earlier one.  The two tables of indirect calls are inverse to
    each other. *)
Theorem callees_before_callers (fuel : nat) (c : config) (cc : ContextConfig) (functions : list value) (identified : list ty) :
  let clusters := module_clusters c identified in
  let calls := data_calls fuel clusters c cc functions in
  (forall u, is_call u = true -> is_Some (getFunction u)) -> (forall u, is_call u = true -> is_Some (getCalledValue u)) ->
  (strongFPAnalysis c = true -> forall u ft, called_type u = Some (Some ft) -> plain_signature fuel identified ft) ->
  (strongFPAnalysis c = true -> forall g, g ∈ functions -> address_taken g = true -> plain_signature fuel identified (getFunctionType g)) ->
  Z.of_nat (module_size functions) < 9223372036854775807 ->
  exists sccs s, data_runOnModule fuel c cc functions identified = Done (sccs, s, clusters)
    /\ NoDup (concat sccs)
    /\ (forall f, f ∈ concat sccs <-> defined cc functions f \/ ends calls f)
    /\ (forall before l after, sccs = before ++ l :: after -> forall f, f ∈ l ->
          (forall g, g ∈ l <-> rtc calls f g /\ rtc calls g f) /\ forall g, rtc calls f g -> g ∈ l \/ g ∈ concat before)
    /\ inverse_tables s.
Proof.
  intros clusters calls Hin Hval Hcalled Htaken Hsize.
  assert ((if strongFDAnalysis c || strongFPAnalysis c then analyzeStructs identified else Some ∅) = Some clusters) as Ecl.
  { unfold clusters, module_clusters. destruct (_ || _); [|done]. destruct (analyze_total identified) as (m & -> & _). done. }
  pose proof (types_comparable fuel c functions identified Hcalled Htaken) as Hty.
  destruct (call_graph_run fuel c cc functions clusters Hin Hval Hty) as (G1 & G & s & E1 & E2 & Hok & Hs & Hk & Hc). fold calls in Hk, Hc.
  assert (capacity (cg G) <= module_size functions)%nat as Hcap.
  { etransitivity; [|apply length_module_functions]. apply capacity_bound; [done|]. intros f Hf%Hk. by eapply calls_in. }
  destruct (data_sccs_run tt (cg G) (graph_work (cg G)) (cgo_graph _ Hok)) as (ls & E3 & Hperm & Hls); [lia|by rewrite edge_work|].
  destruct (name_lists G Hok ls) as (sccs & E4 & HF); [intros v Hv; rewrite Hperm in Hv; apply elem_of_seq in Hv; lia|].
  exists sccs, s. split.
  { unfold data_runOnModule, or_bad, mbind, run_bind_inst. by rewrite Ecl, E1, E2, E3, E4. }
  pose proof (names_concat G ls sccs HF) as HFc. split_and!.
  - eapply (names_nodup G Hok); [exact HFc|]. rewrite Hperm. apply NoDup_seq.
  - intros f. rewrite <- Hk. split.
    + intros (v & _ & Hv)%(proj1 (Forall2_names_elem G _ _ HFc)). by exists v.
    + intros [v Hv]. apply (names_elem G Hok _ _ v f HFc Hv). rewrite Hperm. apply elem_of_seq. pose proof (vertex_lt _ _ _ Hok Hv). lia.
  - intros before l after -> f Hf. apply Forall2_app_inv_r in HF as (lb & la & Hb & Ha & ->).
    apply Forall2_cons_inv_r in Ha as (lv & la' & Hl & Ha & ->).
    destruct (proj1 (Forall2_names_elem G _ _ Hl) f Hf) as (u & Hu & Hn). destruct (Hls lb lv la' eq_refl u Hu) as [Hscc Hbef].
    assert (forall a b, rtc calls a b <-> rtc (cg_calls G) a b) as Hrtc by (intros a b; split; apply rtc_subrel; intros x y; apply Hc).
    split; intros g; rewrite !Hrtc.
    + split.
      * intros (v & Hv & Hg)%(proj1 (Forall2_names_elem G _ _ Hl)). apply Hscc in Hv as [R1 R2].
        destruct (reach_calls G Hok u v f Hn R1) as (g' & Hg' & C1). destruct (reach_calls G Hok v u g Hg R2) as (f' & Hf' & C2).
        rewrite (proj1 (names_inj G Hok v v g g' Hg Hg') eq_refl) in *. rewrite (proj1 (names_inj G Hok u u f f' Hn Hf') eq_refl) in *. done.
      * intros [C1 C2]. destruct (calls_reach G Hok u f g Hn C1) as (v & Hg & R1). destruct (calls_reach G Hok v g f Hg C2) as (u' & Hf' & R2).
        assert (u' = u) as -> by (by apply (names_inj G Hok u' u f f)). apply (names_elem G Hok lv l v g Hl Hg). by apply Hscc.
    + intros C1. destruct (calls_reach G Hok u f g Hn C1) as (v & Hg & R1). destruct (Hbef v R1) as [Hv|Hv].
      * left. by apply (names_elem G Hok lv l v g Hl Hg).
      * right. by apply (names_elem G Hok _ _ v g (names_concat G _ _ Hb) Hg).
  - intros u g. apply (fp_mirror _ _ _ _ Hs).
Qed.

End Pass.

(** ** A small module *)

(** Functions 100 to 103 with the calls 0 to 4: 100 and 101 call each other, 101
    calls 102, and 102 calls a function pointer (3) and a bitcast (60) of 103
    (4). *)
Definition calls_module : Llvm := {|
  value := nat; ty := nat;
  isa_Function := fun x => (100 <=? x)%nat; isa_Instruction := fun x => (x <? 10)%nat;
  isa_GlobalVariable := fun _ => false; isa_ConstantData := fun _ => false; isa_BitCastOperator := fun x => (x =? 60)%nat;
  isa_CallInst := fun x => (x <? 5)%nat; isa_InvokeInst := fun _ => false; isInlineAsm := fun _ => false;
  is_add_or_sub := fun _ => false; isConstant := fun _ => false;
  getType := fun x => if (x =? 50)%nat || (100 <=? x)%nat then 5%nat else 1%nat;
  getOperand := fun x _ => if (x =? 60)%nat then Some 103%nat else None;
  getFunction := fun x => match x with 0 => Some 100 | 1 | 2 => Some 101 | 3 | 4 => Some 102 | _ => None end%nat;
  called_function := fun x => match x with 0 => Some 101 | 1 => Some 100 | 2 => Some 102 | _ => None end%nat;
  getCalledValue := fun x => match x with 0 => Some 101 | 1 => Some 100 | 2 => Some 102 | 3 => Some 50 | 4 => Some 60 | _ => None end%nat;
  arg_operands := fun x => if (x <? 5)%nat then [Some 90%nat] else []; getNumUses := fun _ => 0;
  getName := fun _ => ""%string; isVarArg := fun _ => false; isDeclaration := fun _ => false; arg_size := fun _ => 1;
  users := fun x => match (x - 100)%nat with 0 => [1] | 1 => [0] | 2 => [2] | 3 => [60] | _ => [] end%nat;
  instructions := fun x => match (x - 100)%nat with 0 => [0] | 1 => [1; 2] | 2 => [3; 4] | _ => [] end%nat;
  isArrayTy := fun _ => false; getArrayElementType := fun t => t;
  isPointerTy := fun t => Nat.odd t; getPointerElementType := Nat.pred;
  isStructTy := fun t => Nat.even t && (10 <=? t)%nat; getStructNumElements := fun t => 1%nat;
  getStructElementType := fun t _ => match t with 10 => 15 | 12 => 17 | 14 => 0 | _ => 1 end%nat;
  isIntegerTy := fun t => (t =? 0)%nat; getIntegerBitWidth := fun _ => 32; isFunctionTy := fun t => (t =? 4)%nat;
  isEmptyTy := fun _ => false; isFloatingPointTy := fun _ => false; voidTy := 0%nat |}.

#[local] Existing Instance calls_module.

Definition calls_types : LlvmTypes := {|
  address := fun t => Z.of_nat t; getStructName := fun t => if (t <? 13)%nat then "a.1"%string else "b.2"%string;
  isVoidTy := fun _ => false; isFloatTy := fun _ => false; isDoubleTy := fun _ => false; isa_ICmpInst := fun _ => false;
  getFunctionType := fun _ => 4%nat; ft_isVarArg := fun _ => false; getNumParams := fun _ => 1%nat;
  getParamType := fun _ _ => 1%nat; getReturnType := fun _ => 0%nat |}.

#[local] Existing Instance calls_types.

Definition no_context : ContextConfig := mkContext [] ∅.

Definition sccs_of (r : run (list (list value) * fp_state * gmap ty Z)) : option (list (list value)) :=
  match r with Done (l, _, _) => Some l | _ => None end.

Lemma callees_before_callers_witness :
  let run c := data_runOnModule 3 c no_context [100; 101; 102; 103]%nat [] in
  (exists sccs s, run (mkConfig false true) = Done (sccs, s, ∅) /\ NoDup (concat sccs) /\ inverse_tables s)
  /\ sccs_of (run (mkConfig false true)) = Some [[103]; [102]; [100; 101]]%nat.
Proof.
  intros run. split; [|vm_compute; reflexivity].
  destruct (callees_before_callers (L := calls_module) 3 (mkConfig false true) no_context [100; 101; 102; 103]%nat []) as (sccs & s & E & Hnd & _ & _ & Hinv).
  - intros u Hu. do 5 (destruct u as [|u]; [by eexists|]). discriminate Hu.
  - intros u Hu. do 5 (destruct u as [|u]; [by eexists|]). discriminate Hu.
  - intros _ u ft _. split; [|intros i _]; vm_compute; intuition discriminate.
  - intros _ g _ _. split; [|intros i _]; vm_compute; intuition discriminate.
  - vm_compute. reflexivity.
  - exists sccs, s. split; [exact E|]. split; [exact Hnd|exact Hinv].
Defined.

(** A call through a bitcast is resolved by [getCalledFunction], but the user
    of the function is the bitcast: without the pointer analysis the call graph
    has no edge for it, and the callee 103 may come after its caller 102. *)
Lemma bitcast_call_missed :
  getCalledFunction 4%nat = Some 103%nat /\ considerCall 4%nat true = true /\ getFunction 4%nat = Some 102%nat
  /\ sccs_of (data_runOnModule 3 (mkConfig false false) no_context [100; 101; 102; 103]%nat []) = Some [[102]; [103]; [100; 101]]%nat.
Proof. split; [|split; [|split]]; vm_compute; reflexivity. Qed.

(** The structs [a] are compared while their pointers still lead to one cluster
    [b]; when that is split, they stay together although their members are not
    equal any more. *)
Lemma late_split :
  let m := default ∅ (analyzeStructs [10; 12; 14; 16]%nat) in
  m !! 10%nat = Some 0 /\ m !! 12%nat = Some 0 /\ m !! 14%nat <> m !! 16%nat /\ struct_deep_equal 12%nat 10%nat m = false.
Proof. split; [|split; [|split]]; vm_compute; done. Qed.
